(* ===== verification/_CoqProject ===== *)
-Q . S2P
Prelude.v
Varint.v
Decimal.v
Dunes.v
Dunestone.v
Types.v
DunesUpdater.v
Inscription.v
Brc20.v
InscriptionsUpdater.v
ChainDB.v
Rollback.v
KvTable.v
Timbre.v
Crosscut.v
StorageAction.v
ReducerOutput.v
TikvWorker.v
TikvRefinement.v
TikvSnapshots.v
Reducers.v
ReducerLaws.v
Mapi.v
MapiApi.v
MapiLaws.v
MapiContent.v
MapiAddress.v
MapiDrc20.v
Registry.v
TikvGc.v
Server.v
Source.v
SourceContext.v
ServerChain.v
Following.v
Peer.v
Pull.v
Pipeline.v
Health.v
Daw.v
Ordinals.v
NodeRpc.v
TikvLocks.v
Texts.v
Genesis.v
TimbreStructs.v
