(* ===== verification/Prelude.v ===== *)
(** * Verification of the Maestro Dogecoin indexer

    ** The program

    The repository is an indexer for Dogecoin.  The compressor
    ([src/services/compressor-xdg]) follows a node and keeps a chain database:
    the blocks, the unspent outputs with the dunes and inscriptions they carry,
    the tables of the dunes protocol and of the drc-20 tokens, what is needed to
    roll a block back, and a write-ahead log from which it serves the chain.
    Polyphony ([src/services/polyphony-xdg]) reduces that stream to key-value
    entries in TiKV, laid out by the [timbre-xbt] crate; [mapi-xdg] answers
    queries from them, [tikv-gc] collects old versions, [daw] deletes
    keys by hand.  The services find each other through a registry in Redis.

    This development models the compressor's core, everything between a block
    received from the node and the tables it leaves, and the way back, with the
    connection to the node, the stages that pull and roll blocks, and the bytes of
    its tables; the server of the chain and the source of polyphony that follows it;
    polyphony's core, from a block with its context to the entries of the store, and
    the way back; the queries answered from the store; and the registry with the
    collector that reads it.

    ** Files and what they model

    - [Prelude]: outcomes, machine integers, byte strings, generic lemmas.
    - [Varint]: [storage/runes/dunes/varint.rs], the base-128 code of integers.
    - [Decimal]: [u128]'s [Display] and [FromStr], and the arithmetic of digits.
    - [Dunes]: [dune.rs], [dune_id.rs], [spaced_dune.rs], [flag.rs], [tag.rs],
      [chain.rs], [terms.rs], [etching.rs], [edict.rs]: names, identifiers and
      data of the dunes protocol.
    - [Dunestone]: [dunestone.rs], the protocol message of a transaction.
    - [Types]: transactions, blocks, and the records and keys of the tables
      ([storage/mod.rs], [storage/kvtable.rs]).
    - [DunesUpdater]: [storage/runes/updater.rs].  [index_runes] over the state
      [DunesDB] (the four dunes tables): etching, minting, edicts, leftovers.
    - [Inscription]: [storage/inscriptions/inscription.rs], inscriptions read
      from the pushes of signature scripts.
    - [Brc20]: [storage/inscriptions/brc20.rs] and the token half of
      [updater.rs] and of the rollback, over the state [Brc20DB].
    - [InscriptionsUpdater]: [storage/inscriptions/updater.rs].
      [index_inscriptions] moves inscriptions from inputs to outputs, over the
      state [InscState] (tables, counters, reward, inscriptions of the miner).
    - [ChainDB]: [storage/mod.rs], [storage/txos/mod.rs],
      [storage/mutable/mod.rs], [storage/resolver/mod.rs], [sync/roll.rs]: the
      database as the record [Tables], [apply_block_with_context], [rollback],
      the log, the roll stage.
    - [Rollback]: the proofs that [rollback] undoes [apply_block_with_context].
    - [KvTable]: [storage/kvtable.rs], the typed tables over the bytes of RocksDB,
      and their refinement of finite maps.
    - [Timbre]: [timbre-xbt], the encodings of values ([encdec]), the prefixes and
      ranges of keys, and the keys and values of polyphony's reducers; the class
      [Lawful] is what the rest asks of an encoding.
    - [Crosscut]: polyphony's points, errors and error policies ([crosscut],
      [lib.rs]).
    - [StorageAction]: [model.rs] and the batcher, the execution of actions in a
      transaction (with their inverses) and the rollback buffer
      ([storage/tikv.rs], [rollback/buffer.rs]).
    - [ReducerOutput]: what the reducers report, and the actions that
      [reducer_output_to_storage_ops] makes of it.
    - [TikvWorker]: the worker of [storage/tikv.rs] as the record [Worker] over a
      store whose commits may fail, [execute] one unit of work, [spawn] a worker
      from a store.
    - [TikvRefinement], [TikvSnapshots]: the proofs about the worker: retries,
      well-formedness, and the refinement of a stack of snapshots.
    - [Reducers]: polyphony's [reducers], the twenty reducers, the block context
      they read ([model.rs]) and the stage that runs them.
    - [ReducerLaws]: what the reducers report against what the block does.
    - [Mapi]: what the handlers of [mapi-xdg] share: the instance that serves a
      reducer ([key_resolver.rs]), reads and scans of a snapshot
      ([polyphony.rs]), pages, identifiers, addresses, amounts ([util.rs]).
    - [MapiApi]: the handlers of [mapi-xdg/src/api] that answer from the store.
    - [MapiLaws], [MapiContent], [MapiAddress], [MapiDrc20]: the proofs about them,
      down to what the reducers and the storage worker wrote.
    - [Registry]: the registry in Redis: the entries and names polyphony writes
      there ([storage/mod.rs], [storage/tikv.rs], [reducers/mod.rs]).
    - [TikvGc]: [tikv-gc], the safepoint of the collector of old versions.
    - [Server]: [serve/grpc.rs] and the messages of [sync.proto]: pages of blocks with
      their context, the stream that follows the log.
    - [Source]: polyphony's [sources/compressor/compressor.rs] and [sources/utils.rs]:
      the intersection, pages, the stream, the context made of a message.
    - [SourceContext], [ServerChain], [Following]: the proofs about them: the context
      of a block through the messages, the chain and its log as a history, and the
      step relation of server and source together.
    - [Peer]: [peer.rs], the messages of the node, the handler of the connection, the
      requests, and their interleaving.
    - [Pull]: [sync/pull.rs], the worker that asks the node for the next page.
    - [Pipeline]: the pull stage, the queue and the roll stage as a step relation
      ([sync/mod.rs]), and the proofs about it.
    - [Health]: [sync/health.rs].
    - [Daw]: [daw/src/commands.rs], deletion and writing of keys by hand.
    - [Ordinals]: [ordinals.rs], ranges of ordinals taken and split in order.
    - [NodeRpc]: the client of the node ([mapi-xdg/src/client/dogecoin.rs]) and the
      endpoints of [mapi-xdg/src/api] that pass a call on to it, over a node that
      answers each call from the chain it has at that moment.
    - [TikvLocks]: the clean-up of locks of [storage/tikv.rs].
    - [Texts]: identifiers as text: [inscription_id.rs], the start points of
      [crosscut/args.rs].
    - [Genesis]: the networks of [sync/mod.rs], their first blocks and hashes, with
      SHA-256.
    - [TimbreStructs]: the rest of [timbre-xbt]: signed integers, characters, the
      structs of the other reducers, the sizes their comments give.

    ** What the theorems show

    - Rolling back: a block applied on the tip and rolled back leaves every
      table as it was ([Rollback.apply_then_rollback]), if every mint it recorded
      was counted; the token log of a transaction is enough to undo it.  A block
      with a claim of a dune etched without terms, which is recorded and not
      counted, makes its rollback panic.
    - Dunes: indexing conserves every dune, keeps names, identifiers and mint
      counters consistent; a mint is gated by heights and cap; what is read from
      a transaction is within the protocol's bounds; varints, names, spaced
      names and identifiers round trip; an edict meant to split over the outputs
      is never executed.
    - Inscriptions: every one that a transaction finds stays on its satoshi, on the
      output that holds it, or goes with the fees to the miner, or is recorded as
      lost in a coinbase; an inscription cut in pieces is put together again.
    - Tokens: supply is always what is held and locked, and within its maximum;
      amounts are exact.
    - Storage: merging the actions of a batch of blocks never panics and reads the
      same as executing them one by one, if that takes no counter out of its range
      (an absent counter reads as 0); the worker refines a stack of
      snapshots, a rollback to a kept point succeeds and restores its data, and a
      unit interrupted at any commit may be run again; the worker stays well
      formed.  Points buffered before a flush that fails are lost, and whether a
      zero balance keeps its entry depends on the mode.
    - Reducers: on a block that the set of unspent outputs accepts, the table of
      outputs by script is that set, and the balances follow it; the tables by
      holder and by token agree; the mints reported are those the compressor
      accepted; every batch has its cursor.
    - Queries: a scan ends and reads its range whatever pages TiKV refuses; the
      pages of the outputs of an address are its unspent outputs, with or without
      those that carry dunes or inscriptions; the content of an
      inscription is read back page by page; amounts shown are parsed back.  Token
      balances that cancel within one batch make the answer an error.
    - Registry: once an instance is advertised the queries of its reducers resolve to
      a registered instance of least height, which may be another one that is
      behind; what polyphony writes for the collector keeps it running, and the
      collector never passes the tip of an instance nor the safe zone.
    - Chain server and source: pages give the whole chain; the context that arrives is
      the one stored, when offsets of inscriptions are below [2 ^ 32] (others collide)
      and a transaction makes at most one; in every interleaving the source describes
      a chain and, once caught up, the chain of the server.  A source that starts again
      over the same store, without a rollback buffer, sends its blocks twice.
    - Node and pipeline: every request to the node gets its own answer and no call is
      stuck; the events of the pull stage are blocks that fit the database or rollbacks
      to blocks it has, as long as the pull stage does not read the database while a
      rollback is queued (nothing in the code prevents it, and then an event may be
      rejected), the node does not go back before the first block, and no intersection is
      configured for an empty database; the configured intersection has no use.
    - Administration: an instance that is deleted is removed with its entry in the
      index and its timestamps in the registry, and nothing else is, when no commit
      fails and scans fail within what is tolerated; a command that is not forced
      changes nothing, but for the destruction of a range.
    - Node endpoints: a request never panics, an answer is dated by the tip read
      before the data (that of /psbt/decode is not dated); height and hash are read by
      two calls, so that a chain that changes in between gives the height of one block
      and the hash of another.
    - Locks: the clean-up covers every key of the instance's reducers and not the
      entry that describes the instance.
    - First blocks: they decode, their merkle root is that of their transaction, and
      the hash of each network is the double SHA-256 of the header the code builds.
    - Tables: a typed table is a finite map in key order, whatever is done to it.
    - Encodings: keys keep the order of what they encode, the ranges select
      exactly the keys meant, stored values read back (strings do not); the sizes
      documented for the entries are right, but for inputs and outputs that carry
      several inscriptions or runes and inscriptions with several entries in a block.
    - Ordinals: ranges are taken in order, and none is lost; the ranges of the
      coinbases follow each other.
    - Log and synchronisation: pruning removes a prefix; the search in the log is
      characterised, and misses a block after a reorganisation; the points
      proposed for an intersection are right for every tip.

    ** Conventions

    Overflow follows the release profile: [+] and [-] wrap ([wrap]), the checked
    and saturating operations are the standard library's.  A panic is the outcome
    [Panic].  A RocksDB transaction is the record of tables it would commit; an
    error leaves the tables of the last commit, since nothing is returned (the
    memory resolver, which the code mutates in place, is returned with the tables
    on success only).  Hash maps whose order matters nowhere are [gmap]s, tables
    read in key order go through [sorted_entries].

    A TiKV transaction works on a copy of the store that its commit publishes; a
    parameter says which commits fail.  Hash map iteration, where its order can
    be seen, is an argument ([iter], the permutation of a batch).  A snapshot is
    the store of its timestamp with the requests it refuses; a request to Redis
    may fail, and then ends the call.

    Parameters of the model, all code of other crates: the instruction iterator
    and [is_op_return] of scripts, the script hash, [str::to_lowercase], the JSON
    reader of [serde_json], the subsidy schedule, the length of an encoded
    output, [SUBSIDY_HALVING_INTERVAL]; addresses, base 64, hexadecimal and the text
    of hashes and names for the query service (the record [Mapi.Lib]), hexadecimal
    and the version of a timestamp for the registry ([Registry.Ext]); the consensus
    decoders ([Peer.Consensus]) and [bincode]; the node, by what it answers.  The theorems
    that need something of them state it as a hypothesis (pushed data are bytes) or
    as a class of laws (what is encoded is decoded).

    Fuel: the payload loop of [integers] and [decode_push_datas] take the length
    of their input, which every step shortens; [intersect_indexes] takes 80,
    proved enough for every 64-bit tip (ten unit steps and 64 doublings); the
    name printer takes 28 letters, proved enough for every [u128]; a scan takes 33
    iterations and one per entry of its range, since a refused page is halved at
    most 32 times and every other page but the last holds an entry; reading pages of
    the chain takes one more than the number of blocks, and reading messages from the
    stream one more than its length, since every message has 24 bytes at least.

    ** What is not modelled

    Sockets, the transport and set-up of the gRPC and HTTP servers, the binaries and
    their configuration are I/O; failed reads of RocksDB are left out.  The consensus
    encoding of transactions and messages is the [bitcoin] crate's: outputs and blocks
    are kept decoded, the decoders are parameters of [Peer].
    Of polyphony, the console, the command line and the wiring of its stages are left
    out; its [dunes] and [inscriptions] modules are copies of the compressor's and are
    modelled there.  Of [mapi-xdg], the routes, the OpenAPI description and the
    types that only name the fields of an answer.

    ** This file

    - [outcome E A] is what a fallible Rust function returns: a value, an
      error value of type [E], or a panic (an [unwrap], an index out of range,
      an [expect], an [assert]).
    - A [w]-bit unsigned integer is a [Z] in [0, 2^w).
    - A byte string is a list of [Z], each in [0, 256); [bytes_cmp] is the
      ordering of [Vec<u8>], [be_bytes] / [of_be_bytes] are [to_be_bytes] /
      [from_be_bytes]. *)

From stdpp Require Export base list gmap strings sorting.
From Stdlib Require Export ZArith Lia.

#[global] Open Scope Z_scope.

(** ** Outcomes *)

Inductive outcome (E A : Type) : Type :=
| Ok (a : A)
| Err (e : E)
| Panic.
Arguments Ok {E A} a.
Arguments Err {E A} e.
Arguments Panic {E A}.

#[export] Instance outcome_ret {E} : MRet (outcome E) := λ A a, Ok a.
#[export] Instance outcome_bind {E} : MBind (outcome E) := λ A B f m,
  match m with
  | Ok a => f a
  | Err e => Err e
  | Panic => Panic
  end.
#[export] Instance outcome_fmap {E} : FMap (outcome E) := λ A B f m,
  match m with
  | Ok a => Ok (f a)
  | Err e => Err e
  | Panic => Panic
  end.

(** [unwrap] and [ok_or]. *)
Definition unwrap {E A} (o : option A) : outcome E A :=
  match o with Some a => Ok a | None => Panic end.

Definition ok_or {E A} (e : E) (o : option A) : outcome E A :=
  match o with Some a => Ok a | None => Err e end.

Lemma ok_or_Ok {E A} (e : E) (o : option A) a : ok_or e o = Ok a → o = Some a.
Proof. destruct o; cbn; congruence. Qed.

Definition is_ok {E A} (o : outcome E A) : bool :=
  match o with Ok _ => true | _ => false end.

(** [Option::and_then]. *)
Definition and_then {A B} (o : option A) (f : A → option B) : option B :=
  match o with Some a => f a | None => None end.

(** A loop whose body may fail, threading an accumulator ([for] with [?]). *)
Fixpoint foldM {E A S} (f : S → A → outcome E S) (s : S) (l : list A)
  : outcome E S :=
  match l with
  | [] => Ok s
  | a :: l' => match f s a with
               | Ok s' => foldM f s' l'
               | Err e => Err e
               | Panic => Panic
               end
  end.

Lemma outcome_bind_Ok {E A B} (f : A → outcome E B) (m : outcome E A) b :
  m ≫= f = Ok b ↔ ∃ a, m = Ok a ∧ f a = Ok b.
Proof. destruct m; naive_solver. Qed.

Lemma foldM_app {E A S} (f : S → A → outcome E S) s l1 l2 :
  foldM f s (l1 ++ l2) = foldM f s l1 ≫= (λ s', foldM f s' l2).
Proof.
  revert s. induction l1 as [|a l1 IH]; intros s; [done|].
  cbn. destruct (f s a); [apply IH|done|done].
Qed.

(** Invariant rule for [foldM]. *)
Lemma foldM_inv {E A S} (P : S → Prop) (f : S → A → outcome E S) l s s' :
  (∀ s a s', a ∈ l → P s → f s a = Ok s' → P s') →
  P s → foldM f s l = Ok s' → P s'.
Proof.
  revert s. induction l as [|a l IH]; intros s Hstep HP; cbn.
  - naive_solver.
  - destruct (f s a) as [s1| |] eqn:Hf; [|done|done].
    apply IH; [intros; eapply Hstep; [by right|done|done]|].
    eapply Hstep; [by left|done|done].
Qed.

Lemma omap_NoDup {A B} (f : A → option B) (l : list A) :
  (∀ x y b, x ∈ l → y ∈ l → f x = Some b → f y = Some b → x = y) → NoDup l → NoDup (omap f l).
Proof.
  induction l as [|x l IH]; intros Hf; [constructor|]. intros [Hx Hnd]%NoDup_cons.
  cbn [omap list_omap].
  assert (NoDup (omap f l)) as Hl
    by (apply IH; [intros y z b Hy Hz; apply Hf; by right|done]).
  destruct (f x) as [b|] eqn:E; [|exact Hl]. apply NoDup_cons. split; [|exact Hl].
  intros (y & Hy & Ey)%list_elem_of_omap. apply Hx.
  rewrite (Hf x y b ltac:(by left) ltac:(by right) E Ey). done.
Qed.

(** Invariant rule that follows the part of the list already done. *)
Lemma foldM_prefix {E A S} (P : list A → S → Prop) (f : S → A → outcome E S) l s s' :
  (∀ pre a s s', a ∈ l → P pre s → f s a = Ok s' → P (pre ++ [a]) s') →
  P [] s → foldM f s l = Ok s' → P l s'.
Proof.
  intros Hstep. revert s'. induction l as [|a l IH] using rev_ind; intros s' HP.
  - cbn. by intros [= <-].
  - rewrite foldM_app. intros (s1 & H1 & H2)%outcome_bind_Ok. cbn in H2.
    destruct (f s1 a) as [s2| |] eqn:Hf; [|done|done]. injection H2 as <-.
    eapply Hstep; [set_solver| |done]. apply IH; [|done|done].
    intros; eapply Hstep; [set_solver|done|done].
Qed.

(** ** Machine integers *)

Definition in_range (w z : Z) : Prop := 0 ≤ z < 2 ^ w.
#[export] Instance in_range_dec w z : Decision (in_range w z).
Proof. unfold in_range. apply _. Defined.

Definition umax (w : Z) : Z := 2 ^ w - 1.
Definition wrap (w z : Z) : Z := z mod 2 ^ w.

Definition try_into (w z : Z) : option Z :=
  if (0 <=? z) && (z <? 2 ^ w) then Some z else None.
Definition checked_add (w a b : Z) : option Z := try_into w (a + b).
Definition checked_sub (w a b : Z) : option Z := try_into w (a - b).
Definition checked_mul (w a b : Z) : option Z := try_into w (a * b).
Definition saturating_add (w a b : Z) : Z := Z.min (a + b) (umax w).
Definition saturating_sub (a b : Z) : Z := Z.max 0 (a - b).
Definition saturating_mul (w a b : Z) : Z := Z.min (a * b) (umax w).

Abbreviation u8_ok := (in_range 8).
Abbreviation u16_ok := (in_range 16).
Abbreviation u32_ok := (in_range 32).
Abbreviation u64_ok := (in_range 64).
Abbreviation u128_ok := (in_range 128).

Create HintDb ints.

Lemma try_into_Some w z x : try_into w z = Some x ↔ x = z ∧ in_range w z.
Proof. unfold try_into, in_range. destruct (_ && _) eqn:E; naive_solver lia. Qed.

Lemma try_into_None w z : try_into w z = None ↔ ¬ in_range w z.
Proof. unfold try_into, in_range. destruct (_ && _) eqn:E; naive_solver lia. Qed.

Lemma try_into_ok w z : in_range w z → try_into w z = Some z.
Proof. intros. by apply try_into_Some. Qed.

Lemma wrap_small w z : in_range w z → wrap w z = z.
Proof. apply Z.mod_small. Qed.

Lemma wrap_range w z : 0 ≤ w → in_range w (wrap w z).
Proof. intros. apply Z.mod_pos_bound. lia. Qed.

Lemma in_range_mono w1 w2 z : w1 ≤ w2 → in_range w1 z → in_range w2 z.
Proof.
  intros Hw [Hz1 Hz2]. split; [done|]. eapply Z.lt_le_trans; [done|].
  destruct (decide (0 ≤ w1)).
  - apply Z.pow_le_mono_r; lia.
  - rewrite (Z.pow_neg_r 2 w1) in Hz2 by lia. lia.
Qed.

Lemma saturating_add_range w a b :
  0 ≤ w → 0 ≤ a → 0 ≤ b → in_range w (saturating_add w a b).
Proof.
  intros. pose proof (Z.pow_pos_nonneg 2 w ltac:(lia) ltac:(lia)).
  unfold in_range, saturating_add, umax. lia.
Qed.

Lemma saturating_mul_range w a b :
  0 ≤ w → 0 ≤ a → 0 ≤ b → in_range w (saturating_mul w a b).
Proof.
  intros. pose proof (Z.pow_pos_nonneg 2 w ltac:(lia) ltac:(lia)).
  unfold in_range, saturating_mul, umax. nia.
Qed.

#[export] Hint Resolve try_into_ok wrap_range in_range_mono
  saturating_add_range saturating_mul_range : ints.

Lemma testbit_small x k j : 0 ≤ x < 2 ^ k → k ≤ j → 0 ≤ j → Z.testbit x j = false.
Proof.
  intros Hx Hk Hj. destruct (decide (x = 0)) as [->|]; [apply Z.bits_0|].
  apply Z.bits_above_log2; [lia|]. apply Z.log2_lt_pow2; [lia|].
  eapply Z.lt_le_trans; [apply Hx|]. by apply Z.pow_le_mono_r.
Qed.

(** ** Byte strings *)

Definition bytes_ok (l : list Z) : Prop := Forall (in_range 8) l.

(** [to_be_bytes] of an integer of [n] bytes. *)
Fixpoint be_bytes (n : nat) (z : Z) : list Z :=
  match n with
  | O => []
  | S n' => (z / 256 ^ Z.of_nat n') mod 256 :: be_bytes n' z
  end.

Definition of_be_bytes (l : list Z) : Z := foldl (λ acc b, acc * 256 + b) 0 l.

(** [split_at_checked]. *)
Definition split_at (n : nat) (l : list Z) : option (list Z * list Z) :=
  if decide (n ≤ length l)%nat then Some (take n l, drop n l) else None.

(** The [Ord] instance of [Vec<u8>]. *)
Fixpoint bytes_cmp (a b : list Z) : comparison :=
  match a, b with
  | [], [] => Eq
  | [], _ :: _ => Lt
  | _ :: _, [] => Gt
  | x :: a', y :: b' =>
      match Z.compare x y with Eq => bytes_cmp a' b' | c => c end
  end.

Definition bytes_lt (a b : list Z) : Prop := bytes_cmp a b = Lt.
Definition bytes_le (a b : list Z) : Prop := bytes_cmp a b ≠ Gt.
#[export] Instance bytes_lt_dec a b : Decision (bytes_lt a b).
Proof. unfold bytes_lt. solve_decision. Defined.
#[export] Instance bytes_le_dec a b : Decision (bytes_le a b).
Proof. unfold bytes_le. solve_decision. Defined.

Lemma length_be_bytes n z : length (be_bytes n z) = n.
Proof. induction n; cbn; lia. Qed.

Lemma be_bytes_ok n z : bytes_ok (be_bytes n z).
Proof.
  induction n; cbn; constructor; [|done].
  unfold in_range. change (2 ^ 8) with 256. apply Z.mod_pos_bound. lia.
Qed.

Lemma of_be_bytes_acc l acc :
  foldl (λ acc b, acc * 256 + b) acc l
  = acc * 256 ^ Z.of_nat (length l) + of_be_bytes l.
Proof.
  unfold of_be_bytes. revert acc. induction l as [|b l IH]; intros acc.
  - cbn. lia.
  - cbn [foldl length]. rewrite IH, (IH (0 * 256 + b)).
    rewrite Nat2Z.inj_succ, Z.pow_succ_r by lia. ring.
Qed.

Lemma of_be_bytes_cons b l :
  of_be_bytes (b :: l) = b * 256 ^ Z.of_nat (length l) + of_be_bytes l.
Proof. unfold of_be_bytes at 1. cbn [foldl]. rewrite of_be_bytes_acc. lia. Qed.

Lemma of_be_be_bytes n z : of_be_bytes (be_bytes n z) = z mod 256 ^ Z.of_nat n.
Proof.
  induction n as [|n IH].
  - cbn. by rewrite Z.mod_1_r.
  - cbn [be_bytes]. rewrite of_be_bytes_cons, IH, length_be_bytes.
    rewrite Nat2Z.inj_succ, Z.pow_succ_r by lia.
    rewrite (Z.mul_comm 256), Z.rem_mul_r by lia. lia.
Qed.

Lemma of_be_be_bytes_small n z :
  0 ≤ z < 256 ^ Z.of_nat n → of_be_bytes (be_bytes n z) = z.
Proof. intros. rewrite of_be_be_bytes. by apply Z.mod_small. Qed.

Lemma of_be_bytes_bound l :
  bytes_ok l → 0 ≤ of_be_bytes l < 256 ^ Z.of_nat (length l).
Proof.
  induction 1 as [|b l Hb _ IH]; [cbn; lia|].
  rewrite of_be_bytes_cons. cbn [length].
  rewrite Nat2Z.inj_succ, Z.pow_succ_r by lia.
  unfold in_range in Hb. change (2 ^ 8) with 256 in Hb. nia.
Qed.

Lemma of_be_bytes_app l1 l2 :
  of_be_bytes (l1 ++ l2)
  = of_be_bytes l1 * 256 ^ Z.of_nat (length l2) + of_be_bytes l2.
Proof. unfold of_be_bytes at 1. rewrite foldl_app. by rewrite of_be_bytes_acc. Qed.

Lemma of_be_bytes_zeros n l : of_be_bytes (replicate n 0 ++ l) = of_be_bytes l.
Proof.
  rewrite of_be_bytes_app.
  assert (of_be_bytes (replicate n 0) = 0) as ->; [|lia].
  induction n; [done|]. cbn [replicate]. rewrite of_be_bytes_cons. lia.
Qed.

Lemma split_at_app l1 l2 :
  split_at (length l1) (l1 ++ l2) = Some (l1, l2).
Proof.
  unfold split_at. rewrite decide_True by (rewrite length_app; lia).
  by rewrite take_app_length, drop_app_length.
Qed.

Lemma split_at_app' n l1 l2 :
  length l1 = n → split_at n (l1 ++ l2) = Some (l1, l2).
Proof. intros <-. apply split_at_app. Qed.

Lemma split_at_Some n l a b :
  split_at n l = Some (a, b) → l = a ++ b ∧ length a = n.
Proof.
  unfold split_at. case_decide; [|done]. intros [= <- <-].
  split; [by rewrite take_drop|]. rewrite length_take. lia.
Qed.

(** Ordering lemmas. *)
Lemma bytes_cmp_refl a : bytes_cmp a a = Eq.
Proof. induction a as [|x a IH]; [done|]. cbn. by rewrite Z.compare_refl. Qed.

Lemma bytes_cmp_Eq a b : bytes_cmp a b = Eq ↔ a = b.
Proof.
  split; [|intros ->; apply bytes_cmp_refl].
  revert b. induction a as [|x a IH]; intros [|y b]; cbn; try done.
  destruct (Z.compare x y) eqn:E; [|done|done].
  intros ?. apply Z.compare_eq in E as ->. f_equal. by apply IH.
Qed.

Lemma bytes_cmp_antisym a b : bytes_cmp b a = CompOpp (bytes_cmp a b).
Proof.
  revert b. induction a as [|x a IH]; intros [|y b]; cbn; try done.
  rewrite (Z.compare_antisym x y). destruct (Z.compare x y); cbn; auto.
Qed.

Lemma bytes_cmp_app_same p a b : bytes_cmp (p ++ a) (p ++ b) = bytes_cmp a b.
Proof. induction p as [|x p IH]; [done|]. cbn. by rewrite Z.compare_refl. Qed.

Lemma bytes_cmp_app_len a b x y :
  length a = length b →
  bytes_cmp (a ++ x) (b ++ y)
  = match bytes_cmp a b with Eq => bytes_cmp x y | c => c end.
Proof.
  revert b. induction a as [|u a IH]; intros [|v b] Hl; cbn in *; try lia; [done|].
  destruct (Z.compare u v); auto.
Qed.

Lemma bytes_lt_trans a b c : bytes_lt a b → bytes_lt b c → bytes_lt a c.
Proof.
  unfold bytes_lt. revert b c.
  induction a as [|x a IH]; intros [|y b] [|z c]; cbn; try done.
  destruct (Z.compare_spec x y) as [Hxy|Hxy|Hxy],
    (Z.compare_spec y z) as [Hyz|Hyz|Hyz]; try done; intros H1 H2.
  all: destruct (Z.compare_spec x z); try lia; try done; eauto.
Qed.

Lemma bytes_lt_app_r a x : x ≠ [] → bytes_lt a (a ++ x).
Proof.
  unfold bytes_lt. intros Hx. rewrite <- (app_nil_r a) at 1.
  rewrite bytes_cmp_app_same. by destruct x.
Qed.

Lemma bytes_lt_irrefl a : ¬ bytes_lt a a.
Proof. unfold bytes_lt. by rewrite bytes_cmp_refl. Qed.

Lemma bytes_lt_le_trans a b c : bytes_lt a b → bytes_le b c → bytes_lt a c.
Proof.
  unfold bytes_le. intros Hab Hbc. destruct (bytes_cmp b c) eqn:E; [|..].
  - by apply bytes_cmp_Eq in E as <-.
  - by eapply bytes_lt_trans.
  - done.
Qed.

Lemma bytes_le_lt_trans a b c : bytes_le a b → bytes_lt b c → bytes_lt a c.
Proof.
  unfold bytes_le. intros Hab Hbc. destruct (bytes_cmp a b) eqn:E; [|..].
  - by apply bytes_cmp_Eq in E as ->.
  - by eapply bytes_lt_trans.
  - done.
Qed.

Lemma bytes_lt_le a b : bytes_lt a b → bytes_le a b.
Proof. unfold bytes_lt, bytes_le. by intros ->. Qed.

Lemma bytes_le_refl a : bytes_le a a.
Proof. unfold bytes_le. by rewrite bytes_cmp_refl. Qed.

Lemma bytes_le_app_r a x : bytes_le a (a ++ x).
Proof.
  destruct x; [rewrite app_nil_r; apply bytes_le_refl|].
  by apply bytes_lt_le, bytes_lt_app_r.
Qed.

(** Big-endian encoding of a fixed width preserves and reflects the order. *)
Lemma bytes_cmp_be_bytes n x y :
  0 ≤ x < 256 ^ Z.of_nat n → 0 ≤ y < 256 ^ Z.of_nat n →
  bytes_cmp (be_bytes n x) (be_bytes n y) = Z.compare x y.
Proof.
  assert (∀ n x y,
    bytes_cmp (be_bytes n x) (be_bytes n y)
    = Z.compare (x mod 256 ^ Z.of_nat n) (y mod 256 ^ Z.of_nat n)) as H.
  { clear. induction n as [|n IH]; intros x y; [by rewrite !Z.mod_1_r|].
    cbn [be_bytes bytes_cmp]. rewrite IH.
    rewrite Nat2Z.inj_succ, Z.pow_succ_r by lia.
    rewrite (Z.mul_comm 256), !Z.rem_mul_r by lia.
    set (p := 256 ^ Z.of_nat n).
    assert (0 < p) by (apply Z.pow_pos_nonneg; lia).
    pose proof (Z.mod_pos_bound x p ltac:(lia)).
    pose proof (Z.mod_pos_bound y p ltac:(lia)).
    set (a := (x / p) mod 256). set (b := (y / p) mod 256).
    destruct (Z.compare_spec a b) as [->|Hab|Hab].
    - rewrite !(Z.add_comm _ (p * b)). by rewrite Z.add_compare_mono_l.
    - symmetry. apply Z.compare_lt_iff. nia.
    - symmetry. apply Z.compare_gt_iff. nia. }
  intros Hx Hy. rewrite H. by rewrite !Z.mod_small.
Qed.

(** [slice[i]] / [slice.get(i)] with an index kept as an integer. *)
Definition get {A} (l : list A) (i : Z) : option A :=
  if (0 <=? i) && (i <? Z.of_nat (length l)) then l !! Z.to_nat i else None.

Lemma get_nat {A} (l : list A) (i : nat) : get l (Z.of_nat i) = l !! i.
Proof.
  unfold get. rewrite Nat2Z.id.
  destruct (Z.leb_spec 0 (Z.of_nat i)); [|lia]. cbn.
  destruct (Z.ltb_spec (Z.of_nat i) (Z.of_nat (length l))); [done|].
  symmetry. apply lookup_ge_None. lia.
Qed.

Lemma get_Some {A} (l : list A) i x :
  get l i = Some x → 0 ≤ i < Z.of_nat (length l) ∧ l !! Z.to_nat i = Some x.
Proof. unfold get. destruct (_ && _) eqn:E; [|done]. intros. split; [lia|done]. Qed.

Lemma get_is_Some {A} (l : list A) i :
  0 ≤ i < Z.of_nat (length l) → is_Some (get l i).
Proof.
  intros Hi. unfold get. destruct (_ && _) eqn:E; [|lia].
  apply lookup_lt_is_Some. lia.
Qed.

(** ** Sums over finite maps *)

Section map_sum.
Context {K : Type} `{Countable K}.
Implicit Types m : gmap K Z.

Definition map_sum m : Z := map_fold (λ _ v acc, v + acc) 0 m.

Lemma map_sum_empty : map_sum ∅ = 0.
Proof. apply map_fold_empty. Qed.

Lemma map_sum_insert m k v :
  m !! k = None → map_sum (<[k := v]> m) = v + map_sum m.
Proof. intros. unfold map_sum. apply map_fold_insert_L; [lia|done]. Qed.

Lemma map_sum_delete m k v :
  m !! k = Some v → map_sum m = v + map_sum (delete k m).
Proof.
  intros Hk. rewrite <- (insert_delete_id m k v) at 1 by done.
  apply map_sum_insert, lookup_delete_eq.
Qed.

Lemma map_sum_update m k v :
  map_sum (<[k := v]> m) = map_sum m - default 0 (m !! k) + v.
Proof.
  destruct (m !! k) as [u|] eqn:E; cbn.
  - rewrite <- insert_delete_eq, map_sum_insert by apply lookup_delete_eq.
    rewrite (map_sum_delete m k u) by done. lia.
  - rewrite map_sum_insert by done. lia.
Qed.

Lemma map_sum_nonneg m :
  (∀ k v, m !! k = Some v → 0 ≤ v) → 0 ≤ map_sum m.
Proof.
  induction m as [|k v m Hk IH] using map_ind; intros Hv.
  - by rewrite map_sum_empty.
  - rewrite map_sum_insert by done.
    assert (0 ≤ v) by (apply (Hv k); by rewrite lookup_insert_eq).
    assert (0 ≤ map_sum m); [|lia].
    apply IH. intros k' v' Hk'. apply (Hv k').
    rewrite lookup_insert_ne; [done|]. intros ->. congruence.
Qed.

Lemma map_sum_lookup_le m k v :
  (∀ k v, m !! k = Some v → 0 ≤ v) → m !! k = Some v → v ≤ map_sum m.
Proof.
  intros Hv Hk. rewrite (map_sum_delete m k v) by done.
  assert (0 ≤ map_sum (delete k m)); [|lia].
  apply map_sum_nonneg. intros k' v' [_ ?]%lookup_delete_Some. by eapply Hv.
Qed.
End map_sum.

(** Sum of a list of integers. *)
Definition sumZ (l : list Z) : Z := foldr Z.add 0 l.

Lemma sumZ_app l1 l2 : sumZ (l1 ++ l2) = sumZ l1 + sumZ l2.
Proof. induction l1 as [|x l IH]; cbn; [done|]. unfold sumZ in *. lia. Qed.

Lemma sumZ_nonneg l : Forall (λ z, 0 ≤ z) l → 0 ≤ sumZ l.
Proof. induction 1; cbn; [done|]. unfold sumZ in *. lia. Qed.

Lemma sumZ_insert {A} (f : A → Z) (l : list A) (i : nat) (x y : A) :
  l !! i = Some x →
  sumZ (map f (<[i := y]> l)) = sumZ (map f l) - f x + f y.
Proof.
  unfold sumZ. revert i. induction l as [|a l IH]; intros [|i] Hi; try done.
  - injection Hi as ->. cbn. lia.
  - specialize (IH i Hi). change (<[S i := y]> (a :: l)) with (a :: <[i := y]> l).
    cbn [map foldr] in *. lia.
Qed.

(** Filtering with a predicate every element satisfies. *)
Lemma list_filter_none {A} (P : A → Prop) `{∀ x, Decision (P x)} (l : list A) :
  Forall (λ x, ¬ P x) l → filter P l = [].
Proof.
  induction 1 as [|x l Hx _ IH]; [done|]. by rewrite filter_cons_False.
Qed.

Lemma list_filter_all {A} (P : A → Prop) `{∀ x, Decision (P x)} (l : list A) :
  (∀ x, x ∈ l → P x) → filter P l = l.
Proof.
  induction l as [|a l IH]; intros Hl; [done|].
  rewrite filter_cons_True by (apply Hl; by left). f_equal. apply IH.
  intros x Hx. apply Hl. by right.
Qed.

(** The balance of a key, 0 when absent. *)
Definition lk {K} `{Countable K} (m : gmap K Z) (k : K) : Z := default 0 (m !! k).
#[global] Arguments lk : simpl never.

Lemma lk_insert {K} `{Countable K} (m : gmap K Z) k v : lk (<[k := v]> m) k = v.
Proof. unfold lk. by rewrite lookup_insert_eq. Qed.

Lemma lk_insert_ne {K} `{Countable K} (m : gmap K Z) k k' v :
  k ≠ k' → lk (<[k := v]> m) k' = lk m k'.
Proof. intros. unfold lk. by rewrite lookup_insert_ne. Qed.

Lemma lk_None {K} `{Countable K} (m : gmap K Z) k : m !! k = None → lk m k = 0.
Proof. intros E. unfold lk. by rewrite E. Qed.

Lemma lk_Some {K} `{Countable K} (m : gmap K Z) k v : m !! k = Some v → lk m k = v.
Proof. intros E. unfold lk. by rewrite E. Qed.

(** ** Sorting *)

#[export] Instance bytes_le_total : Total bytes_le.
Proof.
  intros a b. unfold bytes_le. rewrite (bytes_cmp_antisym a b). destruct (bytes_cmp a b); auto.
Qed.

#[export] Instance bytes_le_trans : Transitive bytes_le.
Proof.
  intros a b c Hab Hbc. unfold bytes_le in Hab.
  destruct (bytes_cmp a b) eqn:E; [apply bytes_cmp_Eq in E as ->; done| |done].
  eapply bytes_lt_le, bytes_lt_le_trans; done.
Qed.

Lemma total_refl {A} (P : A → A → Prop) `{!Total P} a : P a a.
Proof. by destruct (total P a a). Qed.

Section sorted.
Context {A : Type} (P : A → A → Prop) `{∀ a b, Decision (P a b), !Transitive P, !Total P}.

Lemma last_merge_sort l a :
  last (merge_sort P l) = Some a → a ∈ l ∧ ∀ b, b ∈ l → P b a.
Proof.
  intros [pre E]%last_Some. pose proof (StronglySorted_merge_sort P l) as Hs. rewrite E in Hs.
  pose proof (merge_sort_Permutation P l) as Hp. rewrite E in Hp.
  setoid_rewrite <- Hp. split; [set_solver|].
  intros b [Hb|Eb%list_elem_of_singleton]%elem_of_app; [|subst; by apply total_refl].
  apply StronglySorted_app in Hs as (Hs & _). apply Hs; set_solver.
Qed.

Lemma head_merge_sort l a :
  head (merge_sort P l) = Some a → a ∈ l ∧ ∀ b, b ∈ l → P a b.
Proof.
  pose proof (StronglySorted_merge_sort P l) as Hs. pose proof (merge_sort_Permutation P l) as Hp.
  destruct (merge_sort P l) as [|a' l'] eqn:E; [done|]. intros [= ->]. setoid_rewrite <- Hp.
  split; [set_solver|]. intros b [->|Hb]%elem_of_cons; [by apply total_refl|].
  apply StronglySorted_inv in Hs as [_ Hs]. by eapply Forall_forall in Hs.
Qed.

Lemma merge_sort_nonempty l : l ≠ [] → merge_sort P l ≠ [].
Proof.
  intros Hl E. pose proof (merge_sort_Permutation P l) as Hp. rewrite E in Hp. by apply Permutation_nil_l in Hp.
Qed.
End sorted.

(** ** Tactics *)

(** Break the hypotheses produced by running a function to a known outcome. *)
Ltac run_step :=
  match goal with
  | H : Ok _ = Ok _ |- _ => injection H as H; try subst
  | H : Some _ = Some _ |- _ => injection H as H; try subst
  | H : Err _ = Ok _ |- _ => discriminate H
  | H : Panic = Ok _ |- _ => discriminate H
  | H : None = Some _ |- _ => discriminate H
  | H : _ ≫= _ = Ok _ |- _ =>
      let a := fresh "a" in let Ha := fresh "Ha" in
      apply outcome_bind_Ok in H as (a & Ha & H)
  | H : match ?x with _ => _ end = Ok _ |- _ =>
      let E := fresh "E" in destruct x eqn:E
  | H : match ?x with _ => _ end = Some _ |- _ =>
      let E := fresh "E" in destruct x eqn:E
  | H : unwrap ?o = Ok _ |- _ =>
      let E := fresh "E" in destruct o eqn:E; cbn [unwrap] in H
  end.

Ltac run_inv := repeat run_step.

(** Turn boolean comparisons on [Z] into propositions. *)
Ltac b2p :=
  repeat match goal with
  | H : (_ && _) = true |- _ => apply andb_prop in H as [? ?]
  | H : (_ <? _) = true |- _ => apply Z.ltb_lt in H
  | H : (_ <? _) = false |- _ => apply Z.ltb_ge in H
  | H : (_ <=? _) = true |- _ => apply Z.leb_le in H
  | H : (_ <=? _) = false |- _ => apply Z.leb_gt in H
  | H : (_ =? _) = true |- _ => apply Z.eqb_eq in H
  | H : (_ =? _) = false |- _ => apply Z.eqb_neq in H
  end.
