(* ===== verification/Varint.v ===== *)
(** The variable-length integers of the dunes protocol:
    [storage/runes/dunes/varint.rs] (the same file is in both services).

    [encode_to_vec] fills a 19-byte array from its last slot backwards;
    [decode] reads continuation bytes (high bit set) until a final byte or the
    end of the buffer, saturating at [u128::MAX].  The code is bijective: each
    continuation byte counts one more than its low seven bits, so that no two
    byte strings stand for the same integer. *)

From S2P Require Import Prelude.

Module Varint.

(** [encode_to_vec]: [slots] is [i + 1], the slots of [out] that are still
    free, and [out] the tail [out[i..]] written so far; writing with no free
    slot is the index panic of [out[i]] after [i -= 1] wrapped. *)
Fixpoint encode_loop (slots : nat) (n : Z) (out : list Z) : outcome unit (list Z) :=
  match slots with
  | O => Panic
  | S i =>
      let byte := Z.land (n mod 256) 127 in
      let byte := if (i <? 18)%nat then Z.lor byte 128 else byte in
      let out := byte :: out in
      if n <? 128 then Ok out else encode_loop i (n / 128 - 1) out
  end.

Definition encode_to_vec (n : Z) (v : list Z) : outcome unit (list Z) :=
  out ← encode_loop 19 n []; Ok (v ++ out).

(** [decode]: the value and the number of bytes read. *)
Fixpoint decode_loop (n : Z) (i : nat) (buffer : list Z) : Z * nat :=
  match buffer with
  | [] => (n, i)
  | b :: rest =>
      let n := saturating_mul 128 n 128 in
      if b <? 128 then (saturating_add 128 n b, S i)
      else decode_loop (saturating_add 128 n (b - 127)) (S i) rest
  end.

Definition decode (buffer : list Z) : Z * nat := decode_loop 0 0 buffer.

(** ** Reading back *)

Lemma land_127 n : Z.land (n mod 256) 127 = n mod 128.
Proof.
  change 127 with (Z.ones 7). rewrite Z.land_ones by lia.
  change (2 ^ 7) with 128. rewrite (Z.mod_mod_divide n 256 128); [done|].
  by exists 2.
Qed.

Lemma lor_128 n : Z.lor (n mod 128) 128 = n mod 128 + 128.
Proof.
  symmetry. rewrite Z.add_nocarry_lxor, Z.lxor_lor; [done|..];
    change 128 with (2 ^ 7); rewrite <- (Z.land_ones n 7) by lia;
    apply Z.bits_inj'; intros k Hk; rewrite !Z.land_spec, Z.bits_0, Z.pow2_bits_eqb by lia;
    rewrite Z.ones_spec by lia;
    destruct (Z.eqb_spec 7 k) as [<-|]; cbn; by rewrite ?andb_false_r.
Qed.

Lemma byte_cont n : Z.lor (Z.land (n mod 256) 127) 128 = n mod 128 + 128.
Proof. by rewrite land_127, lor_128. Qed.

(** The final byte, written first. *)
Lemma encode_loop_19 n :
  encode_loop 19 n []
  = if n <? 128 then Ok [n mod 128] else encode_loop 18 (n / 128 - 1) [n mod 128].
Proof. rewrite <- land_127. reflexivity. Qed.

Lemma decode_loop_cont n i b rest :
  128 ≤ b → 0 ≤ n → n * 128 + (b - 127) ≤ umax 128 →
  decode_loop n i (b :: rest) = decode_loop (n * 128 + (b - 127)) (S i) rest.
Proof.
  intros Hb Hn Hmax. cbn [decode_loop]. destruct (Z.ltb_spec b 128); [lia|].
  unfold saturating_mul, saturating_add. f_equal. lia.
Qed.

Lemma decode_loop_last n i b rest :
  b < 128 → 0 ≤ n → 0 ≤ b → n * 128 + b ≤ umax 128 →
  decode_loop n i (b :: rest) = (n * 128 + b, S i).
Proof.
  intros Hb Hn Hb0 Hmax. cbn [decode_loop]. destruct (Z.ltb_spec b 128); [|lia].
  unfold saturating_mul, saturating_add. f_equal. lia.
Qed.

(** The continuation bytes of [n]: reading them leaves [n + 1]. *)
Lemma encode_loop_cont slots n out :
  (0 < slots ≤ 18)%nat → 0 ≤ n → n < 128 ^ Z.of_nat slots → n < umax 128 →
  ∃ pre, encode_loop slots n out = Ok (pre ++ out)
    ∧ Forall (λ b, 128 ≤ b < 256) pre ∧ (length pre ≤ slots)%nat
    ∧ ∀ rest, decode_loop 0 0 (pre ++ rest) = decode_loop (n + 1) (length pre) rest.
Proof.
  revert n out. induction slots as [|i IH]; intros n out Hs Hn Hb Hmax; [lia|].
  cbn [encode_loop]. destruct (Nat.ltb_spec i 18); [|lia].
  rewrite byte_cont. pose proof (Z.mod_pos_bound n 128 ltac:(lia)).
  pose proof (Z.div_mod n 128 ltac:(lia)).
  rewrite Nat2Z.inj_succ, Z.pow_succ_r in Hb by lia.
  destruct (Z.ltb_spec n 128) as [Hlt|Hge].
  - exists [n mod 128 + 128]. rewrite Z.mod_small in * by lia.
    split; [done|]. split; [constructor; [lia|done]|]. split; [cbn; lia|].
    intros rest. cbn [app length]. rewrite decode_loop_cont by (unfold umax in *; lia).
    f_equal. lia.
  - destruct (IH (n / 128 - 1) ((n mod 128 + 128) :: out)) as (pre & -> & HF & Hl & Hd).
    + destruct i; [change (128 ^ Z.of_nat 0) with 1 in Hb|]; lia.
    + pose proof (Z.div_le_lower_bound n 128 1). lia.
    + pose proof (Z.div_lt_upper_bound n 128 (128 ^ Z.of_nat i)). lia.
    + lia.
    + exists (pre ++ [n mod 128 + 128]). rewrite <- app_assoc. split; [done|].
      split; [apply Forall_app; split; [done|]; constructor; [lia|done]|].
      rewrite length_app. cbn [length]. split; [lia|].
      intros rest. rewrite <- app_assoc, Hd. cbn [app].
      pose proof (Z.div_pos n 128). rewrite decode_loop_cont by lia.
      f_equal; lia.
Qed.

Lemma encode_loop_spec n :
  in_range 128 n →
  ∃ pre b, encode_loop 19 n [] = Ok (pre ++ [b])
    ∧ Forall (λ b, 128 ≤ b < 256) pre ∧ 0 ≤ b < 128 ∧ (length pre ≤ 18)%nat
    ∧ ∀ rest, decode ((pre ++ [b]) ++ rest) = (n, S (length pre)).
Proof.
  intros [Hn Hmax]. unfold decode. rewrite encode_loop_19.
  pose proof (Z.mod_pos_bound n 128 ltac:(lia)).
  pose proof (Z.div_mod n 128 ltac:(lia)).
  destruct (Z.ltb_spec n 128) as [Hlt|Hge].
  - exists [], (n mod 128). rewrite Z.mod_small in * by lia.
    do 4 (split; [first [done|cbn; lia]|]). intros rest. cbn [app].
    rewrite decode_loop_last by (unfold umax; lia). f_equal; lia.
  - destruct (encode_loop_cont 18 (n / 128 - 1) [n mod 128]) as (pre & -> & HF & Hl & Hd).
    + lia.
    + pose proof (Z.div_le_lower_bound n 128 1). lia.
    + pose proof (Z.div_lt_upper_bound n 128 (2 ^ 121)). lia.
    + unfold umax. lia.
    + exists pre, (n mod 128). do 4 (split; [done|]).
      intros rest. rewrite <- app_assoc, Hd. cbn [app].
      pose proof (Z.div_pos n 128). rewrite decode_loop_last by (unfold umax; lia).
      f_equal; lia.
Qed.

(** [decode] stays in [u128], whatever it reads. *)
Lemma decode_loop_range n i buffer :
  in_range 128 n → bytes_ok buffer → in_range 128 (decode_loop n i buffer).1.
Proof.
  revert n i. induction buffer as [|b rest IH]; intros n i Hn Hb; [done|].
  inversion_clear Hb as [|? ? [Hb0 _] Hrest]. destruct Hn as [Hn _].
  cbn [decode_loop]. assert (in_range 128 (saturating_mul 128 n 128)) as [Hm _]
    by auto with ints lia.
  destruct (Z.ltb_spec b 128); cbn [fst]; [|apply IH; [|done]];
    apply saturating_add_range; lia.
Qed.

Lemma decode_range buffer : bytes_ok buffer → in_range 128 (decode buffer).1.
Proof. apply decode_loop_range. by vm_compute. Qed.

(** [decode] never reads past the buffer, and reads something of a non-empty
    one: the caller's loop over the payload makes progress. *)
Lemma decode_loop_progress n i buffer :
  (i ≤ (decode_loop n i buffer).2 ≤ i + length buffer)%nat
  ∧ (buffer ≠ [] → (i < (decode_loop n i buffer).2)%nat).
Proof.
  revert n i. induction buffer as [|b rest IH]; intros n i; [cbn; split; [lia|done]|].
  cbn [decode_loop length]. destruct (b <? 128); cbn [snd]; [lia|].
  match goal with |- context [decode_loop ?m (S i) rest] => destruct (IH m (S i)) end.
  lia.
Qed.

Lemma decode_progress buffer :
  buffer ≠ [] → (0 < (decode buffer).2 ≤ length buffer)%nat.
Proof.
  intros Hne. unfold decode. destruct (decode_loop_progress 0 0 buffer) as [? H].
  specialize (H Hne). lia.
Qed.

(** ** Canonicity *)

(** The value of continuation bytes, without the saturation. *)
Definition cont_value (pre : list Z) : Z := foldl (λ n b, n * 128 + (b - 127)) 0 pre.

Lemma cont_value_snoc pre b : cont_value (pre ++ [b]) = cont_value pre * 128 + (b - 127).
Proof. unfold cont_value. by rewrite foldl_app. Qed.

Lemma cont_value_lower pre :
  Forall (λ b, 128 ≤ b < 256) pre → pre ≠ [] →
  128 ^ Z.of_nat (length pre - 1) ≤ cont_value pre.
Proof.
  induction pre as [|b pre IH] using rev_ind; [done|]. intros HF _.
  apply Forall_app in HF as [HF Hb]. inversion_clear Hb.
  rewrite cont_value_snoc, length_app. cbn [length].
  destruct pre as [|c pre']; [cbn; lia|]. specialize (IH HF ltac:(done)).
  replace (Z.of_nat (length (c :: pre') + 1 - 1))
    with (Z.succ (Z.of_nat (length (c :: pre') - 1))) by (cbn [length]; lia).
  rewrite Z.pow_succ_r by lia. lia.
Qed.

Lemma cont_value_nonneg pre :
  Forall (λ b, 128 ≤ b < 256) pre → 0 ≤ cont_value pre.
Proof.
  intros HF. destruct pre as [|c pre']; [done|].
  pose proof (cont_value_lower _ HF ltac:(done)).
  pose proof (Z.pow_nonneg 128 (Z.of_nat (length (c :: pre') - 1))). lia.
Qed.

Lemma encode_loop_cont_value pre slots out :
  Forall (λ b, 128 ≤ b < 256) pre → pre ≠ [] → (length pre ≤ slots ≤ 18)%nat →
  encode_loop slots (cont_value pre - 1) out = Ok (pre ++ out).
Proof.
  revert slots out. induction pre as [|b pre IH] using rev_ind; [done|].
  intros slots out HF _ [Hl Hs]. rewrite length_app in Hl. cbn [length] in Hl.
  apply Forall_app in HF as [HF Hb]. inversion_clear Hb as [|? ? Hb' _].
  destruct slots as [|i]; [lia|]. rewrite cont_value_snoc. cbn [encode_loop].
  destruct (Nat.ltb_spec i 18); [|lia]. rewrite byte_cont.
  set (c := cont_value pre).
  assert ((c * 128 + (b - 127) - 1) mod 128 = b - 128) as Hm.
  { symmetry. apply (Z.mod_unique _ _ c); lia. }
  assert ((c * 128 + (b - 127) - 1) / 128 = c) as Hd.
  { symmetry. apply (Z.div_unique _ _ _ (b - 128)); lia. }
  rewrite Hm, Hd. replace (b - 128 + 128) with b by lia. rewrite <- app_assoc. cbn [app].
  destruct (decide (pre = [])) as [->|Hne].
  - cbn in c. subst c. destruct (Z.ltb_spec (0 * 128 + (b - 127) - 1) 128); [done|lia].
  - assert (1 ≤ c) as Hc.
    { pose proof (cont_value_lower pre HF Hne).
      pose proof (Z.pow_pos_nonneg 128 (Z.of_nat (length pre - 1))). lia. }
    destruct (Z.ltb_spec (c * 128 + (b - 127) - 1) 128); [lia|].
    apply IH; [done|done|lia].
Qed.

Lemma decode_loop_saturated i pre b n :
  umax 128 ≤ n → Forall (λ b, 128 ≤ b < 256) pre → 0 ≤ b < 128 →
  (decode_loop n i (pre ++ [b])).1 = umax 128.
Proof.
  revert i n. induction pre as [|c pre IH]; intros i n Hn HF Hb;
    cbn [app decode_loop]; unfold saturating_mul, saturating_add.
  - destruct (Z.ltb_spec b 128); [|lia]. cbn [fst]. unfold umax in *. lia.
  - inversion_clear HF. destruct (Z.ltb_spec c 128); [lia|].
    apply IH; [|done|done]. unfold umax in *. lia.
Qed.

(** Below saturation the reader computes the exact value. *)
Lemma decode_loop_exact pre b n i :
  0 ≤ n → Forall (λ b, 128 ≤ b < 256) pre → 0 ≤ b < 128 →
  (decode_loop n i (pre ++ [b])).1 < umax 128 →
  (decode_loop n i (pre ++ [b])).1
  = foldl (λ n b, n * 128 + (b - 127)) n pre * 128 + b.
Proof.
  revert n i. induction pre as [|c pre IH]; intros n i Hn HF Hb; cbn [app].
  - cbn [decode_loop]. destruct (Z.ltb_spec b 128); [|lia].
    cbn [fst foldl]. unfold saturating_mul, saturating_add, umax. lia.
  - inversion_clear HF. intros Hlt.
    destruct (Z.le_gt_cases (n * 128 + (c - 127)) (umax 128)) as [Hle|Hgt].
    + rewrite decode_loop_cont in * by lia. cbn [foldl]. apply IH; try done. lia.
    + exfalso. cbn [decode_loop] in Hlt. destruct (Z.ltb_spec c 128); [lia|].
      rewrite decode_loop_saturated in Hlt; [lia| |done|done].
      unfold saturating_mul, saturating_add, umax in *. lia.
Qed.

(** ** Properties *)

(** C39: every [u128] is encoded without a panic in at most 19 bytes appended to
    the vector, and [decode] reads that integer back, consuming exactly those
    bytes, whatever follows them in the buffer. *)
Theorem decode_encode (n : Z) (v : list Z) :
  in_range 128 n →
  ∃ bs, encode_to_vec n v = Ok (v ++ bs) ∧ bytes_ok bs ∧ (length bs ≤ 19)%nat
    ∧ ∀ rest, decode (bs ++ rest) = (n, length bs).
Proof.
  intros Hn. destruct (encode_loop_spec n Hn) as (pre & b & He & HF & Hb & Hl & Hd).
  exists (pre ++ [b]). unfold encode_to_vec. rewrite He, length_app. cbn.
  rewrite Nat.add_1_r. split; [done|]. split; [|split; [lia|done]].
  apply Forall_app. split.
  - eapply Forall_impl; [exact HF|]. unfold in_range. cbn. lia.
  - constructor; [unfold in_range; lia|done].
Qed.

Lemma decode_encode_witness :
  ∃ bs, encode_to_vec 300 [7] = Ok ([7] ++ bs) ∧ bytes_ok bs ∧ (length bs ≤ 19)%nat
    ∧ ∀ rest, decode (bs ++ rest) = (300, length bs).
Proof. apply decode_encode. by vm_compute. Defined.

(** The code is canonical.  A terminated byte string that [decode] reads
    as a value below [u128::MAX] (where it starts to saturate) is exactly what
    [encode_to_vec] writes for that value: no integer has two encodings. *)
Theorem encode_decode (pre : list Z) (b n : Z) (i : nat) :
  Forall (λ b, 128 ≤ b < 256) pre → 0 ≤ b < 128 →
  decode (pre ++ [b]) = (n, i) → n < umax 128 →
  encode_to_vec n [] = Ok (pre ++ [b]).
Proof.
  intros HF Hb Hd Hn. unfold decode in Hd.
  pose proof (decode_loop_exact pre b 0 0 ltac:(lia) HF Hb) as He.
  rewrite Hd in He. cbn [fst] in He. specialize (He Hn). fold (cont_value pre) in He.
  pose proof (cont_value_nonneg pre HF) as Hc.
  assert (length pre ≤ 18)%nat as Hl.
  { destruct (decide (pre = [])) as [->|Hne]; [cbn; lia|].
    pose proof (cont_value_lower pre HF Hne) as Hlow.
    destruct (le_gt_dec (length pre) 18) as [|Hgt]; [done|exfalso].
    pose proof (Z.pow_le_mono_r 128 18 (Z.of_nat (length pre - 1)) ltac:(lia) ltac:(lia)).
    unfold umax in Hn. lia. }
  unfold encode_to_vec. rewrite encode_loop_19. subst n.
  rewrite <- (Z.mod_unique (cont_value pre * 128 + b) 128 (cont_value pre) b) by lia.
  rewrite <- (Z.div_unique (cont_value pre * 128 + b) 128 (cont_value pre) b) by lia.
  destruct (decide (pre = [])) as [->|Hne].
  - cbn [cont_value foldl]. by destruct (Z.ltb_spec (0 * 128 + b) 128); [|lia].
  - assert (1 ≤ cont_value pre).
    { pose proof (cont_value_lower pre HF Hne).
      pose proof (Z.pow_pos_nonneg 128 (Z.of_nat (length pre - 1))). lia. }
    destruct (Z.ltb_spec (cont_value pre * 128 + b) 128); [lia|].
    by rewrite (encode_loop_cont_value pre 18 [b]) by (done || lia).
Qed.

Lemma encode_decode_witness : encode_to_vec 300 [] = Ok ([129] ++ [44]).
Proof.
  apply (encode_decode [129] 44 300 2); [|lia|reflexivity|by vm_compute].
  constructor; [lia|constructor].
Defined.

End Varint.
