(* ===== verification/Decimal.v ===== *)
(** The standard library's decimal text of unsigned integers, as the source
    uses it through [write!("{}")] and [str::parse]: a string is the list of its
    characters' code points. *)

From S2P Require Import Prelude.

Module Decimal.

Definition rust_string : Type := list Z.

Definition is_digit (c : Z) : bool := (48 <=? c) && (c <=? 57).

(** [Display] of an unsigned integer; [fuel] bounds the number of digits. *)
Fixpoint dec_digits (fuel : nat) (n : Z) : rust_string :=
  match fuel with
  | O => []
  | S f => if n <? 10 then [48 + n]
           else dec_digits f (n / 10) ++ [48 + n mod 10]
  end.

Definition to_string (n : Z) : rust_string :=
  dec_digits (S (Z.to_nat (Z.log2 n))) n.

Inductive IntErrorKind : Type := Empty | InvalidDigit | PosOverflow.

(** [<uN as FromStr>::from_str]: an optional plus sign, then digits. *)
Fixpoint parse_digits (w acc : Z) (s : rust_string) : outcome IntErrorKind Z :=
  match s with
  | [] => Ok acc
  | c :: s' =>
      if is_digit c then
        match checked_mul w acc 10 with
        | None => Err PosOverflow
        | Some acc =>
            match checked_add w acc (c - 48) with
            | None => Err PosOverflow
            | Some acc => parse_digits w acc s'
            end
        end
      else Err InvalidDigit
  end.

Definition parse_uint (w : Z) (s : rust_string) : outcome IntErrorKind Z :=
  match s with
  | [] => Err Empty
  | [43] => Err InvalidDigit
  | 43 :: s' => parse_digits w 0 s'
  | _ => parse_digits w 0 s
  end.

(** [str::split_once]. *)
Fixpoint split_once (c : Z) (s : rust_string) : option (rust_string * rust_string) :=
  match s with
  | [] => None
  | x :: s' => if x =? c then Some ([], s')
               else '(a, b) ← split_once c s'; Some (x :: a, b)
  end.

(** ** Lemmas *)

Lemma dec_digits_S f n :
  dec_digits (S f) n
  = if n <? 10 then [48 + n] else dec_digits f (n / 10) ++ [48 + n mod 10].
Proof. done. Qed.

Lemma dec_digits_digit f n :
  0 ≤ n → Forall (λ c, is_digit c = true) (dec_digits f n).
Proof.
  revert n. induction f as [|f IH]; intros n Hn; [constructor|].
  rewrite dec_digits_S. destruct (Z.ltb_spec n 10).
  - constructor; [unfold is_digit; lia|constructor].
  - apply Forall_app. split; [apply IH; by apply Z.div_pos|].
    pose proof (Z.mod_pos_bound n 10). constructor; [unfold is_digit; lia|constructor].
Qed.

Lemma parse_digits_app w acc s1 s2 :
  parse_digits w acc (s1 ++ s2) = parse_digits w acc s1 ≫= λ a, parse_digits w a s2.
Proof.
  revert acc. induction s1 as [|c s1 IH]; intros acc; [done|]. cbn.
  destruct (is_digit c); [|done].
  destruct (checked_mul w acc 10); [|done]. by destruct (checked_add w _ _).
Qed.

Lemma parse_digits_one w acc d :
  0 ≤ acc → 0 ≤ d < 10 → acc * 10 + d < 2 ^ w →
  parse_digits w acc [48 + d] = Ok (acc * 10 + d).
Proof.
  intros Ha Hd Hw. cbn. replace (is_digit (48 + d)) with true
    by (symmetry; unfold is_digit; lia).
  unfold checked_mul, checked_add.
  rewrite try_into_ok by (unfold in_range; lia).
  rewrite try_into_ok by (unfold in_range; lia). f_equal. lia.
Qed.

Lemma log2_div_10 n : 10 ≤ n → Z.log2 (n / 10) < Z.log2 n.
Proof.
  intros Hn. assert (n / 10 ≤ n / 2) as Hle by (apply Z.div_le_compat_l; lia).
  apply Z.log2_le_mono in Hle. rewrite <- Z.div2_div in Hle.
  pose proof (Z.log2_pos n ltac:(lia)).
  pose proof (Z.log2_shiftr n 1 ltac:(lia)) as Hs. rewrite <- Z.div2_spec in Hs. lia.
Qed.

Lemma parse_dec_digits w f n :
  0 ≤ n < 2 ^ w → Z.log2 n < Z.of_nat f →
  parse_digits w 0 (dec_digits f n) = Ok n ∧ dec_digits f n ≠ [].
Proof.
  revert n. induction f as [|f IH]; intros n Hn Hf.
  { pose proof (Z.log2_nonneg n). lia. }
  rewrite dec_digits_S. destruct (Z.ltb_spec n 10) as [Hlt|Hge].
  - rewrite parse_digits_one by lia. split; [f_equal; lia|done].
  - pose proof (log2_div_10 n Hge). pose proof (Z.div_mod n 10).
    pose proof (Z.mod_pos_bound n 10). pose proof (Z.div_pos n 10).
    destruct (IH (n / 10)) as [Hp _]; [|lia|]; [nia|].
    rewrite parse_digits_app, Hp. cbn [mbind outcome_bind].
    rewrite parse_digits_one by nia. split; [f_equal; lia|].
    by destruct (dec_digits f (n / 10)).
Qed.

Lemma to_string_digits n : 0 ≤ n → Forall (λ c, is_digit c = true) (to_string n).
Proof. apply dec_digits_digit. Qed.

Lemma to_string_parse_digits w n :
  0 ≤ n < 2 ^ w → parse_digits w 0 (to_string n) = Ok n ∧ to_string n ≠ [].
Proof.
  intros Hn. apply parse_dec_digits; [done|].
  pose proof (Z.log2_nonneg n). lia.
Qed.

Lemma parse_uint_digits w s :
  s ≠ [] → Forall (λ c, is_digit c = true) s → parse_uint w s = parse_digits w 0 s.
Proof.
  intros Hne HF. destruct s as [|c s]; [done|]. inversion_clear HF as [|? ? Hc _].
  unfold parse_uint. destruct c as [|p|p]; [done| |done].
  do 6 (destruct p as [p|p|]; try done).
Qed.

(** What is printed is parsed back, at any width that holds it. *)
Lemma parse_to_string w n : in_range w n → parse_uint w (to_string n) = Ok n.
Proof.
  intros Hn. destruct (to_string_parse_digits w n Hn) as [Hp Hne].
  rewrite parse_uint_digits; [done|done|]. apply to_string_digits, Hn.
Qed.

Lemma to_string_inj m n : 0 ≤ m → 0 ≤ n → to_string m = to_string n → m = n.
Proof.
  intros Hm Hn He. set (w := Z.log2 (Z.max m n) + 1).
  assert (∀ k, 0 ≤ k ≤ Z.max m n → in_range w k) as Hw.
  { intros k Hk. split; [lia|]. unfold w. destruct (decide (Z.max m n = 0)).
    - replace k with 0 by lia. by apply Z.pow_pos_nonneg; [|pose proof (Z.log2_nonneg (Z.max m n)); lia].
    - pose proof (Z.log2_spec (Z.max m n)). replace (Z.log2 (Z.max m n) + 1)
        with (Z.succ (Z.log2 (Z.max m n))) by lia. lia. }
  pose proof (parse_to_string w m (Hw m ltac:(lia))) as E1.
  rewrite He, (parse_to_string w n (Hw n ltac:(lia))) in E1. congruence.
Qed.

Lemma split_once_app c a b :
  Forall (λ x, x ≠ c) a → split_once c (a ++ c :: b) = Some (a, b).
Proof.
  induction 1 as [|x a Hx _ IH]; cbn; [by rewrite Z.eqb_refl|].
  destruct (Z.eqb_spec x c); [done|]. by rewrite IH.
Qed.

Lemma digits_ne c s :
  is_digit c = false → Forall (λ x, is_digit x = true) s → Forall (λ x, x ≠ c) s.
Proof. intros Hc HF. eapply Forall_impl; [exact HF|]. intros x Hx ->. cbn in Hx. congruence. Qed.

(** The number a string of digits denotes. *)
Definition dec_value (s : rust_string) : Z := foldl (λ a c, a * 10 + (c - 48)) 0 s.

Lemma dec_value_acc acc s :
  foldl (λ a c, a * 10 + (c - 48)) acc s = acc * 10 ^ Z.of_nat (length s) + dec_value s.
Proof.
  unfold dec_value. revert acc. induction s as [|c s IH]; intros acc; [cbn; lia|].
  cbn [foldl length]. rewrite IH, (IH (0 * 10 + (c - 48))), Nat2Z.inj_succ, Z.pow_succ_r by lia.
  lia.
Qed.

Lemma dec_value_app s t :
  dec_value (s ++ t) = dec_value s * 10 ^ Z.of_nat (length t) + dec_value t.
Proof. unfold dec_value at 1. rewrite foldl_app. apply dec_value_acc. Qed.

Lemma dec_value_cons c s :
  dec_value (c :: s) = (c - 48) * 10 ^ Z.of_nat (length s) + dec_value s.
Proof. unfold dec_value at 1. cbn [foldl]. rewrite dec_value_acc. lia. Qed.

Lemma dec_value_bound s :
  Forall (λ c, is_digit c = true) s → 0 ≤ dec_value s < 10 ^ Z.of_nat (length s).
Proof.
  induction 1 as [|c s Hc _ IH]; [cbn; lia|]. rewrite dec_value_cons. cbn [length].
  rewrite Nat2Z.inj_succ, Z.pow_succ_r by lia. unfold is_digit in Hc. nia.
Qed.

Lemma dec_value_zeros n : dec_value (replicate n 48) = 0.
Proof. induction n as [|n IH]; [done|]. cbn [replicate]. rewrite dec_value_cons, IH. lia. Qed.

Lemma parse_digits_value w acc s :
  Forall (λ c, is_digit c = true) s → 0 ≤ acc →
  acc * 10 ^ Z.of_nat (length s) + dec_value s < 2 ^ w →
  parse_digits w acc s = Ok (acc * 10 ^ Z.of_nat (length s) + dec_value s).
Proof.
  intros HF. revert acc. induction HF as [|c s Hc HF IH]; intros acc Ha Hb;
    [cbn in *; f_equal; lia|].
  rewrite dec_value_cons in *. cbn [length parse_digits] in *.
  rewrite Nat2Z.inj_succ, Z.pow_succ_r in * by lia. rewrite Hc.
  pose proof (dec_value_bound s HF).
  pose proof (Z.pow_pos_nonneg 10 (Z.of_nat (length s)) ltac:(lia) ltac:(lia)).
  unfold is_digit in Hc. unfold checked_mul, checked_add.
  rewrite try_into_ok by (unfold in_range; nia).
  rewrite try_into_ok by (unfold in_range; nia).
  rewrite IH; [f_equal; lia|lia|lia].
Qed.

Lemma parse_digits_range w acc s v :
  in_range w acc → parse_digits w acc s = Ok v → in_range w v.
Proof.
  revert acc. induction s as [|c s IH]; intros acc Ha; cbn [parse_digits];
    [by intros [= <-]|].
  destruct (is_digit c); [|done]. destruct (checked_mul w acc 10) as [m|] eqn:Em; [|done].
  destruct (checked_add w m (c - 48)) as [a|] eqn:Ea; [|done]. apply IH.
  unfold checked_add in Ea. by apply try_into_Some in Ea as [-> ?].
Qed.

Lemma parse_digits_no_panic w acc s : parse_digits w acc s ≠ Panic.
Proof.
  revert acc. induction s as [|c s IH]; intros acc; cbn; [done|].
  destruct (is_digit c); [|done]. destruct (checked_mul w acc 10); [|done].
  by destruct (checked_add w _ _).
Qed.

Lemma parse_uint_cases w s :
  parse_uint w s = Err Empty ∨ parse_uint w s = Err InvalidDigit
  ∨ ∃ s', parse_uint w s = parse_digits w 0 s'.
Proof.
  destruct s as [|c s]; [by left|]. right.
  destruct (decide (c = 43)) as [->|Hc].
  - destruct s as [|d s]; [by left|right]. by exists (d :: s).
  - right. exists (c :: s). unfold parse_uint. destruct c as [|p|p]; [done| |done].
    do 6 (destruct p as [p|p|]; try done).
Qed.

Lemma parse_uint_no_panic w s : parse_uint w s ≠ Panic.
Proof.
  destruct (parse_uint_cases w s) as [->|[->|[s' ->]]]; [done|done|].
  apply parse_digits_no_panic.
Qed.

Lemma parse_uint_range w s v : 0 ≤ w → parse_uint w s = Ok v → in_range w v.
Proof.
  intros Hw. destruct (parse_uint_cases w s) as [->|[->|[s' ->]]]; [done|done|].
  apply parse_digits_range. pose proof (Z.pow_pos_nonneg 2 w). unfold in_range. lia.
Qed.

Lemma parse_uint_value w s :
  Forall (λ c, is_digit c = true) s → s ≠ [] → dec_value s < 2 ^ w →
  parse_uint w s = Ok (dec_value s).
Proof.
  intros HF Hne Hb. rewrite parse_uint_digits by done.
  by rewrite parse_digits_value by (done || lia).
Qed.

Lemma dec_value_to_string n : 0 ≤ n → dec_value (to_string n) = n.
Proof.
  intros Hn. pose proof (to_string_digits n Hn) as HF.
  set (w := Z.max (Z.log2 n + 1) (Z.log2 (dec_value (to_string n)) + 1)).
  pose proof (dec_value_bound _ HF) as [Hv _].
  assert (∀ k, 0 ≤ k → Z.log2 k + 1 ≤ w → k < 2 ^ w) as Hw.
  { intros k Hk Hl. destruct (decide (k = 0)) as [->|].
    - apply Z.pow_pos_nonneg; [lia|]. pose proof (Z.log2_nonneg n). lia.
    - pose proof (Z.log2_spec k) as [_ ?]; [lia|].
      eapply Z.lt_le_trans; [done|]. apply Z.pow_le_mono_r; lia. }
  destruct (to_string_parse_digits w n) as [Hp Hne]; [split; [done|apply Hw; lia]|].
  rewrite parse_digits_value in Hp; [|done|lia|]; [injection Hp; lia|].
  pose proof (Hw (dec_value (to_string n)) Hv). lia.
Qed.

End Decimal.
