(* ===== verification/Dunes.v ===== *)
(** The dunes vocabulary, [storage/runes/dunes/]: names ([dune.rs],
    [spaced_dune.rs]), identifiers ([dune_id.rs]), networks ([chain.rs]), the
    claim bit ([mod.rs]), message flags ([flag.rs]) and the data of etchings,
    terms and edicts ([etching.rs], [terms.rs], [edict.rs]). *)

From S2P Require Import Prelude Decimal.
Import Decimal.

Module Dunes.

(** ** chain.rs *)

Inductive Chain : Type := Mainnet | Testnet | Signet | Regtest.

Definition first_dune_height (c : Chain) : Z :=
  match c with
  | Mainnet => 5084000
  | Regtest => 0
  | Signet => 0
  | Testnet => 4250000
  end.

(** ** mod.rs *)

Definition CLAIM_BIT : Z := Z.shiftl 1 48.
Definition MAX_DIVISIBILITY : Z := 38.
Definition MAX_LIMIT : Z := umax 64.
Definition RESERVED : Z := 6402364363415443603228541259936211926.

Inductive MintError : Type := Cap (c : Z) | End_ (h : Z) | Start (h : Z) | Unmintable.

Definition claim (id : Z) : option Z :=
  if negb (Z.land id CLAIM_BIT =? 0) then Some (Z.lxor id CLAIM_BIT) else None.

(** ** dune.rs *)

Definition STEPS : list Z :=
  [0; 26; 702; 18278; 475254; 12356630; 321272406; 8353082582; 217180147158;
   5646683826134; 146813779479510; 3817158266467286; 99246114928149462;
   2580398988131886038; 67090373691429037014; 1744349715977154962390;
   45353092615406029022166; 1179180408000556754576342;
   30658690608014475618984918; 797125955808376366093607894;
   20725274851017785518433805270; 538857146126462423479278937046;
   14010285799288023010461252363222; 364267430781488598271992561443798;
   9470953200318703555071806597538774; 246244783208286292431866971536008150;
   6402364363415443603228541259936211926;
   166461473448801533683942072758341510102].

(** [SUBSIDY_HALVING_INTERVAL] is a constant of the [bitcoin] crate. *)
Section minimum.
Variable SUBSIDY_HALVING_INTERVAL : Z.

Definition SUBSIDY_HALVING_INTERVAL_10X : Z := SUBSIDY_HALVING_INTERVAL * 10.

Definition minimum_at_height (chain : Chain) (height : Z) : outcome unit Z :=
  let offset := saturating_add 32 height 1 in
  let INTERVAL := SUBSIDY_HALVING_INTERVAL_10X / 12 in
  let start := first_dune_height chain in
  let end_ := wrap 32 (start + SUBSIDY_HALVING_INTERVAL_10X) in
  if offset <? start then unwrap (get STEPS 12)
  else if end_ <=? offset then Ok 0
  else
    let progress := saturating_sub offset start in
    let length := saturating_sub 12 (progress / INTERVAL) in
    end_ ← unwrap (get STEPS (wrap 32 (length - 1)));
    start ← unwrap (get STEPS length);
    let remainder := progress mod INTERVAL in
    Ok (start - wrap 128 ((start - end_) * remainder) / INTERVAL).
End minimum.

Definition is_reserved (dune : Z) : bool := RESERVED <=? dune.

Definition reserved (n : Z) : outcome unit Z := unwrap (checked_add 128 RESERVED n).

(** [Display for Dune]: base 26 without a zero digit, least significant letter
    first; [fuel] bounds the number of letters. *)
Definition letters : rust_string :=
  [65; 66; 67; 68; 69; 70; 71; 72; 73; 74; 75; 76; 77; 78; 79; 80; 81; 82; 83;
   84; 85; 86; 87; 88; 89; 90].

Definition max_name : rust_string :=
  [66; 67; 71; 68; 69; 78; 76; 81; 82; 81; 87; 68; 83; 76; 82; 85; 71; 83; 78;
   76; 66; 84; 77; 70; 73; 74; 65; 86].

Fixpoint dune_symbol (fuel : nat) (n : Z) : outcome unit rust_string :=
  if n <=? 0 then Ok []
  else match fuel with
       | O => Err tt
       | S f => c ← unwrap (get letters ((n - 1) mod 26));
                symbol ← dune_symbol f ((n - 1) / 26);
                Ok (c :: symbol)
       end.

Definition name_fuel : nat := 28.

Definition Dune_to_string (dune : Z) : outcome unit rust_string :=
  if dune =? umax 128 then Ok max_name
  else symbol ← dune_symbol name_fuel (wrap 128 (dune + 1)); Ok (rev symbol).

(** [FromStr for Dune]. *)
Inductive name_error : Type := OutOfRange | InvalidCharacter (c : Z).

Definition is_upper (c : Z) : bool := (65 <=? c) && (c <=? 90).

Fixpoint Dune_from_str_loop (i : nat) (x : Z) (s : rust_string) : outcome name_error Z :=
  match s with
  | [] => Ok x
  | c :: s' =>
      let x := if (0 <? i)%nat then wrap 128 (x + 1) else x in
      x ← ok_or OutOfRange (checked_mul 128 x 26);
      if is_upper c then
        x ← ok_or OutOfRange (checked_add 128 x (c - 65));
        Dune_from_str_loop (S i) x s'
      else Err (InvalidCharacter c)
  end.

Definition Dune_from_str (s : rust_string) : outcome name_error Z :=
  Dune_from_str_loop 0 0 s.

(** ** dune_id.rs *)

Record DuneId : Type := mkDuneId { height : Z; index : Z }.

#[export] Instance DuneId_eq_dec : EqDecision DuneId.
Proof. solve_decision. Defined.

#[export] Program Instance DuneId_countable : Countable DuneId :=
  inj_countable' (λ i, (height i, index i)) (λ p, mkDuneId p.1 p.2) _.
Next Obligation. by intros []. Qed.

Definition DuneId_ok (id : DuneId) : Prop := u64_ok (height id) ∧ u32_ok (index id).

(** [TryFrom<u128> for DuneId] and [From<DuneId> for u128]. *)
Definition DuneId_try_from (n : Z) : option DuneId :=
  h ← try_into 64 (Z.shiftr n 16); Some (mkDuneId h (Z.land n 65535)).

Definition u128_from_DuneId (id : DuneId) : Z :=
  Z.lor (Z.shiftl (height id) 16) (index id).

Definition DuneId_to_string (id : DuneId) : rust_string :=
  to_string (height id) ++ [58] ++ to_string (index id).

Inductive dune_id_error : Type := NoSeparator | BadInteger (e : IntErrorKind).

Definition parse_field (w : Z) (s : rust_string) : outcome dune_id_error Z :=
  match parse_uint w s with
  | Ok n => Ok n
  | Err e => Err (BadInteger e)
  | Panic => Panic
  end.

Definition DuneId_from_str (s : rust_string) : outcome dune_id_error DuneId :=
  match split_once 58 s with
  | None => Err NoSeparator
  | Some (h, i) =>
      h ← parse_field 64 h;
      i ← parse_field 32 i;
      Ok (mkDuneId h i)
  end.

(** ** spaced_dune.rs *)

Record SpacedDune : Type := mkSpacedDune { sd_dune : Z; sd_spacers : Z }.

Inductive spaced_error : Type :=
| LeadingSpacer | DoubleSpacer | TrailingSpacer | BadSpacedCharacter
| BadName (e : name_error).

(** The shift amount of a [u32] shift is taken modulo 32. *)
Definition shl32 (k : Z) : Z := Z.shiftl 1 (k mod 32).

Fixpoint spaced_from_str_loop (dune : rust_string) (spacers : Z) (s : rust_string)
  : outcome spaced_error (rust_string * Z) :=
  match s with
  | [] => Ok (dune, spacers)
  | c :: s' =>
      if is_upper c then spaced_from_str_loop (dune ++ [c]) spacers s'
      else if (c =? 46) || (c =? 8226) then
        if Z.of_nat (length dune) <? 1 then Err LeadingSpacer
        else
          let flag := shl32 (Z.of_nat (length dune) - 1) in
          if negb (Z.land spacers flag =? 0) then Err DoubleSpacer
          else spaced_from_str_loop dune (Z.lor spacers flag) s'
      else Err BadSpacedCharacter
  end.

(** [32 - x.leading_zeros()] of a [u32]. *)
Definition bit_length (x : Z) : Z := if x =? 0 then 0 else Z.log2 x + 1.

Definition SpacedDune_from_str (s : rust_string) : outcome spaced_error SpacedDune :=
  '(dune, spacers) ← spaced_from_str_loop [] 0 s;
  if Z.of_nat (length dune) <=? bit_length spacers then Err TrailingSpacer
  else match Dune_from_str dune with
       | Ok d => Ok (mkSpacedDune d spacers)
       | Err e => Err (BadName e)
       | Panic => Panic
       end.

Fixpoint spaced_chars (len i : nat) (spacers : Z) (s : rust_string) : rust_string :=
  match s with
  | [] => []
  | c :: s' =>
      (c :: (if (i <? len - 1)%nat
                && negb (Z.land spacers (shl32 (Z.of_nat i)) =? 0) then [8226] else []))
      ++ spaced_chars len (S i) spacers s'
  end.

Definition SpacedDune_to_string (d : SpacedDune) : outcome unit rust_string :=
  dune ← Dune_to_string (sd_dune d);
  Ok (spaced_chars (length dune) 0 (sd_spacers d) dune).

(** ** flag.rs *)

Inductive Flag : Type := FlagEtching | FlagTerms | FlagTurbo | FlagCenotaph.

Definition flag_bit (f : Flag) : Z :=
  match f with FlagEtching => 0 | FlagTerms => 1 | FlagTurbo => 2 | FlagCenotaph => 127 end.

Definition flag_mask (f : Flag) : Z := Z.shiftl 1 (flag_bit f).

(** [take]: whether the flag was set, and the flags with it cleared. *)
Definition flag_take (f : Flag) (flags : Z) : bool * Z :=
  let mask := flag_mask f in
  (negb (Z.land flags mask =? 0), Z.land flags (umax 128 - mask)).

Definition flag_set (f : Flag) (flags : Z) : Z := Z.lor flags (flag_mask f).

(** ** terms.rs, etching.rs, edict.rs *)

Record Terms : Type := mkTerms {
  t_limit : option Z;
  t_cap : option Z;
  t_height : option Z * option Z;
  t_offset : option Z * option Z;
}.

Record Etching : Type := mkEtching {
  e_divisibility : option Z;
  e_terms : option Terms;
  e_premine : option Z;
  e_dune : option Z;
  e_spacers : option Z;
  e_symbol : option Z;
  e_turbo : bool;
}.

Record Edict : Type := mkEdict { ed_id : Z; ed_amount : Z; ed_output : Z }.

(** [Edict::from_integers]; [n_outputs] is [tx.output.len()]. *)
Definition Edict_from_integers (n_outputs : Z) (id amount output : Z) : option Edict :=
  dune_id ← DuneId_try_from id;
  if (height dune_id =? 0) && (0 <? index dune_id) then None
  else if n_outputs <? output then None
  else Some (mkEdict id amount output).

(** ** Names: printing and parsing *)

(** How many names have at most [k] letters: the table [STEPS] in closed form. *)
Fixpoint names (k : nat) : Z :=
  match k with O => 0 | S k' => 26 * names k' + 26 end.

Lemma STEPS_names (k : nat) : (k < 28)%nat → get STEPS (Z.of_nat k) = Some (names k).
Proof. intros Hk. rewrite get_nat. do 28 (destruct k as [|k]; [done|]). lia. Qed.

Lemma names_mono i j : (i ≤ j)%nat → names i ≤ names j.
Proof.
  induction 1 as [|j _ IH]; [done|]. cbn [names].
  assert (0 ≤ names j) by (clear; induction j; cbn [names]; lia). lia.
Qed.

Lemma names_nonneg k : 0 ≤ names k.
Proof. apply (names_mono 0). lia. Qed.

(** Names of at most 27 letters are all below the largest value, names of 28
    letters are not. *)
Lemma names_bound k : (k ≤ 27)%nat → names k < umax 128.
Proof.
  intros Hk. eapply Z.le_lt_trans; [by apply names_mono|]. by vm_compute.
Qed.

Lemma names_28 : 2 ^ 128 < names 28.
Proof. by vm_compute. Qed.

Lemma get_letters k : 0 ≤ k < 26 → get letters k = Some (65 + k).
Proof.
  intros Hk. assert (∃ i, k = Z.of_nat i ∧ (i < 26)%nat) as (i & -> & Hi)
    by (exists (Z.to_nat k); lia).
  rewrite get_nat. clear Hk. do 26 (destruct i as [|i]; [done|]). lia.
Qed.

(** One letter of the parser. *)
Definition next_name (i : nat) (x d : Z) : Z :=
  (if (0 <? i)%nat then x + 1 else x) * 26 + d.

Lemma from_str_step i x d :
  0 ≤ d < 26 → 0 ≤ x → next_name i x d < 2 ^ 128 →
  Dune_from_str_loop i x [65 + d] = Ok (next_name i x d).
Proof.
  intros Hd Hx Hb. cbn [Dune_from_str_loop]. unfold next_name in *.
  set (y := if (0 <? i)%nat then x + 1 else x) in *.
  assert (0 ≤ y < 2 ^ 128) as Hy by (unfold y in *; destruct (0 <? i)%nat; lia).
  replace (if (0 <? i)%nat then wrap 128 (x + 1) else x) with y.
  2:{ unfold y in *. destruct (0 <? i)%nat; [|done]. by rewrite wrap_small. }
  unfold checked_mul, checked_add. rewrite try_into_ok by (unfold in_range; lia).
  cbn [ok_or mbind outcome_bind].
  replace (is_upper (65 + d)) with true by (symmetry; unfold is_upper; lia).
  rewrite try_into_ok by (unfold in_range; lia). cbn. f_equal. lia.
Qed.

Lemma from_str_step_inv i x c n :
  0 ≤ x < umax 128 → Dune_from_str_loop i x [c] = Ok n →
  ∃ d, c = 65 + d ∧ 0 ≤ d < 26 ∧ n = next_name i x d.
Proof.
  intros Hx. cbn [Dune_from_str_loop]. unfold next_name, umax in *. intros H. run_inv.
  exists (c - 65). unfold is_upper in *.
  match goal with H : (_ && _) = true |- _ => rename H into Hc end.
  unfold checked_mul, checked_add, ok_or in *. run_inv.
  repeat match goal with H : try_into _ _ = Some _ |- _ => apply try_into_Some in H as [-> ?] end.
  destruct (0 <? i)%nat; [rewrite wrap_small by (unfold in_range; lia)|];
    split_and!; lia.
Qed.

Lemma from_str_app i x s1 s2 :
  Dune_from_str_loop i x (s1 ++ s2)
  = Dune_from_str_loop i x s1 ≫= λ y, Dune_from_str_loop (i + length s1) y s2.
Proof.
  revert i x. induction s1 as [|c s1 IH]; intros i x; cbn [app length].
  - cbn [Dune_from_str_loop mbind outcome_bind]. by rewrite Nat.add_0_r.
  - cbn [Dune_from_str_loop].
    destruct (ok_or OutOfRange (checked_mul 128 _ 26)); [|done|done]. cbn [mbind outcome_bind].
    destruct (is_upper c); [|done].
    destruct (ok_or OutOfRange (checked_add 128 _ _)); [|done|done]. cbn [mbind outcome_bind].
    rewrite IH. by rewrite Nat.add_succ_r.
Qed.

Lemma dune_symbol_0 fuel : dune_symbol fuel 0 = Ok [].
Proof. by destruct fuel. Qed.

Lemma dune_symbol_S f m :
  0 ≤ m → dune_symbol (S f) (m + 1)
  = symbol ← dune_symbol f (m / 26); Ok (65 + m mod 26 :: symbol).
Proof.
  intros Hm. cbn [dune_symbol]. destruct (Z.leb_spec (m + 1) 0); [lia|].
  replace (m + 1 - 1) with m by lia.
  by rewrite get_letters by (apply Z.mod_pos_bound; lia).
Qed.

(** The letters of [m]: they read back as [m], and their number is the least
    [k] with [m < names k]. *)
Lemma dune_symbol_spec fuel m :
  0 ≤ m < names fuel → m < 2 ^ 128 →
  ∃ s, dune_symbol fuel (m + 1) = Ok s ∧ s ≠ [] ∧ Forall (λ c, is_upper c = true) s
    ∧ (∀ k, (length s ≤ k)%nat ↔ m < names k) ∧ Dune_from_str (rev s) = Ok m.
Proof.
  revert m. induction fuel as [|f IH]; intros m [Hm Hf] Hmax; [cbn in Hf; lia|].
  cbn [names] in Hf. rewrite dune_symbol_S by done.
  pose proof (Z.div_mod m 26). pose proof (Z.mod_pos_bound m 26).
  assert (is_upper (65 + m mod 26) = true) by (unfold is_upper; lia).
  destruct (Z.lt_ge_cases m 26) as [Hlt|Hge].
  - rewrite (Z.div_small m 26), dune_symbol_0, Z.mod_small in * by lia.
    exists [65 + m]. repeat split; try done.
    + by repeat constructor.
    + cbn [length]. intros ?. pose proof (names_mono 1 k). cbn in *. lia.
    + intros ?. destruct k; cbn in *; lia.
    + apply (from_str_step 0); unfold next_name; cbn; lia.
  - destruct (IH (m / 26 - 1)) as (s & Hs & Hne & HF & Hk & Hp); [lia|lia|].
    rewrite Z.sub_add in Hs. exists (65 + m mod 26 :: s). rewrite Hs.
    split; [done|]. split; [done|]. split; [by constructor|]. split.
    + intros [|k]; cbn [length names]; [lia|]. rewrite <- Nat.succ_le_mono, Hk. lia.
    + unfold Dune_from_str in *. cbn [rev]. rewrite from_str_app, Hp.
      cbn [mbind outcome_bind]. assert (length (rev s) ≠ 0)%nat
        by (rewrite length_rev; by destruct s).
      assert (next_name (0 + length (rev s)) (m / 26 - 1) (m mod 26) = m) as E
        by (unfold next_name; destruct (Nat.ltb_spec 0 (0 + length (rev s))); lia).
      rewrite from_str_step by (rewrite ?E; lia). by rewrite E.
Qed.

Lemma from_str_symbol s n :
  s ≠ [] → (length s ≤ 28)%nat → Dune_from_str s = Ok n →
  0 ≤ n < names (length s)
  ∧ ∀ fuel, (length s ≤ fuel)%nat → dune_symbol fuel (n + 1) = Ok (rev s).
Proof.
  unfold Dune_from_str. revert n. induction s as [|c s IH] using rev_ind; [done|].
  intros n _ Hl. rewrite length_app in *. cbn [length] in *. rewrite from_str_app.
  intros (x & Hx & Hn)%outcome_bind_Ok.
  assert (0 ≤ x < umax 128 ∧ (s ≠ [] → x < names (length s)) ∧ (s = [] → x = 0))
    as (Hx0 & Hx1 & Hx2).
  { destruct (decide (s = [])) as [->|Hne]; [cbn in Hx; injection Hx as <-; done|].
    destruct (IH x Hne ltac:(lia) Hx) as [Hb _].
    pose proof (names_bound (length s) ltac:(lia)). split; [lia|]. split; [intros; lia|by intros ->]. }
  apply from_str_step_inv in Hn as (d & -> & Hd & ->); [|done].
  unfold next_name. rewrite Nat.add_1_r, Nat.add_0_l, rev_app_distr. cbn [names rev app].
  destruct (decide (s = [])) as [->|Hne].
  - rewrite (Hx2 eq_refl). split; [cbn; lia|]. intros [|f] Hf; [cbn in Hf; lia|].
    change ((if (0 <? length [])%nat then 0 + 1 else 0) * 26 + d) with d.
    rewrite dune_symbol_S, Z.div_small, Z.mod_small by lia. by rewrite dune_symbol_0.
  - destruct (IH x Hne ltac:(lia) Hx) as [Hb Hs]. destruct s as [|c' s']; [done|].
    cbn [length Nat.ltb Nat.leb] in *. split; [lia|]. intros [|f] Hf; [lia|].
    rewrite dune_symbol_S by lia.
    rewrite <- (Z.div_unique ((x + 1) * 26 + d) 26 (x + 1) d) by lia.
    rewrite <- (Z.mod_unique ((x + 1) * 26 + d) 26 (x + 1) d) by lia.
    by rewrite Hs by (cbn; lia).
Qed.

(** Printing never panics, and what it prints parses back. *)
Lemma Dune_to_string_spec (n : Z) :
  in_range 128 n →
  ∃ s, Dune_to_string n = Ok s ∧ Dune_from_str s = Ok n
    ∧ Forall (λ c, is_upper c = true) s ∧ (0 < length s ≤ 28)%nat
    ∧ ∀ k, (k < 28)%nat → ((length s ≤ k)%nat ↔ n < names k).
Proof.
  intros Hn. unfold Dune_to_string. destruct (Z.eqb_spec n (umax 128)) as [->|Hne].
  - exists max_name. split; [done|]. split; [by vm_compute|].
    split; [by repeat constructor|]. split; [cbn; lia|].
    intros k Hk. pose proof (names_bound k ltac:(lia)). cbn [length max_name]. lia.
  - unfold umax, in_range in *. rewrite wrap_small by (unfold in_range; lia).
    assert (n < names 28) by (pose proof names_28; lia).
    destruct (dune_symbol_spec name_fuel n) as (s & -> & Hs & HF & Hk & Hp);
      [unfold name_fuel; lia|lia|].
    exists (rev s). rewrite length_rev. split; [done|]. split; [done|].
    split; [by apply Forall_rev|]. split; [|auto].
    split; [destruct s; [done|cbn; lia]|]. apply Hk. lia.
Qed.

(** Every dune value prints as a non-empty string of capital letters, in
    at most 28 letters and without a panic, and the printed name parses back to
    the same value; the number of letters is at most [k] exactly when the value
    is below the [k]-th entry of [STEPS] (the boundary the minimum name length
    is expressed with). *)
Theorem Dune_display_parse (n : Z) :
  in_range 128 n →
  ∃ s, Dune_to_string n = Ok s ∧ Dune_from_str s = Ok n
    ∧ Forall (λ c, is_upper c = true) s ∧ (0 < length s ≤ 28)%nat
    ∧ ∀ k st, get STEPS (Z.of_nat k) = Some st → ((length s ≤ k)%nat ↔ n < st).
Proof.
  intros Hn. destruct (Dune_to_string_spec n Hn) as (s & H1 & H2 & H3 & H4 & Hk).
  exists s. do 4 (split; [done|]). intros k st Hst.
  pose proof (get_Some _ _ _ Hst) as [Hb _]. cbn in Hb.
  rewrite STEPS_names in Hst by lia. injection Hst as <-. apply Hk. lia.
Qed.

Lemma Dune_display_parse_witness :
  ∃ s, Dune_to_string 701 = Ok s ∧ Dune_from_str s = Ok 701
    ∧ Forall (λ c, is_upper c = true) s ∧ (0 < length s ≤ 28)%nat
    ∧ ∀ k st, get STEPS (Z.of_nat k) = Some st → ((length s ≤ k)%nat ↔ 701 < st).
Proof. apply Dune_display_parse. by vm_compute. Defined.

(** A name of at most 28 letters that parses is the name its value prints
    as, so two different names never stand for the same dune. *)
Theorem Dune_parse_display (s : rust_string) (n : Z) :
  s ≠ [] → (length s ≤ 28)%nat → Dune_from_str s = Ok n → Dune_to_string n = Ok s.
Proof.
  intros Hne Hl Hp. destruct (from_str_symbol s n Hne Hl Hp) as [Hb Hs].
  specialize (Hs 28%nat Hl). unfold Dune_to_string.
  destruct (Z.eqb_spec n (umax 128)) as [->|Hn].
  - assert (dune_symbol 28 (umax 128 + 1) = Ok (rev max_name)) as E by by vm_compute.
    rewrite E in Hs. injection Hs as Hs. f_equal.
    rewrite <- (rev_involutive s), <- Hs. by vm_compute.
  - assert (n < 2 ^ 128) as Hmax.
    { destruct (Z.lt_ge_cases n (2 ^ 128)) as [|Hge]; [done|exfalso].
      revert Hp. unfold Dune_from_str. apply app_removelast_last with (d := 0) in Hne as ->.
      rewrite from_str_app. intros (x & _ & Hx)%outcome_bind_Ok. cbn in Hx. run_inv.
      unfold ok_or, checked_add in *. run_inv.
      repeat match goal with H : try_into _ _ = Some _ |- _ => apply try_into_Some in H as [-> ?] end.
      unfold in_range in *. lia. }
    unfold umax in Hn. rewrite wrap_small by (unfold in_range; lia).
    change name_fuel with 28%nat. rewrite Hs. cbn. by rewrite rev_involutive.
Qed.

Lemma Dune_parse_display_witness : Dune_to_string 27 = Ok [65; 66].
Proof. apply Dune_parse_display; [done|cbn; lia|by vm_compute]. Defined.

(** Beyond 28 letters the parser is not injective: after the name of
    [u128::MAX] the increment [x += 1] wraps to 0, and that name followed by
    the letter A is accepted as the dune 0, whose name is A. *)
Theorem Dune_parse_wraps :
  Dune_from_str (max_name ++ [65]) = Ok 0 ∧ Dune_to_string 0 = Ok [65].
Proof. split; by vm_compute. Qed.

(** ** Names with spacers *)

Lemma land_pow2 x k : 0 ≤ k → Z.land x (2 ^ k) = if Z.testbit x k then 2 ^ k else 0.
Proof.
  intros Hk. apply Z.bits_inj'. intros j Hj. rewrite Z.land_spec, Z.pow2_bits_eqb by done.
  destruct (Z.eqb_spec k j) as [<-|Hne].
  - rewrite andb_true_r. destruct (Z.testbit x k).
    + by rewrite Z.pow2_bits_true.
    + by rewrite Z.bits_0.
  - rewrite andb_false_r. destruct (Z.testbit x k); [|by rewrite Z.bits_0].
    by rewrite Z.pow2_bits_false.
Qed.

Lemma land_pow2_eqb x k : 0 ≤ k → (Z.land x (2 ^ k) =? 0) = negb (Z.testbit x k).
Proof.
  intros Hk. rewrite land_pow2 by done. pose proof (Z.pow_pos_nonneg 2 k).
  destruct (Z.testbit x k); [|done]. apply Z.eqb_neq. lia.
Qed.

Lemma low_bits_succ x k :
  0 ≤ k → Z.land x (Z.ones (k + 1))
  = Z.lor (Z.land x (Z.ones k)) (if Z.testbit x k then 2 ^ k else 0).
Proof.
  intros Hk. apply Z.bits_inj'. intros j Hj.
  rewrite Z.lor_spec, !Z.land_spec, !Z.testbit_ones_nonneg by lia.
  replace (Z.testbit (if Z.testbit x k then 2 ^ k else 0) j)
    with (Z.testbit x k && (k =? j)).
  2:{ destruct (Z.testbit x k); [by rewrite Z.pow2_bits_eqb|by rewrite Z.bits_0]. }
  destruct (Z.ltb_spec j (k + 1)), (Z.ltb_spec j k), (Z.eqb_spec k j) as [<-|];
    try lia; rewrite ?andb_true_r, ?andb_false_r, ?orb_false_r; done.
Qed.

Lemma shl32_small k : 0 ≤ k < 32 → shl32 k = 2 ^ k.
Proof. intros. unfold shl32. rewrite Z.mod_small, Z.shiftl_1_l by done. done. Qed.

(** The parser rebuilds the spacer bits below the position it has reached. *)
Lemma spaced_from_str_chars len spacers s pre :
  Forall (λ c, is_upper c = true) s → (length pre + length s = len)%nat →
  (0 < len ≤ 28)%nat → 0 ≤ spacers < 2 ^ (Z.of_nat len - 1) →
  spaced_from_str_loop pre (Z.land spacers (Z.ones (Z.of_nat (length pre))))
    (spaced_chars len (length pre) spacers s)
  = Ok (pre ++ s, spacers).
Proof.
  intros HF. revert pre. induction HF as [|c s Hc HF IH]; intros pre Hl Hlen Hsp.
  - cbn in *. rewrite app_nil_r. do 2 f_equal. rewrite Z.land_ones by lia.
    apply Z.mod_small. pose proof (Z.pow_le_mono_r 2 (Z.of_nat len - 1) (Z.of_nat (length pre))).
    lia.
  - cbn [spaced_chars app spaced_from_str_loop length] in *. rewrite Hc.
    specialize (IH (pre ++ [c])). rewrite length_app, Nat.add_1_r in IH. cbn [length] in IH.
    rewrite <- app_assoc in IH. cbn [app] in IH.
    rewrite <- IH by lia. clear IH.
    rewrite (Nat2Z.inj_succ (length pre)), <- Z.add_1_r, low_bits_succ by lia.
    rewrite shl32_small, land_pow2_eqb, negb_involutive by lia.
    assert (Z.testbit spacers (Z.of_nat (length pre)) = true → (length pre < len - 1)%nat) as Hb.
    { intros Ht. destruct (Nat.lt_ge_cases (length pre) (len - 1)) as [|Hge]; [done|].
      by rewrite (testbit_small _ _ _ Hsp) in Ht by lia. }
    destruct (Z.testbit spacers (Z.of_nat (length pre))) eqn:Ht.
    + destruct (Nat.ltb_spec (length pre) (len - 1)) as [_|]; [|specialize (Hb eq_refl); lia].
      cbn [andb app spaced_from_str_loop]. change (is_upper 8226) with false.
      cbn match. change ((8226 =? 46) || (8226 =? 8226)) with true. cbn match.
      rewrite length_app. cbn [length].
      destruct (Z.ltb_spec (Z.of_nat (length pre + 1)) 1); [lia|].
      replace (Z.of_nat (length pre + 1) - 1) with (Z.of_nat (length pre)) by lia.
      rewrite shl32_small, land_pow2_eqb, Z.land_spec, Z.testbit_ones_nonneg by lia.
      rewrite Z.ltb_irrefl, andb_false_r. done.
    + rewrite andb_false_r. cbn [app]. by rewrite Z.lor_0_r.
Qed.

(** A spaced name prints and parses back, letters and spacers both, when
    its spacers lie between two letters of the name (the only ones that are
    printed). *)
Theorem SpacedDune_display_parse (d : SpacedDune) (name : rust_string) :
  in_range 128 (sd_dune d) → Dune_to_string (sd_dune d) = Ok name →
  0 ≤ sd_spacers d < 2 ^ (Z.of_nat (length name) - 1) →
  ∃ s, SpacedDune_to_string d = Ok s ∧ SpacedDune_from_str s = Ok d.
Proof.
  destruct d as [n sp]. cbn [sd_dune sd_spacers]. intros Hn Hs Hsp.
  destruct (Dune_to_string_spec n Hn) as (s' & Hs' & Hp & HF & Hl & _).
  rewrite Hs in Hs'. injection Hs' as <-.
  unfold SpacedDune_to_string. cbn [sd_dune sd_spacers]. rewrite Hs. cbn [mbind outcome_bind].
  eexists. split; [done|]. unfold SpacedDune_from_str.
  pose proof (spaced_from_str_chars (length name) sp name [] HF) as Hc.
  cbn [length app] in Hc. change (Z.land sp (Z.ones (Z.of_nat 0))) with (Z.land sp 0) in Hc.
  rewrite Z.land_0_r in Hc. rewrite Hc by (done || lia). cbn [mbind outcome_bind].
  assert (bit_length sp < Z.of_nat (length name)) as Hbl.
  { unfold bit_length. destruct (Z.eqb_spec sp 0); [lia|].
    pose proof (Z.log2_lt_pow2 sp (Z.of_nat (length name) - 1)). lia. }
  destruct (Z.leb_spec (Z.of_nat (length name)) (bit_length sp)); [lia|]. by rewrite Hp.
Qed.

Lemma SpacedDune_display_parse_witness :
  ∃ s, SpacedDune_to_string (mkSpacedDune 18277 2) = Ok s
    ∧ SpacedDune_from_str s = Ok (mkSpacedDune 18277 2).
Proof.
  apply (SpacedDune_display_parse _ [90; 90; 90]); [by vm_compute|by vm_compute|cbn; lia].
Defined.

(** ** Identifiers *)

Lemma u128_from_DuneId_sum id :
  0 ≤ index id < 2 ^ 16 → 
  u128_from_DuneId id = height id * 2 ^ 16 + index id.
Proof.
  intros Hi. unfold u128_from_DuneId. rewrite Z.shiftl_mul_pow2 by lia.
  symmetry. rewrite Z.add_nocarry_lxor, Z.lxor_lor; [done|..];
    apply Z.bits_inj'; intros j Hj; rewrite Z.land_spec, Z.bits_0, Z.mul_pow2_bits by lia.
  all: destruct (Z.lt_ge_cases j 16) as [|Hge]; [by rewrite Z.testbit_neg_r by lia|].
  all: by rewrite (testbit_small _ _ _ Hi), ?andb_false_r by lia.
Qed.

Lemma DuneId_try_from_spec n :
  0 ≤ n < 2 ^ 80 → DuneId_try_from n = Some (mkDuneId (n / 2 ^ 16) (n mod 2 ^ 16)).
Proof.
  intros Hn. unfold DuneId_try_from. rewrite Z.shiftr_div_pow2 by lia.
  rewrite try_into_ok.
  - cbn. change 65535 with (Z.ones 16). by rewrite Z.land_ones by lia.
  - pose proof (Z.div_pos n (2 ^ 16)). pose proof (Z.div_lt_upper_bound n (2 ^ 16) (2 ^ 64)).
    unfold in_range. lia.
Qed.

Lemma DuneId_try_from_inv n i :
  0 ≤ n → DuneId_try_from n = Some i →
  u128_from_DuneId i = n ∧ u16_ok (index i) ∧ u64_ok (height i).
Proof.
  intros Hn Hi. unfold DuneId_try_from in Hi.
  destruct (try_into 64 (Z.shiftr n 16)) as [h|] eqn:E; [|done]. injection Hi as <-.
  apply try_into_Some in E as [-> Hh]. change 65535 with (Z.ones 16).
  rewrite Z.shiftr_div_pow2, Z.land_ones in * by lia.
  pose proof (Z.mod_pos_bound n (2 ^ 16)). pose proof (Z.div_mod n (2 ^ 16)).
  rewrite u128_from_DuneId_sum by (cbn; lia). cbn [height index].
  split; [lia|]. split; [unfold in_range; lia|done].
Qed.

Lemma DuneId_try_from_pack id :
  u64_ok (height id) → u16_ok (index id) → DuneId_try_from (u128_from_DuneId id) = Some id.
Proof.
  intros Hh Hi. rewrite u128_from_DuneId_sum by done. unfold in_range in *.
  destruct id as [h i]. cbn [height index] in *. rewrite DuneId_try_from_spec by lia.
  do 2 f_equal.
  - symmetry. apply (Z.div_unique _ _ _ i); lia.
  - symmetry. apply (Z.mod_unique _ _ h); lia.
Qed.

Lemma DuneId_try_from_inj a b i :
  0 ≤ a → 0 ≤ b → DuneId_try_from a = Some i → DuneId_try_from b = Some i → a = b.
Proof.
  intros Ha Hb Hai Hbi. apply DuneId_try_from_inv in Hai as [<- _]; [|done].
  by apply DuneId_try_from_inv in Hbi as [<- _].
Qed.

(** Packing an identifier in an integer and unpacking it are inverse to
    each other, exactly on transaction indexes that fit in 16 bits (the width
    [etched] enforces) and on integers below 2^80. *)
Theorem DuneId_pack_unpack (id : DuneId) (n : Z) :
  (u64_ok (height id) → u16_ok (index id) →
     DuneId_try_from (u128_from_DuneId id) = Some id ∧ u128_from_DuneId id < 2 ^ 80)
  ∧ (in_range 128 n →
     (∀ i, DuneId_try_from n = Some i → u128_from_DuneId i = n ∧ u16_ok (index i))
     ∧ (DuneId_try_from n = None ↔ 2 ^ 80 ≤ n)).
Proof.
  split.
  - intros Hh Hi. split; [by apply DuneId_try_from_pack|].
    rewrite u128_from_DuneId_sum by done. unfold in_range in *. lia.
  - intros [Hn _]. split.
    + intros i Hi. by apply DuneId_try_from_inv in Hi as (? & ? & _).
    + destruct (Z.lt_ge_cases n (2 ^ 80)) as [Hlt|Hge].
      * rewrite DuneId_try_from_spec by lia. split; [done|lia].
      * split; [done|]. intros _. unfold DuneId_try_from.
        rewrite (proj2 (try_into_None _ _)); [done|].
        rewrite Z.shiftr_div_pow2 by lia. unfold in_range.
        pose proof (Z.div_le_lower_bound n (2 ^ 16) (2 ^ 64)). lia.
Qed.

(** An identifier prints as two numbers and parses back. *)
Theorem DuneId_display_parse (id : DuneId) :
  DuneId_ok id → DuneId_from_str (DuneId_to_string id) = Ok id.
Proof.
  intros [Hh Hi]. unfold DuneId_from_str, DuneId_to_string. cbn [app].
  rewrite split_once_app by (apply digits_ne; [done|]; apply to_string_digits, Hh).
  unfold parse_field. rewrite !parse_to_string by done. by destruct id.
Qed.

Lemma DuneId_display_parse_witness :
  DuneId_from_str (DuneId_to_string (mkDuneId 5084000 7)) = Ok (mkDuneId 5084000 7).
Proof. apply DuneId_display_parse. split; by vm_compute. Defined.

(** The claim bit is bit 48: [claim] clears it, and an identifier of a block
    below 2^32 never has it set. *)
Lemma claim_spec id id' :
  0 ≤ id → claim id = Some id' ↔ Z.testbit id 48 = true ∧ id' = id - 2 ^ 48.
Proof.
  intros Hid. unfold claim, CLAIM_BIT. rewrite Z.shiftl_1_l, land_pow2_eqb by lia.
  destruct (Z.testbit id 48) eqn:Ht; [|naive_solver]. cbn.
  assert (Z.lxor id (2 ^ 48) = id - 2 ^ 48) as ->; [|naive_solver].
  rewrite (Z.sub_nocarry_ldiff id (2 ^ 48)).
  - apply Z.bits_inj'. intros j Hj. rewrite Z.lxor_spec, Z.ldiff_spec, Z.pow2_bits_eqb by lia.
    destruct (Z.eqb_spec 48 j) as [<-|]; [by rewrite Ht|].
    by destruct (Z.testbit id j).
  - apply Z.bits_inj'. intros j Hj. rewrite Z.ldiff_spec, Z.pow2_bits_eqb, Z.bits_0 by lia.
    destruct (Z.eqb_spec 48 j) as [<-|]; [by rewrite Ht|done].
Qed.

Lemma claim_small id : 0 ≤ id < 2 ^ 48 → claim id = None.
Proof.
  intros Hid. unfold claim, CLAIM_BIT. rewrite Z.shiftl_1_l, land_pow2_eqb by lia.
  by rewrite (testbit_small _ _ _ Hid) by lia.
Qed.

(** Taking a flag tells whether its bit was set and clears it. *)
Lemma flag_take_spec f flags :
  in_range 128 flags →
  flag_take f flags
  = (Z.testbit flags (flag_bit f), Z.clearbit flags (flag_bit f)).
Proof.
  intros Hf. unfold flag_take, flag_mask. rewrite Z.shiftl_1_l.
  assert (0 ≤ flag_bit f < 128) as Hb by (destruct f; cbn; lia).
  rewrite land_pow2_eqb, negb_involutive by lia. f_equal.
  apply Z.bits_inj'. intros j Hj. rewrite Z.clearbit_eqb, Z.land_spec by lia.
  assert (umax 128 - 2 ^ flag_bit f = Z.ldiff (Z.ones 128) (2 ^ flag_bit f)) as ->.
  { change (umax 128) with (Z.ones 128). apply Z.sub_nocarry_ldiff.
    apply Z.bits_inj'. intros k Hk.
    rewrite Z.ldiff_spec, Z.pow2_bits_eqb, Z.testbit_ones_nonneg, Z.bits_0 by lia.
    destruct (Z.eqb_spec (flag_bit f) k) as [<-|]; [|done].
    destruct (Z.ltb_spec (flag_bit f) 128); [done|lia]. }
  rewrite Z.ldiff_spec, Z.pow2_bits_eqb, Z.testbit_ones_nonneg by lia.
  destruct (Z.ltb_spec j 128) as [|Hge]; [done|].
  by rewrite (testbit_small _ _ _ Hf) by lia.
Qed.

(** ** The minimum name at a height *)

Section minimum_props.
Variable SUBSIDY_HALVING_INTERVAL : Z.
Hypothesis interval_pos : 0 < SUBSIDY_HALVING_INTERVAL.
Hypothesis interval_div : (12 | SUBSIDY_HALVING_INTERVAL * 10).
Hypothesis interval_u32 : SUBSIDY_HALVING_INTERVAL * 10 < 2 ^ 31.

Let I : Z := SUBSIDY_HALVING_INTERVAL_10X SUBSIDY_HALVING_INTERVAL / 12.

Lemma interval_12 : SUBSIDY_HALVING_INTERVAL * 10 = 12 * I ∧ 0 < I.
Proof.
  unfold I, SUBSIDY_HALVING_INTERVAL_10X. destruct interval_div as [q Hq].
  rewrite Hq, Z.div_mul by done. lia.
Qed.

(** The interpolation between two steps, [k] intervals and [r] blocks in. *)
Definition interpolate (k : nat) (r : Z) : Z :=
  names (S k) - (names (S k) - names k) * r / I.

Lemma interpolate_bounds k r :
  (k < 12)%nat → 0 ≤ r < I → names k < interpolate k r ≤ names (S k).
Proof.
  intros Hk Hr. unfold interpolate. pose proof (names_mono k (S k) ltac:(lia)).
  assert (names k < names (S k)) by (cbn [names]; pose proof (names_nonneg k); lia).
  pose proof (Z.div_pos ((names (S k) - names k) * r) I ltac:(nia) ltac:(lia)).
  pose proof (Z.div_lt_upper_bound ((names (S k) - names k) * r) I
                (names (S k) - names k) ltac:(lia) ltac:(nia)). lia.
Qed.

Lemma interpolate_antitone k r r' :
  0 ≤ r ≤ r' → r' < I → interpolate k r' ≤ interpolate k r.
Proof.
  intros Hr Hr'. unfold interpolate. pose proof (names_mono k (S k) ltac:(lia)).
  pose proof (Z.div_le_mono ((names (S k) - names k) * r)
                ((names (S k) - names k) * r') I ltac:(lia) ltac:(nia)). lia.
Qed.

(** [progress] blocks after the start, below the end. *)
Definition minimum_after (progress : Z) : Z :=
  interpolate (11 - Z.to_nat (progress / I)) (progress mod I).

Lemma minimum_after_steps p :
  0 ≤ p < 12 * I → (Z.to_nat (p / I) ≤ 11)%nat ∧ 0 ≤ p mod I < I.
Proof.
  intros Hp. destruct interval_12 as [_ HI].
  pose proof (Z.div_lt_upper_bound p I 12 ltac:(lia) ltac:(lia)).
  pose proof (Z.div_pos p I ltac:(lia) ltac:(lia)).
  pose proof (Z.mod_pos_bound p I). lia.
Qed.

Lemma minimum_after_antitone p q :
  0 ≤ p ≤ q → q < 12 * I → minimum_after q ≤ minimum_after p ≤ names 12.
Proof.
  intros Hp Hq. destruct interval_12 as [_ HI]. unfold minimum_after.
  destruct (minimum_after_steps p) as [Kp Rp]; [lia|].
  destruct (minimum_after_steps q) as [Kq Rq]; [lia|].
  pose proof (interpolate_bounds (11 - Z.to_nat (p / I)) _ ltac:(lia) Rp) as [Bp1 Bp2].
  pose proof (interpolate_bounds (11 - Z.to_nat (q / I)) _ ltac:(lia) Rq) as [Bq1 Bq2].
  pose proof (Z.div_le_mono p q I ltac:(lia) ltac:(lia)) as Hd.
  pose proof (names_mono (S (11 - Z.to_nat (p / I))) 12 ltac:(lia)).
  split; [|lia]. destruct (decide (p / I = q / I)) as [E|Hne].
  - rewrite E. apply interpolate_antitone; [|lia].
    pose proof (Z.div_mod p I). pose proof (Z.div_mod q I). rewrite E in *. lia.
  - pose proof (Z.div_pos p I ltac:(lia) ltac:(lia)).
    pose proof (names_mono (S (11 - Z.to_nat (q / I))) (11 - Z.to_nat (p / I)) ltac:(lia)). lia.
Qed.

Lemma minimum_at_height_spec chain h :
  u32_ok h →
  minimum_at_height SUBSIDY_HALVING_INTERVAL chain h = Ok (
    let offset := saturating_add 32 h 1 in
    if offset <? first_dune_height chain then names 12
    else if first_dune_height chain + 12 * I <=? offset then 0
    else minimum_after (offset - first_dune_height chain)).
Proof.
  intros Hh. destruct interval_12 as [H10 HI]. unfold minimum_at_height. fold I.
  unfold SUBSIDY_HALVING_INTERVAL_10X. rewrite H10.
  assert (0 ≤ first_dune_height chain < 2 ^ 31) as Hs by (destruct chain; cbn; lia).
  rewrite (wrap_small 32) by (unfold in_range; lia).
  assert (in_range 32 (saturating_add 32 h 1)) as Ho
    by (apply saturating_add_range; unfold in_range in Hh; lia).
  set (o := saturating_add 32 h 1) in *. set (s := first_dune_height chain) in *.
  cbn zeta. destruct (Z.ltb_spec o s) as [|Hge]; [done|].
  destruct (Z.leb_spec (s + 12 * I) o) as [|Hlt]; [done|].
  assert (saturating_sub o s = o - s) as -> by (unfold saturating_sub; lia).
  destruct (minimum_after_steps (o - s)) as [Kp Rp]; [lia|].
  pose proof (Z.div_pos (o - s) I ltac:(lia) ltac:(lia)) as Hd.
  unfold minimum_after. set (j := (11 - Z.to_nat ((o - s) / I))%nat).
  assert (saturating_sub 12 ((o - s) / I) = Z.of_nat (S j)) as ->
    by (unfold saturating_sub, j; lia).
  replace (Z.of_nat (S j) - 1) with (Z.of_nat j) by lia.
  assert (j ≤ 11)%nat as Hj by (unfold j; lia). clearbody j.
  rewrite wrap_small by (unfold in_range; lia).
  rewrite !STEPS_names by lia. cbn [unwrap mbind outcome_bind].
  rewrite wrap_small; [done|]. pose proof (names_mono j (S j) ltac:(lia)).
  pose proof (names_mono (S j) 12 ltac:(lia)) as H12. pose proof (names_nonneg j).
  change (names 12) with 99246114928149462 in H12. unfold in_range. nia.
Qed.

(** At every height of every network the minimum name is computed without
    a panic, never grows with the height, starts at the 13-letter boundary
    [STEPS[12]] and is 0 (every name allowed) once ten halving intervals have
    passed.  The hypotheses are what the code relies on of the [bitcoin]
    crate's constant: twelve intervals cover the ten halvings exactly. *)
Theorem minimum_at_height_antitone (chain : Chain) (h h' : Z) :
  u32_ok h → u32_ok h' → h ≤ h' →
  ∃ m m', minimum_at_height SUBSIDY_HALVING_INTERVAL chain h = Ok m
    ∧ minimum_at_height SUBSIDY_HALVING_INTERVAL chain h' = Ok m'
    ∧ 0 ≤ m' ≤ m ∧ get STEPS 12 = Some (names 12) ∧ m ≤ names 12
    ∧ (h + 1 < first_dune_height chain → m = names 12)
    ∧ (first_dune_height chain + SUBSIDY_HALVING_INTERVAL * 10 ≤ h + 1 → h + 1 < 2 ^ 32 → m = 0).
Proof.
  intros Hh Hh' Hle. rewrite !minimum_at_height_spec by done.
  eexists _, _. split; [done|]. split; [done|]. destruct interval_12 as [H10 HI].
  rewrite H10. unfold in_range in *. cbn zeta.
  assert (saturating_add 32 h 1 ≤ saturating_add 32 h' 1) by (unfold saturating_add; lia).
  assert (h + 1 < 2 ^ 32 → saturating_add 32 h 1 = h + 1)
    by (unfold saturating_add, umax; lia).
  set (o := saturating_add 32 h 1) in *. set (o' := saturating_add 32 h' 1) in *.
  assert (0 ≤ first_dune_height chain < 2 ^ 31) as Hs by (destruct chain; cbn; lia).
  pose proof (names_nonneg 12). set (s := first_dune_height chain) in *.
  assert (∀ p, 0 ≤ p < 12 * I → 0 ≤ minimum_after p ≤ names 12) as Hma.
  { intros p Hp. destruct (minimum_after_steps p Hp) as [K R]. split; [|apply (minimum_after_antitone p p); lia].
    unfold minimum_after.
    pose proof (interpolate_bounds (11 - Z.to_nat (p / I)) _ ltac:(lia) R).
    pose proof (names_nonneg (11 - Z.to_nat (p / I))). lia. }
  destruct (Z.ltb_spec o s), (Z.ltb_spec o' s), (Z.leb_spec (s + 12 * I) o),
    (Z.leb_spec (s + 12 * I) o'); try lia;
  repeat match goal with |- context [minimum_after ?p] =>
    lazymatch goal with H : 0 ≤ minimum_after p ≤ _ |- _ => fail | _ => pose proof (Hma p ltac:(lia)) end end;
  try (pose proof (minimum_after_antitone (o - s) (o' - s) ltac:(lia) ltac:(lia)));
  (split; [lia|]; split; [reflexivity|]; split; [lia|]; split; intros; lia).
Qed.
End minimum_props.

Lemma minimum_at_height_antitone_witness :
  ∃ m m', minimum_at_height 210000 Mainnet 5259000 = Ok m
    ∧ minimum_at_height 210000 Mainnet 5300000 = Ok m'
    ∧ 0 ≤ m' ≤ m ∧ get STEPS 12 = Some (names 12) ∧ m ≤ names 12
    ∧ (5259000 + 1 < first_dune_height Mainnet → m = names 12)
    ∧ (first_dune_height Mainnet + 210000 * 10 ≤ 5259000 + 1 → 5259000 + 1 < 2 ^ 32 → m = 0).
Proof.
  apply minimum_at_height_antitone; [lia|by exists 175000|lia|by vm_compute|by vm_compute|lia].
Defined.

End Dunes.
