(* ===== verification/Dunestone.v ===== *)
(** Dunestones, [storage/runes/dunes/dunestone.rs] and [tag.rs]: how the
    protocol message of a transaction is read from its outputs.

    [payload] finds the first output that starts with [OP_RETURN "D"] and
    concatenates its pushes, [integers] splits the bytes in varints,
    [Message::from_integers] reads tag/value pairs and then edicts, and
    [decipher] turns the fields into a [Dunestone].  The instruction iterator
    of a script belongs to the [bitcoin] crate and is a parameter. *)

From S2P Require Import Prelude Varint Decimal Dunes.
Import Varint Decimal Dunes.

Module Dunestone.

(** ** tag.rs *)

Inductive Tag : Type :=
| TagBody | TagFlags | TagDune | TagLimit | TagOffsetEnd | TagDeadline | TagPointer
| TagHeightStart | TagOffsetStart | TagHeightEnd | TagCap | TagPremine | TagCenotaph
| TagDivisibility | TagSpacers | TagSymbol | TagNop.

Definition tag_number (t : Tag) : Z :=
  match t with
  | TagBody => 0 | TagFlags => 2 | TagDune => 4 | TagLimit => 6 | TagOffsetEnd => 8
  | TagDeadline => 10 | TagPointer => 12 | TagHeightStart => 14
  | TagOffsetStart => 16 | TagHeightEnd => 18 | TagCap => 20 | TagPremine => 22
  | TagCenotaph => 254 | TagDivisibility => 1 | TagSpacers => 3 | TagSymbol => 5
  | TagNop => 255
  end.

Abbreviation fields_map := (gmap Z Z).

Definition tag_take (t : Tag) (fields : fields_map) : option Z * fields_map :=
  (fields !! tag_number t, delete (tag_number t) fields).

Definition tag_encode (t : Tag) (value : Z) (payload : list Z) : outcome unit (list Z) :=
  payload ← encode_to_vec (tag_number t) payload;
  encode_to_vec value payload.

(** ** Scripts and transactions, as far as the message reads them *)

Inductive Instruction : Type := Op (opcode : Z) | PushBytes (push : list Z).

#[export] Instance Instruction_eq_dec : EqDecision Instruction.
Proof. solve_decision. Defined.

(** An element of the instruction iterator: an instruction or a script error. *)
Inductive script_error : Type := ScriptError (code : Z).

Definition OP_RETURN : Z := 106.

Record TxOut : Type := mkTxOut { value : Z; script_pubkey : list Z }.

(** ** dunestone.rs *)

Definition MAX_SPACERS : Z := 2 ^ 27 - 1.

Record Dunestone : Type := mkDunestone {
  edicts : list Edict;
  etching : option Etching;
  pointer : option Z;
  cenotaph : bool;
}.

Record Message : Type := mkMessage {
  m_cenotaph : bool;
  m_fields : fields_map;
  m_edicts : list Edict;
}.

(** The edicts after the body tag: chunks of three, identifiers as deltas. *)
Fixpoint body_edicts (n_outputs id : Z) (payload : list Z) : bool * list Edict :=
  match payload with
  | c0 :: c1 :: c2 :: rest =>
      let id := saturating_add 128 id c0 in
      let '(bad, edicts) := body_edicts n_outputs id rest in
      match Edict_from_integers n_outputs id c1 c2 with
      | Some edict => (bad, edict :: edicts)
      | None => (true, edicts)
      end
  | _ => (false, [])
  end.

(** [fields.entry(tag).or_insert(value)]: the first value of a tag stays. *)
Definition or_insert (fields : fields_map) (tag value : Z) : fields_map :=
  match fields !! tag with Some _ => fields | None => <[tag := value]> fields end.

Fixpoint from_integers_loop (n_outputs : Z) (fields : fields_map) (payload : list Z)
  : Message :=
  match payload with
  | [] => mkMessage false fields []
  | tag :: rest =>
      if tag =? tag_number TagBody then
        let '(bad, edicts) := body_edicts n_outputs 0 rest in
        mkMessage bad fields edicts
      else match rest with
           | [] => mkMessage false fields []
           | value :: rest' =>
               from_integers_loop n_outputs (or_insert fields tag value) rest'
           end
  end.

Definition Message_from_integers (n_outputs : Z) (payload : list Z) : Message :=
  from_integers_loop n_outputs ∅ payload.

(** [Dunestone::integers]: [fuel] bounds the number of varints by the number of
    bytes. *)
Fixpoint integers_loop (fuel : nat) (payload : list Z) : option (list Z) :=
  match payload with
  | [] => Some []
  | _ => match fuel with
         | O => None
         | S f => let '(integer, length) := decode payload in
                  integers ← integers_loop f (drop length payload);
                  Some (integer :: integers)
         end
  end.

Definition integers (payload : list Z) : list Z :=
  default [] (integers_loop (length payload) payload).

Definition char_from_u32 (c : Z) : option Z :=
  if (c <? 1114112) && negb ((55296 <=? c) && (c <=? 57343)) then Some c else None.

Definition then_some (b : bool) {A} (a : A) : option A := if b then Some a else None.

(** [fields.keys().any(|tag| tag % 2 == 0)]. *)
Definition any_even_key (fields : fields_map) : bool :=
  existsb (λ kv, kv.1 mod 2 =? 0) (map_to_list fields).

(** The body of [decipher] after the integers were read. *)
Definition decipher_message (msg : Message) : Dunestone :=
  let fields := m_fields msg in
  let '(pointer, fields) := tag_take TagPointer fields in
  let pointer := and_then pointer (try_into 32) in
  let '(divisibility, fields) := tag_take TagDivisibility fields in
  let divisibility :=
    and_then (and_then divisibility (try_into 8)) (λ d, then_some (d <=? MAX_DIVISIBILITY) d) in
  let '(limit, fields) := tag_take TagLimit fields in
  let limit := (λ l, Z.max 0 (Z.min l MAX_LIMIT)) <$> limit in
  let '(dune, fields) := tag_take TagDune fields in
  let '(cap, fields) := tag_take TagCap fields in
  let '(premine, fields) := tag_take TagPremine fields in
  let edicts :=
    m_edicts msg
    ++ (if 0 <? default 0 premine then [mkEdict 0 (default 0 premine) 1] else []) in
  let '(spacers, fields) := tag_take TagSpacers fields in
  let spacers := 
    and_then (and_then spacers (try_into 32)) (λ s, then_some (s <=? MAX_SPACERS) s) in
  let '(symbol, fields) := tag_take TagSymbol fields in
  let symbol := and_then (and_then symbol (try_into 32)) char_from_u32 in
  let '(height_start, fields) := tag_take TagHeightStart fields in
  let '(height_end, fields) := tag_take TagHeightEnd fields in
  let height := (and_then height_start (try_into 64), and_then height_end (try_into 64)) in
  let '(offset_start, fields) := tag_take TagOffsetStart fields in
  let '(offset_end, fields) := tag_take TagOffsetEnd fields in
  let offset := (and_then offset_start (try_into 64), and_then offset_end (try_into 64)) in
  let '(flags, fields) := tag_take TagFlags fields in
  let flags := default 0 flags in
  let '(etch, flags) := flag_take FlagEtching flags in
  let '(terms, flags) := flag_take FlagTerms flags in
  let '(turbo, flags) := flag_take FlagTurbo flags in
  let overflow :=
    match checked_mul 128 (default 0 cap) (default 0 limit) with
    | None => true
    | Some minted => match checked_add 128 (default 0 premine) minted with
                     | None => true | Some _ => false end
    end in
  let etching :=
    if etch then
      Some (mkEtching divisibility (then_some terms (mkTerms limit cap height offset))
              premine dune spacers symbol turbo)
    else None in
  mkDunestone edicts etching pointer
    (m_cenotaph msg || overflow || negb (flags =? 0) || any_even_key fields).

Section script.
(** [Script::instructions] of the [bitcoin] crate. *)
Variable instructions : list Z → list (outcome script_error Instruction).

(** The pushes after the two opening instructions. *)
Fixpoint collect_pushes (its : list (outcome script_error Instruction))
  : outcome script_error (list Z) :=
  match its with
  | [] => Ok []
  | r :: its' =>
      i ← r;
      rest ← collect_pushes its';
      Ok (match i with PushBytes push => push ++ rest | Op _ => rest end)
  end.

(** [instructions.next().transpose()?]. *)
Definition next_instruction (its : list (outcome script_error Instruction))
  : outcome script_error (option Instruction * list (outcome script_error Instruction)) :=
  match its with
  | [] => Ok (None, [])
  | r :: its' => i ← r; Ok (Some i, its')
  end.

Fixpoint payload (outputs : list TxOut) : outcome script_error (option (list Z)) :=
  match outputs with
  | [] => Ok None
  | output :: outputs' =>
      '(i1, its) ← next_instruction (instructions (script_pubkey output));
      if decide (i1 = Some (Op OP_RETURN)) then
        '(i2, its) ← next_instruction its;
        if decide (i2 = Some (PushBytes [68])) then
          payload ← collect_pushes its; Ok (Some payload)
        else payload outputs'
      else payload outputs'
  end.

Definition decipher (outputs : list TxOut) : outcome script_error (option Dunestone) :=
  p ← payload outputs;
  match p with
  | None => Ok None
  | Some payload =>
      Ok (Some (decipher_message
                  (Message_from_integers (Z.of_nat (length outputs)) (integers payload))))
  end.

Definition from_transaction (outputs : list TxOut) : option Dunestone :=
  match decipher outputs with Ok (Some d) => Some d | _ => None end.
End script.

(** ** Reading the integers *)

Lemma integers_loop_total fuel payload :
  (length payload ≤ fuel)%nat → is_Some (integers_loop fuel payload).
Proof.
  revert payload. induction fuel as [|f IH]; intros [|b l] Hl; cbn in Hl; try lia;
    [by eexists|by eexists|].
  cbn [integers_loop]. destruct (decode (b :: l)) as [n len] eqn:Hd.
  pose proof (decode_progress (b :: l) ltac:(done)) as Hp. rewrite Hd in Hp. cbn in Hp.
  destruct (IH (drop len (b :: l))) as [ns ->]; [rewrite length_drop; cbn; lia|].
  by eexists.
Qed.

Lemma integers_loop_mono f f' payload ns :
  integers_loop f payload = Some ns → (f ≤ f')%nat → integers_loop f' payload = Some ns.
Proof.
  revert f' payload ns. induction f as [|f IH]; intros f' [|b l] ns H Hle; try done;
    [by destruct f'|by destruct f'|].
  destruct f' as [|f']; [lia|]. cbn [integers_loop] in *.
  destruct (decode (b :: l)) as [n len].
  destruct (integers_loop f (drop len (b :: l))) as [ns'|] eqn:E; [|done].
  by rewrite (IH f' _ _ E) by lia.
Qed.

(** The loop reads one varint and goes on with the rest of the payload. *)
Lemma integers_unfold payload :
  payload ≠ [] →
  integers payload = (decode payload).1 :: integers (drop (decode payload).2 payload).
Proof.
  intros Hne. unfold integers at 1. destruct payload as [|b l]; [done|].
  cbn [integers_loop length]. destruct (decode (b :: l)) as [n len] eqn:Hd. cbn [fst snd].
  pose proof (decode_progress (b :: l) Hne) as Hp. rewrite Hd in Hp. cbn in Hp.
  unfold integers.
  destruct (integers_loop_total (length (drop len (b :: l))) (drop len (b :: l)))
    as [ns Hns]; [done|].
  rewrite Hns, (integers_loop_mono _ (length l) _ _ Hns); [done|].
  rewrite length_drop. cbn. lia.
Qed.

Lemma integers_range payload :
  bytes_ok payload → Forall (in_range 128) (integers payload).
Proof.
  remember (length payload) as n eqn:Hn. revert payload Hn.
  induction (lt_wf n) as [n _ IH]; intros payload -> Hb.
  destruct (decide (payload = [])) as [->|Hne]; [constructor|].
  rewrite integers_unfold by done. constructor; [by apply decode_range|].
  pose proof (decode_progress payload Hne).
  eapply IH; [|done|by apply Forall_drop]. rewrite length_drop. lia.
Qed.

(** ** Reading the fields *)

(** Tag/value pairs followed by a body: what the loop computes. *)
Lemma from_integers_pairs n_outputs fields pairs body :
  Forall (λ p, p.1 ≠ 0) pairs →
  from_integers_loop n_outputs fields
    (concat (map (λ p, [p.1; p.2]) pairs) ++ 0 :: body)
  = mkMessage (body_edicts n_outputs 0 body).1
      (fields ∪ list_to_map pairs) (body_edicts n_outputs 0 body).2.
Proof.
  intros HF. revert fields. induction HF as [|[t v] pairs Ht HF IH]; intros fields.
  - rewrite list_to_map_nil, (right_id_L ∅ (∪)). cbn.
    by destruct (body_edicts n_outputs 0 body).
  - cbn [map concat app from_integers_loop fst snd]. cbn in Ht.
    destruct (Z.eqb_spec t (tag_number TagBody)) as [E|_]; [done|].
    rewrite IH, list_to_map_cons. f_equal. unfold or_insert. cbn [fst snd].
    destruct (fields !! t) as [u|] eqn:E.
    + apply map_eq. intros i. rewrite !lookup_union.
      destruct (decide (i = t)) as [->|Hne]; [|by rewrite lookup_insert_ne].
      by rewrite E, !union_Some_l.
    + by rewrite <- insert_union_l, <- insert_union_r.
Qed.

Lemma body_edicts_spec n_outputs id body :
  Forall (λ e, (ed_output e ≤ n_outputs)
    ∧ ∃ i, DuneId_try_from (ed_id e) = Some i ∧ ¬ (height i = 0 ∧ 0 < index i))
    (body_edicts n_outputs id body).2.
Proof.
  remember (length body) as n eqn:Hn. revert id body Hn.
  induction (lt_wf n) as [n _ IH]; intros id body ->.
  destruct body as [|c0 [|c1 [|c2 rest]]]; try constructor. cbn [body_edicts].
  specialize (IH (length rest) ltac:(cbn; lia) (saturating_add 128 id c0) rest eq_refl).
  destruct (body_edicts n_outputs _ rest) as [bad es]. cbn in IH.
  destruct (Edict_from_integers _ _ _ _) as [e|] eqn:E; [|done]. cbn. constructor; [|done].
  unfold Edict_from_integers in E. destruct (DuneId_try_from _) as [i|] eqn:Hi; [|done].
  cbn in E. destruct (_ && _) eqn:Hc; [done|]. destruct (Z.ltb_spec n_outputs c2); [done|].
  injection E as <-. cbn. split; [lia|]. exists i. split; [done|]. lia.
Qed.

(** ** Properties *)

(** The payload loop always terminates within its fuel, and on a payload
    made of encoded integers it recovers exactly those integers, so messages
    survive the trip through a transaction. *)
Theorem integers_encode (ns : list Z) :
  Forall (in_range 128) ns →
  ∃ bytes, foldM (λ v n, encode_to_vec n v) [] ns = Ok bytes
    ∧ integers_loop (length bytes) bytes = Some ns ∧ integers bytes = ns.
Proof.
  intros HF.
  assert (∀ v, ∃ bytes, foldM (λ v n, encode_to_vec n v) v ns = Ok (v ++ bytes)
                        ∧ integers bytes = ns) as H.
  { induction HF as [|n ns Hn HF IH]; intros v; [exists []; by rewrite app_nil_r|].
    destruct (encode_loop_spec n Hn) as (pre & b & He & _ & _ & _ & Hd).
    cbn [foldM]. unfold encode_to_vec at 1. rewrite He. cbn [mbind outcome_bind].
    destruct (IH (v ++ (pre ++ [b]))) as (bytes & -> & Hi).
    exists ((pre ++ [b]) ++ bytes). split; [by rewrite <- !app_assoc|].
    rewrite integers_unfold by (destruct pre; discriminate). rewrite Hd. cbn [fst snd].
    rewrite drop_app_length'; [by rewrite Hi|]. rewrite length_app. cbn. lia. }
  destruct (H []) as (bytes & H1 & H2). exists bytes. split; [done|]. split; [|done].
  destruct (integers_loop_total (length bytes) bytes) as [ns' Hns]; [done|].
  unfold integers in H2. rewrite Hns in *. by cbn in H2; subst.
Qed.

Lemma integers_encode_witness :
  ∃ bytes, foldM (λ v n, encode_to_vec n v) [] [4; 1000; 0; 7; 5; 1] = Ok bytes
    ∧ integers_loop (length bytes) bytes = Some [4; 1000; 0; 7; 5; 1]
    ∧ integers bytes = [4; 1000; 0; 7; 5; 1].
Proof. apply integers_encode. repeat (constructor; [by vm_compute|]). constructor. Defined.

(** What [Message::from_integers] reads: of the tag/value pairs before the
    body the first value of each tag, and after the body tag the edicts in
    chunks of three, each kept only if its output is at most the number of
    outputs and its identifier is 0 or names a block, the message being a
    cenotaph as soon as one chunk is refused. *)
Theorem from_integers_spec (n_outputs : Z) (pairs : list (Z * Z)) (body : list Z) :
  Forall (λ p, p.1 ≠ 0) pairs →
  let msg := Message_from_integers n_outputs
               (concat (map (λ p, [p.1; p.2]) pairs) ++ 0 :: body) in
  m_fields msg = list_to_map pairs
  ∧ (m_cenotaph msg, m_edicts msg) = body_edicts n_outputs 0 body
  ∧ Forall (λ e, ed_output e ≤ n_outputs
      ∧ ∃ i, DuneId_try_from (ed_id e) = Some i ∧ ¬ (height i = 0 ∧ 0 < index i))
      (m_edicts msg).
Proof.
  intros HF msg. unfold msg, Message_from_integers.
  rewrite from_integers_pairs, (left_id_L ∅ (∪)) by done.
  cbn [m_fields m_cenotaph m_edicts].
  split; [done|]. split; [by rewrite <- surjective_pairing|].
  apply body_edicts_spec.
Qed.

Lemma from_integers_spec_witness :
  let msg := Message_from_integers 2 (concat (map (λ p, [p.1; p.2]) [(4, 9); (4, 8)]) ++ 0 :: [65536; 5; 1]) in
  m_fields msg = list_to_map [(4, 9); (4, 8)]
  ∧ (m_cenotaph msg, m_edicts msg) = body_edicts 2 0 [65536; 5; 1]
  ∧ Forall (λ e, ed_output e ≤ 2
      ∧ ∃ i, DuneId_try_from (ed_id e) = Some i ∧ ¬ (height i = 0 ∧ 0 < index i))
      (m_edicts msg).
Proof. apply from_integers_spec. repeat (constructor; [done|]). constructor. Defined.

(** ** Well-formed dunestones *)

Definition Edict_ok (e : Edict) : Prop :=
  u128_ok (ed_id e) ∧ u128_ok (ed_amount e) ∧ u128_ok (ed_output e).

Definition Terms_ok (t : Terms) : Prop :=
  (∀ l, t_limit t = Some l → 0 ≤ l ≤ MAX_LIMIT) ∧ (∀ c, t_cap t = Some c → u128_ok c)
  ∧ (∀ h, (t_height t).1 = Some h → u64_ok h) ∧ (∀ h, (t_height t).2 = Some h → u64_ok h)
  ∧ (∀ o, (t_offset t).1 = Some o → u64_ok o) ∧ (∀ o, (t_offset t).2 = Some o → u64_ok o).

(** What can be minted in all: the premine and [cap] mints of [limit]. *)
Definition max_supply (e : Etching) : Z :=
  default 0 (e_premine e)
  + match e_terms e with
    | Some t => default 0 (t_cap t) * default 0 (t_limit t)
    | None => 0
    end.

Definition Etching_ok (e : Etching) : Prop :=
  (∀ d, e_divisibility e = Some d → 0 ≤ d ≤ MAX_DIVISIBILITY)
  ∧ (∀ t, e_terms e = Some t → Terms_ok t)
  ∧ (∀ p, e_premine e = Some p → u128_ok p)
  ∧ (∀ n, e_dune e = Some n → u128_ok n)
  ∧ (∀ s, e_spacers e = Some s → 0 ≤ s ≤ MAX_SPACERS).

Definition Dunestone_ok (d : Dunestone) : Prop :=
  Forall Edict_ok (edicts d)
  ∧ (∀ p, pointer d = Some p → u32_ok p)
  ∧ (∀ e, etching d = Some e → Etching_ok e
       ∧ (cenotaph d = false → max_supply e ≤ umax 128)).

Definition Message_ok (m : Message) : Prop :=
  map_Forall (λ _ v, u128_ok v) (m_fields m) ∧ Forall Edict_ok (m_edicts m).

Lemma body_edicts_ok n_outputs id body :
  0 ≤ id → Forall (in_range 128) body → Forall Edict_ok (body_edicts n_outputs id body).2.
Proof.
  remember (length body) as n eqn:Hn. revert id body Hn.
  induction (lt_wf n) as [n _ IH]; intros id body -> Hid HF.
  destruct body as [|c0 [|c1 [|c2 rest]]]; try constructor. cbn [body_edicts].
  inversion_clear HF as [|? ? H0 HF']. inversion_clear HF' as [|? ? H1 HF''].
  inversion_clear HF'' as [|? ? H2 HF3].
  assert (in_range 128 (saturating_add 128 id c0)) as Hs
    by (apply saturating_add_range; unfold in_range in *; lia).
  specialize (IH (length rest) ltac:(cbn; lia) (saturating_add 128 id c0) rest eq_refl
                (proj1 Hs) HF3).
  destruct (body_edicts n_outputs _ rest) as [bad es].
  destruct (Edict_from_integers _ _ _ _) as [e|] eqn:E; [|done].
  constructor; [|done]. unfold Edict_from_integers in E.
  destruct (DuneId_try_from _); [|done]. cbn in E. run_inv. done.
Qed.

Lemma or_insert_ok fields tag v :
  map_Forall (λ _ v, u128_ok v) fields → u128_ok v →
  map_Forall (λ _ v, u128_ok v) (or_insert fields tag v).
Proof. intros. unfold or_insert. case_match; [done|]. by apply map_Forall_insert_2. Qed.

Lemma from_integers_ok n_outputs payload :
  Forall (in_range 128) payload → Message_ok (Message_from_integers n_outputs payload).
Proof.
  unfold Message_from_integers.
  assert (map_Forall (λ _ v, u128_ok v) (∅ : fields_map)) as Hf by apply map_Forall_empty.
  revert Hf. generalize (∅ : fields_map) as fields.
  remember (length payload) as n eqn:Hn. revert payload Hn.
  induction (lt_wf n) as [n _ IH]; intros payload -> fields Hf HF.
  destruct payload as [|tag rest]; [done|]. cbn [from_integers_loop].
  inversion_clear HF as [|? ? Ht HF']. destruct (_ =? _).
  - pose proof (body_edicts_ok n_outputs 0 rest ltac:(lia) HF').
    by destruct (body_edicts n_outputs 0 rest).
  - destruct rest as [|v rest]; [done|]. inversion_clear HF' as [|? ? Hv HF''].
    eapply IH; [|done|by apply or_insert_ok|done]. cbn. lia.
Qed.

(** Each field of the dunestone, from the fields of the message. *)
Lemma decipher_fields msg :
  let d := decipher_message msg in
  let get t := m_fields msg !! tag_number t in
  edicts d = m_edicts msg
    ++ (if 0 <? default 0 (get TagPremine) then [mkEdict 0 (default 0 (get TagPremine)) 1] else [])
  ∧ pointer d = and_then (get TagPointer) (try_into 32)
  ∧ (∀ e, etching d = Some e →
       Z.testbit (default 0 (get TagFlags)) 0 = true ∨ ¬ in_range 128 (default 0 (get TagFlags))).
Proof.
  destruct msg as [bad fields es]. unfold decipher_message, tag_take. cbn [m_fields m_edicts].
  cbn zeta. rewrite !lookup_delete_ne by done.
  destruct (flag_take FlagEtching _) as [etch f1] eqn:E1.
  destruct (flag_take FlagTerms _) as [terms f2] eqn:E2.
  destruct (flag_take FlagTurbo _) as [turbo f3] eqn:E3.
  cbn [edicts pointer etching]. split; [done|]. split; [done|]. intros e He.
  destruct (decide (in_range 128 (default 0 (fields !! tag_number TagFlags)))); [left|by right].
  rewrite flag_take_spec in E1 by done. injection E1 as Ht _. by destruct etch.
Qed.

Lemma and_then_try_into w o x : and_then o (try_into w) = Some x → in_range w x.
Proof. destruct o; cbn; [|done]. by intros [-> ?]%try_into_Some. Qed.

Lemma and_then_filter (o : option Z) (p : Z → bool) x :
  and_then o (λ y, then_some (p y) y) = Some x → o = Some x ∧ p x = true.
Proof. destruct o as [y|]; cbn; [|done]. destruct (p y) eqn:E; naive_solver. Qed.

Lemma decipher_etching_ok msg e :
  Message_ok msg → etching (decipher_message msg) = Some e →
  Etching_ok e ∧ (cenotaph (decipher_message msg) = false → max_supply e ≤ umax 128).
Proof.
  destruct msg as [bad fields es]. intros [Hf _].
  assert (∀ k v, fields !! k = Some v → u128_ok v) as Hv by exact Hf.
  unfold decipher_message, tag_take. cbn [m_fields m_edicts m_cenotaph].
  rewrite !lookup_delete_ne by done.
  destruct (flag_take FlagEtching _) as [etch f1].
  destruct (flag_take FlagTerms _) as [terms f2].
  destruct (flag_take FlagTurbo _) as [turbo f3]. cbn [etching cenotaph].
  destruct etch; [|done]. intros [= <-].
  cbn [tag_number].
  split.
  - unfold Etching_ok, Terms_ok.
    cbn [e_divisibility e_terms e_premine e_dune e_spacers].
    split; [|split; [|split; [|split]]].
    + intros d [H1 H2]%and_then_filter. apply and_then_try_into in H1.
      unfold in_range in H1. lia.
    + intros t Ht. destruct terms; [|done]. injection Ht as <-. cbn [t_limit t_cap t_height t_offset].
      split; [|split; [by apply Hv|split_and!; cbn [fst snd]; apply and_then_try_into]].
      intros l (y & _ & ->)%fmap_Some. unfold MAX_LIMIT, umax. lia.
    + apply Hv.
    + apply Hv.
    + intros s [H1 H2]%and_then_filter. apply and_then_try_into in H1.
      unfold in_range in H1. lia.
  - cbn [tag_number]. intros Hc. apply orb_false_iff in Hc as [Hc _]. apply orb_false_iff in Hc as [Hc _].
    apply orb_false_iff in Hc as [_ Ho].
    destruct (checked_mul 128 _ _) as [minted|] eqn:Em; [|done].
    destruct (checked_add 128 _ _) as [total|] eqn:Et; [|done].
    unfold checked_mul, checked_add in *.
    apply try_into_Some in Em as [-> Hm]. apply try_into_Some in Et as [-> Ht].
    unfold max_supply, in_range, umax in *. cbn [e_premine e_terms].
    destruct terms; cbn [then_some t_cap t_limit]; lia.
Qed.

Section decipher_ok.
Variable instructions : list Z → list (outcome script_error Instruction).
(** A push is a slice of the script's bytes. *)
Hypothesis pushes_are_bytes :
  ∀ script push, Ok (PushBytes push) ∈ instructions script → bytes_ok push.

Lemma collect_pushes_bytes its p :
  (∀ push, Ok (PushBytes push) ∈ its → bytes_ok push) →
  collect_pushes its = Ok p → bytes_ok p.
Proof.
  revert p. induction its as [|r its IH]; intros p Hp; cbn; [by intros [= <-]; constructor|].
  intros H. run_inv. destruct a as [op|push].
  - apply IH; [|done]. intros. apply Hp. by right.
  - apply Forall_app. split; [apply Hp; by left|]. apply IH; [|done]. intros. apply Hp. by right.
Qed.

Lemma next_instruction_incl its i its' :
  next_instruction its = Ok (i, its') → its' ⊆ its.
Proof.
  destruct its as [|r its0]; cbn; [by intros [= <- <-]|]. intros H. run_inv. set_solver.
Qed.

Lemma payload_bytes outputs p :
  payload instructions outputs = Ok (Some p) → bytes_ok p.
Proof.
  induction outputs as [|o outputs IH]; cbn [payload]; [done|].
  intros ([i1 its1] & H1 & H)%outcome_bind_Ok. case_decide; [|by apply IH].
  apply outcome_bind_Ok in H as ([i2 its2] & H2 & H). case_decide; [|by apply IH].
  run_inv. eapply collect_pushes_bytes; [|done].
  intros push Hpush. apply (pushes_are_bytes (script_pubkey o)).
  apply next_instruction_incl in H1, H2. set_solver.
Qed.

Lemma from_transaction_ok outputs d :
  from_transaction instructions outputs = Some d → Dunestone_ok d.
Proof.
  unfold from_transaction, decipher. intros H.
  destruct (payload instructions outputs) as [[p|]| |] eqn:Hp; try done. injection H as <-.
  pose proof (from_integers_ok (Z.of_nat (length outputs)) (integers p)
                (integers_range p (payload_bytes _ _ Hp))) as Hm.
  set (msg := Message_from_integers _ _) in *.
  destruct (decipher_fields msg) as (He & Hptr & _).
  split; [|split; [|intros e Hee; by apply decipher_etching_ok]].
  - rewrite He. apply Forall_app. split; [apply Hm|].
    destruct (m_fields msg !! tag_number TagPremine) as [pr|] eqn:E; [|constructor].
    cbn. destruct (0 <? pr); [|constructor]. constructor; [|constructor].
    pose proof (proj1 Hm _ _ E). done.
  - rewrite Hptr. intros q. apply and_then_try_into.
Qed.
(** C29: whatever a transaction carries, a dunestone read from it is within the
    protocol's bounds: every integer within its machine width, divisibility at
    most 38, at most 27 spacer bits, a mint limit of at most [u64::MAX]; and
    unless it is a cenotaph, premine plus cap times limit does not overflow a
    [u128], which is what keeps the supply of the dune representable. *)
Theorem decipher_well_formed (outputs : list TxOut) (d : Dunestone) :
  from_transaction instructions outputs = Some d → Dunestone_ok d.
Proof. apply from_transaction_ok. Qed.
End decipher_ok.

(** An instruction iterator for the witness: direct pushes and single opcodes. *)
Fixpoint simple_instructions (fuel : nat) (script : list Z)
  : list (outcome script_error Instruction) :=
  match fuel, script with
  | S f, op :: rest =>
      if (1 <=? op) && (op <=? 75) && (op <=? Z.of_nat (length rest)) then
        Ok (PushBytes (map (λ b, b mod 256) (take (Z.to_nat op) rest)))
          :: simple_instructions f (drop (Z.to_nat op) rest)
      else Ok (Op op) :: simple_instructions f rest
  | _, _ => []
  end.

Lemma simple_instructions_bytes fuel script push :
  Ok (PushBytes push) ∈ simple_instructions fuel script → bytes_ok push.
Proof.
  revert script. induction fuel as [|f IH]; intros [|op rest]; cbn;
    try (by intros ?%elem_of_nil).
  destruct (_ && _); intros [E|E]%elem_of_cons; try done; try (by eapply IH).
  injection E as ->. apply Forall_forall. intros b (c & <- & _)%list_elem_of_In%in_map_iff.
  apply Z.mod_pos_bound. lia.
Qed.

(** [OP_RETURN "D"] and a payload with the etching flag, a dune and a premine. *)
Definition sample_outputs : list TxOut :=
  [mkTxOut 0 [106; 1; 68; 6; 2; 1; 4; 5; 22; 9]; mkTxOut 100 []].

Lemma decipher_well_formed_witness :
  Dunestone_ok (mkDunestone [mkEdict 0 9 1]
    (Some (mkEtching None None (Some 9) (Some 5) None None false)) None false).
Proof.
  apply (decipher_well_formed (simple_instructions 32)
           (simple_instructions_bytes 32) sample_outputs).
  by vm_compute.
Defined.

End Dunestone.
