(* ===== verification/Types.v ===== *)
(** The data the storage layer shares: transactions and blocks as the source
    reads them, transaction outputs and their stored bodies ([storage/mod.rs]),
    the keys of the tables ([storage/kvtable.rs]) and their byte encodings.

    Hashes are 256-bit integers; the [txid] of a transaction and the hash of a
    block are computed by the [bitcoin] crate and are fields here. *)

From S2P Require Import Prelude Dunes Dunestone.
Import Dunes Dunestone.

Module Types.

(** ** Transactions *)

Definition Txid : Type := Z.
Definition BlockHash : Type := Z.

Record OutPoint : Type := mkOutPoint { op_txid : Txid; op_vout : Z }.

(** [OutPoint::is_null]: the previous output of a coinbase input. *)
Definition is_null (o : OutPoint) : bool :=
  (op_txid o =? 0) && (op_vout o =? umax 32).

Record TxIn : Type := mkTxIn { previous_output : OutPoint; script_sig : list Z }.

Record Transaction : Type := mkTransaction {
  txid : Txid;
  input : list TxIn;
  output : list TxOut;
}.

Record Block : Type := mkBlock {
  block_hash : BlockHash;
  prev_blockhash : BlockHash;
  txdata : list Transaction;
}.

Inductive BitcoinCompatibleNetwork : Type :=
| Bitcoin | BitcoinTestnet | Dogecoin | DogecoinTestnet.

(** ** Stored data *)

(** [TxoRef(Txid, OutputIndex)]. *)
Definition TxoRef : Type := Txid * Z.
#[export] Instance TxoRef_eq_dec : EqDecision TxoRef.
Proof. unfold TxoRef, Txid. apply _. Defined.
#[export] Instance TxoRef_countable : Countable TxoRef.
Proof. unfold TxoRef, Txid. apply _. Defined.

Definition txo_ref_of (o : OutPoint) : TxoRef := (op_txid o, op_vout o).

(** [storage::DuneId] and its conversions from and to the protocol's. *)
Record KDuneId : Type := mkKDuneId { kd_block : Z; kd_tx : Z }.

#[export] Instance KDuneId_eq_dec : EqDecision KDuneId.
Proof. solve_decision. Defined.

#[export] Program Instance KDuneId_countable : Countable KDuneId :=
  inj_countable' (λ i, (kd_block i, kd_tx i)) (λ p, mkKDuneId p.1 p.2) _.
Next Obligation. by intros []. Qed.

Definition kv_of_dune_id (id : DuneId) : KDuneId := mkKDuneId (height id) (index id).

Definition dune_id_of_kv (id : KDuneId) : DuneId :=
  mkDuneId (kd_block id) (wrap 32 (kd_tx id)).

(** [storage/inscriptions/inscription_id.rs]: [InscriptionId]. *)
Record InscriptionId : Type := mkInscriptionId { iid_txid : Txid; iid_index : Z }.

#[export] Instance InscriptionId_eq_dec : EqDecision InscriptionId.
Proof. solve_decision. Defined.

#[export] Program Instance InscriptionId_countable : Countable InscriptionId :=
  inj_countable' (λ i, (iid_txid i, iid_index i)) (λ p, mkInscriptionId p.1 p.2) _.
Next Obligation. by intros []. Qed.

Record TxoBody : Type := mkTxoBody {
  tb_height : Z;
  tb_raw : TxOut;
  tb_ord_ranges : list (Z * Z);
  tb_dunes : list (KDuneId * Z);
  tb_inscriptions : list (Z * InscriptionId);
  tb_unused_brc20_transfers : gmap InscriptionId (list Z * Z);
}.

Abbreviation Resolver := (gmap TxoRef TxoBody).

Inductive Error : Type :=
| UndoMissingBlock (h : BlockHash)
| IntersectMissingBlock (height : Z)
| Decoding
| MissingTxo (h : BlockHash) (t : Txid) (vout : Z)
| MissingResolver (h : BlockHash)
| ResolverHashMismatch (height : Z) (h h' : BlockHash)
| InvalidRollbackPoint (found : option (Z * BlockHash))
| PreviousHashMismatch (applying received_prev : BlockHash) (expected_prev : option BlockHash)
| Internal.

(** ** Table keys as bytes *)

(** [From<storage::DuneId> for Box<[u8]>] and back; [DBInt], [DBUInt128]. *)
Definition KDuneId_to_bytes (id : KDuneId) : list Z :=
  be_bytes 8 (kd_block id) ++ be_bytes 8 (kd_tx id).

Definition slice (l : list Z) (from to : nat) : outcome unit (list Z) :=
  if (to <=? length l)%nat then Ok (take (to - from) (drop from l)) else Panic.

Definition KDuneId_from_bytes (value : list Z) : outcome unit KDuneId :=
  block ← slice value 0 8;
  tx ← slice value 8 16;
  Ok (mkKDuneId (of_be_bytes block) (of_be_bytes tx)).

Definition DBInt_to_bytes (n : Z) : list Z := be_bytes 8 n.
Definition DBInt_from_bytes (value : list Z) : outcome unit Z :=
  of_be_bytes <$> slice value 0 8.

Definition DBUInt128_to_bytes (n : Z) : list Z := be_bytes 16 n.
Definition DBUInt128_from_bytes (value : list Z) : outcome unit Z :=
  of_be_bytes <$> slice value 0 16.

Definition DBHash32_from_bytes (value : list Z) : outcome unit (list Z) :=
  slice value 0 32.

(** [WithDBIntPrefix(prefix, key)]. *)
Definition WithDBIntPrefix_to_bytes (prefix : Z) (after : list Z) : list Z :=
  DBInt_to_bytes prefix ++ after.

(** ** Lemmas *)

Lemma slice_app l1 l2 : slice (l1 ++ l2) 0 (length l1) = Ok l1.
Proof.
  unfold slice. destruct (Nat.leb_spec (length l1) (length (l1 ++ l2))) as [|H].
  - by rewrite Nat.sub_0_r, drop_0, take_app_length.
  - rewrite length_app in H. lia.
Qed.

Lemma slice_be n m k rest :
  k = n → 0 ≤ m < 256 ^ Z.of_nat n →
  of_be_bytes <$> slice (be_bytes n m ++ rest) 0 k = Ok (E := unit) m.
Proof.
  intros -> Hm. rewrite <- (length_be_bytes n m) at 2. rewrite slice_app. cbn. f_equal.
  by apply of_be_be_bytes_small.
Qed.

(** The integer and identifier keys of the tables decode to what was
    encoded, whatever bytes follow, and byte order agrees with numeric order,
    so a range scan over heights or identifiers meets them in order. *)
Theorem table_keys_roundtrip (id id' : KDuneId) (n : Z) (rest : list Z) :
  u64_ok (kd_block id) → u64_ok (kd_tx id) → u64_ok (kd_block id') → u64_ok (kd_tx id') →
  u128_ok n →
  KDuneId_from_bytes (KDuneId_to_bytes id ++ rest) = Ok id
  ∧ DBUInt128_from_bytes (DBUInt128_to_bytes n ++ rest) = Ok n
  ∧ DBInt_from_bytes (DBInt_to_bytes (kd_block id) ++ rest) = Ok (kd_block id)
  ∧ (bytes_lt (KDuneId_to_bytes id) (KDuneId_to_bytes id') ↔
       kd_block id < kd_block id' ∨ kd_block id = kd_block id' ∧ kd_tx id < kd_tx id').
Proof.
  intros Hb Ht Hb' Ht' Hn. split; [|split; [|split]].
  - unfold KDuneId_from_bytes, KDuneId_to_bytes. rewrite <- app_assoc.
    pose proof (slice_app (be_bytes 8 (kd_block id)) (be_bytes 8 (kd_tx id) ++ rest)) as H1.
    rewrite length_be_bytes in H1. rewrite H1. cbn [mbind outcome_bind].
    unfold slice. rewrite !length_app, !length_be_bytes. cbn [Nat.leb plus].
    destruct (Nat.leb_spec 16 (8 + (8 + length rest))); [|lia].
    rewrite drop_app_length' by (by rewrite length_be_bytes).
    rewrite take_app_length' by (by rewrite length_be_bytes).
    cbn [mbind outcome_bind]. rewrite !of_be_be_bytes_small by done. by destruct id.
  - by apply (slice_be 16 n).
  - by apply (slice_be 8).
  - unfold bytes_lt, KDuneId_to_bytes.
    rewrite bytes_cmp_app_len by (by rewrite !length_be_bytes).
    rewrite !bytes_cmp_be_bytes by done.
    destruct (Z.compare_spec (kd_block id) (kd_block id')) as [E|L|G].
    + rewrite Z.compare_lt_iff. lia.
    + split; [by left|done].
    + split; [done|lia].
Qed.

Lemma table_keys_roundtrip_witness :
  KDuneId_from_bytes (KDuneId_to_bytes (mkKDuneId 5 300) ++ [9]) = Ok (mkKDuneId 5 300)
  ∧ DBUInt128_from_bytes (DBUInt128_to_bytes 70000 ++ [9]) = Ok 70000
  ∧ DBInt_from_bytes (DBInt_to_bytes 5 ++ [9]) = Ok 5
  ∧ (bytes_lt (KDuneId_to_bytes (mkKDuneId 5 300)) (KDuneId_to_bytes (mkKDuneId 6 1)) ↔
       5 < 6 ∨ 5 = 6 ∧ 300 < 1).
Proof.
  apply (table_keys_roundtrip (mkKDuneId 5 300) (mkKDuneId 6 1)); by vm_compute.
Defined.

End Types.
