(* ===== verification/DunesUpdater.v ===== *)
(** Indexing the dunes of a transaction: [storage/runes/updater.rs] over the
    tables of [storage/runes/mod.rs].

    [index_runes] reads the dunestone, collects the dunes of the inputs
    ([unallocated]), applies the etching ([etched], [create_rune_entry]) and the
    mints ([mint]), runs the edicts, and gives what is left to the default
    output.  The tables are finite maps and are threaded explicitly; reads see
    the writes staged by the same database transaction. *)

From S2P Require Import Prelude Decimal Dunes Dunestone Types.
Import Decimal Dunes Dunestone Types.

Module DunesUpdater.

(** ** The tables of storage/runes/mod.rs *)

Record DuneTerms : Type := mkDuneTerms {
  dt_name : Z;
  dt_amount : option Z;
  dt_cap : option Z;
  dt_start_height : option Z;
  dt_end_height : option Z;
}.

Record DunesDB : Type := mkDunesDB {
  DuneIdByNameKV : gmap Z KDuneId;
  DuneTermsByIdKV : gmap KDuneId DuneTerms;
  DuneMintsByIdKV : gmap KDuneId Z;
  DunesReservedCountersKV : option Z;
}.

Definition set_names (f : gmap Z KDuneId → gmap Z KDuneId) (db : DunesDB) : DunesDB :=
  mkDunesDB (f (DuneIdByNameKV db)) (DuneTermsByIdKV db) (DuneMintsByIdKV db)
    (DunesReservedCountersKV db).
Definition set_terms (f : gmap KDuneId DuneTerms → gmap KDuneId DuneTerms) (db : DunesDB)
  : DunesDB :=
  mkDunesDB (DuneIdByNameKV db) (f (DuneTermsByIdKV db)) (DuneMintsByIdKV db)
    (DunesReservedCountersKV db).
Definition set_mints (f : gmap KDuneId Z → gmap KDuneId Z) (db : DunesDB) : DunesDB :=
  mkDunesDB (DuneIdByNameKV db) (DuneTermsByIdKV db) (f (DuneMintsByIdKV db))
    (DunesReservedCountersKV db).
Definition set_reserved (c : Z) (db : DunesDB) : DunesDB :=
  mkDunesDB (DuneIdByNameKV db) (DuneTermsByIdKV db) (DuneMintsByIdKV db) (Some c).

(** ** Data *)

Record Allocation : Type := mkAllocation {
  al_balance : Z;
  al_divisibility : Z;
  al_id : Z;
  al_mint : option Terms;
  al_dune : Z;
  al_premine : Z;
  al_spacers : Z;
  al_symbol : option Z;
  al_turbo : bool;
}.

Definition set_al_balance (b : Z) (a : Allocation) : Allocation :=
  mkAllocation b (al_divisibility a) (al_id a) (al_mint a) (al_dune a) (al_premine a)
    (al_spacers a) (al_symbol a) (al_turbo a).

Abbreviation balances := (gmap Z Z).

Record IndexRunesResult : Type := mkIndexRunesResult {
  output_dunes : list balances;
  successful_etch : option Z;
  successful_mints : list Z;
}.

(** [*map.entry(id).or_default() += amount]. *)
Definition add_entry (m : balances) (id amount : Z) : balances :=
  <[id := wrap 128 (default 0 (m !! id) + amount)]> m.

(** The mutable locals of [index_runes] that the edicts work on. *)
Record AllocState : Type := mkAllocState {
  allocation : option Allocation;
  mintable : balances;
  unalloc : balances;
  allocated : list balances;
  premine_amount : Z;
}.

(** Which balance an edict draws on. *)
Inductive source : Type := Issuance | Claimed (id : Z) | Held (id : Z).

Definition set_balance (src : source) (b : Z) (st : AllocState) : AllocState :=
  match src with
  | Issuance => mkAllocState (set_al_balance b <$> allocation st) (mintable st) (unalloc st)
                  (allocated st) (premine_amount st)
  | Claimed id => mkAllocState (allocation st) (<[id := b]> (mintable st)) (unalloc st)
                    (allocated st) (premine_amount st)
  | Held id => mkAllocState (allocation st) (mintable st) (<[id := b]> (unalloc st))
                 (allocated st) (premine_amount st)
  end.

Definition set_allocated (a : list balances) (st : AllocState) : AllocState :=
  mkAllocState (allocation st) (mintable st) (unalloc st) a (premine_amount st).

Section updater.
(** [SUBSIDY_HALVING_INTERVAL], [Script::instructions] and
    [Script::is_op_return] are the [bitcoin] crate's. *)
Variable SUBSIDY_HALVING_INTERVAL : Z.
Variable instructions : list Z → list (outcome script_error Instruction).
Variable is_op_return : list Z → bool.

(** ** unallocated *)

Definition input_body (resolver : Resolver) (i : TxIn) : outcome Error (option TxoBody) :=
  if negb (is_null (previous_output i)) then
    match resolver !! txo_ref_of (previous_output i) with
    | Some x => Ok (Some x)
    | None => Err (MissingTxo 0 (op_txid (previous_output i)) (op_vout (previous_output i)))
    end
  else Ok None.

Definition unallocated (tx : Transaction) (resolver : Resolver) : outcome Error balances :=
  foldM (λ unallocated i,
    body ← input_body resolver i;
    match body with
    | None => Ok unallocated
    | Some txo_body =>
        Ok (foldl (λ unallocated d,
              add_entry unallocated (u128_from_DuneId (dune_id_of_kv d.1)) d.2)
              unallocated (tb_dunes txo_body))
    end) ∅ (input tx).

(** ** mint *)

Definition mint (db : DunesDB) (id : DuneId) (height : Z) : option Z :=
  let id := kv_of_dune_id id in
  match DuneTermsByIdKV db !! id with
  | None => None
  | Some terms =>
      if match dt_start_height terms with Some start => height <? start | None => false end
      then None
      else if match dt_end_height terms with Some end_ => end_ <=? height | None => false end
      then None
      else
        let cap := default (umax 128) (dt_cap terms) in
        let current_mints := default 0 (DuneMintsByIdKV db !! id) in
        if cap <=? current_mints then None
        else Some (default 0 (dt_amount terms))
  end.

(** ** etched *)

Definition chain_of_network (network : BitcoinCompatibleNetwork) : Chain :=
  match network with
  | DogecoinTestnet | BitcoinTestnet => Testnet
  | _ => Mainnet
  end.

Definition lift_panic {A} (o : outcome unit A) : outcome Error A :=
  match o with Ok a => Ok a | _ => Panic end.

Definition etched (db : DunesDB) (tx_index : Z) (artifact : Dunestone) (height : Z)
    (network : BitcoinCompatibleNetwork)
  : outcome Error (option (DuneId * Z) * DunesDB) :=
  match etching artifact with
  | None => Ok (None, db)
  | Some x =>
      let chain := chain_of_network network in
      minimum ← lift_panic
        (minimum_at_height SUBSIDY_HALVING_INTERVAL chain (wrap 32 height));
      match e_dune x with
      | Some dune =>
          if (dune <? minimum) || is_reserved dune
             || bool_decide (is_Some (DuneIdByNameKV db !! dune))
          then Ok (None, db)
          else Ok (Some (mkDuneId height tx_index, dune), db)
      | None =>
          let reserved_counter := default 0 (DunesReservedCountersKV db) in
          let new_counter := wrap 64 (reserved_counter + 1) in
          let db := set_reserved new_counter db in
          dune ← lift_panic (reserved reserved_counter);
          Ok (Some (mkDuneId height tx_index, dune), db)
      end
  end.

(** ** create_rune_entry *)

Definition zip_with_or (f : Z → Z → Z) (relative absolute : option Z) : option Z :=
  match relative, absolute with
  | Some r, Some a => Some (f r a)
  | Some r, None => Some r
  | None, a => a
  end.

Definition dune_terms (artifact : Dunestone) (dune height : Z) : outcome Error DuneTerms :=
  if cenotaph artifact then Ok (mkDuneTerms dune None None None None)
  else
    e ← unwrap (etching artifact);
    match e_terms e with
    | Some terms =>
        let relative_start := saturating_add 64 height <$> (t_offset terms).1 in
        let absolute_start := (t_height terms).1 in
        let start := zip_with_or Z.max relative_start absolute_start in
        let relative_end := saturating_add 64 height <$> (t_offset terms).2 in
        let absolute_end := (t_height terms).2 in
        let end_ := zip_with_or Z.min relative_end absolute_end in
        Ok (mkDuneTerms dune (t_limit terms) (t_cap terms) start end_)
    | None => Ok (mkDuneTerms dune None None None None)
    end.

Definition create_rune_entry (db : DunesDB) (artifact : Dunestone) (id : DuneId)
    (dune height : Z) : outcome Error DunesDB :=
  let kv_dune_id := kv_of_dune_id id in
  let db := set_names (<[dune := kv_dune_id]>) db in
  terms ← dune_terms artifact dune height;
  Ok (set_terms (<[kv_dune_id := terms]>) db).

(** ** The edicts *)

(** The balance and identifier an edict refers to. *)
Definition edict_source (st : AllocState) (id : Z) : option (source * Z * Z) :=
  if id =? 0 then
    match allocation st with
    | Some a => Some (Issuance, al_balance a, al_id a)
    | None => None
    end
  else match claim id with
       | Some c => match mintable st !! c with
                   | Some balance => Some (Claimed c, balance, c)
                   | None => None
                   end
       | None => match unalloc st !! id with
                 | Some balance => Some (Held id, balance, id)
                 | None => None
                 end
       end.

(** The closure [allocate]: the new balance and the outputs. *)
Definition allocate (id : Z) (s : Z * list balances) (amount output : Z)
  : outcome Error (Z * list balances) :=
  let '(balance, allocated) := s in
  if 0 <? amount then
    m ← unwrap (get allocated output);
    Ok (wrap 128 (balance - amount), <[Z.to_nat output := add_entry m id amount]> allocated)
  else Ok (balance, allocated).

Definition destinations (outputs : list TxOut) : list Z :=
  map (λ p, Z.of_nat p.1)
    (filter (λ p, is_op_return (script_pubkey p.2) = false) (imap pair outputs)).

Definition split_balance (outputs : list TxOut) (id amount : Z) (s : Z * list balances)
  : outcome Error (Z * list balances) :=
  let dests := destinations outputs in
  let n := Z.of_nat (length dests) in
  if amount =? 0 then
    if n =? 0 then Panic
    else
      let balance := s.1 in
      let amount := balance / n in
      let remainder := balance mod n in
      foldM (λ s p,
        allocate id s (if Z.of_nat p.1 <? remainder then wrap 128 (amount + 1) else amount) p.2)
        s (imap pair dests)
  else foldM (λ s output, allocate id s (Z.min amount s.1) output) s dests.

Definition process_edict (outputs : list TxOut) (st : AllocState) (e : Edict)
  : outcome Error AllocState :=
  let len := Z.of_nat (length outputs) in
  match try_into 64 (ed_output e) with
  | None => Ok st
  | Some output =>
      if len <=? output then Ok st
      else
        match edict_source st (ed_id e) with
        | None => Ok st
        | Some (src, balance, id) =>
            let amount := ed_amount e in
            let premine :=
              match src with
              | Issuance => wrap 128 (premine_amount st + amount)
              | _ => premine_amount st
              end in
            '(balance, alloc) ←
              (if output =? len then split_balance outputs id amount (balance, allocated st)
               else
                 let amount := if amount =? 0 then balance else Z.min amount balance in
                 allocate id (balance, allocated st) amount output);
            let st := set_balance src balance (set_allocated alloc st) in
            Ok (mkAllocState (allocation st) (mintable st) (unalloc st) (allocated st) premine)
        end
  end.

(** ** The mints of a transaction *)

Fixpoint dedup (l : list Z) : list Z :=
  match l with
  | x :: (y :: _) as l' => if x =? y then dedup l' else x :: dedup l'
  | _ => l
  end.

Definition claims (ds : Dunestone) : list Z :=
  dedup (merge_sort Z.le (omap (λ e, claim (ed_id e)) (edicts ds))).

(** The claims that may be minted, with their limits, and their indexes. *)
Definition collect_mintable (db : DunesDB) (height : Z) (claims : list Z)
  : balances * list Z :=
  foldl (λ acc p,
    match DuneId_try_from p.2 with
    | Some key =>
        match mint db key height with
        | Some x => (<[p.2 := x]> acc.1, acc.2 ++ [wrap 16 (Z.of_nat p.1)])
        | None => acc
        end
    | None => acc
    end) (∅, []) (imap pair claims).

(** The mint counters, for the claims of which something was allocated. *)
Definition increment_mint (limits : balances) (db : DunesDB) (p : Z * Z)
  : outcome Error DunesDB :=
  limit ← unwrap (limits !! p.1);
  let minted := wrap 128 (limit - p.2) in
  if 0 <? minted then
    id ← unwrap (DuneId_try_from p.1);
    let key := kv_of_dune_id id in
    let new_mints := wrap 128 (default 0 (DuneMintsByIdKV db !! key) + 1) in
    Ok (set_mints (<[key := new_mints]>) db)
  else Ok db.

Definition increment_mints (limits remaining : balances) (db : DunesDB)
  : outcome Error DunesDB :=
  foldM (increment_mint limits) db (map_to_list remaining).

(** ** index_runes *)

(** The etching of the dunestone. *)
Definition etch_allocation (db : DunesDB) (tx_index : Z) (ds : Dunestone) (height : Z)
    (network : BitcoinCompatibleNetwork)
  : outcome Error (option Allocation * option Z * DunesDB) :=
  match etching ds with
  | None => Ok (None, None, db)
  | Some e =>
      '(dune, db) ← etched db tx_index ds height network;
      match dune with
      | None => Ok (None, None, db)
      | Some (_, dune) =>
          Ok (match try_into 16 tx_index with
              | Some _ =>
                  Some (mkAllocation (umax 128) (default 0 (e_divisibility e))
                    (Z.lor (Z.shiftl height 16) tx_index)
                    ((λ m, mkTerms ((λ l, Z.max 0 (Z.min l MAX_LIMIT)) <$> t_limit m) (t_cap m)
                             (t_height m) (t_offset m)) <$> e_terms e)
                    dune (default 0 (e_premine e)) (default 0 (e_spacers e)) (e_symbol e)
                    (e_turbo e))
              | None => None
              end, Some dune, db)
      end
  end.

(** The body of [if let Some(dunestone)]: the state after the edicts, the
    limits of the mints, the etch, the mint indexes and the tables. *)
Record DunestoneRun : Type := mkDunestoneRun {
  run_state : AllocState;
  run_limits : balances;
  run_etch : option Z;
  run_mints : list Z;
}.

Definition run_dunestone (db : DunesDB) (tx_index : Z) (tx : Transaction) (ds : Dunestone)
    (height : Z) (network : BitcoinCompatibleNetwork) (held : balances)
    (alloc0 : list balances) : outcome Error (DunestoneRun * DunesDB) :=
  '(allocation0, etch, db) ← etch_allocation db tx_index ds height network;
  '(run, db) ←
    (if cenotaph ds then
       Ok (mkDunestoneRun (mkAllocState allocation0 ∅ held alloc0 0) ∅ etch [], db)
     else
       let '(limits, mints) := collect_mintable db height (claims ds) in
       st ← foldM (process_edict (output tx))
              (mkAllocState allocation0 limits held alloc0 0) (edicts ds);
       db ← increment_mints limits (mintable st) db;
       Ok (mkDunestoneRun st limits etch mints, db));
  db ← match allocation (run_state run) with
       | Some a => id ← unwrap (DuneId_try_from (al_id a));
                   create_rune_entry db ds id (al_dune a) height
       | None => Ok db
       end;
  Ok (run, db).

(** Where the unallocated dunes go. *)
Definition first_destination (outputs : list TxOut) : option Z := head (destinations outputs).

Definition leftover_output (pointer : option Z) (outputs : list TxOut) : option Z :=
  match and_then pointer (try_into 64) with
  | Some vout => if vout <? Z.of_nat (length outputs) then Some vout
                 else first_destination outputs
  | None => first_destination outputs
  end.

Definition add_positive (acc : balances) (held : balances) : balances :=
  map_fold (λ id balance acc, if 0 <? balance then add_entry acc id balance else acc) acc held.

(** The outputs and the burned balances (which the source computes and drops). *)
Definition assign_leftover (ds : option Dunestone) (outputs : list TxOut) (st : AllocState)
  : outcome Error (list balances * balances) :=
  if match ds with Some d => cenotaph d | None => false end then
    Ok (allocated st,
        map_fold (λ id balance acc, add_entry acc id balance) (∅ : balances) (unalloc st))
  else
    match leftover_output (ds ≫= pointer) outputs with
    | Some vout =>
        m ← unwrap (get (allocated st) vout);
        Ok (<[Z.to_nat vout := add_positive m (unalloc st)]> (allocated st), ∅)
    | None => Ok (allocated st, add_positive ∅ (unalloc st))
    end.

Record IndexTrace : Type := mkIndexTrace {
  it_result : IndexRunesResult;
  it_inputs : balances;
  it_burned : balances;
  it_limits : balances;
  it_state : AllocState;
}.

Definition index_runes_trace (resolver : Resolver) (db : DunesDB) (tx_index : Z)
    (tx : Transaction) (height : Z) (network : BitcoinCompatibleNetwork)
  : outcome Error (IndexTrace * DunesDB) :=
  let dunestone := from_transaction instructions (output tx) in
  held ← unallocated tx resolver;
  let alloc0 := replicate (length (output tx)) (∅ : balances) in
  '(run, db) ←
    match dunestone with
    | Some ds => run_dunestone db tx_index tx ds height network held alloc0
    | None => Ok (mkDunestoneRun (mkAllocState None ∅ held alloc0 0) ∅ None [], db)
    end;
  '(outs, burned) ← assign_leftover dunestone (output tx) (run_state run);
  Ok (mkIndexTrace (mkIndexRunesResult outs (run_etch run) (run_mints run))
        held burned (run_limits run) (run_state run), db).

Definition index_runes (resolver : Resolver) (db : DunesDB) (tx_index : Z)
    (tx : Transaction) (height : Z) (network : BitcoinCompatibleNetwork)
  : outcome Error (IndexRunesResult * DunesDB) :=
  '(trace, db) ← index_runes_trace resolver db tx_index tx height network;
  Ok (it_result trace, db).

End updater.

(** ** Balances: what the edicts preserve *)

(** The total of a dune over all outputs, and over the whole state. *)
Definition tot (l : list balances) (id : Z) : Z := sumZ (map (λ m, lk m id) l).
Arguments tot : simpl never.

Definition issue (st : AllocState) (id : Z) : Z :=
  match allocation st with
  | Some a => if decide (al_id a = id) then al_balance a else 0
  | None => 0
  end.

Definition total (st : AllocState) (id : Z) : Z :=
  issue st id + lk (mintable st) id + lk (unalloc st) id + tot (allocated st) id.

Definition bal_ok (m : balances) : Prop := map_Forall (λ _ v, 0 ≤ v) m.

Record st_ok (st : AllocState) : Prop := {
  ok_allocation : ∀ a, allocation st = Some a → 0 ≤ al_balance a;
  ok_mintable : bal_ok (mintable st);
  ok_unalloc : bal_ok (unalloc st);
  ok_allocated : Forall bal_ok (allocated st);
}.

Lemma bal_ok_lk m id : bal_ok m → 0 ≤ lk m id.
Proof. intros Hm. unfold lk. destruct (m !! id) eqn:E; [by eapply Hm|done]. Qed.

Lemma bal_ok_insert m id v : bal_ok m → 0 ≤ v → bal_ok (<[id := v]> m).
Proof. intros. by apply map_Forall_insert_2. Qed.

Lemma bal_ok_empty : bal_ok ∅.
Proof. apply map_Forall_empty. Qed.

Lemma add_entry_ok m id v : bal_ok m → bal_ok (add_entry m id v).
Proof. intros. apply bal_ok_insert; [done|]. by apply wrap_range. Qed.

Lemma tot_nonneg l id : Forall bal_ok l → 0 ≤ tot l id.
Proof.
  intros HF. apply sumZ_nonneg. apply Forall_map. eapply Forall_impl; [exact HF|].
  intros m Hm. by apply bal_ok_lk.
Qed.

Lemma tot_lookup_le l i m id : Forall bal_ok l → l !! i = Some m → lk m id ≤ tot l id.
Proof.
  unfold tot, sumZ. intros HF. revert i.
  induction HF as [|m' l Hm HF IH]; intros [|i] Hi; try done; cbn.
  - injection Hi as ->. pose proof (tot_nonneg l id HF). unfold tot, sumZ in *. lia.
  - specialize (IH i Hi). pose proof (bal_ok_lk m' id Hm). lia.
Qed.

Lemma issue_nonneg st id : st_ok st → 0 ≤ issue st id.
Proof.
  intros H. unfold issue. destruct (allocation st) as [a|] eqn:E; [|done].
  case_decide; [|done]. by apply (ok_allocation st).
Qed.

Create HintDb balances.
#[local] Hint Resolve bal_ok_lk bal_ok_insert add_entry_ok tot_nonneg issue_nonneg
  bal_ok_empty ok_allocation ok_mintable ok_unalloc ok_allocated : balances.

(** [allocate] moves exactly [amount] from the balance to the output. *)
Lemma allocate_spec id b al amount o b' al' :
  0 ≤ amount ≤ b → Forall bal_ok al → tot al id + b < 2 ^ 128 →
  allocate id (b, al) amount o = Ok (b', al') →
  b' = b - amount ∧ Forall bal_ok al' ∧ length al' = length al
  ∧ ∀ id', tot al' id' = tot al id' + (if decide (id = id') then amount else 0).
Proof.
  intros Ha HF Hfit. unfold allocate. destruct (Z.ltb_spec 0 amount) as [Hp|Hz].
  - intros H. run_inv. apply get_Some in E as [Ho E].
    pose proof (tot_lookup_le al _ a id HF E) as Hle.
    assert (bal_ok a) as Hok by (by eapply Forall_lookup_1).
    pose proof (bal_ok_lk a id Hok). pose proof (tot_nonneg al id HF).
    rewrite wrap_small by (unfold in_range; lia). split; [done|].
    split; [by apply Forall_insert; [|apply add_entry_ok]|]. split; [by rewrite length_insert|].
    intros id'. unfold tot. rewrite (sumZ_insert _ _ _ _ _ E). unfold add_entry.
    fold (lk a id). rewrite wrap_small by (unfold in_range; lia).
    case_decide as Hd; [subst; rewrite lk_insert; lia|rewrite lk_insert_ne by done; lia].
  - intros [= <- <-]. split; [lia|]. split; [done|]. split; [done|].
    intros id'. case_decide; lia.
Qed.

(** Replacing the balance an edict drew on and the outputs. *)
Lemma set_balance_total st eid src b id b' al' id0 :
  edict_source st eid = Some (src, b, id) →
  total (set_balance src b' (set_allocated al' st)) id0
  = total st id0 + (if decide (id = id0) then b' - b else 0)
    + (tot al' id0 - tot (allocated st) id0).
Proof.
  unfold edict_source, total. destruct (eid =? 0).
  - destruct (allocation st) as [a|] eqn:E; [|done]. intros [= <- <- <-].
    unfold issue. cbn. rewrite E. cbn. case_decide; lia.
  - destruct (claim eid) as [c|].
    + destruct (mintable st !! c) as [v|] eqn:E; [|done]. intros [= <- <- <-].
      unfold issue. cbn. case_decide as Hd.
      * subst. rewrite lk_insert, (lk_Some _ _ _ E). lia.
      * rewrite lk_insert_ne by done. lia.
    + destruct (unalloc st !! eid) as [v|] eqn:E; [|done]. intros [= <- <- <-].
      unfold issue. cbn. case_decide as Hd.
      * subst. rewrite lk_insert, (lk_Some _ _ _ E). lia.
      * rewrite lk_insert_ne by done. lia.
Qed.

Lemma edict_source_bounds st eid src b id :
  st_ok st → edict_source st eid = Some (src, b, id) →
  0 ≤ b ∧ b + tot (allocated st) id ≤ total st id.
Proof.
  intros Hok Hs. pose proof (set_balance_total _ _ _ _ _ 0 (allocated st) id Hs) as Ht.
  rewrite decide_True in Ht by done.
  assert (0 ≤ b) as Hb.
  { unfold edict_source in Hs. destruct (eid =? 0).
    - destruct (allocation st) eqn:E; [|done]. injection Hs as <- <- <-.
      by apply (ok_allocation st).
    - destruct (claim eid) as [c|].
      + destruct (mintable st !! c) eqn:E; [|done]. injection Hs as <- <- <-.
        by apply (ok_mintable st Hok) in E.
      + destruct (unalloc st !! eid) eqn:E; [|done]. injection Hs as <- <- <-.
        by apply (ok_unalloc st Hok) in E. }
  split; [done|].
  assert (tot (allocated st) id ≤ total (set_balance src 0 (set_allocated (allocated st) st)) id);
    [|lia].
  unfold total. pose proof (ok_mintable st Hok). pose proof (ok_unalloc st Hok).
  destruct src; cbn [mintable unalloc allocated set_balance set_allocated].
  all: match goal with |- context [issue ?s ?i] => assert (0 ≤ issue s i) end;
    [unfold issue; cbn; destruct (allocation st) as [a|] eqn:E; cbn; [|done]; case_decide;
     [first [done|by apply (ok_allocation st)]|done]|].
  all: repeat match goal with |- context [lk ?m ?i] =>
    lazymatch goal with H : 0 ≤ lk m i |- _ => fail | _ =>
      assert (0 ≤ lk m i) by (apply bal_ok_lk; auto with balances lia) end end.
  all: lia.
Qed.

Lemma set_balance_ok src b al st :
  st_ok st → 0 ≤ b → Forall bal_ok al → st_ok (set_balance src b (set_allocated al st)).
Proof.
  intros [Ha Hm Hu _] Hb Hal. destruct src; split; cbn; auto with balances.
  destruct (allocation st); cbn; [|done]. by intros ? [= <-].
Qed.

(** What every edict leaves unchanged, given the limits of the mints. *)
Record edict_inv (T : Z → Z) (limits : balances) (a0 : option Allocation) (n : nat)
    (st : AllocState) : Prop := {
  ei_ok : st_ok st;
  ei_total : ∀ id, total st id = T id;
  ei_length : length (allocated st) = n;
  ei_mintable : ∀ id, lk (mintable st) id ≤ lk limits id;
  ei_dom : dom (mintable st) = dom limits;
  ei_alloc : set_al_balance 0 <$> allocation st = set_al_balance 0 <$> a0;
  ei_balance : ∀ a, allocation st = Some a → al_balance a ≤ umax 128;
}.

Lemma claims_nonneg ds c : Dunestone_ok ds → c ∈ claims ds → 0 ≤ c.
Proof.
  intros [HF _]. unfold claims. intros Hc.
  assert (∀ l, dedup l ⊆ l) as Hded.
  { induction l as [|x [|y l] IH]; [done|done|]. cbn [dedup] in *.
    destruct (x =? y); set_solver. }
  apply Hded in Hc. rewrite (merge_sort_Permutation Z.le) in Hc.
  apply list_elem_of_omap in Hc as (e & He & Hce). rewrite Forall_forall in HF.
  destruct (HF e He) as [[Hid _] _]. pose proof (proj1 (claim_spec _ c Hid) Hce) as [Ht ->].
  destruct (Z.lt_ge_cases (ed_id e) (2 ^ 48)) as [Hlt|]; [|lia].
  by rewrite (testbit_small _ 48 48) in Ht.
Qed.

Section conservation.
Variable SUBSIDY_HALVING_INTERVAL : Z.
Variable instructions : list Z → list (outcome script_error Instruction).
Variable is_op_return : list Z → bool.
#[local] Abbreviation process_edict := (process_edict is_op_return).

Lemma process_edict_inv T limits a0 outputs st e st' :
  (∀ id, T id < 2 ^ 128) → 0 ≤ ed_amount e → length outputs = length (allocated st) →
  edict_inv T limits a0 (length (allocated st)) st →
  process_edict outputs st e = Ok st' →
  edict_inv T limits a0 (length (allocated st)) st'.
Proof.
  intros HT Hamt Hlen Hinv. pose proof Hinv as [Hok Htot _ Hmint Hdom Hal Hbal].
  unfold process_edict.
  destruct (try_into 64 (ed_output e)) as [o|]; [|by intros [= <-]].
  destruct (Z.leb_spec (Z.of_nat (length outputs)) o) as [|Ho]; [by intros [= <-]|].
  destruct (edict_source st (ed_id e)) as [[[src b] id]|] eqn:Hs; [|by intros [= <-]].
  destruct (Z.eqb_spec o (Z.of_nat (length outputs))); [lia|].
  destruct (edict_source_bounds _ _ _ _ _ Hok Hs) as [Hb Hfit]. rewrite Htot in Hfit.
  specialize (HT id). intros ([b' al'] & Ha & H)%outcome_bind_Ok.
  apply allocate_spec in Ha as (Hb' & HF & Hl & Ht);
    [|destruct (ed_amount e =? 0); lia|by apply ok_allocated|lia].
  set (amt := if ed_amount e =? 0 then b else Z.min (ed_amount e) b) in *.
  assert (0 ≤ amt ≤ b) as Hamt' by (unfold amt; destruct (ed_amount e =? 0); lia).
  pose proof (set_balance_ok src b' al' st Hok ltac:(lia) HF) as Hok'.
  injection H as <-. split; cbn [allocation mintable unalloc allocated].
  - by destruct Hok'; split.
  - intros id0. pose proof (set_balance_total _ _ _ _ _ b' al' id0 Hs) as E.
    unfold total, issue in *. cbn [allocation mintable unalloc allocated] in *.
    rewrite E, Ht, <- Htot. unfold total, issue. case_decide; lia.
  - by destruct src.
  - intros id0. specialize (Hmint id0). destruct src as [|c|h]; cbn; [done| |done].
    unfold edict_source in Hs. destruct (ed_id e =? 0); [by destruct (allocation st)|].
    destruct (claim (ed_id e)) as [c'|]; [|by destruct (unalloc st !! ed_id e)].
    destruct (mintable st !! c') as [v|] eqn:E; [|done]. injection Hs as <- <- <-.
    destruct (decide (c' = id0)) as [->|]; [|by rewrite lk_insert_ne].
    rewrite lk_insert. rewrite (lk_Some _ _ _ E) in Hmint. lia.
  - destruct src as [|c|h]; cbn; [done| |done].
    unfold edict_source in Hs. destruct (ed_id e =? 0); [by destruct (allocation st)|].
    destruct (claim (ed_id e)) as [c'|]; [|by destruct (unalloc st !! ed_id e)].
    destruct (mintable st !! c') as [v|] eqn:E; [|done]. injection Hs as <- <- <-.
    rewrite dom_insert_lookup_L by eauto. done.
  - destruct src; cbn; [|done|done]. rewrite <- Hal. by destruct (allocation st).
  - intros a. destruct src; cbn; [|by apply Hbal..].
    intros (a1 & Ha1 & ->)%fmap_Some. cbn. specialize (Hbal a1 Ha1).
    unfold edict_source in Hs. destruct (ed_id e =? 0).
    + rewrite Ha1 in Hs. injection Hs as <- _. lia.
    + destruct (claim (ed_id e)) as [c'|]; [by destruct (mintable st !! c')|
        by destruct (unalloc st !! ed_id e)].
Qed.

Lemma process_edicts_inv T limits a0 outputs es st st' :
  (∀ id, T id < 2 ^ 128) → Forall Edict_ok es →
  edict_inv T limits a0 (length outputs) st →
  foldM (process_edict outputs) st es = Ok st' →
  edict_inv T limits a0 (length outputs) st'.
Proof.
  intros HT HF Hinv. eapply foldM_inv; [|exact Hinv].
  intros s e s' He Hs Hrun. pose proof (ei_length _ _ _ _ _ Hs) as Hl.
  rewrite <- Hl in *. eapply process_edict_inv; try done.
  rewrite Forall_forall in HF. apply (HF e He).
Qed.

(** Adding the positive balances of one map to another. *)
Lemma add_positive_lk acc held :
  bal_ok acc → bal_ok held → (∀ id, lk acc id + lk held id < 2 ^ 128) →
  bal_ok (add_positive acc held)
  ∧ ∀ id, lk (add_positive acc held) id = lk acc id + lk held id.
Proof.
  intros Hacc. unfold add_positive.
  apply (map_fold_weak_ind (λ r m, bal_ok m → (∀ id, lk acc id + lk m id < 2 ^ 128) →
           bal_ok r ∧ ∀ id, lk r id = lk acc id + lk m id)).
  - intros _ _. split; [done|]. intros id. rewrite (lk_None ∅) by apply lookup_empty. lia.
  - intros i x m r Hi IH Hm Hfit.
    assert (0 ≤ x) as Hx by (apply (Hm i); by rewrite lookup_insert_eq).
    assert (bal_ok m) as Hm' by (by eapply map_Forall_insert_1_2).
    destruct IH as [Hr Hlk]; [done| |].
    { intros id. specialize (Hfit id). destruct (decide (i = id)) as [->|].
      - rewrite (lk_None m id Hi). rewrite lk_insert in Hfit. lia.
      - by rewrite lk_insert_ne in Hfit. }
    assert (lk r i = lk acc i) as Hri by (rewrite Hlk, (lk_None m i Hi); lia).
    specialize (Hfit i) as Hfi. rewrite lk_insert in Hfi. pose proof (bal_ok_lk acc i Hacc).
    destruct (Z.ltb_spec 0 x).
    + split; [by apply add_entry_ok|]. intros id. unfold add_entry. fold (lk r i).
      rewrite wrap_small by (unfold in_range; lia). destruct (decide (i = id)) as [->|].
      * rewrite !lk_insert. lia.
      * by rewrite !lk_insert_ne by done.
    + split; [done|]. intros id. destruct (decide (i = id)) as [->|].
      * rewrite lk_insert. lia.
      * by rewrite lk_insert_ne by done.
Qed.

(** On non-negative balances the unconditional loop does the same. *)
Lemma burn_all_lk held :
  bal_ok held → (∀ id, lk held id < 2 ^ 128) →
  ∀ id, lk (map_fold (λ id balance acc, add_entry acc id balance) (∅ : balances) held) id
        = lk held id.
Proof.
  apply (map_fold_weak_ind (λ r m, bal_ok m → (∀ id, lk m id < 2 ^ 128) →
           ∀ id, lk r id = lk m id)); [done|].
  intros i x m r Hi IH Hm Hfit id.
  assert (bal_ok m) as Hm' by (by eapply map_Forall_insert_1_2).
  assert (∀ id, lk m id < 2 ^ 128) as Hfit'.
  { intros j. specialize (Hfit j). destruct (decide (i = j)) as [->|].
    - by rewrite (lk_None m j Hi).
    - by rewrite lk_insert_ne in Hfit. }
  specialize (IH Hm' Hfit'). specialize (Hfit i). rewrite lk_insert in Hfit.
  assert (0 ≤ x) as Hx by (apply (Hm i); by rewrite lookup_insert_eq).
  unfold add_entry. fold (lk r i). rewrite (IH i), (lk_None m i Hi).
  rewrite wrap_small by (unfold in_range; lia).
  destruct (decide (i = id)) as [->|]; [by rewrite !lk_insert|by rewrite !lk_insert_ne].
Qed.

Lemma assign_leftover_total ds outputs st outs burned :
  st_ok st → (∀ id, total st id < 2 ^ 128) →
  assign_leftover is_op_return ds outputs st = Ok (outs, burned) →
  length outs = length (allocated st)
  ∧ ∀ id, tot outs id + lk burned id = tot (allocated st) id + lk (unalloc st) id.
Proof.
  intros Hok Hfit. pose proof (ok_unalloc st Hok) as Hu. pose proof (ok_allocated st Hok) as Ha.
  assert (∀ id, tot (allocated st) id + lk (unalloc st) id ≤ total st id) as Hle.
  { intros id. unfold total. pose proof (issue_nonneg st id Hok).
    pose proof (bal_ok_lk _ id (ok_mintable st Hok)). lia. }
  unfold assign_leftover.
  destruct (match ds with Some d => cenotaph d | None => false end).
  - intros [= <- <-]. split; [done|]. intros id. rewrite burn_all_lk; [done|done|].
    intros j. specialize (Hfit j). specialize (Hle j). pose proof (tot_nonneg _ j Ha). lia.
  - destruct (leftover_output _ _ _) as [vout|].
    + intros H. run_inv. rename a into m. apply get_Some in E as [_ E].
      assert (bal_ok m) as Hm by (by eapply Forall_lookup_1).
      assert (∀ id, lk m id ≤ tot (allocated st) id) as Hml
        by (intros; by eapply tot_lookup_le).
      destruct (add_positive_lk m (unalloc st) Hm Hu) as [_ Hlk].
      { intros id. specialize (Hml id). specialize (Hfit id). specialize (Hle id). lia. }
      split; [by rewrite length_insert|]. intros id. unfold tot.
      rewrite (sumZ_insert _ _ _ _ _ E), Hlk, (lk_None ∅) by apply lookup_empty. lia.
    + intros [= <- <-]. split; [done|]. intros id.
      destruct (add_positive_lk ∅ (unalloc st) bal_ok_empty Hu) as [_ Hlk].
      { intros j. rewrite (lk_None ∅) by apply lookup_empty.
        specialize (Hfit j). specialize (Hle j). pose proof (tot_nonneg _ j Ha). lia. }
      rewrite Hlk, (lk_None ∅) by apply lookup_empty. lia.
Qed.

(** ** The inputs and the mint limits *)

Lemma unallocated_ok tx resolver held : unallocated tx resolver = Ok held → bal_ok held.
Proof.
  unfold unallocated. apply foldM_inv; [|apply bal_ok_empty].
  intros s i s' _ Hs H. run_inv; [|done]. 
  generalize (tb_dunes t). clear -Hs. intros l. revert s Hs.
  induction l as [|d l IH]; intros s Hs; [done|]. cbn. by apply IH, add_entry_ok.
Qed.

(** Stored terms never carry a negative amount. *)
Definition terms_ok (db : DunesDB) : Prop :=
  ∀ k t a, DuneTermsByIdKV db !! k = Some t → dt_amount t = Some a → 0 ≤ a.

Lemma mint_spec db id height x :
  mint db id height = Some x →
  ∃ t, DuneTermsByIdKV db !! kv_of_dune_id id = Some t ∧ x = default 0 (dt_amount t)
    ∧ (∀ s, dt_start_height t = Some s → s ≤ height)
    ∧ (∀ e, dt_end_height t = Some e → height < e)
    ∧ lk (DuneMintsByIdKV db) (kv_of_dune_id id) < default (umax 128) (dt_cap t).
Proof.
  unfold mint. destruct (DuneTermsByIdKV db !! _) as [t|]; [|done].
  destruct (match dt_start_height t with Some s => _ | None => false end) eqn:Es; [done|].
  destruct (match dt_end_height t with Some s => _ | None => false end) eqn:Ee; [done|].
  destruct (_ <=? _) eqn:Ec; [done|]. intros [= <-]. exists t. split; [done|]. split; [done|].
  apply Z.leb_gt in Ec. split; [|split; [|done]].
  - intros s Hs. rewrite Hs in Es. lia.
  - intros e He. rewrite He in Ee. lia.
Qed.

(** The claims collected: each is a claim of the list that [mint] accepts. *)
Lemma collect_mintable_spec db height cs :
  ∀ id x, (collect_mintable db height cs).1 !! id = Some x →
    id ∈ cs ∧ ∃ key, DuneId_try_from id = Some key ∧ mint db key height = Some x.
Proof.
  unfold collect_mintable.
  assert (∀ l (acc : balances * list Z),
    (∀ p, p ∈ l → p.2 ∈ cs) →
    (∀ id x, acc.1 !! id = Some x →
       id ∈ cs ∧ ∃ key, DuneId_try_from id = Some key ∧ mint db key height = Some x) →
    ∀ id x, (foldl (λ acc p,
      match DuneId_try_from p.2 with
      | Some key => match mint db key height with
                    | Some x => (<[p.2 := x]> acc.1, acc.2 ++ [wrap 16 (Z.of_nat p.1)])
                    | None => acc
                    end
      | None => acc
      end) acc l).1 !! id = Some x →
       id ∈ cs ∧ ∃ key, DuneId_try_from id = Some key ∧ mint db key height = Some x) as H.
  { induction l as [|[i c] l IH]; intros acc Hl Hacc id x; cbn [foldl snd fst]; [apply Hacc|].
    apply IH; [intros p Hp; apply Hl; by right|].
    destruct (DuneId_try_from c) as [key|] eqn:Ek; [|done].
    destruct (mint db key height) as [y|] eqn:Em; [|done]. cbn [fst].
    intros id' x' [[-> ->]|[_ ?]]%lookup_insert_Some; [|by apply Hacc].
    split; [apply (Hl (i, id')); by left|eauto]. }
  apply H; [|intros ? ?; cbn [fst]; by rewrite lookup_empty].
  intros [i c] (j & y & E & Hy)%elem_of_lookup_imap. injection E as -> ->.
  by eapply list_elem_of_lookup_2.
Qed.

Lemma collect_mintable_ok db height cs :
  terms_ok db → bal_ok (collect_mintable db height cs).1.
Proof.
  intros Hdb id x Hx. apply collect_mintable_spec in Hx as (_ & key & _ & Hm).
  apply mint_spec in Hm as (t & Ht & -> & _).
  destruct (dt_amount t) as [a|] eqn:E; [|done]. by eapply Hdb.
Qed.

(** ** Etching *)

(** How a new name was accepted: a free name outside the reserved range, or the
    next reserved one. *)
Inductive etch_case (db : DunesDB) (dune : Z) : DunesDB → Prop :=
| etch_named : dune < RESERVED → DuneIdByNameKV db !! dune = None → etch_case db dune db
| etch_reserved c : c = default 0 (DunesReservedCountersKV db) → dune = RESERVED + c →
    etch_case db dune (set_reserved (wrap 64 (c + 1)) db).

Lemma etched_spec db tx_index ds height network r db1 :
  etched SUBSIDY_HALVING_INTERVAL db tx_index ds height network = Ok (r, db1) →
  match r with
  | Some (id, dune) => id = mkDuneId height tx_index ∧ etch_case db dune db1
  | None => db1 = db
  end.
Proof.
  unfold etched. destruct (etching ds) as [e|]; [|by intros [= <- <-]].
  intros (m & _ & H)%outcome_bind_Ok. destruct (e_dune e) as [dune|].
  - destruct (_ || _) eqn:Ho; [by injection H as <- <-|]. injection H as <- <-.
    apply orb_false_iff in Ho as [Ho Hn]. apply orb_false_iff in Ho as [_ Hr].
    unfold is_reserved in Hr. apply Z.leb_gt in Hr. apply bool_decide_eq_false in Hn.
    split; [done|]. apply etch_named; [done|]. by apply eq_None_not_Some.
  - apply outcome_bind_Ok in H as (dune & Hd & H). injection H as <- <-. split; [done|].
    unfold reserved, lift_panic, checked_add in Hd.
    destruct (try_into 128 _) eqn:E; [|done]. cbn in Hd. injection Hd as <-.
    apply try_into_Some in E as [-> _]. by eapply etch_reserved.
Qed.

Lemma etch_allocation_spec db tx_index ds height network a0 etch db1 :
  etch_allocation SUBSIDY_HALVING_INTERVAL db tx_index ds height network = Ok (a0, etch, db1) →
  match a0 with
  | Some a => al_balance a = umax 128 ∧ u16_ok tx_index ∧ is_Some (etching ds)
              ∧ al_id a = u128_from_DuneId (mkDuneId height tx_index)
              ∧ etch_case db (al_dune a) db1
  | None => db1 = db ∨ ∃ dune, etch_case db dune db1
  end.
Proof.
  unfold etch_allocation. destruct (etching ds) as [e|] eqn:Ee;
    [|intros [= <- <- <-]; by left].
  intros ([r db'] & Hr & H)%outcome_bind_Ok. apply etched_spec in Hr.
  destruct r as [[id dune]|]; [|injection H as <- <- <-; by left].
  destruct Hr as [_ Hr]. injection H as <- <- <-.
  destruct (try_into 16 tx_index) as [i|] eqn:Ei; [|right; by exists dune].
  apply try_into_Some in Ei as [_ Hi]. cbn. split; [done|]. split; [done|].
  split; [by eexists|]. split; [done|done].
Qed.

Lemma etch_case_tables db dune db1 :
  etch_case db dune db1 →
  DuneTermsByIdKV db1 = DuneTermsByIdKV db ∧ DuneMintsByIdKV db1 = DuneMintsByIdKV db
  ∧ DuneIdByNameKV db1 = DuneIdByNameKV db.
Proof. by destruct 1. Qed.

Lemma etch_allocation_tables db tx_index ds height network a0 etch db1 :
  etch_allocation SUBSIDY_HALVING_INTERVAL db tx_index ds height network = Ok (a0, etch, db1) →
  DuneTermsByIdKV db1 = DuneTermsByIdKV db ∧ DuneMintsByIdKV db1 = DuneMintsByIdKV db
  ∧ DuneIdByNameKV db1 = DuneIdByNameKV db.
Proof.
  intros H. apply etch_allocation_spec in H. destruct a0 as [a|].
  - destruct H as (_ & _ & _ & _ & H). by eapply etch_case_tables.
  - destruct H as [->|[dune H]]; [done|]. by eapply etch_case_tables.
Qed.

(** ** Conservation *)

(** What may be issued of a dune in this transaction: everything, for the dune
    it etches. *)
Definition issue_cap (st : AllocState) (id : Z) : Z :=
  match allocation st with
  | Some a => if decide (al_id a = id) then umax 128 else 0
  | None => 0
  end.

Definition issued (st : AllocState) (id : Z) : Z := issue_cap st id - issue st id.

Definition minted (limits : balances) (st : AllocState) (id : Z) : Z :=
  lk limits id - lk (mintable st) id.

Record run_ok (held : balances) (n : nat) (run : DunestoneRun) : Prop := {
  ro_ok : st_ok (run_state run);
  ro_total : ∀ id, total (run_state run) id
    = issue_cap (run_state run) id + lk (run_limits run) id + lk held id;
  ro_length : length (allocated (run_state run)) = n;
  ro_mintable : ∀ id, lk (mintable (run_state run)) id ≤ lk (run_limits run) id;
  ro_issued : ∀ id, 0 ≤ issued (run_state run) id;
}.

Lemma tot_replicate_empty n id : tot (replicate n ∅) id = 0.
Proof.
  induction n as [|n IH]; [done|].
  change (tot (replicate (S n) ∅) id) with (lk (∅ : balances) id + tot (replicate n ∅) id).
  by rewrite IH, (lk_None ∅) by apply lookup_empty.
Qed.

Lemma issue_cap_ext st a0 :
  set_al_balance 0 <$> allocation st = set_al_balance 0 <$> a0 →
  ∀ id, issue_cap st id
        = match a0 with Some a => if decide (al_id a = id) then umax 128 else 0 | None => 0 end.
Proof.
  intros E id. unfold issue_cap. destruct (allocation st) as [a|], a0 as [b|]; try done.
  injection E as _ E _. by rewrite E.
Qed.

Lemma issued_nonneg st id :
  (∀ a, allocation st = Some a → al_balance a ≤ umax 128) → 0 ≤ issued st id.
Proof.
  intros H. unfold issued, issue_cap, issue. destruct (allocation st) as [a|]; [|done].
  specialize (H a eq_refl). case_decide; lia.
Qed.

Lemma initial_inv a0 limits held n :
  (∀ a, a0 = Some a → al_balance a = umax 128) → bal_ok limits → bal_ok held →
  edict_inv (λ id, match a0 with Some a => if decide (al_id a = id) then umax 128 else 0
                   | None => 0 end + lk limits id + lk held id)
    limits a0 n (mkAllocState a0 limits held (replicate n ∅) 0).
Proof.
  intros Ha Hl Hh. split; cbn; try done.
  - split; cbn; [|done|done|].
    + intros a E. rewrite (Ha a E). by vm_compute.
    + apply Forall_replicate, bal_ok_empty.
  - intros id. unfold total, issue. cbn. rewrite tot_replicate_empty.
    destruct a0 as [a|]; [rewrite (Ha a eq_refl)|]; lia.
  - by rewrite length_replicate.
  - intros a E. by rewrite (Ha a E).
Qed.

(** An edict changes the balance of the new dune, not its identity. *)
Lemma process_edict_allocation outputs st e st' :
  process_edict outputs st e = Ok st' →
  set_al_balance 0 <$> allocation st = set_al_balance 0 <$> allocation st'.
Proof.
  unfold process_edict. intros H. destruct (try_into 64 _); [|by injection H as <-].
  destruct (_ <=? _); [by injection H as <-|].
  destruct (edict_source _ _) as [[[src b] id]|]; [|by injection H as <-].
  apply outcome_bind_Ok in H as ([b' al] & _ & H). injection H as <-.
  destruct src; cbn; [|done|done]. by destruct (allocation st).
Qed.

Lemma run_dunestone_ok db tx_index tx ds height network held run db' :
  terms_ok db → Dunestone_ok ds → bal_ok held →
  run_dunestone SUBSIDY_HALVING_INTERVAL is_op_return db tx_index tx ds height network held
    (replicate (length (output tx)) ∅) = Ok (run, db') →
  (∀ id, issue_cap (run_state run) id + lk (run_limits run) id + lk held id < 2 ^ 128) →
  run_ok held (length (output tx)) run.
Proof.
  intros Hdb [Hed _] Hh. unfold run_dunestone.
  intros ([[a0 etch] db1] & He & H)%outcome_bind_Ok.
  destruct (etch_allocation_tables _ _ _ _ _ _ _ _ He) as (Ht & _ & _).
  assert (∀ a, a0 = Some a → al_balance a = umax 128) as Ha.
  { intros a ->. by apply etch_allocation_spec in He as [? _]. }
  assert (terms_ok db1) as Hdb1 by (intros k t a; rewrite Ht; apply Hdb).
  apply outcome_bind_Ok in H as ([run1 db2] & Hrun & H).
  apply outcome_bind_Ok in H as (db3 & _ & H). injection H as <- <-.
  destruct (cenotaph ds).
  - injection Hrun as <- <-. intros _. cbn.
    pose proof (initial_inv a0 ∅ held (length (output tx)) Ha bal_ok_empty Hh) as Hi.
    split; cbn [run_state run_limits]; [apply Hi|apply Hi|apply Hi|done|].
    intros id. apply issued_nonneg. apply Hi.
  - pose proof (collect_mintable_ok db1 height (claims ds) Hdb1) as Hl.
    destruct (collect_mintable db1 height (claims ds)) as [limits mints].
    apply outcome_bind_Ok in Hrun as (st & Hst & Hrun).
    apply outcome_bind_Ok in Hrun as (db4 & _ & Hrun). injection Hrun as <- <-.
    intros Hfit. cbn [run_state run_limits fst] in *.
    pose proof (initial_inv a0 limits held (length (output tx)) Ha Hl Hh) as Hi.
    assert (set_al_balance 0 <$> allocation st = set_al_balance 0 <$> a0) as Hal.
    { revert Hst.
      apply (foldM_inv (λ s, set_al_balance 0 <$> allocation s = set_al_balance 0 <$> a0));
        [|done].
      intros s e s' _ Hs Hstep. by rewrite <- Hs, <- (process_edict_allocation _ _ _ _ Hstep). }
    eassert (edict_inv _ limits a0 (length (output tx)) st) as Hinv.
    { eapply process_edicts_inv; [|exact Hed|exact Hi|exact Hst].
      intros id. cbn beta. rewrite <- (issue_cap_ext st a0 Hal id). apply Hfit. }
    cbn beta in Hinv.
    split; cbn [run_state run_limits]; [apply Hinv| |apply Hinv|apply Hinv|].
    + intros id. rewrite (ei_total _ _ _ _ _ Hinv id). by rewrite (issue_cap_ext st a0 Hal id).
    + intros id. apply issued_nonneg. apply Hinv.
Qed.

(** What the inputs of a transaction hold of a dune. *)
Definition body_total (id : Z) (b : TxoBody) : Z :=
  sumZ (map (λ d, if decide (u128_from_DuneId (dune_id_of_kv d.1) = id) then d.2 else 0)
          (tb_dunes b)).

Definition input_total (resolver : Resolver) (tx : Transaction) (id : Z) : Z :=
  sumZ (map (λ i, match input_body resolver i with
                  | Ok (Some b) => body_total id b
                  | _ => 0
                  end) (input tx)).

Lemma add_entry_mod m k v id :
  lk m id = wrap 128 (lk m id) →
  lk (add_entry m k v) id = wrap 128 (lk m id + (if decide (k = id) then v else 0)).
Proof.
  intros Hm. unfold add_entry. fold (lk m k). case_decide as Hd.
  - subst. by rewrite lk_insert.
  - rewrite lk_insert_ne by done. by rewrite Z.add_0_r.
Qed.

Lemma fold_dunes_mod l m id :
  lk m id = wrap 128 (lk m id) →
  lk (foldl (λ u d, add_entry u (u128_from_DuneId (dune_id_of_kv d.1)) d.2) m l) id
  = wrap 128 (lk m id
      + sumZ (map (λ d, if decide (u128_from_DuneId (dune_id_of_kv d.1) = id) then d.2 else 0) l)).
Proof.
  revert m. induction l as [|d l IH]; intros m Hm; cbn [foldl map].
  - cbn. by rewrite Z.add_0_r.
  - rewrite IH.
    + rewrite add_entry_mod by done. unfold wrap, sumZ. cbn [foldr].
      rewrite Zplus_mod_idemp_l. f_equal. lia.
    + rewrite add_entry_mod by done. unfold wrap. by rewrite Z.mod_mod.
Qed.

(** The collected balances are the inputs' totals, in 128-bit arithmetic. *)
Lemma unallocated_total tx resolver held id :
  unallocated tx resolver = Ok held → lk held id = wrap 128 (input_total resolver tx id).
Proof.
  unfold unallocated, input_total.
  assert (∀ l m r, lk m id = wrap 128 (lk m id) →
    foldM (λ u i, body ← input_body resolver i;
      match body with
      | None => Ok u
      | Some b => Ok (foldl (λ u d,
          add_entry u (u128_from_DuneId (dune_id_of_kv d.1)) d.2) u (tb_dunes b))
      end) m l = Ok r →
    lk r id = wrap 128 (lk m id + sumZ (map (λ i, match input_body resolver i with
                  | Ok (Some b) => body_total id b | _ => 0 end) l))) as H.
  { induction l as [|i l IH]; intros m r Hm; cbn [foldM map].
    - intros [= <-]. cbn. by rewrite Z.add_0_r.
    - destruct (input_body resolver i) as [[b|]| |]; cbn [mbind outcome_bind]; try done.
      + intros Hr. apply IH in Hr.
        * rewrite Hr, fold_dunes_mod by done. fold (body_total id b). unfold wrap, sumZ. cbn [foldr].
          rewrite Zplus_mod_idemp_l. f_equal. lia.
        * rewrite fold_dunes_mod by done. unfold wrap. by rewrite Z.mod_mod.
      + intros Hr. apply IH in Hr; [|done]. rewrite Hr. unfold sumZ. cbn [foldr]. f_equal. }
  intros Hr. apply H in Hr; rewrite (lk_None ∅) in * by apply lookup_empty; [done|by vm_compute].
Qed.

(** Stored balances are never negative. *)
Definition resolver_ok (resolver : Resolver) : Prop :=
  ∀ r b d, resolver !! r = Some b → d ∈ tb_dunes b → 0 ≤ d.2.

Lemma input_total_nonneg resolver tx id : resolver_ok resolver → 0 ≤ input_total resolver tx id.
Proof.
  intros Hr. apply sumZ_nonneg, Forall_map, Forall_forall. intros i _. cbn.
  unfold input_body. destruct (negb _); [|done].
  destruct (resolver !! _) as [b|] eqn:E; [|done].
  apply sumZ_nonneg, Forall_map, Forall_forall. intros d Hd. cbn. case_decide; [|done].
  by eapply Hr.
Qed.

Hypothesis pushes_are_bytes :
  ∀ script push, Ok (PushBytes push) ∈ instructions script → bytes_ok push.

(** C8: indexing a transaction conserves every dune.  For each identifier, what
    the outputs receive plus what is burned is what the inputs held plus what
    was minted plus what was issued by the etching: nothing else is created and
    no balance underflows.  A mint gives at most its limit, and only the dune
    the transaction etches is issued.  The hypothesis is that the dunes in play
    fit in 128 bits. *)
Theorem index_runes_conserves (resolver : Resolver) (db db' : DunesDB) (tx_index : Z)
    (tx : Transaction) (height : Z) (network : BitcoinCompatibleNetwork) (t : IndexTrace) :
  resolver_ok resolver → terms_ok db →
  index_runes_trace SUBSIDY_HALVING_INTERVAL instructions is_op_return resolver db tx_index tx
    height network = Ok (t, db') →
  (∀ id, issue_cap (it_state t) id + lk (it_limits t) id + input_total resolver tx id < 2 ^ 128) →
  length (output_dunes (it_result t)) = length (output tx)
  ∧ ∀ id,
    tot (output_dunes (it_result t)) id + lk (it_burned t) id
      = input_total resolver tx id + minted (it_limits t) (it_state t) id + issued (it_state t) id
    ∧ 0 ≤ minted (it_limits t) (it_state t) id ≤ lk (it_limits t) id
    ∧ 0 ≤ issued (it_state t) id.
Proof.
  intros Hres Hdb. unfold index_runes_trace.
  intros (held & Hheld & H)%outcome_bind_Ok. pose proof (unallocated_ok _ _ _ Hheld) as Hh.
  apply outcome_bind_Ok in H as ([run db1] & Hrun & H).
  apply outcome_bind_Ok in H as ([outs burned] & Hl & H). injection H as <- <-.
  cbn [it_result it_inputs it_burned it_limits it_state output_dunes]. intros Hfit.
  assert (∀ id, lk held id = input_total resolver tx id ∨ 2 ^ 128 ≤ input_total resolver tx id)
    as Hin.
  { intros id. rewrite (unallocated_total _ _ _ id Hheld).
    pose proof (input_total_nonneg resolver tx id Hres).
    destruct (Z.lt_ge_cases (input_total resolver tx id) (2 ^ 128)); [left|by right].
    by apply wrap_small. }
  assert (run_ok held (length (output tx)) run) as Hok.
  { assert (∀ id, lk held id ≤ input_total resolver tx id) as Hle.
    { intros id. destruct (Hin id); [lia|]. rewrite (unallocated_total _ _ _ id Hheld).
      pose proof (wrap_range 128 (input_total resolver tx id)) as [_ ?]; lia. }
    destruct (from_transaction instructions (output tx)) as [ds|] eqn:Hds.
    - eapply run_dunestone_ok; [exact Hdb| |exact Hh|exact Hrun|].
      + by eapply from_transaction_ok.
      + intros id. specialize (Hfit id). specialize (Hle id). lia.
    - injection Hrun as <- <-.
      pose proof (initial_inv None ∅ held (length (output tx)) ltac:(done) bal_ok_empty Hh) as Hi.
      split; cbn [run_state run_limits]; [apply Hi|apply Hi|apply Hi|done|done]. }
  assert (∀ id, lk held id = input_total resolver tx id) as Hheq.
  { intros id. destruct (Hin id) as [|Hbig]; [done|exfalso]. specialize (Hfit id).
    pose proof (ro_mintable _ _ _ Hok id). pose proof (bal_ok_lk _ id (ok_mintable _ (ro_ok _ _ _ Hok))).
    assert (0 ≤ issue_cap (run_state run) id); [|lia].
    unfold issue_cap. destruct (allocation _); [|done]. by case_decide. }
  assert (∀ id, total (run_state run) id < 2 ^ 128) as Htot
    by (intros id; rewrite (ro_total _ _ _ Hok id), Hheq; apply Hfit).
  apply assign_leftover_total in Hl as [Hlen Hl]; [|apply Hok|done].
  split; [by rewrite Hlen; apply Hok|]. intros id. specialize (Hl id).
  pose proof (ro_total _ _ _ Hok id) as Et. pose proof (ro_mintable _ _ _ Hok id).
  pose proof (bal_ok_lk _ id (ok_mintable _ (ro_ok _ _ _ Hok))).
  pose proof (ro_issued _ _ _ Hok id). rewrite Hheq in Et. unfold total in Et.
  unfold minted, issued in *. lia.
Qed.

(** ** The tables *)

Definition cap_of (t : DuneTerms) : Z := default (umax 128) (dt_cap t).

(** [k] was etched before transaction [i] of block [h]. *)
Definition before (h i : Z) (k : KDuneId) : Prop :=
  kd_block k < h ∨ kd_block k = h ∧ kd_tx k < i.

Record dunes_inv (h i : Z) (db : DunesDB) : Prop := {
  di_names : ∀ n k, DuneIdByNameKV db !! n = Some k ↔
    ∃ t, DuneTermsByIdKV db !! k = Some t ∧ dt_name t = n;
  di_order : ∀ k t, DuneTermsByIdKV db !! k = Some t → before h i k;
  di_reserved : ∀ n k, DuneIdByNameKV db !! n = Some k →
    n < RESERVED + default 0 (DunesReservedCountersKV db);
  di_counter : 0 ≤ default 0 (DunesReservedCountersKV db);
  di_mints : ∀ k m, DuneMintsByIdKV db !! k = Some m →
    0 ≤ m ∧ ∃ t, DuneTermsByIdKV db !! k = Some t ∧ m ≤ cap_of t;
  di_caps : ∀ k t, DuneTermsByIdKV db !! k = Some t → 0 ≤ cap_of t ≤ umax 128;
}.

Lemma etch_case_inv h i db dune db1 :
  dunes_inv h i db → default 0 (DunesReservedCountersKV db) < umax 64 →
  etch_case db dune db1 →
  dunes_inv h i db1 ∧ DuneIdByNameKV db1 !! dune = None
  ∧ dune < RESERVED + default 0 (DunesReservedCountersKV db1).
Proof.
  intros Hinv Hc. destruct 1 as [Hr Hn|c -> ->].
  - split; [done|]. split; [done|]. pose proof (di_counter _ _ _ Hinv). lia.
  - pose proof (di_counter _ _ _ Hinv) as H0. unfold umax in Hc.
    rewrite wrap_small by (unfold in_range; lia). cbn. split; [|split; [|lia]].
    + destruct Hinv as [H1 H2 H3 H4 H5 H6]. split; cbn; try done; [|lia].
      intros n k Hk. specialize (H3 n k Hk). lia.
    + apply eq_None_not_Some. intros [k Hk]. apply (di_reserved _ _ _ Hinv) in Hk. lia.
Qed.

(** One mint counter goes up. *)
Lemma mints_insert_inv h i db k t m :
  dunes_inv h i db → DuneTermsByIdKV db !! k = Some t → 0 ≤ m ≤ cap_of t →
  dunes_inv h i (set_mints (<[k := m]>) db).
Proof.
  intros [H1 H2 H3 H4 H5 H6] Ht Hm. split; cbn; try done.
  intros k' m' [[<- <-]|[_ Hk]]%lookup_insert_Some; [|by apply H5].
  split; [lia|]. exists t. split; [done|lia].
Qed.

Lemma increment_mints_inv h i (limits : balances) l db db' :
  dunes_inv h i db → NoDup l.*1 →
  (∀ p, p ∈ l → 0 ≤ p.1 ∧ ∃ key t, DuneId_try_from p.1 = Some key
     ∧ DuneTermsByIdKV db !! kv_of_dune_id key = Some t
     ∧ lk (DuneMintsByIdKV db) (kv_of_dune_id key) < cap_of t) →
  foldM (increment_mint limits) db l = Ok db' →
  dunes_inv h i db' ∧ DuneTermsByIdKV db' = DuneTermsByIdKV db
  ∧ DuneIdByNameKV db' = DuneIdByNameKV db
  ∧ DunesReservedCountersKV db' = DunesReservedCountersKV db.
Proof.
  revert db. induction l as [|[c r] l IH]; intros db Hinv Hnd Hl; cbn [foldM].
  - intros [= <-]. done.
  - inversion_clear Hnd as [|? ? Hc Hnd'].
    destruct (Hl (c, r) ltac:(by left)) as (Hc0 & key & t & Hkey & Ht & Hlt). cbn [fst] in *.
    unfold increment_mint at 1. cbn [fst snd]. destruct (limits !! c) as [limit|]; [|done]. cbn [unwrap mbind outcome_bind].
    destruct (0 <? wrap 128 (limit - r)).
    + rewrite Hkey. cbn [unwrap mbind outcome_bind].
      fold (lk (DuneMintsByIdKV db) (kv_of_dune_id key)).
      assert (0 ≤ lk (DuneMintsByIdKV db) (kv_of_dune_id key)) as H0.
      { unfold lk. destruct (DuneMintsByIdKV db !! _) eqn:E; [|done].
        by apply (di_mints _ _ _ Hinv) in E as [? _]. }
      pose proof (di_caps _ _ _ Hinv _ _ Ht) as Hcap. unfold umax in Hcap.
      rewrite wrap_small by (unfold in_range; lia). intros Hrun.
      apply IH in Hrun; [done| |done|].
      * eapply mints_insert_inv; [done|exact Ht|lia].
      * intros p Hp. destruct (Hl p ltac:(by right)) as (Hp0 & key' & t' & Hk' & Ht' & Hlt').
        split; [done|]. exists key', t'. split; [done|]. split; [done|]. cbn.
        rewrite lk_insert_ne; [done|]. intros E. apply Hc.
        assert (key = key') as -> by (destruct key, key'; by injection E as -> ->).
        rewrite (DuneId_try_from_inj c p.1 key' Hc0 Hp0 Hkey Hk').
        apply list_elem_of_fmap. by exists p.
    + intros Hrun. apply IH in Hrun; [done|done|done|].
      intros p Hp. apply Hl. by right.
Qed.

(** A new entry in the name and terms tables. *)
Lemma create_rune_entry_inv h i db ds dune height db' :
  dunes_inv h i db → u16_ok i → u64_ok h → height = h →
  DuneIdByNameKV db !! dune = None →
  dune < RESERVED + default 0 (DunesReservedCountersKV db) →
  (∀ e t c, etching ds = Some e → e_terms e = Some t → t_cap t = Some c → u128_ok c) →
  create_rune_entry db ds (mkDuneId h i) dune height = Ok db' →
  dunes_inv h (i + 1) db'.
Proof.
  intros [H1 H2 H3 H4 H5 H6] Hi Hh -> Hname Hres Hcaps. unfold create_rune_entry.
  intros (t & Ht & H)%outcome_bind_Ok. injection H as <-.
  set (k := kv_of_dune_id (mkDuneId h i)) in *.
  assert (dt_name t = dune ∧ 0 ≤ cap_of t ≤ umax 128) as [Hn Hcap].
  { unfold dune_terms in Ht. destruct (cenotaph ds); [by injection Ht as <-|].
    destruct (etching ds) as [e|] eqn:Ee; [|done]. cbn [unwrap mbind outcome_bind] in Ht.
    destruct (e_terms e) as [tm|] eqn:Et; [|by injection Ht as <-]. injection Ht as <-.
    split; [done|]. unfold cap_of. cbn. destruct (t_cap tm) as [c|] eqn:Ec; [|by vm_compute].
    pose proof (Hcaps e tm c eq_refl Et Ec). unfold in_range, umax in *. cbn. lia. }
  assert (DuneTermsByIdKV db !! k = None) as Hfresh.
  { apply eq_None_not_Some. intros [t' Ht']. apply H2 in Ht'. unfold before, k in Ht'. cbn in Ht'. lia. }
  assert (∀ n k', DuneIdByNameKV db !! n = Some k' → k' ≠ k) as Hk.
  { intros n k' Hnk ->. apply H1 in Hnk as (t' & Ht' & _). congruence. }
  split; cbn.
  - intros n k'. split.
    + intros [[<- <-]|[Hne Hk']]%lookup_insert_Some.
      * exists t. by rewrite lookup_insert_eq.
      * pose proof (Hk _ _ Hk'). apply H1 in Hk' as (t' & Ht' & Hn').
        exists t'. by rewrite lookup_insert_ne by congruence.
    + intros (t' & [[<- <-]|[Hne Ht']]%lookup_insert_Some & Hn').
      * by rewrite <- Hn', Hn, lookup_insert_eq.
      * assert (DuneIdByNameKV db !! n = Some k') as Hk' by (apply H1; eauto).
        by rewrite lookup_insert_ne by congruence.
  - intros k' t' [[<- _]|[_ Ht']]%lookup_insert_Some.
    + unfold before, k. cbn. lia.
    + apply H2 in Ht'. unfold before in *. lia.
  - intros n k' [[<- _]|[_ Hk']]%lookup_insert_Some; [done|by eapply H3].
  - done.
  - intros k' m Hm. destruct (H5 k' m Hm) as (H0 & t' & Ht' & Hle). split; [done|].
    exists t'. rewrite lookup_insert_ne; [done|]. intros <-. congruence.
  - intros k' t' [[_ <-]|[_ Ht']]%lookup_insert_Some; [done|by eapply H6].
Qed.

Lemma dunes_inv_next h i db : dunes_inv h i db → dunes_inv h (i + 1) db.
Proof.
  intros [H1 H2 H3 H4 H5 H6]. split; try done.
  intros k t Hk. apply H2 in Hk. unfold before in *. lia.
Qed.

(** The keys of the remaining balances are those of the mints. *)
Lemma process_edicts_dom outputs es st st' :
  foldM (process_edict outputs) st es = Ok st' → dom (mintable st') = dom (mintable st).
Proof.
  apply (foldM_inv (λ s, dom (mintable s) = dom (mintable st))); [|done].
  intros s e s' _ Hs. unfold DunesUpdater.process_edict. intros H.
  destruct (try_into 64 _); [|by injection H as <-].
  destruct (_ <=? _); [by injection H as <-|].
  destruct (edict_source s (ed_id e)) as [[[src b] id]|] eqn:Es; [|by injection H as <-].
  apply outcome_bind_Ok in H as ([b' al] & _ & H). injection H as <-.
  destruct src as [|c|]; cbn; [done| |done].
  unfold edict_source in Es. destruct (ed_id e =? 0); [by destruct (allocation s)|].
  destruct (claim (ed_id e)) as [c'|]; [|by destruct (unalloc s !! ed_id e)].
  destruct (mintable s !! c') eqn:E; [|done]. injection Es as <- <- <-.
  by rewrite dom_insert_lookup_L by eauto.
Qed.

Lemma etch_allocation_inv db tx_index ds height network a0 etch db1 :
  dunes_inv height tx_index db → default 0 (DunesReservedCountersKV db) < umax 64 →
  etch_allocation SUBSIDY_HALVING_INTERVAL db tx_index ds height network = Ok (a0, etch, db1) →
  dunes_inv height tx_index db1
  ∧ ∀ a, a0 = Some a → DuneIdByNameKV db1 !! al_dune a = None
      ∧ al_dune a < RESERVED + default 0 (DunesReservedCountersKV db1)
      ∧ u16_ok tx_index ∧ al_id a = u128_from_DuneId (mkDuneId height tx_index).
Proof.
  intros Hinv Hc H. apply etch_allocation_spec in H. destruct a0 as [a|].
  - destruct H as (_ & Hi & _ & Hid & Hcase).
    destruct (etch_case_inv _ _ _ _ _ Hinv Hc Hcase) as (H1 & H2 & H3).
    split; [done|]. by intros a' [= <-].
  - split; [|done]. destruct H as [->|[dune Hcase]]; [done|].
    by apply (etch_case_inv _ _ _ _ _ Hinv Hc Hcase).
Qed.

Lemma collected_increment_inv h i db height ds st mints limits db' :
  dunes_inv h i db → Dunestone_ok ds →
  collect_mintable db height (claims ds) = (limits, mints) →
  dom (mintable st) = dom limits →
  increment_mints limits (mintable st) db = Ok db' →
  dunes_inv h i db' ∧ DuneTermsByIdKV db' = DuneTermsByIdKV db
  ∧ DuneIdByNameKV db' = DuneIdByNameKV db
  ∧ DunesReservedCountersKV db' = DunesReservedCountersKV db.
Proof.
  intros Hinv Hds Hl Hdom Hinc. eapply increment_mints_inv; [exact Hinv| | |exact Hinc].
  - apply NoDup_fst_map_to_list.
  - intros [c r] Hp. apply elem_of_map_to_list in Hp. cbn [fst].
    assert (is_Some (limits !! c)) as [x Hx]
      by (apply elem_of_dom; rewrite <- Hdom; by eapply elem_of_dom_2).
    pose proof (collect_mintable_spec db height (claims ds) c x) as Hs. rewrite Hl in Hs.
    destruct (Hs Hx) as (Hc & key & Hkey & Hm).
    split; [by eapply claims_nonneg|].
    apply mint_spec in Hm as (t & Ht & _ & _ & _ & Hlt). by exists key, t.
Qed.

(** The parts of a run, with the tables between them. *)
Lemma run_dunestone_split db i tx ds h network held al0 run db' :
  u64_ok h →
  run_dunestone SUBSIDY_HALVING_INTERVAL is_op_return db i tx ds h network held al0
    = Ok (run, db') →
  ∃ a0 db2 db3,
    etch_allocation SUBSIDY_HALVING_INTERVAL db i ds h network = Ok (a0, run_etch run, db2)
    ∧ (if cenotaph ds then db3 = db2 ∧ run_mints run = []
       else collect_mintable db2 h (claims ds) = (run_limits run, run_mints run)
            ∧ dom (mintable (run_state run)) = dom (run_limits run)
            ∧ increment_mints (run_limits run) (mintable (run_state run)) db2 = Ok db3)
    ∧ match a0 with
      | Some a => create_rune_entry db3 ds (mkDuneId h i) (al_dune a) h = Ok db'
      | None => db' = db3
      end.
Proof.
  intros Hh H. unfold run_dunestone in H. apply outcome_bind_Ok in H as ([[a0 etch] db2] & He & H).
  apply outcome_bind_Ok in H as ([run1 db3] & Hmid & H).
  apply outcome_bind_Ok in H as (db4 & Hcreate & H). injection H as <- <-.
  exists a0, db2, db3.
  assert (run_etch run1 = etch ∧ set_al_balance 0 <$> allocation (run_state run1)
            = set_al_balance 0 <$> a0
    ∧ (if cenotaph ds then db3 = db2 ∧ run_mints run1 = []
       else collect_mintable db2 h (claims ds) = (run_limits run1, run_mints run1)
            ∧ dom (mintable (run_state run1)) = dom (run_limits run1)
            ∧ increment_mints (run_limits run1) (mintable (run_state run1)) db2 = Ok db3))
    as (<- & Hal & Hparts).
  { destruct (cenotaph ds); [by injection Hmid as <- <-|].
    destruct (collect_mintable db2 h (claims ds)) as [limits mints] eqn:El.
    apply outcome_bind_Ok in Hmid as (st & Hst & Hmid).
    apply outcome_bind_Ok in Hmid as (db5 & Hinc & Hmid). injection Hmid as <- <-.
    split; [done|]. split; [|split; [done|split; [|done]]].
    - cbn. revert Hst.
      apply (foldM_inv (λ s, set_al_balance 0 <$> allocation s = set_al_balance 0 <$> a0)); [|done].
      intros s e s' _ Hs Hstep. by rewrite <- Hs, <- (process_edict_allocation _ _ _ _ Hstep).
    - apply (process_edicts_dom _ _ _ _ Hst). }
  split; [done|]. split; [done|].
  destruct (allocation (run_state run1)) as [a|], a0 as [b|]; try done;
    [|by injection Hcreate as <-].
  injection Hal as _ Hid _ Hdune _ _ _ _. apply etch_allocation_spec in He as (_ & Hi & _ & Hb & _).
  by rewrite Hid, Hb, DuneId_try_from_pack, Hdune in Hcreate by done.
Qed.

Lemma index_runes_trace_split resolver db i tx h network trace db' :
  index_runes_trace SUBSIDY_HALVING_INTERVAL instructions is_op_return resolver db i tx h network
    = Ok (trace, db') →
  match from_transaction instructions (output tx) with
  | Some ds => ∃ held al0 run,
      run_dunestone SUBSIDY_HALVING_INTERVAL is_op_return db i tx ds h network held al0
        = Ok (run, db')
      ∧ successful_mints (it_result trace) = run_mints run
      ∧ it_limits trace = run_limits run ∧ it_state trace = run_state run
  | None => db' = db ∧ successful_mints (it_result trace) = []
  end.
Proof.
  unfold index_runes_trace. intros (held & _ & H)%outcome_bind_Ok.
  apply outcome_bind_Ok in H as ([run db1] & Hrun & H).
  apply outcome_bind_Ok in H as ([outs burned] & _ & H). injection H as <- <-.
  destruct (from_transaction instructions (output tx)) as [ds|].
  - eexists _, _, run. split; [exact Hrun|]. by split.
  - by injection Hrun as <- <-.
Qed.

Lemma index_runes_trace_inv resolver db db' i tx h network trace :
  dunes_inv h i db → u64_ok h → default 0 (DunesReservedCountersKV db) < umax 64 →
  index_runes_trace SUBSIDY_HALVING_INTERVAL instructions is_op_return resolver db i tx h network
    = Ok (trace, db') →
  dunes_inv h (i + 1) db'.
Proof.
  intros Hinv Hh Hc H. apply index_runes_trace_split in H.
  destruct (from_transaction instructions (output tx)) as [ds|] eqn:Hds;
    [|destruct H as [-> _]; by apply dunes_inv_next].
  destruct H as (held & al0 & run & Hrun & _).
  assert (Dunestone_ok ds) as Hok by (by eapply from_transaction_ok).
  apply run_dunestone_split in Hrun as (a0 & db2 & db3 & He & Hmid & Hend); [|done].
  destruct (etch_allocation_inv _ _ _ _ _ _ _ _ Hinv Hc He) as [Hinv2 Ha].
  assert (dunes_inv h i db3 ∧ DuneIdByNameKV db3 = DuneIdByNameKV db2
    ∧ DunesReservedCountersKV db3 = DunesReservedCountersKV db2) as (Hinv3 & Hn3 & Hr3).
  { destruct (cenotaph ds); [by destruct Hmid as [-> _]|]. destruct Hmid as (El & Hdom & Hinc).
    destruct (collected_increment_inv _ _ _ _ _ _ _ _ _ Hinv2 Hok El Hdom Hinc)
      as (H1 & _ & H2 & H3). done. }
  destruct a0 as [a|]; [|rewrite Hend; by apply dunes_inv_next].
  destruct (Ha a eq_refl) as (Hfree & Hlt & Hi16 & Hb).
  eapply create_rune_entry_inv; [exact Hinv3|done|done|reflexivity| | | |exact Hend].
  - by rewrite Hn3.
  - by rewrite Hr3.
  - intros e tm c Ee Et Ec. destruct Hok as (_ & _ & Hetch).
    destruct (Hetch e Ee) as [(_ & Htm & _) _]. by apply (Htm tm Et).
Qed.

(** C9: the tables stay consistent from one transaction to the next.  Names and
    identifiers stay in one-to-one correspondence (a name is never etched
    twice), every identifier stored is of an earlier transaction, reserved
    names are handed out in order, and no mint counter ever passes the cap of
    its dune. *)
Theorem index_runes_tables (resolver : Resolver) (db db' : DunesDB) (tx_index : Z)
    (tx : Transaction) (height : Z) (network : BitcoinCompatibleNetwork)
    (r : IndexRunesResult) :
  dunes_inv height tx_index db → u64_ok height → 0 ≤ tx_index →
  default 0 (DunesReservedCountersKV db) < umax 64 →
  index_runes SUBSIDY_HALVING_INTERVAL instructions is_op_return resolver db tx_index tx
    height network = Ok (r, db') →
  dunes_inv height (tx_index + 1) db'.
Proof.
  intros Hinv Hh Hi Hc. unfold index_runes.
  intros ([t dbx] & H & Hr)%outcome_bind_Ok. injection Hr as _ <-.
  by eapply index_runes_trace_inv.
Qed.

(** A mint is allowed only between the start and end heights of the terms
    and below the cap, and gives the terms' amount. *)
Theorem mint_gated (db : DunesDB) (id : DuneId) (height x : Z) :
  mint db id height = Some x ↔
  ∃ t, DuneTermsByIdKV db !! kv_of_dune_id id = Some t ∧ x = default 0 (dt_amount t)
    ∧ (∀ s, dt_start_height t = Some s → s ≤ height)
    ∧ (∀ e, dt_end_height t = Some e → height < e)
    ∧ lk (DuneMintsByIdKV db) (kv_of_dune_id id) < default (umax 128) (dt_cap t).
Proof.
  split; [apply mint_spec|]. intros (t & Ht & -> & Hs & He & Hc). unfold mint. rewrite Ht.
  destruct (dt_start_height t) as [s|]; [specialize (Hs s eq_refl); destruct (Z.ltb_spec height s); [lia|]|];
  (destruct (dt_end_height t) as [e|]; [specialize (He e eq_refl); destruct (Z.leb_spec e height); [lia|]|]);
  unfold lk in Hc; (destruct (Z.leb_spec (default (umax 128) (dt_cap t))
    (default 0 (DuneMintsByIdKV db !! kv_of_dune_id id))); [lia|done]).
Qed.

(** An edict whose output is the number of outputs, which
    [Edict::from_integers] accepts and the splitting branch is written for, is
    skipped by the guard before it: no edict ever splits its amount over the
    outputs. *)
Theorem split_edict_skipped (outputs : list TxOut) (st : AllocState) (id amount : Z) :
  Edict_from_integers (Z.of_nat (length outputs)) 0 amount (Z.of_nat (length outputs))
    = Some (mkEdict 0 amount (Z.of_nat (length outputs)))
  ∧ process_edict outputs st (mkEdict id amount (Z.of_nat (length outputs))) = Ok st.
Proof.
  split.
  - unfold Edict_from_integers. cbn. by rewrite Z.ltb_irrefl.
  - unfold DunesUpdater.process_edict. cbn [ed_output].
    destruct (try_into 64 _) as [o|] eqn:E; [|done].
    apply try_into_Some in E as [-> _]. by rewrite Z.leb_refl.
Qed.

End conservation.

(** ** A sample transaction

    It spends an output holding 100 of the dune 2:1 and sends 40 of it to its
    third output; the rest goes to the first output that is not [OP_RETURN]. *)

Definition sample_is_op_return (script : list Z) : bool :=
  match script with 106 :: _ => true | _ => false end.

Definition sample_body : TxoBody :=
  mkTxoBody 9 (mkTxOut 5 []) [] [(mkKDuneId 2 1, 100)] [] ∅.

Definition sample_resolver : Resolver := {[ (7, 0) := sample_body ]}.

Definition sample_tx : Transaction :=
  mkTransaction 8 [mkTxIn (mkOutPoint 7 0) []]
    [mkTxOut 0 [106; 1; 68; 6; 0; 134; 255; 1; 40; 2];
     mkTxOut 1 [81]; mkTxOut 2 [82]].

Definition sample_db : DunesDB :=
  mkDunesDB {[ 5 := mkKDuneId 2 1 ]}
    {[ mkKDuneId 2 1 := mkDuneTerms 5 (Some 10) (Some 3) None None ]} ∅ None.

Definition sample_run :=
  index_runes_trace 210000 (simple_instructions 32) sample_is_op_return sample_resolver
    sample_db 4 sample_tx 6000000 Dogecoin.

Definition sample_trace : IndexTrace :=
  match sample_run with
  | Ok (t, _) => t
  | _ => mkIndexTrace (mkIndexRunesResult [] None []) ∅ ∅ ∅ (mkAllocState None ∅ ∅ [] 0)
  end.

Example sample_outputs_hold :
  map (λ m, lk m 131073) (output_dunes (it_result sample_trace)) = [0; 60; 40].
Proof. by vm_compute. Qed.

Lemma sample_input_total id :
  input_total sample_resolver sample_tx id = if decide (131073 = id) then 100 else 0.
Proof.
  unfold input_total. cbn [input sample_tx map].
  assert (input_body sample_resolver (mkTxIn (mkOutPoint 7 0) []) = Ok (Some sample_body))
    as -> by by vm_compute.
  unfold body_total, sumZ. cbn [tb_dunes sample_body map foldr fst snd].
  change (u128_from_DuneId (dune_id_of_kv (mkKDuneId 2 1))) with 131073. case_decide; lia.
Qed.

Lemma index_runes_conserves_witness :
  length (output_dunes (it_result sample_trace)) = length (output sample_tx)
  ∧ ∀ id,
    tot (output_dunes (it_result sample_trace)) id + lk (it_burned sample_trace) id
      = input_total sample_resolver sample_tx id
        + minted (it_limits sample_trace) (it_state sample_trace) id
        + issued (it_state sample_trace) id
    ∧ 0 ≤ minted (it_limits sample_trace) (it_state sample_trace) id
        ≤ lk (it_limits sample_trace) id
    ∧ 0 ≤ issued (it_state sample_trace) id.
Proof.
  apply (index_runes_conserves 210000 (simple_instructions 32) sample_is_op_return
           (simple_instructions_bytes 32) sample_resolver sample_db sample_db 4 sample_tx
           6000000 Dogecoin).
  - intros r b d Hb Hd. unfold sample_resolver in Hb.
    apply lookup_singleton_Some in Hb as [_ <-]. cbn in Hd.
    apply list_elem_of_singleton in Hd as ->. done.
  - intros k t a Hk. cbn in Hk. apply lookup_singleton_Some in Hk as [_ <-]. by intros [= <-].
  - by vm_compute.
  - intros id. rewrite sample_input_total.
    replace (it_limits sample_trace) with (∅ : balances) by by vm_compute.
    replace (issue_cap (it_state sample_trace) id) with 0 by by vm_compute.
    rewrite (lk_None ∅) by apply lookup_empty. case_decide; lia.
Defined.

Lemma index_runes_tables_witness : dunes_inv 6000000 5 sample_db.
Proof.
  apply (index_runes_tables 210000 (simple_instructions 32) sample_is_op_return
           (simple_instructions_bytes 32) sample_resolver sample_db sample_db 4 sample_tx
           6000000 Dogecoin (it_result sample_trace)).
  - split; cbn.
    + intros n k. split.
      * intros [<- <-]%lookup_singleton_Some. eexists. by rewrite lookup_singleton_eq.
      * intros (t & [<- <-]%lookup_singleton_Some & <-). by rewrite lookup_singleton_eq.
    + intros k t [<- _]%lookup_singleton_Some. left. cbn. lia.
    + intros n k [<- _]%lookup_singleton_Some. unfold RESERVED. lia.
    + lia.
    + intros k m. by rewrite lookup_empty.
    + intros k t [_ <-]%lookup_singleton_Some. by vm_compute.
  - by vm_compute.
  - lia.
  - by vm_compute.
  - by vm_compute.
Defined.

End DunesUpdater.
