(* ===== verification/Inscription.v ===== *)
(** Reading inscriptions from signature scripts:
    [storage/inscriptions/inscription.rs].

    A Dogecoin inscription is spread over the first inputs of a chain of
    transactions.  [decode_push_datas] splits a script in its pushes,
    [InscriptionParser::parse] reads the protocol tag, the number of pieces and
    the content type from the first script, and then numbered pieces, counted
    down to zero, from as many scripts as it takes: the result is [Partial] as
    long as pieces are missing. *)

From S2P Require Import Prelude Dunestone Types.
Import Types.

Module Inscription.

Definition PROTOCOL_ID : list Z := [111; 114; 100].

Record Inscription : Type := mkInscription {
  insc_body : option (list Z);
  insc_content_type : option (list Z);
}.

Inductive ParsedInscription : Type :=
| NoInscription
| Partial
| Complete (i : Inscription).

(** ** decode_push_datas *)

(** One push of a non-empty script, and what follows it. *)
Definition sized_push (header len : nat) (bytes : list Z) : option (list Z * list Z) :=
  if (length bytes <? header + len)%nat then None
  else Some (take len (drop header bytes), drop (header + len) bytes).

Definition byte_at (bytes : list Z) (i : nat) : Z := default 0 (bytes !! i).

Definition next_push (bytes : list Z) : option (list Z * list Z) :=
  let op := byte_at bytes 0 in
  if op =? 0 then Some ([], drop 1 bytes)
  else if (81 <=? op) && (op <=? 96) then Some ([op - 80], drop 1 bytes)
  else if (1 <=? op) && (op <=? 75) then sized_push 1 (Z.to_nat op) bytes
  else if op =? 76 then
    if (length bytes <? 2)%nat then None
    else sized_push 2 (Z.to_nat (byte_at bytes 1)) bytes
  else if op =? 77 then
    if (length bytes <? 3)%nat then None
    else sized_push 3 (Z.to_nat (Z.shiftl (byte_at bytes 1) 8 + Z.shiftl (byte_at bytes 0) 0)) bytes
  else if op =? 78 then
    if (length bytes <? 5)%nat then None
    else sized_push 5 (Z.to_nat (Z.shiftl (byte_at bytes 3) 24 + Z.shiftl (byte_at bytes 2) 16
                                 + Z.shiftl (byte_at bytes 1) 8 + Z.shiftl (byte_at bytes 0) 0))
           bytes
  else None.

(** The loop; the result is [Err] when the script is refused, and [Panic] is
    running out of [fuel]. *)
Fixpoint decode_push_datas_loop (fuel : nat) (bytes : list Z) : outcome unit (list (list Z)) :=
  match bytes with
  | [] => Ok []
  | _ =>
      match fuel with
      | O => Panic
      | S f =>
          '(push, rest) ← ok_or tt (next_push bytes);
          push_datas ← decode_push_datas_loop f rest;
          Ok (push :: push_datas)
      end
  end.

Definition decode_push_datas (script : list Z) : option (list (list Z)) :=
  match decode_push_datas_loop (length script) script with
  | Ok push_datas => Some push_datas
  | _ => None
  end.

(** ** push_data_to_number *)

Fixpoint number_loop (n m : Z) (data : list Z) : Z :=
  match data with
  | [] => n
  | b :: data' => number_loop (wrap 64 (n + wrap 64 (Z.shiftl b m))) (m + 8) data'
  end.

Definition push_data_to_number (data : list Z) : option Z :=
  if (8 <? length data)%nat then None else Some (number_loop 0 0 data).

(** ** InscriptionParser::parse *)

(** The loop over the chunks of one script: the pieces still missing and the
    body so far. *)
Fixpoint parse_chunks (npieces : Z) (body : list Z) (push_datas : list (list Z))
  : Z * list Z :=
  if npieces =? 0 then (npieces, body)
  else match push_datas with
       | d0 :: d1 :: rest =>
           match push_data_to_number d0 with
           | Some next =>
               if next =? npieces - 1 then parse_chunks (npieces - 1) (body ++ d1) rest
               else (npieces, body)
           | None => (npieces, body)
           end
       | _ => (npieces, body)
       end.

(** The loop over the scripts after the first. *)
Fixpoint parse_scripts (content_type : list Z) (npieces : Z) (body : list Z)
    (push_datas : list (list Z)) (sig_scripts : list (list Z)) : ParsedInscription :=
  let '(npieces, body) := parse_chunks npieces body push_datas in
  if npieces =? 0 then Complete (mkInscription (Some body) (Some content_type))
  else
    match sig_scripts with
    | [] => Partial
    | sig_script :: sig_scripts' =>
        match decode_push_datas sig_script with
        | None => NoInscription
        | Some push_datas =>
            match push_datas with
            | d0 :: _ :: _ =>
                match push_data_to_number d0 with
                | None => NoInscription
                | Some next =>
                    if next =? npieces - 1 then
                      parse_scripts content_type npieces body push_datas sig_scripts'
                    else NoInscription
                end
            | _ => NoInscription
            end
        end
    end.

(** Indexing the first script of no scripts is a panic. *)
Definition parse (sig_scripts : list (list Z)) : outcome unit ParsedInscription :=
  match sig_scripts with
  | [] => Panic
  | sig_script :: sig_scripts' =>
      Ok (match decode_push_datas sig_script with
          | Some (protocol :: np :: content_type :: push_datas) =>
              if decide (protocol = PROTOCOL_ID) then
                match push_data_to_number np with
                | None => NoInscription
                | Some npieces =>
                    if npieces =? 0 then NoInscription
                    else parse_scripts content_type npieces [] push_datas sig_scripts'
                end
              else NoInscription
          | _ => NoInscription
          end)
  end.

Definition from_transactions (txs : list Transaction) : outcome unit ParsedInscription :=
  if existsb (λ tx, match input tx with [] => true | _ => false end) txs then Ok NoInscription
  else parse (omap (λ tx, script_sig <$> head (input tx)) txs).

(** ** The pushes of a script *)

Lemma next_push_shorter bytes push rest :
  bytes ≠ [] → next_push bytes = Some (push, rest) → (length rest < length bytes)%nat.
Proof.
  intros Hne. assert (∀ h l p r, (0 < h)%nat → sized_push h l bytes = Some (p, r) →
    (length r < length bytes)%nat) as Hs.
  { intros h l p r Hh. unfold sized_push. destruct (Nat.ltb_spec (length bytes) (h + l)); [done|].
    intros [= <- <-]. rewrite length_drop. lia. }
  assert (length (drop 1 bytes) < length bytes)%nat
    by (destruct bytes; [done|cbn; rewrite drop_0; lia]).
  unfold next_push. intros Hp. run_inv; try done; by (eapply Hs; [|done]; lia).
Qed.

Lemma decode_loop_no_panic fuel bytes :
  (length bytes ≤ fuel)%nat → decode_push_datas_loop fuel bytes ≠ Panic.
Proof.
  revert bytes. induction fuel as [|f IH]; intros [|b bytes] Hl; cbn in Hl; try lia; try done.
  cbn [decode_push_datas_loop].
  destruct (next_push (b :: bytes)) as [[push rest]|] eqn:E; [|done].
  cbn [ok_or mbind outcome_bind]. apply next_push_shorter in E; [|done]. cbn in E.
  specialize (IH rest ltac:(lia)). by destruct (decode_push_datas_loop f rest).
Qed.

Lemma decode_loop_mono f f' bytes ds :
  decode_push_datas_loop f bytes = Ok ds → (f ≤ f')%nat →
  decode_push_datas_loop f' bytes = Ok ds.
Proof.
  revert f' bytes ds. induction f as [|f IH]; intros f' [|b bytes] ds H Hle; try done;
    [by destruct f'|by destruct f'|].
  destruct f' as [|f']; [lia|]. cbn [decode_push_datas_loop] in *.
  destruct (next_push (b :: bytes)) as [[push rest]|]; [|done].
  cbn [ok_or mbind outcome_bind] in *. apply outcome_bind_Ok in H as (ds' & Hd & H).
  rewrite (IH f' rest ds' Hd) by lia. done.
Qed.

(** A push of at most 75 bytes directly, of at most 255 with [OP_PUSHDATA1]. *)
Definition encode_push (d : list Z) : list Z :=
  match d with
  | [] => [0]
  | _ => if (length d <=? 75)%nat then Z.of_nat (length d) :: d
         else 76 :: Z.of_nat (length d) :: d
  end.

Lemma next_push_encode d rest :
  (length d ≤ 255)%nat → next_push (encode_push d ++ rest) = Some (d, rest).
Proof.
  intros Hd. destruct d as [|b d0]; [done|]. set (d := b :: d0) in *.
  assert (0 < length d)%nat as Hpos by (cbn; lia).
  assert (encode_push d = if (length d <=? 75)%nat then Z.of_nat (length d) :: d
            else 76 :: Z.of_nat (length d) :: d) as -> by done.
  clearbody d.
  assert (∀ h l, (h + length d ≤ length l)%nat → take (length d) (drop h l) = d →
    drop (h + length d) l = rest → sized_push h (length d) l = Some (d, rest)) as Hs.
  { intros h l Hl Ht Hr. unfold sized_push.
    destruct (Nat.ltb_spec (length l) (h + length d)); [lia|]. by rewrite Ht, Hr. }
  destruct (Nat.leb_spec (length d) 75) as [Hle|Hgt].
  - unfold next_push, byte_at. cbn [app lookup list_lookup default from_option id].
    destruct (Z.eqb_spec (Z.of_nat (length d)) 0); [lia|].
    destruct ((81 <=? Z.of_nat (length d)) && (Z.of_nat (length d) <=? 96)) eqn:E1; [lia|].
    destruct ((1 <=? Z.of_nat (length d)) && (Z.of_nat (length d) <=? 75)) eqn:E2; [|lia].
    rewrite Nat2Z.id. apply Hs.
    + cbn [length]. rewrite length_app. lia.
    + cbn [drop]. rewrite drop_0. by rewrite take_app_length.
    + cbn [drop plus]. by rewrite drop_app_length.
  - unfold next_push, byte_at. cbn [app lookup list_lookup default from_option id].
    change (76 =? 0) with false. change ((81 <=? 76) && (76 <=? 96)) with false.
    change ((1 <=? 76) && (76 <=? 75)) with false. change (76 =? 76) with true. cbn match.
    destruct (Nat.ltb_spec (length (76 :: Z.of_nat (length d) :: d ++ rest)) 2) as [Hl|_];
      [cbn in Hl; lia|].
    rewrite Nat2Z.id. apply Hs.
    + cbn [length]. rewrite length_app. lia.
    + cbn [drop]. rewrite drop_0. by rewrite take_app_length.
    + cbn [drop plus]. by rewrite drop_app_length.
Qed.

Lemma encode_push_nonempty d : (0 < length (encode_push d))%nat.
Proof. unfold encode_push. destruct d; [cbn; lia|]. destruct (_ <=? _)%nat; cbn; lia. Qed.

Lemma decode_push_datas_encode ds :
  Forall (λ d, (length d ≤ 255)%nat) ds →
  decode_push_datas (concat (map encode_push ds)) = Some ds.
Proof.
  intros HF. unfold decode_push_datas.
  assert (decode_push_datas_loop (length (concat (map encode_push ds)))
            (concat (map encode_push ds)) = Ok ds) as ->; [|done].
  induction HF as [|d ds Hd HF IH]; [done|]. cbn [map concat].
  pose proof (encode_push_nonempty d) as Hp. rewrite length_app.
  destruct (length (encode_push d)) as [|l] eqn:El; [lia|]. cbn [plus].
  destruct (encode_push d ++ concat (map encode_push ds)) as [|b bs] eqn:Eb.
  { apply app_nil in Eb as [Eb _]. by rewrite Eb in El. }
  cbn [decode_push_datas_loop]. rewrite <- Eb, next_push_encode by done.
  cbn [ok_or mbind outcome_bind]. rewrite (decode_loop_mono _ _ _ _ IH) by lia. done.
Qed.

(** ** Numbers *)

Fixpoint le_value (data : list Z) : Z :=
  match data with [] => 0 | b :: data' => b + 256 * le_value data' end.

Lemma le_value_bound data : bytes_ok data → 0 ≤ le_value data < 256 ^ Z.of_nat (length data).
Proof.
  induction 1 as [|b data Hb _ IH]; [cbn; lia|]. cbn [le_value length].
  rewrite Nat2Z.inj_succ, Z.pow_succ_r by lia. unfold in_range in Hb. lia.
Qed.

Lemma number_loop_value n m data :
  bytes_ok data → 0 ≤ n → 0 ≤ m → n + 2 ^ m * le_value data < 2 ^ 64 →
  number_loop n m data = n + 2 ^ m * le_value data.
Proof.
  intros HF. revert n m. induction HF as [|b data Hb HF IH]; intros n m Hn Hm Hmax;
    cbn [number_loop le_value] in *; [lia|].
  pose proof (le_value_bound data HF) as [Hv _]. unfold in_range in Hb.
  pose proof (Z.pow_pos_nonneg 2 m ltac:(lia) Hm).
  assert (2 ^ (m + 8) = 2 ^ m * 256) as E by (rewrite Z.pow_add_r by lia; lia).
  rewrite Z.shiftl_mul_pow2 by lia.
  rewrite (wrap_small 64 (b * 2 ^ m)) by (unfold in_range; nia).
  rewrite wrap_small by (unfold in_range; nia).
  rewrite IH; rewrite ?E; lia.
Qed.

(** ** Pieces *)

(** A numbered piece, as the two pushes that carry it. *)
Definition flat (ps : list (list Z * list Z)) : list (list Z) :=
  concat (map (λ p, [p.1; p.2]) ps).

(** The pieces are numbered down from [n - 1]. *)
Fixpoint counted (n : Z) (ps : list (list Z * list Z)) : Prop :=
  match ps with
  | [] => True
  | p :: ps' => push_data_to_number p.1 = Some (n - 1) ∧ counted (n - 1) ps'
  end.

Lemma counted_app n ps qs :
  counted n (ps ++ qs) ↔ counted n ps ∧ counted (n - Z.of_nat (length ps)) qs.
Proof.
  revert n. induction ps as [|p ps IH]; intros n; cbn [app counted length].
  - rewrite Z.sub_0_r. tauto.
  - rewrite IH. replace (n - 1 - Z.of_nat (length ps)) with (n - Z.of_nat (S (length ps))) by lia.
    tauto.
Qed.

Lemma parse_chunks_counted n body ps :
  counted n ps → Z.of_nat (length ps) ≤ n →
  parse_chunks n body (flat ps) = (n - Z.of_nat (length ps), body ++ concat (map snd ps)).
Proof.
  revert n body. induction ps as [|[d0 d1] ps IH]; intros n body Hc Hn.
  - cbn [flat map concat]. rewrite app_nil_r, Z.sub_0_r. cbn. by destruct (n =? 0).
  - change (flat ((d0, d1) :: ps)) with (d0 :: d1 :: flat ps).
    cbn [parse_chunks counted map concat fst snd length] in *. destruct Hc as [Hd Hc].
    destruct (Z.eqb_spec n 0); [lia|]. rewrite Hd, Z.eqb_refl, IH by (done || lia).
    rewrite <- app_assoc. f_equal. lia.
Qed.

Lemma parse_scripts_pieces ct n body ps ss pss :
  counted n (ps ++ concat pss) → Z.of_nat (length (ps ++ concat pss)) ≤ n →
  Forall2 (λ s qs, decode_push_datas s = Some (flat qs) ∧ qs ≠ []) ss pss →
  parse_scripts ct n body (flat ps) ss
  = if Z.of_nat (length (ps ++ concat pss)) =? n
    then Complete (mkInscription (Some (body ++ concat (map snd (ps ++ concat pss)))) (Some ct))
    else Partial.
Proof.
  intros Hc Hn HF. revert n body ps Hc Hn.
  induction HF as [|s qs ss pss [Hs Hne] HF IH]; intros n body ps Hc Hn;
    cbn [concat] in *; cbn [parse_scripts].
  - rewrite !app_nil_r in *. rewrite parse_chunks_counted by done.
    destruct (Z.eqb_spec (n - Z.of_nat (length ps)) 0), (Z.eqb_spec (Z.of_nat (length ps)) n);
      try lia; done.
  - pose proof Hc as Hc0. rewrite counted_app in Hc. destruct Hc as [Hc1 Hc2].
    rewrite length_app in *. rewrite parse_chunks_counted by (done || lia).
    destruct qs as [|[d0 d1] qs']; [done|]. cbn [app length counted] in *.
    destruct (Z.eqb_spec (n - Z.of_nat (length ps)) 0); [lia|]. rewrite Hs.
    change (flat ((d0, d1) :: qs')) with (d0 :: d1 :: flat qs').
    cbn [fst] in Hc2. destruct Hc2 as [Hd Hc2]. rewrite Hd, Z.eqb_refl.
    change (d0 :: d1 :: flat qs') with (flat ((d0, d1) :: qs')).
    rewrite IH.
    + cbn [app length]. rewrite map_app, concat_app, app_assoc.
      destruct (Z.eqb_spec (Z.of_nat (S (length (qs' ++ concat pss)))) (n - Z.of_nat (length ps))),
        (Z.eqb_spec (Z.of_nat (length ps + S (length (qs' ++ concat pss)))) n); try lia; done.
    + cbn [app counted fst]. done.
    + cbn [app length]. lia.
Qed.

(** ** Properties *)

(** An inscription cut in numbered pieces over a chain of signature scripts
    is read back: as long as pieces are missing the parser answers [Partial],
    and once all of them are there it answers [Complete] with the content type
    and the concatenation of the pieces, however they are distributed over the
    scripts (each script after the first carrying at least one). *)
Theorem parse_pieces (s : list Z) (ss : list (list Z)) (np ct : list Z) (n : Z)
    (ps : list (list Z * list Z)) (pss : list (list (list Z * list Z))) :
  decode_push_datas s = Some (PROTOCOL_ID :: np :: ct :: flat ps) →
  push_data_to_number np = Some n → 0 < n →
  Forall2 (λ s qs, decode_push_datas s = Some (flat qs) ∧ qs ≠ []) ss pss →
  counted n (ps ++ concat pss) → Z.of_nat (length (ps ++ concat pss)) ≤ n →
  parse (s :: ss)
  = Ok (if Z.of_nat (length (ps ++ concat pss)) =? n
        then Complete (mkInscription (Some (concat (map snd (ps ++ concat pss)))) (Some ct))
        else Partial).
Proof.
  intros Hs Hnp Hn HF Hc Hl. unfold parse. rewrite Hs, Hnp.
  destruct (decide (PROTOCOL_ID = PROTOCOL_ID)); [|done].
  destruct (Z.eqb_spec n 0); [lia|]. by rewrite (parse_scripts_pieces ct n [] ps ss pss).
Qed.

Lemma parse_pieces_witness :
  parse [concat (map encode_push [PROTOCOL_ID; [2]; [116]; [1]; [7; 8]]);
         concat (map encode_push [[]; [9]])]
  = Ok (Complete (mkInscription (Some [7; 8; 9]) (Some [116]))).
Proof.
  refine (parse_pieces _ _ [2] [116] 2 [([1], [7; 8])] [[([], [9])]] _ _ _ _ _ _);
    [by vm_compute|by vm_compute|lia| |by vm_compute|by vm_compute].
  constructor; [|constructor]. split; [by vm_compute|done].
Defined.

(** Splitting a script in pushes recovers the pushes it was made of
    (of at most 255 bytes), within the fuel, and a number pushed in at most
    eight little-endian bytes is read back without overflow. *)
Theorem push_datas_roundtrip (ds : list (list Z)) (data : list Z) :
  Forall (λ d, (length d ≤ 255)%nat) ds → bytes_ok data → (length data ≤ 8)%nat →
  decode_push_datas (concat (map encode_push ds)) = Some ds
  ∧ push_data_to_number data = Some (le_value data)
  ∧ ∀ script, decode_push_datas_loop (length script) script ≠ Panic.
Proof.
  intros HF Hb Hl. split; [by apply decode_push_datas_encode|].
  split; [|intros script; by apply decode_loop_no_panic].
  unfold push_data_to_number. destruct (Nat.ltb_spec 8 (length data)); [lia|]. f_equal.
  pose proof (le_value_bound data Hb).
  pose proof (Z.pow_le_mono_r 256 (Z.of_nat (length data)) 8 ltac:(lia) ltac:(lia)).
  rewrite number_loop_value by (done || lia). lia.
Qed.

Lemma push_datas_roundtrip_witness :
  decode_push_datas (concat (map encode_push [PROTOCOL_ID; []])) = Some [PROTOCOL_ID; []]
  ∧ push_data_to_number [1; 2] = Some (le_value [1; 2])
  ∧ ∀ script, decode_push_datas_loop (length script) script ≠ Panic.
Proof.
  apply push_datas_roundtrip; [|by repeat constructor|cbn; lia].
  repeat (constructor; [cbn; lia|]). constructor.
Defined.

End Inscription.
