(* ===== verification/Brc20.v ===== *)
(** The drc-20 token protocol carried by inscriptions:
    [storage/inscriptions/brc20.rs], the tables of
    [storage/inscriptions/mod.rs], the message handling of
    [storage/inscriptions/updater.rs] and its undoing in [ChainDB::rollback]
    ([storage/mod.rs]).

    Strings are their UTF-8 bytes.  [serde_json] and the Unicode tables behind
    [str::to_lowercase] are parameters. *)

From S2P Require Import Prelude Decimal Types Inscription.
Import Decimal Types Inscription.

Module Brc20.

(** ** UTF-8 *)

Definition is_cont (b : Z) : bool := (128 <=? b) && (b <=? 191).

(** [str::from_utf8] accepts exactly the well-formed byte sequences. *)
Fixpoint utf8_valid (s : list Z) : bool :=
  match s with
  | [] => true
  | b0 :: s1 =>
      if b0 <? 128 then utf8_valid s1
      else match s1 with
      | [] => false
      | b1 :: s2 =>
          if (194 <=? b0) && (b0 <=? 223) then is_cont b1 && utf8_valid s2
          else match s2 with
          | [] => false
          | b2 :: s3 =>
              if (224 <=? b0) && (b0 <=? 239) then
                is_cont b1 && is_cont b2
                && (negb (b0 =? 224) || (160 <=? b1))
                && (negb (b0 =? 237) || (b1 <=? 159))
                && utf8_valid s3
              else match s3 with
              | [] => false
              | b3 :: s4 =>
                  (240 <=? b0) && (b0 <=? 244) && is_cont b1 && is_cont b2 && is_cont b3
                  && (negb (b0 =? 240) || (144 <=? b1))
                  && (negb (b0 =? 244) || (b1 <=? 143))
                  && utf8_valid s4
              end
          end
      end
  end.

(** ** Raw messages *)

Record RawProtocolMessage : Type := mkRaw {
  raw_p : list Z;
  raw_op : list Z;
  raw_tick : list Z;
  raw_max : option (list Z);
  raw_lim : option (list Z);
  raw_dec : option (list Z);
  raw_self_mint : option (list Z);
  raw_amt : option (list Z);
}.

(** [s.split(c)]. *)
Fixpoint split_on (c : Z) (s : list Z) : list (list Z) :=
  match s with
  | [] => [[]]
  | x :: s' =>
      match split_on c s' with
      | part :: parts => if x =? c then [] :: part :: parts else (x :: part) :: parts
      | [] => []
      end
  end.

Definition text_plain : list Z := [116; 101; 120; 116; 47; 112; 108; 97; 105; 110].
Definition application_json : list Z :=
  [97; 112; 112; 108; 105; 99; 97; 116; 105; 111; 110; 47; 106; 115; 111; 110].
Definition drc_20 : list Z := [100; 114; 99; 45; 50; 48].
Definition op_deploy : list Z := [100; 101; 112; 108; 111; 121].
Definition op_mint : list Z := [109; 105; 110; 116].
Definition op_transfer : list Z := [116; 114; 97; 110; 115; 102; 101; 114].

(** ** parse_decimal: [Err] is [None] *)

Definition is_digit_or_dot (c : Z) : bool := is_digit c || (c =? 46).

Definition starts_with_dot (m : list Z) : bool :=
  match m with 46 :: _ => true | _ => false end.

Definition from_parse {A E} (o : outcome E A) : outcome unit A :=
  match o with Ok a => Ok a | Err _ => Err tt | Panic => Panic end.

Definition expect {A E} (o : outcome E A) : outcome unit A :=
  match o with Ok a => Ok a | _ => Panic end.

Definition parse_decimal (m : list Z) (dec : Z) : outcome unit Z :=
  if existsb (λ c, negb (is_digit_or_dot c)) m then Err tt
  else if starts_with_dot m || starts_with_dot (rev m) then Err tt
  else
    match split_on 46 m with
    | [integer_part] =>
        integer ← from_parse (parse_uint 64 integer_part);
        unwrap (checked_mul 128 integer (wrap 128 (10 ^ dec)))
    | [integer_part; decimal_part] =>
        integer ← from_parse (parse_uint 64 integer_part);
        if dec <? Z.of_nat (length decimal_part) then Err tt
        else
          let decimal_part :=
            decimal_part ++ replicate (Z.to_nat dec - length decimal_part) 48 in
          if Z.of_nat (length decimal_part) =? dec then
            expect (parse_uint 128 (to_string integer ++ decimal_part))
          else Panic
    | _ => Err tt
    end.

(** ** Actions *)

Record BRC20Terms : Type := mkBRC20Terms {
  bt_max : Z;
  bt_mint_amt_limit : Z;
  bt_dec : Z;
  bt_self_mint : bool;
  bt_deploy_id : InscriptionId;
}.

Record DeployAction : Type := mkDeployAction {
  da_ticker : list Z; da_max : Z; da_limit : Z; da_dec : Z; da_self_mint : bool;
}.

Record MintAction : Type := mkMintAction { ma_ticker : list Z; ma_amt : Z }.
Record TransferAction : Type := mkTransferAction { ta_ticker : list Z; ta_amt : Z }.

Section actions.
(** [str::to_lowercase] on UTF-8 strings. *)
Variable to_lowercase : list Z → list Z.
(** [serde_json::from_str::<RawProtocolMessage>]. *)
Variable json_message : list Z → option RawProtocolMessage.

Definition unparsed_message (i : Inscription) : option RawProtocolMessage :=
  match insc_content_type i with
  | None => None
  | Some ct =>
      if utf8_valid ct then
        match head (split_on 59 ct) with
        | Some ct =>
            if decide (ct = text_plain ∨ ct = application_json) then
              let body := default [] (insc_body i) in
              if utf8_valid body then
                match json_message body with
                | Some raw => if decide (raw_p raw = drc_20) then Some raw else None
                | None => None
                end
              else None
            else None
        | None => None
        end
      else None
  end.

Definition DeployAction_parse (raw : RawProtocolMessage) : outcome unit DeployAction :=
  if decide (raw_op raw = op_deploy) then
    let self_mint := false in
    if negb ((length (raw_tick raw) =? 4)%nat && negb self_mint
             || (length (raw_tick raw) =? 5)%nat && self_mint)
    then Err tt
    else
      let dec_string := default [49; 56] (raw_dec raw) in
      if existsb (λ c, negb (is_digit c)) dec_string then Err tt
      else
        dec ← from_parse (parse_uint 8 dec_string);
        if 18 <? dec then Err tt
        else
          max ← match raw_max raw with
                | Some m =>
                    x ← parse_decimal m dec;
                    if x =? 0 then
                      if self_mint then unwrap (checked_mul 128 (umax 64) (wrap 128 (10 ^ dec)))
                      else Err tt
                    else Ok x
                | None => Err tt
                end;
          limit ← match raw_lim raw with
                  | Some l => x ← parse_decimal l dec; if x =? 0 then Err tt else Ok x
                  | None => Ok max
                  end;
          Ok (mkDeployAction (to_lowercase (raw_tick raw)) max limit dec self_mint)
  else Err tt.

Definition MintAction_parse (raw : RawProtocolMessage) (terms : BRC20Terms)
  : outcome unit MintAction :=
  if decide (raw_op raw = op_mint) then
    amt ← match raw_amt raw with Some x => parse_decimal x (bt_dec terms) | None => Err tt end;
    if bt_mint_amt_limit terms <? amt then Err tt
    else if amt =? 0 then Err tt
    else Ok (mkMintAction (to_lowercase (raw_tick raw)) amt)
  else Err tt.

Definition TransferAction_parse (raw : RawProtocolMessage) (terms : BRC20Terms)
  : outcome unit TransferAction :=
  if decide (raw_op raw = op_transfer) then
    amt ← match raw_amt raw with Some x => parse_decimal x (bt_dec terms) | None => Err tt end;
    if amt =? 0 then Err tt
    else Ok (mkTransferAction (to_lowercase (raw_tick raw)) amt)
  else Err tt.

(** ** The tables and the messages *)

Record Brc20DB : Type := mkBrc20DB {
  TermsByBRC20Ticker : gmap (list Z) BRC20Terms;
  SupplyByBRC20 : gmap (list Z) Z;
  (** (script hash, ticker) to available balance *)
  BRC20Balances : gmap (Z * list Z) Z;
}.

Definition set_brc_terms (f : gmap (list Z) BRC20Terms → gmap (list Z) BRC20Terms)
    (db : Brc20DB) : Brc20DB :=
  mkBrc20DB (f (TermsByBRC20Ticker db)) (SupplyByBRC20 db) (BRC20Balances db).
Definition set_supply (tick : list Z) (v : Z) (db : Brc20DB) : Brc20DB :=
  mkBrc20DB (TermsByBRC20Ticker db) (<[tick := v]> (SupplyByBRC20 db)) (BRC20Balances db).
Definition set_balance (script : Z) (tick : list Z) (v : Z) (db : Brc20DB) : Brc20DB :=
  mkBrc20DB (TermsByBRC20Ticker db) (SupplyByBRC20 db)
    (<[(script, tick) := v]> (BRC20Balances db)).

Inductive BRC20Message : Type :=
| Deploy (tick : list Z)
| Mint (tick : list Z) (amt : Z) (receiver : Z)
| Transfer (tick : list Z) (amt : Z) (outpoint : OutPoint) (receiver : Z)
| TransferInit (tick : list Z) (amt : Z) (receiver : Z).

(** [if let Some(action) = Action::parse(..)] with a continuation. *)
Definition if_parsed {A B} (o : outcome unit A) (yes : A → outcome unit B)
    (no : outcome unit B) : outcome unit B :=
  match o with Ok a => yes a | Err _ => no | Panic => Panic end.

(** One new drc-20 message: the tables and the message if it is valid.
    [receiver] is the script the inscription lands on, if any. *)
Definition process_message (db : Brc20DB) (insc : InscriptionId) (raw : RawProtocolMessage)
    (receiver : option Z) : outcome unit (Brc20DB * option BRC20Message) :=
  let terms := TermsByBRC20Ticker db !! to_lowercase (raw_tick raw) in
  if_parsed (DeployAction_parse raw)
    (λ deploy,
      match terms with
      | None =>
          let new_terms := mkBRC20Terms (da_max deploy) (da_limit deploy) (da_dec deploy)
                             (da_self_mint deploy) insc in
          Ok (set_brc_terms (<[da_ticker deploy := new_terms]>) db,
              Some (Deploy (da_ticker deploy)))
      | Some _ => Ok (db, None)
      end)
    (match terms with
     | Some terms =>
         if_parsed (MintAction_parse raw terms)
           (λ mint,
             let supply := lk (SupplyByBRC20 db) (ma_ticker mint) in
             match receiver with
             | None => Ok (db, None)
             | Some receiver =>
                 if supply =? bt_max terms then Ok (db, None)
                 else
                   let amt := Z.min (ma_amt mint) (wrap 128 (bt_max terms - supply)) in
                   let new_supply := wrap 128 (supply + amt) in
                   let db := set_supply (ma_ticker mint) new_supply db in
                   let old_balance := lk (BRC20Balances db) (receiver, ma_ticker mint) in
                   let new_balance := wrap 128 (old_balance + amt) in
                   Ok (set_balance receiver (ma_ticker mint) new_balance db,
                       Some (Mint (ma_ticker mint) amt receiver))
             end)
           (if_parsed (TransferAction_parse raw terms)
             (λ transfer,
               match receiver with
               | None => Ok (db, None)
               | Some receiver =>
                   match BRC20Balances db !! (receiver, ta_ticker transfer) with
                   | None => Ok (db, None)
                   | Some old_balance =>
                       if old_balance <? ta_amt transfer then Ok (db, None)
                       else
                         let new_balance := wrap 128 (old_balance - ta_amt transfer) in
                         Ok (set_balance receiver (ta_ticker transfer) new_balance db,
                             Some (TransferInit (ta_ticker transfer) (ta_amt transfer) receiver))
                   end
               end)
             (Ok (db, None)))
     | None => Ok (db, None)
     end).
End actions.

(** An unused transfer inscription is spent: its amount goes to the receiver. *)
Definition credit_transfer (db : Brc20DB) (tick : list Z) (amt receiver : Z) : Brc20DB :=
  let old_balance := lk (BRC20Balances db) (receiver, tick) in
  set_balance receiver tick (wrap 128 (old_balance + amt)) db.

(** Undoing a message, in [ChainDB::rollback]. *)
Definition undo_message (db : Brc20DB) (m : BRC20Message) : Brc20DB :=
  match m with
  | Deploy tick => set_brc_terms (delete tick) db
  | Mint tick amt receiver =>
      let supply := lk (SupplyByBRC20 db) tick in
      let db := set_supply tick (wrap 128 (supply - amt)) db in
      let old_balance := lk (BRC20Balances db) (receiver, tick) in
      set_balance receiver tick (wrap 128 (old_balance - amt)) db
  | Transfer tick amt _ receiver =>
      let old_balance := lk (BRC20Balances db) (receiver, tick) in
      set_balance receiver tick (wrap 128 (old_balance - amt)) db
  | TransferInit tick amt receiver =>
      let old_balance := lk (BRC20Balances db) (receiver, tick) in
      set_balance receiver tick (wrap 128 (old_balance + amt)) db
  end.

Definition undo_messages (db : Brc20DB) (msgs : list BRC20Message) : Brc20DB :=
  foldl undo_message db (rev msgs).

(** ** Decimal amounts *)

Lemma split_on_parts c s : Forall (Forall (λ x, x ≠ c ∧ x ∈ s)) (split_on c s) ∧ split_on c s ≠ [].
Proof.
  induction s as [|x s [IH Hne]]; cbn [split_on]; [by repeat constructor|].
  destruct (split_on c s) as [|part parts]; [done|]. inversion_clear IH as [|? ? Hp Hps].
  assert (∀ l, Forall (λ y, y ≠ c ∧ y ∈ s) l → Forall (λ y, y ≠ c ∧ y ∈ x :: s) l) as Hw.
  { intros l Hl. eapply Forall_impl; [exact Hl|]. intros y [? ?]. split; [done|by right]. }
  destruct (Z.eqb_spec x c) as [->|Hx]; split; try done.
  - constructor; [constructor|]. constructor; [by apply Hw|].
    eapply Forall_impl; [exact Hps|]. exact Hw.
  - constructor; [constructor; [split; [done|by left]|by apply Hw]|].
    eapply Forall_impl; [exact Hps|]. exact Hw.
Qed.

Lemma split_on_none c s : Forall (λ x, x ≠ c) s → split_on c s = [s].
Proof.
  induction 1 as [|x s Hx _ IH]; [done|]. cbn [split_on]. rewrite IH.
  by destruct (Z.eqb_spec x c).
Qed.

Lemma split_on_one c s t :
  Forall (λ x, x ≠ c) s → Forall (λ x, x ≠ c) t → split_on c (s ++ c :: t) = [s; t].
Proof.
  intros Hs Ht. induction Hs as [|x s Hx _ IH]; cbn [app split_on].
  - rewrite split_on_none by done. by rewrite Z.eqb_refl.
  - rewrite IH. by destruct (Z.eqb_spec x c).
Qed.

Lemma digits_not_dot s : Forall (λ c, is_digit c = true) s → Forall (λ c, c ≠ 46) s.
Proof. by apply digits_ne. Qed.

Lemma existsb_digits s :
  Forall (λ c, is_digit_or_dot c = true) s → existsb (λ c, negb (is_digit_or_dot c)) s = false.
Proof. induction 1 as [|c s Hc _ IH]; [done|]. cbn. by rewrite Hc, IH. Qed.

Lemma existsb_digits_inv s :
  existsb (λ c, negb (is_digit_or_dot c)) s = false → Forall (λ c, is_digit_or_dot c = true) s.
Proof.
  induction s as [|c s IH]; [constructor|]. cbn. intros [Hc Hs]%orb_false_iff.
  constructor; [by destruct (is_digit_or_dot c)|by apply IH].
Qed.

Lemma digit_or_dot s :
  Forall (λ c, is_digit c = true) s → Forall (λ c, is_digit_or_dot c = true) s.
Proof.
  intros HF. eapply Forall_impl; [exact HF|]. intros c Hc. unfold is_digit_or_dot. cbn in *.
  by rewrite Hc.
Qed.

Lemma starts_with_dot_digits s :
  Forall (λ c, is_digit c = true) s → starts_with_dot s = false.
Proof.
  destruct 1 as [|c s Hc _]; [done|]. unfold is_digit in Hc. cbn.
  destruct c as [|p|p]; try done. do 6 (destruct p as [p|p|]; try done).
Qed.

Lemma starts_with_dot_app s t :
  s ≠ [] → starts_with_dot (s ++ t) = starts_with_dot s.
Proof. by destruct s. Qed.

Lemma pow10_bound dec : 0 ≤ dec ≤ 18 → 0 < 10 ^ dec ≤ 10 ^ 18.
Proof. intros. split; [apply Z.pow_pos_nonneg; lia|apply Z.pow_le_mono_r; lia]. Qed.

(** The integer and decimal digits, concatenated, denote the amount. *)
Lemma parse_concat integer d :
  in_range 64 integer → Forall (λ c, is_digit c = true) d → (length d ≤ 18)%nat →
  parse_uint 128 (to_string integer ++ d)
  = Ok (integer * 10 ^ Z.of_nat (length d) + dec_value d).
Proof.
  intros Hi Hd Hl. pose proof (dec_value_bound d Hd) as Hb.
  pose proof (pow10_bound (Z.of_nat (length d)) ltac:(lia)). unfold in_range in Hi.
  rewrite parse_uint_value.
  - by rewrite dec_value_app, dec_value_to_string by lia.
  - apply Forall_app. split; [apply to_string_digits; lia|done].
  - destruct (to_string_parse_digits 64 integer Hi) as [_ Hne].
    by destruct (to_string integer).
  - rewrite dec_value_app, dec_value_to_string by lia.
    assert (10 ^ 18 = 1000000000000000000) as E by done. nia.
Qed.

Lemma pad_digits d n :
  Forall (λ c, is_digit c = true) d → Forall (λ c, is_digit c = true) (d ++ replicate n 48).
Proof. intros. apply Forall_app. split; [done|]. by apply Forall_replicate. Qed.

Lemma parse_decimal_no_panic m dec : 0 ≤ dec ≤ 18 → parse_decimal m dec ≠ Panic.
Proof.
  intros Hdec. unfold parse_decimal. destruct (existsb _ m) eqn:Em; [done|].
  apply existsb_digits_inv in Em. destruct (_ || _); [done|].
  pose proof (split_on_parts 46 m) as [HF _].
  assert (∀ p, p ∈ split_on 46 m → Forall (λ c, is_digit c = true) p) as Hd.
  { intros p Hp. rewrite Forall_forall in HF. rewrite Forall_forall in Em. apply Forall_forall. intros c Hc.
    destruct (proj1 (Forall_forall _ _) (HF p Hp) c Hc) as [Hne Hin].
    specialize (Em c Hin). unfold is_digit_or_dot in Em. destruct (is_digit c); [done|].
    cbn in Em. lia. }
  destruct (split_on 46 m) as [|i [|d [|? ?]]]; try done.
  - destruct (parse_uint 64 i) as [v| |] eqn:E; cbn [from_parse mbind outcome_bind];
      [|done|by apply parse_uint_no_panic in E].
    apply parse_uint_range in E; [|lia]. pose proof (pow10_bound dec Hdec) as Hp.
    assert (10 ^ 18 = 1000000000000000000) as E18 by done.
    unfold checked_mul. rewrite (wrap_small 128) by (unfold in_range; lia).
    rewrite try_into_ok; [done|]. unfold in_range in *. nia.
  - destruct (parse_uint 64 i) as [v| |] eqn:E; cbn [from_parse mbind outcome_bind];
      [|done|by apply parse_uint_no_panic in E].
    apply parse_uint_range in E; [|lia].
    destruct (Z.ltb_spec dec (Z.of_nat (length d))); [done|].
    rewrite length_app, length_replicate.
    destruct (Z.eqb_spec (Z.of_nat (length d + (Z.to_nat dec - length d))) dec); [|lia].
    rewrite parse_concat; [done|done|apply pad_digits, Hd; set_solver|].
    rewrite length_app, length_replicate. lia.
Qed.

Lemma parse_decimal_integer dec i :
  0 ≤ dec ≤ 18 → Forall (λ c, is_digit c = true) i → i ≠ [] → dec_value i < 2 ^ 64 →
  parse_decimal i dec = Ok (dec_value i * 10 ^ dec).
Proof.
  intros Hdec Hi Hine Hv. pose proof (pow10_bound dec Hdec) as Hp.
  pose proof (dec_value_bound i Hi) as [Hi0 _].
  assert (10 ^ 18 = 1000000000000000000) as E18 by done. unfold parse_decimal.
  rewrite existsb_digits by (by apply digit_or_dot).
  rewrite !starts_with_dot_digits by (try apply Forall_rev; done).
  rewrite split_on_none by (by apply digits_not_dot). cbn [orb].
  rewrite parse_uint_value by done. cbn [from_parse mbind outcome_bind].
  unfold checked_mul. rewrite (wrap_small 128) by (unfold in_range; lia).
  rewrite try_into_ok; [done|]. unfold in_range. nia.
Qed.

Lemma parse_decimal_fraction dec i f :
  0 ≤ dec ≤ 18 → Forall (λ c, is_digit c = true) i → Forall (λ c, is_digit c = true) f →
  i ≠ [] → f ≠ [] → dec_value i < 2 ^ 64 → Z.of_nat (length f) ≤ dec →
  parse_decimal (i ++ 46 :: f) dec
  = Ok (dec_value i * 10 ^ dec + dec_value f * 10 ^ (dec - Z.of_nat (length f))).
Proof.
  intros Hdec Hi Hf Hine Hfne Hv Hl. pose proof (pow10_bound dec Hdec) as Hp.
  pose proof (dec_value_bound i Hi) as [Hi0 _]. unfold parse_decimal.
  rewrite existsb_digits by (apply Forall_app; split; [by apply digit_or_dot|];
    constructor; [done|by apply digit_or_dot]).
  rewrite starts_with_dot_app, rev_app_distr by done. cbn [rev]. rewrite <- !app_assoc.
  assert (rev f ≠ []) as Hrf by (intros E; apply Hfne; by rewrite <- (rev_involutive f), E).
  rewrite (starts_with_dot_app (rev f)) by done.
  rewrite !starts_with_dot_digits by (try apply Forall_rev; done). cbn [orb].
  rewrite split_on_one by (by apply digits_not_dot).
  rewrite parse_uint_value by done. cbn [from_parse mbind outcome_bind].
  destruct (Z.ltb_spec dec (Z.of_nat (length f))); [lia|].
  rewrite length_app, length_replicate.
  destruct (Z.eqb_spec (Z.of_nat (length f + (Z.to_nat dec - length f))) dec) as [E|]; [|lia].
  rewrite parse_concat; [|unfold in_range; lia|by apply pad_digits|
    rewrite length_app, length_replicate; lia].
  cbn [expect]. rewrite dec_value_app, dec_value_zeros, length_app, !length_replicate, E.
  do 2 f_equal. rewrite Z.add_0_r. do 2 f_equal. lia.
Qed.

(** Amounts are exact.  With at most 18 decimals the parser never panics on
    any text; digits alone denote the integer scaled by ten to the number of
    decimals, and digits, a dot and at most [dec] digits denote the decimal
    number scaled likewise, so that no unit is lost. *)
Theorem parse_decimal_exact (dec : Z) (i f : list Z) :
  0 ≤ dec ≤ 18 → Forall (λ c, is_digit c = true) i → Forall (λ c, is_digit c = true) f →
  i ≠ [] → f ≠ [] → dec_value i < 2 ^ 64 → Z.of_nat (length f) ≤ dec →
  (∀ m, parse_decimal m dec ≠ Panic)
  ∧ parse_decimal i dec = Ok (dec_value i * 10 ^ dec)
  ∧ parse_decimal (i ++ 46 :: f) dec
    = Ok (dec_value i * 10 ^ dec + dec_value f * 10 ^ (dec - Z.of_nat (length f))).
Proof.
  intros. split_and!;
    [intros m; by apply parse_decimal_no_panic|by apply parse_decimal_integer|by apply parse_decimal_fraction].
Qed.

(** 12.5 with eight decimals. *)
Lemma parse_decimal_exact_witness :
  (∀ m, parse_decimal m 8 ≠ Panic)
  ∧ parse_decimal [49; 50] 8 = Ok (dec_value [49; 50] * 10 ^ 8)
  ∧ parse_decimal ([49; 50] ++ 46 :: [53]) 8
    = Ok (dec_value [49; 50] * 10 ^ 8 + dec_value [53] * 10 ^ (8 - Z.of_nat (length [53]))).
Proof.
  apply parse_decimal_exact; try done; try lia; try (by repeat constructor); by vm_compute.
Defined.

(** ** Token accounting *)

(** The available balances of a ticker, over all scripts. *)
Definition tick_sum (t : list Z) (m : gmap (Z * list Z) Z) : Z :=
  map_sum (filter (λ kv, kv.1.2 = t) m).

Lemma tick_sum_insert t s t' v m :
  tick_sum t (<[(s, t') := v]> m)
  = tick_sum t m + (if decide (t' = t) then v - lk m (s, t') else 0).
Proof.
  unfold tick_sum. case_decide as Hd.
  - subst. rewrite map_filter_insert_True, map_sum_update by done. unfold lk.
    destruct (m !! (s, t)) as [u|] eqn:E.
    + rewrite (map_lookup_filter_Some_2 _ _ _ _ E) by done. cbn. lia.
    + rewrite map_lookup_filter_None_2 by (by left). cbn. lia.
  - rewrite map_filter_insert_not by done. lia.
Qed.

Lemma tick_sum_bounds t s m :
  map_Forall (λ _ v, 0 ≤ v) m → 0 ≤ lk m (s, t) ≤ tick_sum t m.
Proof.
  intros Hm. assert (∀ k v, filter (λ kv, kv.1.2 = t) m !! k = Some v → 0 ≤ v) as Hf.
  { intros k v [Hk _]%map_lookup_filter_Some. by eapply Hm. }
  unfold tick_sum, lk. destruct (m !! (s, t)) as [u|] eqn:E; cbn.
  - split; [by eapply Hm|]. apply (map_sum_lookup_le _ (s, t)); [done|].
    by apply map_lookup_filter_Some_2.
  - split; [done|]. by apply map_sum_nonneg.
Qed.

(** [locked t] is what transfer inscriptions not yet spent hold of [t]. *)
Record brc20_inv (locked : list Z → Z) (db : Brc20DB) : Prop := {
  bi_terms : ∀ t tm, TermsByBRC20Ticker db !! t = Some tm →
    0 ≤ bt_dec tm ≤ 18 ∧ 0 < bt_max tm < 2 ^ 128;
  bi_supply : ∀ t, lk (SupplyByBRC20 db) t = tick_sum t (BRC20Balances db) + locked t;
  bi_cap : ∀ t, 0 ≤ lk (SupplyByBRC20 db) t
    ∧ match TermsByBRC20Ticker db !! t with
      | Some tm => lk (SupplyByBRC20 db) t ≤ bt_max tm
      | None => lk (SupplyByBRC20 db) t = 0
      end;
  bi_balances : map_Forall (λ _ v, 0 ≤ v) (BRC20Balances db);
  bi_locked : ∀ t, 0 ≤ locked t;
}.

Definition locked_delta (m : option BRC20Message) (t : list Z) : Z :=
  match m with
  | Some (TransferInit tick amt _) => if decide (tick = t) then amt else 0
  | Some (Transfer tick amt _ _) => if decide (tick = t) then - amt else 0
  | _ => 0
  end.

Lemma parse_decimal_range m dec x :
  0 ≤ dec ≤ 18 → parse_decimal m dec = Ok x → in_range 128 x.
Proof.
  intros Hdec. unfold parse_decimal. destruct (existsb _ m); [done|].
  destruct (_ || _); [done|]. destruct (split_on 46 m) as [|i [|d [|? ?]]]; try done.
  - intros (v & _ & H)%outcome_bind_Ok. unfold checked_mul in H. run_inv.
    by apply try_into_Some in E as [-> ?].
  - intros (v & _ & H)%outcome_bind_Ok. destruct (dec <? _); [done|].
    destruct (_ =? dec); [|done].
    destruct (parse_uint 128 _) as [y| |] eqn:E; try done. injection H as <-.
    by apply parse_uint_range in E.
Qed.

Section accounting.
Variable to_lowercase : list Z → list Z.

Lemma DeployAction_parse_ok raw d :
  DeployAction_parse to_lowercase raw = Ok d →
  da_ticker d = to_lowercase (raw_tick raw) ∧ 0 ≤ da_dec d ≤ 18 ∧ 0 < da_max d < 2 ^ 128.
Proof.
  unfold DeployAction_parse. case_decide; [|done]. destruct (negb _); [done|].
  destruct (existsb _ _); [done|]. intros (dec & Hdec & H1)%outcome_bind_Ok.
  destruct (parse_uint 8 _) as [v| |] eqn:Ev; try done. injection Hdec as <-.
  apply parse_uint_range in Ev; [|lia]. destruct (Z.ltb_spec 18 v) as [|Hle]; [done|].
  unfold in_range in Ev. assert (0 ≤ v ≤ 18) as Hv by lia.
  apply outcome_bind_Ok in H1 as (mx & Hmax & H2).
  apply outcome_bind_Ok in H2 as (limit & Hlim & H3). injection H3 as <-. cbn.
  split; [done|]. split; [lia|]. destruct (raw_max raw) as [m|]; [|done].
  apply outcome_bind_Ok in Hmax as (x & Hx & Hmax). destruct (Z.eqb_spec x 0); [done|].
  injection Hmax as <-. apply parse_decimal_range in Hx; [|done]. unfold in_range in Hx. lia.
Qed.

Lemma DeployAction_parse_no_panic raw : DeployAction_parse to_lowercase raw ≠ Panic.
Proof.
  unfold DeployAction_parse. case_decide; [|done]. destruct (negb _); [done|].
  destruct (existsb _ _); [done|].
  destruct (parse_uint 8 _) as [v| |] eqn:Ev; cbn [from_parse mbind outcome_bind];
    [|done|by apply parse_uint_no_panic in Ev].
  apply parse_uint_range in Ev; [|lia]. unfold in_range in Ev.
  destruct (Z.ltb_spec 18 v); [done|].
  assert (∀ m, parse_decimal m v ≠ Panic) as Hnp
    by (intros m; apply parse_decimal_no_panic; lia).
  destruct (raw_max raw) as [m|]; [|done]. specialize (Hnp m) as Hm.
  destruct (parse_decimal m v) as [x| |]; cbn [mbind outcome_bind]; [|done|done].
  destruct (x =? 0); [done|]. cbn [mbind outcome_bind].
  destruct (raw_lim raw) as [l|]; [|done]. specialize (Hnp l) as Hl.
  destruct (parse_decimal l v) as [y| |]; cbn [mbind outcome_bind]; [|done|done].
  by destruct (y =? 0).
Qed.

Lemma MintAction_parse_ok raw tm a :
  0 ≤ bt_dec tm ≤ 18 → MintAction_parse to_lowercase raw tm = Ok a →
  ma_ticker a = to_lowercase (raw_tick raw) ∧ 0 < ma_amt a.
Proof.
  intros Hdec. unfold MintAction_parse. case_decide; [|done].
  intros (amt & Hamt & H1)%outcome_bind_Ok. destruct (_ <? amt); [done|].
  destruct (Z.eqb_spec amt 0); [done|]. injection H1 as <-. cbn. split; [done|].
  destruct (raw_amt raw) as [s|]; [|done]. apply parse_decimal_range in Hamt; [|done].
  unfold in_range in Hamt. lia.
Qed.

Lemma TransferAction_parse_ok raw tm a :
  0 ≤ bt_dec tm ≤ 18 → TransferAction_parse to_lowercase raw tm = Ok a →
  ta_ticker a = to_lowercase (raw_tick raw) ∧ 0 < ta_amt a.
Proof.
  intros Hdec. unfold TransferAction_parse. case_decide; [|done].
  intros (amt & Hamt & H1)%outcome_bind_Ok.
  destruct (Z.eqb_spec amt 0); [done|]. injection H1 as <-. cbn. split; [done|].
  destruct (raw_amt raw) as [s|]; [|done]. apply parse_decimal_range in Hamt; [|done].
  unfold in_range in Hamt. lia.
Qed.

Lemma action_parse_no_panic raw tm :
  0 ≤ bt_dec tm ≤ 18 →
  MintAction_parse to_lowercase raw tm ≠ Panic
  ∧ TransferAction_parse to_lowercase raw tm ≠ Panic.
Proof.
  intros Hdec. unfold MintAction_parse, TransferAction_parse.
  set (o := match raw_amt raw with
            | Some x => parse_decimal x (bt_dec tm)
            | None => Err tt
            end).
  assert (o ≠ Panic) as Hnp
    by (unfold o; destruct (raw_amt raw); [by apply parse_decimal_no_panic|done]).
  clearbody o. split; (case_decide; [|done]); destruct o as [amt| |]; try done;
    cbn [mbind outcome_bind]; repeat case_match; done.
Qed.

Lemma lk_le_supply locked db s t :
  brc20_inv locked db →
  0 ≤ lk (BRC20Balances db) (s, t) ≤ lk (SupplyByBRC20 db) t
  ∧ lk (BRC20Balances db) (s, t) + locked t ≤ lk (SupplyByBRC20 db) t < 2 ^ 128.
Proof.
  intros Hinv. pose proof (tick_sum_bounds t s _ (bi_balances _ _ Hinv)) as Hb.
  pose proof (bi_supply _ _ Hinv t). pose proof (bi_locked _ _ Hinv t).
  pose proof (bi_cap _ _ Hinv t) as [? Hc]. split; [lia|].
  destruct (TermsByBRC20Ticker db !! t) as [tm|] eqn:E; [|lia].
  pose proof (bi_terms _ _ Hinv t tm E). lia.
Qed.

(** A balance and the supply of one ticker change together. *)
Lemma set_balance_inv locked locked' db tick rcv v supply :
  brc20_inv locked db → 0 ≤ v → 0 ≤ supply →
  match TermsByBRC20Ticker db !! tick with
  | Some tm => supply ≤ bt_max tm | None => supply = 0 end →
  (∀ t, 0 ≤ locked' t) → (∀ t, t ≠ tick → locked' t = locked t) →
  supply - lk (SupplyByBRC20 db) tick
    = v - lk (BRC20Balances db) (rcv, tick) + (locked' tick - locked tick) →
  (∀ sup, (∀ t, lk sup t = if decide (tick = t) then supply else lk (SupplyByBRC20 db) t) →
   brc20_inv locked'
     (mkBrc20DB (TermsByBRC20Ticker db) sup (<[(rcv, tick) := v]> (BRC20Balances db)))).
Proof.
  intros [H1 H2 H3 H4 H5] Hv Hs Hcap Hl Hne Hbal sup Hsup.
  split; cbn; try done.
  - intros t. rewrite Hsup, tick_sum_insert. specialize (H2 t).
    case_decide as Hd; [subst; lia|]. rewrite (Hne t) by done. lia.
  - intros t. rewrite Hsup. case_decide as Hd; [by subst|apply H3].
  - by apply map_Forall_insert_2.
Qed.

Lemma lk_insert_if {K} `{Countable K} (m : gmap K Z) k v k' :
  lk (<[k := v]> m) k' = if decide (k = k') then v else lk m k'.
Proof. case_decide as Hd; [subst; apply lk_insert|by apply lk_insert_ne]. Qed.

(** A deployment: a ticker that was free gets its terms. *)
Lemma deploy_accounting locked db tick tm :
  brc20_inv locked db → TermsByBRC20Ticker db !! tick = None →
  0 ≤ bt_dec tm ≤ 18 → 0 < bt_max tm < 2 ^ 128 →
  brc20_inv locked (set_brc_terms (<[tick := tm]>) db).
Proof.
  intros [H1 H2 H3 H4 H5] Et Hdec Hmax. split; cbn; try done.
  - intros t tm' [[<- <-]|[_ Hk]]%lookup_insert_Some; [done|by eapply H1].
  - intros t. destruct (H3 t) as [Hs Hc]. split; [done|].
    destruct (decide (tick = t)) as [<-|Hne].
    + rewrite lookup_insert_eq. rewrite Et in Hc. lia.
    + by rewrite lookup_insert_ne.
Qed.

(** A mint: supply and balance grow by the same amount, up to the maximum. *)
Lemma mint_accounting locked db tick tm rcv amt :
  brc20_inv locked db → TermsByBRC20Ticker db !! tick = Some tm →
  0 ≤ amt → lk (SupplyByBRC20 db) tick + amt ≤ bt_max tm →
  brc20_inv locked
    (set_balance rcv tick (wrap 128 (lk (BRC20Balances db) (rcv, tick) + amt))
       (set_supply tick (wrap 128 (lk (SupplyByBRC20 db) tick + amt)) db)).
Proof.
  intros Hinv Et Hamt Hle. destruct (bi_terms _ _ Hinv tick tm Et) as [_ Hmax].
  destruct (bi_cap _ _ Hinv tick) as [Hs _].
  destruct (lk_le_supply locked db rcv tick Hinv) as [Hb Hbl].
  pose proof (bi_locked _ _ Hinv tick).
  rewrite !wrap_small by (unfold in_range; lia).
  eapply (set_balance_inv locked _ db tick rcv _ (lk (SupplyByBRC20 db) tick + amt)); try done.
  - lia.
  - lia.
  - by rewrite Et.
  - apply (bi_locked _ _ Hinv).
  - lia.
  - intros t. cbn. by rewrite lk_insert_if.
Qed.

(** An inscribed transfer: its amount moves from the balance to what is locked. *)
Lemma lock_accounting locked db tick rcv old amt :
  brc20_inv locked db → BRC20Balances db !! (rcv, tick) = Some old → 0 ≤ amt ≤ old →
  brc20_inv (λ t, locked t + locked_delta (Some (TransferInit tick amt rcv)) t)
    (set_balance rcv tick (wrap 128 (old - amt)) db).
Proof.
  intros Hinv Eb Hamt. destruct (lk_le_supply locked db rcv tick Hinv) as [Hb Hbl].
  rewrite (lk_Some _ _ _ Eb) in Hb, Hbl. destruct (bi_cap _ _ Hinv tick) as [Hs Hc].
  rewrite wrap_small by (unfold in_range; lia).
  eapply (set_balance_inv locked _ db tick rcv _ (lk (SupplyByBRC20 db) tick)); try done;
    cbn [locked_delta].
  - lia.
  - intros t. pose proof (bi_locked _ _ Hinv t). case_decide; lia.
  - intros t Ht. rewrite decide_False by congruence. lia.
  - rewrite decide_True by done. rewrite (lk_Some _ _ _ Eb). lia.
  - intros t. case_decide as Hd; [by subst|done].
Qed.

Lemma brc20_inv_ext locked locked' db :
  (∀ t, locked' t = locked t) → brc20_inv locked db → brc20_inv locked' db.
Proof. intros E [H1 H2 H3 H4 H5]. split; try done; intros t; rewrite E; auto. Qed.

(** C10: token accounting.  From tables where the supply of every ticker is what
    the balances and the unspent transfers hold, and at most its maximum, a
    drc-20 message never makes the indexer panic and leads to tables where this
    is so again: minting stops at the maximum, an inscribed transfer locks
    exactly what it takes from the balance. *)
Theorem process_message_accounting (locked : list Z → Z) (db : Brc20DB)
    (insc : InscriptionId) (raw : RawProtocolMessage) (receiver : option Z) :
  brc20_inv locked db →
  ∃ db' m, process_message to_lowercase db insc raw receiver = Ok (db', m)
    ∧ brc20_inv (λ t, locked t + locked_delta m t) db'.
Proof.
  intros Hinv.
  assert (∀ m db', (∀ t, locked_delta m t = 0) → brc20_inv locked db' →
    brc20_inv (λ t, locked t + locked_delta m t) db') as Hsame.
  { intros m db' Hm. apply brc20_inv_ext. intros t. rewrite Hm. lia. }
  unfold process_message. set (tick := to_lowercase (raw_tick raw)).
  destruct (DeployAction_parse to_lowercase raw) as [d| |] eqn:Ed; cbn [if_parsed];
    [| |by apply DeployAction_parse_no_panic in Ed].
  - apply DeployAction_parse_ok in Ed as (Ht & Hdec & Hmax). rewrite Ht. fold tick.
    destruct (TermsByBRC20Ticker db !! tick) as [tm|] eqn:Et; eexists _, _;
      (split; [done|]); (apply Hsame; [done|]); [done|]. by apply deploy_accounting.
  - destruct (TermsByBRC20Ticker db !! tick) as [tm|] eqn:Et;
      [|eexists _, _; split; [done|by apply Hsame]].
    destruct (bi_terms _ _ Hinv tick tm Et) as [Hdec Hmax].
    destruct (action_parse_no_panic raw tm Hdec) as [Hnm Hnt].
    destruct receiver as [rcv|];
      [|destruct (MintAction_parse to_lowercase raw tm), (TransferAction_parse to_lowercase raw tm);
        cbn [if_parsed]; try done; eexists _, _; (split; [done|by apply Hsame])].
    destruct (MintAction_parse to_lowercase raw tm) as [a| |] eqn:Em; cbn [if_parsed]; [| |done].
    + apply MintAction_parse_ok in Em as [Ha Hpos]; [|done]. rewrite Ha. fold tick.
      destruct (Z.eqb_spec (lk (SupplyByBRC20 db) tick) (bt_max tm)) as [|Hne];
        eexists _, _; (split; [done|]); (apply Hsame; [done|]); [done|].
      destruct (bi_cap _ _ Hinv tick) as [Hs Hc]. rewrite Et in Hc.
      rewrite (wrap_small 128 (bt_max tm - _)) by (unfold in_range; lia).
      apply (mint_accounting locked db tick tm rcv); [done|done|lia|lia].
    + destruct (TransferAction_parse to_lowercase raw tm) as [a| |] eqn:Ea; cbn [if_parsed];
        [|eexists _, _; split; [done|by apply Hsame]|done].
      apply TransferAction_parse_ok in Ea as [Ha Hpos]; [|done]. rewrite Ha. fold tick.
      destruct (BRC20Balances db !! (rcv, tick)) as [old|] eqn:Eb;
        [|eexists _, _; split; [done|by apply Hsame]].
      destruct (Z.ltb_spec old (ta_amt a)) as [|Hge];
        [eexists _, _; split; [done|by apply Hsame]|].
      eexists _, _. split; [done|]. apply lock_accounting; [done|done|lia].
Qed.

(** The invariant under spending a transfer inscription that holds [amt]. *)
Lemma credit_transfer_accounting locked db tick amt rcv outpoint :
  brc20_inv locked db → 0 ≤ amt ≤ locked tick →
  brc20_inv (λ t, locked t + locked_delta (Some (Transfer tick amt outpoint rcv)) t)
    (credit_transfer db tick amt rcv).
Proof.
  intros Hinv Hamt. destruct (lk_le_supply locked db rcv tick Hinv) as [Hb Hbl].
  destruct (bi_cap _ _ Hinv tick) as [Hs Hc].
  unfold credit_transfer. rewrite wrap_small by (unfold in_range; lia).
  eapply (set_balance_inv locked _ db tick rcv _ (lk (SupplyByBRC20 db) tick)); try done;
    cbn [locked_delta].
  - lia.
  - intros t. pose proof (bi_locked _ _ Hinv t). case_decide; [subst|]; lia.
  - intros t Ht. rewrite decide_False by congruence. lia.
  - rewrite decide_True by done. lia.
  - intros t. case_decide as Hd; [by subst|done].
Qed.
End accounting.

(** ** Undoing messages *)

(** Tables that answer every query alike: an absent balance and a zero one are
    the same to [unwrap_or_default]. *)
#[export] Instance brc20_equiv : Equiv Brc20DB := λ db1 db2,
  TermsByBRC20Ticker db1 = TermsByBRC20Ticker db2
  ∧ (∀ t, lk (SupplyByBRC20 db1) t = lk (SupplyByBRC20 db2) t)
  ∧ (∀ k, lk (BRC20Balances db1) k = lk (BRC20Balances db2) k).

#[export] Instance brc20_equivalence : Equivalence (≡@{Brc20DB}).
Proof.
  split.
  - by intros db.
  - intros db1 db2 (H1 & H2 & H3). repeat split; [done|by intros; rewrite H2|by intros; rewrite H3].
  - intros db1 db2 db3 (H1 & H2 & H3) (H4 & H5 & H6). split; [congruence|].
    split; intros; [by rewrite H2|by rewrite H3].
Qed.

#[export] Instance set_balance_proper :
  Proper ((=) ==> (=) ==> (=) ==> (≡) ==> (≡)) set_balance.
Proof.
  intros s _ <- t _ <- v _ <- db1 db2 (H1 & H2 & H3). split; [done|]. split; [done|].
  intros k. cbn. by rewrite !lk_insert_if, H3.
Qed.

#[export] Instance set_supply_proper : Proper ((=) ==> (=) ==> (≡) ==> (≡)) set_supply.
Proof.
  intros t _ <- v _ <- db1 db2 (H1 & H2 & H3). split; [done|]. split; [|done].
  intros k. cbn. by rewrite !lk_insert_if, H2.
Qed.

#[export] Instance undo_message_proper : Proper ((≡) ==> (=) ==> (≡)) undo_message.
Proof.
  intros db1 db2 Hdb m _ <-. pose proof Hdb as (H1 & H2 & H3).
  destruct m as [tick|tick amt rcv|tick amt op rcv|tick amt rcv]; cbn [undo_message].
  - split; [cbn; by rewrite H1|]. by split.
  - cbn [BRC20Balances set_supply]. rewrite H2, H3. by apply set_balance_proper, set_supply_proper.
  - rewrite H3. by apply set_balance_proper.
  - rewrite H3. by apply set_balance_proper.
Qed.

(** Balances and supplies are 128-bit integers. *)
Definition brc20_range (db : Brc20DB) : Prop :=
  (∀ t, in_range 128 (lk (SupplyByBRC20 db) t)) ∧ (∀ k, in_range 128 (lk (BRC20Balances db) k)).

Section undo.
Variable to_lowercase : list Z → list Z.

(** A message recorded by the indexer, with the tables before and after. *)
Inductive brc20_step (db : Brc20DB) : BRC20Message → Brc20DB → Prop :=
| step_message insc raw receiver m db' :
    process_message to_lowercase db insc raw receiver = Ok (db', Some m) → brc20_step db m db'
| step_transfer tick amt outpoint receiver :
    brc20_step db (Transfer tick amt outpoint receiver) (credit_transfer db tick amt receiver).

Inductive brc20_steps : Brc20DB → list BRC20Message → Brc20DB → Prop :=
| steps_nil db : brc20_steps db [] db
| steps_cons db m db1 msgs db2 :
    brc20_step db m db1 → brc20_steps db1 msgs db2 → brc20_steps db (m :: msgs) db2.

Lemma wrap_add_sub b a : in_range 128 b → wrap 128 (wrap 128 (b + a) - a) = b.
Proof.
  intros Hb. unfold wrap. rewrite Zminus_mod_idemp_l. replace (b + a - a) with b by lia.
  by apply Z.mod_small.
Qed.

Lemma wrap_sub_add b a : in_range 128 b → wrap 128 (wrap 128 (b - a) + a) = b.
Proof.
  intros Hb. unfold wrap. rewrite Zplus_mod_idemp_l. replace (b - a + a) with b by lia.
  by apply Z.mod_small.
Qed.

Lemma set_balance_range s t v db :
  brc20_range db → in_range 128 v → brc20_range (set_balance s t v db).
Proof.
  intros [H1 H2] Hv. split; [done|]. intros k. cbn. rewrite lk_insert_if. by case_decide.
Qed.

Lemma set_supply_range t v db :
  brc20_range db → in_range 128 v → brc20_range (set_supply t v db).
Proof.
  intros [H1 H2] Hv. split; [|done]. intros k. cbn. rewrite lk_insert_if. by case_decide.
Qed.

(** Two writes of one balance: the last one counts. *)
Lemma set_balance_restore s t v db :
  set_balance s t (lk (BRC20Balances db) (s, t)) (set_balance s t v db) ≡ db.
Proof.
  split; [done|]. split; [done|]. intros k. cbn. rewrite !lk_insert_if. case_decide; by subst.
Qed.

Lemma undo_transfer db tick amt outpoint receiver :
  brc20_range db →
  undo_message (credit_transfer db tick amt receiver) (Transfer tick amt outpoint receiver) ≡ db.
Proof.
  intros [_ Hb]. unfold credit_transfer. cbn [undo_message BRC20Balances set_balance].
  rewrite lk_insert, wrap_add_sub by done. apply set_balance_restore.
Qed.

Lemma undo_mint db tick amt receiver :
  brc20_range db →
  undo_message
    (set_balance receiver tick (wrap 128 (lk (BRC20Balances db) (receiver, tick) + amt))
      (set_supply tick (wrap 128 (lk (SupplyByBRC20 db) tick + amt)) db))
    (Mint tick amt receiver) ≡ db.
Proof.
  intros [Hs Hb]. cbn [undo_message BRC20Balances SupplyByBRC20 set_balance set_supply].
  rewrite !lk_insert, !wrap_add_sub by done. split; [done|].
  split; intros k; cbn; rewrite !lk_insert_if; case_decide; by subst.
Qed.

Lemma undo_step db m db' :
  brc20_range db → brc20_step db m db' → undo_message db' m ≡ db ∧ brc20_range db'.
Proof.
  intros Hr. destruct 1 as [insc raw receiver m db' Hp|tick amt outpoint receiver].
  2:{ split; [by apply undo_transfer|]. apply set_balance_range; [done|]. by apply wrap_range. }
  unfold process_message in Hp. set (tick := to_lowercase (raw_tick raw)) in *.
  destruct (DeployAction_parse to_lowercase raw) as [d| |] eqn:Ed; cbn [if_parsed] in Hp; [| |done].
  { apply DeployAction_parse_ok in Ed as (Ht & _ & _). rewrite Ht in Hp.
    destruct (TermsByBRC20Ticker db !! tick) eqn:Et; [done|]. injection Hp as <- <-.
    split; [|done]. split; [|done]. cbn. by rewrite delete_insert_id. }
  destruct (TermsByBRC20Ticker db !! tick) as [tm|] eqn:Et; [|done].
  destruct (MintAction_parse to_lowercase raw tm) as [a| |] eqn:Em; cbn [if_parsed] in Hp; [| |done].
  - destruct receiver as [rcv|]; [|done]. destruct (_ =? _); [done|]. injection Hp as <- <-.
    split; [by apply undo_mint|].
    apply set_balance_range; [apply set_supply_range; [done|]|]; by apply wrap_range.
  - destruct (TransferAction_parse to_lowercase raw tm) as [a| |] eqn:Ea; cbn [if_parsed] in Hp;
      [|done|done].
    destruct receiver as [rcv|]; [|done].
    destruct (BRC20Balances db !! (rcv, ta_ticker a)) as [old|] eqn:Eb; [|done].
    destruct (old <? ta_amt a); [done|]. injection Hp as <- <-.
    split; [|apply set_balance_range; [done|by apply wrap_range]].
    cbn [undo_message BRC20Balances set_balance]. rewrite lk_insert.
    pose proof (proj2 Hr (rcv, ta_ticker a)) as Ho. rewrite (lk_Some _ _ _ Eb) in Ho.
    rewrite wrap_sub_add, <- (lk_Some _ _ _ Eb) by done. apply set_balance_restore.
Qed.

Lemma undo_steps db db' msgs :
  brc20_range db → brc20_steps db msgs db' → undo_messages db' msgs ≡ db.
Proof.
  intros Hr Hs. unfold undo_messages. induction Hs as [|db m db1 msgs db2 Hm Hs IH]; [done|].
  destruct (undo_step db m db1 Hr Hm) as [Hu Hr1]. specialize (IH Hr1).
  cbn [rev]. rewrite foldl_app. cbn [foldl]. by rewrite IH.
Qed.
End undo.

(** ** Samples *)

Definition sample_deploy : RawProtocolMessage :=
  mkRaw drc_20 op_deploy [100; 111; 103; 101] (Some [49; 48; 48]) (Some [49; 48]) None None None.

Definition sample_id : InscriptionId := mkInscriptionId 3 0.

Definition empty_db : Brc20DB := mkBrc20DB ∅ ∅ ∅.

Lemma process_message_accounting_witness :
  ∃ db' m, process_message id empty_db sample_id sample_deploy (Some 9) = Ok (db', m)
    ∧ brc20_inv (λ t, 0 + locked_delta m t) db'.
Proof.
  apply (process_message_accounting id (λ _, 0)). split; by cbn.
Defined.

End Brc20.
