(* ===== verification/InscriptionsUpdater.v ===== *)
(** Indexing the inscriptions of a transaction:
    [storage/inscriptions/updater.rs] over the tables of
    [storage/inscriptions/mod.rs].

    The inscriptions of the inputs float at an offset into the input value, in
    order; a new one (possibly completed from earlier partial transactions)
    floats at offset 0.  They land on the output that covers their offset, or go
    to the miner with the fees ([cb_inscriptions]); transfers of drc-20 tokens
    are credited where their inscription lands and new drc-20 messages are
    processed.  [Script::script_hash] and [Height::subsidy] are parameters, with
    the parameters of [Brc20]. *)

From S2P Require Import Prelude Dunestone Types Inscription Brc20.
Import Dunestone Types Inscription Brc20.

Module InscriptionsUpdater.

(** ** Data *)

Record SatPoint : Type := mkSatPoint { sp_outpoint : OutPoint; sp_offset : Z }.

Inductive Origin : Type := New (fee : Z) | Old (old_satpoint : SatPoint).

Record Flotsam : Type := mkFlotsam {
  fl_inscription_id : InscriptionId;
  fl_offset : Z;
  fl_origin : Origin;
}.

Record Counters : Type := mkCounters {
  cursed_count : Z;
  blessed_count : Z;
  next_sequence_num : Z;
  lost_sats : Z;
  unbound_count : Z;
}.

Definition default_counters : Counters := mkCounters 0 0 0 0 0.

Record NewInscriptionInfo : Type := mkNewInscriptionInfo {
  ni_tx_hash : Txid;
  ni_id : InscriptionId;
  ni_number : Z;
  ni_body : list Z;
  ni_body_type : list Z;
}.

(** The tables: the tokens, and the partial inscriptions (the transactions so
    far, stored as the concatenation of their ids, and their bytes). *)
Record InscDB : Type := mkInscDB {
  id_brc20 : Brc20DB;
  PartialTxidToTxidsKV : gmap Txid (list Txid);
  PartialTxidToBytesKV : gmap Txid Transaction;
}.

Definition set_brc20 (b : Brc20DB) (db : InscDB) : InscDB :=
  mkInscDB b (PartialTxidToTxidsKV db) (PartialTxidToBytesKV db).

(** What [index_inscriptions] changes in its caller. *)
Record InscState : Type := mkInscState {
  is_db : InscDB;
  is_counters : Counters;
  is_reward : Z;
  is_cb : list Flotsam;
  is_new : list NewInscriptionInfo;
}.

Record IndexInscriptionsResult : Type := mkIndexInscriptionsResult {
  output_inscriptions : list (list (Z * InscriptionId));
  lost_or_unbound_inscriptions : list (SatPoint * InscriptionId);
  valid_reinscriptions : list Z;
  brc20_resolver : list (InscriptionId * BRC20Message);
  new_unused_brc20_transfers : gmap InscriptionId (list Z * Z);
}.

(** An unused transfer found in an input: ticker, amount, sender, place. *)
Definition pending : Type := list Z * Z * Z * SatPoint.

Section updater.
Variable to_lowercase : list Z → list Z.
Variable json_message : list Z → option RawProtocolMessage.
Variable script_hash : list Z → Z.
Variable subsidy : Z → Z.

(** ** The inputs *)

Record Inputs : Type := mkInputs {
  in_floating : list Flotsam;
  in_transfers : gmap InscriptionId pending;
  in_value : Z;
}.

(** The inscriptions of one input. *)
Definition float_one (prev : OutPoint) (sender : Z) (transfers : gmap InscriptionId (list Z * Z))
    (acc : Inputs) (p : Z * InscriptionId) : Inputs :=
  let '(offset, inscription_id) := p in
  let old_satpoint := mkSatPoint prev offset in
  let floating := in_floating acc
    ++ [mkFlotsam inscription_id (wrap 64 (in_value acc + offset)) (Old old_satpoint)] in
  let unused :=
    match transfers !! inscription_id with
    | Some (tick, amt) =>
        <[inscription_id := (tick, amt, sender, old_satpoint)]> (in_transfers acc)
    | None => in_transfers acc
    end in
  mkInputs floating unused (in_value acc).

Definition add_value (v : Z) (acc : Inputs) : Inputs :=
  mkInputs (in_floating acc) (in_transfers acc) (wrap 64 (in_value acc + v)).

Definition process_input (resolver : Resolver) (height : Z) (acc : Inputs) (txin : TxIn)
  : outcome Error Inputs :=
  let prev := previous_output txin in
  if is_null prev then Ok (add_value (subsidy (wrap 32 height)) acc)
  else
    match resolver !! txo_ref_of prev with
    | None => Err (MissingTxo 0 (op_txid prev) (op_vout prev))
    | Some txo_body =>
        let txout := tb_raw txo_body in
        let acc := foldl (float_one prev (script_hash (script_pubkey txout))
                            (tb_unused_brc20_transfers txo_body)) acc (tb_inscriptions txo_body) in
        Ok (add_value (value txout) acc)
    end.

Definition process_inputs (resolver : Resolver) (height : Z) (tx : Transaction)
  : outcome Error Inputs :=
  foldM (process_input resolver height) (mkInputs [] ∅ 0) (input tx).

(** ** New inscriptions *)

(** The transactions a partial inscription consists of so far. *)
Definition partial_txs (db : InscDB) (txids : list Txid) : outcome Error (list Transaction) :=
  foldM (λ txs t, tx ← unwrap (PartialTxidToBytesKV db !! t); Ok (txs ++ [tx])) [] txids.

Record NewInscription : Type := mkNewInscription {
  nw_state : InscState;
  nw_floating : list Flotsam;
  nw_messages : list (InscriptionId * RawProtocolMessage);
}.

Definition lift_unit {A} (o : outcome unit A) : outcome Error A :=
  match o with Ok a => Ok a | _ => Panic end.

Definition parse_new (st : InscState) (tx : Transaction) (inputs : Inputs)
    (total_output_value : Z) : outcome Error NewInscription :=
  let floating := in_floating inputs in
  if forallb (λ f, negb (fl_offset f =? 0)) floating then
    first ← unwrap (head (input tx));
    let db := is_db st in
    let maybe_txids := PartialTxidToTxidsKV db !! op_txid (previous_output first) in
    txs ← match maybe_txids with
          | Some txids => txs ← partial_txs db txids; Ok (txs ++ [tx])
          | None => Ok [tx]
          end;
    let txids_vec := default [] maybe_txids in
    parsed ← lift_unit (from_transactions txs);
    match parsed with
    | NoInscription => Ok (mkNewInscription st floating [])
    | Partial =>
        let db := mkInscDB (id_brc20 db)
                    (<[txid tx := txids_vec ++ [txid tx]]> (PartialTxidToTxidsKV db))
                    (<[txid tx := tx]> (PartialTxidToBytesKV db)) in
        Ok (mkNewInscription
              (mkInscState db (is_counters st) (is_reward st) (is_cb st) (is_new st)) floating [])
    | Complete inscription =>
        og_txid ← unwrap (head (txids_vec ++ [txid tx]));
        let og := mkInscriptionId og_txid 0 in
        let fee := wrap 64 (in_value inputs - total_output_value) in
        let messages :=
          match unparsed_message json_message inscription with
          | Some m => [(og, m)]
          | None => []
          end in
        let content_type :=
          match insc_content_type inscription with
          | Some ct => if utf8_valid ct then ct else []
          | None => []
          end in
        let info := mkNewInscriptionInfo (txid tx) og (next_sequence_num (is_counters st))
                      (default [] (insc_body inscription)) content_type in
        Ok (mkNewInscription
              (mkInscState db (is_counters st) (is_reward st) (is_cb st) (is_new st ++ [info]))
              (floating ++ [mkFlotsam og 0 (New fee)]) messages)
    end
  else Ok (mkNewInscription st floating []).

(** ** Landing on the outputs *)

(** [sort_by_key(|flotsam| flotsam.offset)], which is stable. *)
Fixpoint insert_by_offset (f : Flotsam) (l : list Flotsam) : list Flotsam :=
  match l with
  | [] => [f]
  | g :: l' => if fl_offset f <=? fl_offset g then f :: l else g :: insert_by_offset f l'
  end.

Definition sort_by_offset (l : list Flotsam) : list Flotsam := foldr insert_by_offset [] l.

(** The flotsam below [end_], at [vout]. *)
Fixpoint take_below (txid : Txid) (vout output_value end_ : Z) (l : list Flotsam)
  : list (SatPoint * Flotsam) * list Flotsam :=
  match l with
  | [] => ([], [])
  | f :: l' =>
      if end_ <=? fl_offset f then ([], l)
      else
        let '(locs, rest) := take_below txid vout output_value end_ l' in
        ((mkSatPoint (mkOutPoint txid vout) (wrap 64 (fl_offset f - output_value)), f) :: locs, rest)
  end.

Fixpoint place (txid : Txid) (vout output_value : Z) (outputs : list TxOut) (l : list Flotsam)
  : list (SatPoint * Flotsam) * list Flotsam * Z :=
  match outputs with
  | [] => ([], l, output_value)
  | tx_out :: outputs' =>
      let end_ := wrap 64 (output_value + value tx_out) in
      let '(locs, rest) := take_below txid vout output_value end_ l in
      let '(locs', rest', total) := place txid (vout + 1) end_ outputs' rest in
      (locs ++ locs', rest', total)
  end.

Definition bump_new (f : Flotsam) (c : Counters) : Counters :=
  match fl_origin f with
  | Old _ => c
  | New _ => mkCounters (cursed_count c) (wrap 64 (blessed_count c + 1))
               (wrap 64 (next_sequence_num c + 1)) (lost_sats c) (unbound_count c)
  end.

Definition update_inscription_location (acc : Counters * list (SatPoint * InscriptionId))
    (loc : SatPoint * Flotsam) : Counters * list (SatPoint * InscriptionId) :=
  (bump_new loc.2 acc.1, acc.2 ++ [(loc.1, fl_inscription_id loc.2)]).

Definition null_outpoint : OutPoint := mkOutPoint 0 (umax 32).

(** ** Token transfers *)

Definition brc20_log : Type := list (InscriptionId * BRC20Message).

(** Transfers lost as fee go back to their sender. *)
Definition return_to_sender (transfers : gmap InscriptionId pending)
    (acc : Brc20DB * brc20_log) (f : Flotsam) : Brc20DB * brc20_log :=
  match transfers !! fl_inscription_id f with
  | Some (tick, amt, sender, point) =>
      (credit_transfer acc.1 tick amt sender,
       acc.2 ++ [(fl_inscription_id f, Transfer tick amt (sp_outpoint point) sender)])
  | None => acc
  end.

Definition outpoint_to_script (txid : Txid) (outputs : list TxOut) : gmap TxoRef Z :=
  list_to_map (imap (λ i o, ((txid, Z.of_nat i), script_hash (script_pubkey o))) outputs).

Record Outgoing : Type := mkOutgoing {
  og_db : Brc20DB;
  og_log : brc20_log;
  og_script : gmap InscriptionId Z;
}.

Definition settle_outgoing (scripts : gmap TxoRef Z) (transfers : gmap InscriptionId pending)
    (acc : Outgoing) (p : SatPoint * InscriptionId) : outcome Error Outgoing :=
  let '(satpoint, inscid) := p in
  let here := scripts !! txo_ref_of (sp_outpoint satpoint) in
  let to_script :=
    match here with
    | Some script => <[inscid := script]> (og_script acc)
    | None => og_script acc
    end in
  match transfers !! inscid with
  | Some (tick, amt, sender, point) =>
      receiver ← (if is_null (sp_outpoint satpoint) then Ok sender else unwrap here);
      Ok (mkOutgoing (credit_transfer (og_db acc) tick amt receiver)
            (og_log acc ++ [(inscid, Transfer tick amt (sp_outpoint point) receiver)]) to_script)
  | None => Ok (mkOutgoing (og_db acc) (og_log acc) to_script)
  end.

(** ** New messages *)

Record Messages : Type := mkMessages {
  ms_db : Brc20DB;
  ms_log : brc20_log;
  ms_transfers : gmap InscriptionId (list Z * Z);
}.

Definition handle_message (to_script : gmap InscriptionId Z) (acc : Messages)
    (p : InscriptionId * RawProtocolMessage) : outcome Error Messages :=
  let '(insc, raw) := p in
  '(db, valid) ← lift_unit (process_message to_lowercase (ms_db acc) insc raw (to_script !! insc));
  Ok (match valid with
      | None => mkMessages db (ms_log acc) (ms_transfers acc)
      | Some m =>
          mkMessages db (ms_log acc ++ [(insc, m)])
            match m with
            | TransferInit tick amt _ => <[insc := (tick, amt)]> (ms_transfers acc)
            | _ => ms_transfers acc
            end
      end).

(** ** index_inscriptions *)

Definition is_coinbase (tx : Transaction) : bool :=
  match input tx with
  | tx_in :: _ => is_null (previous_output tx_in)
  | [] => false
  end.

(** What becomes of the flotsam past the outputs: the state, the tables, the
    outgoing inscriptions and the token log. *)
Record Leftover : Type := mkLeftover {
  lf_counters : Counters;
  lf_outgoing : list (SatPoint * InscriptionId);
  lf_reward : Z;
  lf_cb : list Flotsam;
  lf_db : Brc20DB;
  lf_log : brc20_log;
}.

Definition settle_leftover (coinbase : bool) (transfers : gmap InscriptionId pending)
    (total_input_value output_value : Z) (counters : Counters)
    (outgoing : list (SatPoint * InscriptionId)) (reward : Z) (cb : list Flotsam)
    (db : Brc20DB) (rest : list Flotsam) : Leftover :=
  if coinbase then
    let '(counters, outgoing) :=
      foldl (λ acc f,
        update_inscription_location acc
          (mkSatPoint null_outpoint
             (wrap 64 (lost_sats acc.1 + fl_offset f - output_value)), f))
        (counters, outgoing) rest in
    let counters := mkCounters (cursed_count counters) (blessed_count counters)
      (next_sequence_num counters)
      (wrap 64 (lost_sats counters + wrap 64 (reward - output_value))) (unbound_count counters) in
    mkLeftover counters outgoing reward cb db []
  else
    let '(db, log) := foldl (return_to_sender transfers) (db, []) rest in
    mkLeftover counters outgoing
      (wrap 64 (reward + wrap 64 (total_input_value - output_value)))
      (cb ++ map (λ f, mkFlotsam (fl_inscription_id f)
                         (wrap 64 (reward + fl_offset f - output_value)) (fl_origin f)) rest)
      db log.

(** Collecting the inscriptions that stay in this transaction's outputs. *)
Definition collect_outputs (n : nat) (contained : list (SatPoint * InscriptionId))
  : outcome Error (list (list (Z * InscriptionId))) :=
  foldM (λ outs p,
    let vout := op_vout (sp_outpoint p.1) in
    l ← unwrap (get outs vout);
    Ok (<[Z.to_nat vout := l ++ [(sp_offset p.1, p.2)]]> outs))
    (replicate n []) contained.

Definition index_inscriptions (resolver : Resolver) (st : InscState) (tx : Transaction)
    (height : Z) : outcome Error (IndexInscriptionsResult * InscState) :=
  let total_output_value := foldl (λ acc o, wrap 64 (acc + value o)) 0 (output tx) in
  inputs ← process_inputs resolver height tx;
  new ← parse_new st tx inputs total_output_value;
  let st := nw_state new in
  let coinbase := is_coinbase tx in
  let floating := nw_floating new ++ (if coinbase then is_cb st else []) in
  let cb := if coinbase then [] else is_cb st in
  let inscriptions := sort_by_offset floating in
  let '(new_locations, rest, output_value) := place (txid tx) 0 0 (output tx) inscriptions in
  let '(counters, outgoing) :=
    foldl update_inscription_location (is_counters st, []) new_locations in
  let left := settle_leftover coinbase (in_transfers inputs) (in_value inputs) output_value
                counters outgoing (is_reward st) cb (id_brc20 (is_db st)) rest in
  let scripts := outpoint_to_script (txid tx) (output tx) in
  out ← foldM (settle_outgoing scripts (in_transfers inputs))
          (mkOutgoing (lf_db left) (lf_log left) ∅) (lf_outgoing left);
  msgs ← foldM (handle_message (og_script out)) (mkMessages (og_db out) (og_log out) ∅)
           (nw_messages new);
  let contained := filter (λ x, op_txid (sp_outpoint x.1) = txid tx) (lf_outgoing left) in
  let not_contained := filter (λ x, op_txid (sp_outpoint x.1) ≠ txid tx) (lf_outgoing left) in
  outs ← collect_outputs (length (output tx)) contained;
  Ok (mkIndexInscriptionsResult outs not_contained [] (ms_log msgs) (ms_transfers msgs),
      mkInscState (set_brc20 (ms_db msgs) (is_db st)) (lf_counters left) (lf_reward left)
        (lf_cb left) (is_new st)).

End updater.

(** ** Sorting *)

Lemma insert_by_offset_perm f l : insert_by_offset f l ≡ₚ f :: l.
Proof.
  induction l as [|g l IH]; [done|]. cbn. destruct (_ <=? _); [done|].
  rewrite IH. apply Permutation_swap.
Qed.

Lemma sort_by_offset_perm l : sort_by_offset l ≡ₚ l.
Proof. induction l as [|f l IH]; [done|]. cbn. by rewrite insert_by_offset_perm, IH. Qed.

Abbreviation by_offset := (λ f g, fl_offset f ≤ fl_offset g).

Lemma insert_by_offset_sorted f l :
  StronglySorted by_offset l → StronglySorted by_offset (insert_by_offset f l).
Proof.
  induction 1 as [|g l Hl IH Hg]; cbn; [by repeat constructor|].
  destruct (Z.leb_spec (fl_offset f) (fl_offset g)) as [Hle|Hgt].
  - constructor; [by constructor|]. constructor; [done|].
    eapply Forall_impl; [exact Hg|]. cbn. intros. lia.
  - constructor; [done|]. rewrite insert_by_offset_perm. constructor; [lia|done].
Qed.

Lemma sort_by_offset_sorted l : StronglySorted by_offset (sort_by_offset l).
Proof. induction l; [constructor|]. by apply insert_by_offset_sorted. Qed.

(** ** Placing *)

Definition sum_values (outputs : list TxOut) : Z := sumZ (map value outputs).

Lemma sum_values_cons o outputs : sum_values (o :: outputs) = value o + sum_values outputs.
Proof. done. Qed.

Lemma sum_values_nonneg outputs : Forall (λ o, 0 ≤ value o) outputs → 0 ≤ sum_values outputs.
Proof. intros HF. apply sumZ_nonneg. by apply Forall_map. Qed.

Lemma take_below_spec txid vout ov end_ l locs rest :
  0 ≤ ov → end_ < 2 ^ 64 → StronglySorted by_offset l →
  Forall (λ f, ov ≤ fl_offset f) l →
  take_below txid vout ov end_ l = (locs, rest) →
  l = map snd locs ++ rest ∧ StronglySorted by_offset rest
  ∧ Forall (λ f, end_ ≤ fl_offset f) rest
  ∧ Forall (λ p, p.1 = mkSatPoint (mkOutPoint txid vout) (fl_offset p.2 - ov)
                 ∧ ov ≤ fl_offset p.2 < end_) locs.
Proof.
  intros Hov Hend. revert locs rest.
  induction l as [|f l IH]; intros locs rest Hs HF; cbn [take_below].
  - intros [= <- <-]. by repeat constructor.
  - apply StronglySorted_inv in Hs as [Hs Hf]. apply Forall_cons in HF as [Hof HF]. cbn beta in Hof.
    destruct (Z.leb_spec end_ (fl_offset f)) as [Hge|Hlt].
    + intros [= <- <-]. split; [done|]. split; [by constructor|]. split; [|constructor].
      constructor; [done|]. eapply Forall_impl; [exact Hf|]. cbn. intros. lia.
    + destruct (take_below txid vout ov end_ l) as [locs1 rest1] eqn:E. intros [= <- <-].
      destruct (IH _ _ Hs HF eq_refl) as (-> & Hr1 & Hr2 & Hl). split; [done|].
      split; [done|]. split; [done|]. constructor; [|done]. cbn.
      rewrite wrap_small by (unfold in_range; lia). split; [done|lia].
Qed.

(** [i] is the output whose value range contains the offset. *)
Definition lands (txid : Txid) (vout ov : Z) (outputs : list TxOut) (p : SatPoint * Flotsam)
  : Prop :=
  ∃ i o, outputs !! i = Some o
    ∧ ov + sum_values (take i outputs) ≤ fl_offset p.2 < ov + sum_values (take i outputs) + value o
    ∧ p.1 = mkSatPoint (mkOutPoint txid (vout + Z.of_nat i))
              (fl_offset p.2 - (ov + sum_values (take i outputs))).

Lemma place_spec txid vout ov outputs l locs rest total :
  0 ≤ ov → Forall (λ o, 0 ≤ value o) outputs → ov + sum_values outputs < 2 ^ 64 →
  StronglySorted by_offset l → Forall (λ f, ov ≤ fl_offset f) l →
  place txid vout ov outputs l = (locs, rest, total) →
  total = ov + sum_values outputs ∧ l = map snd locs ++ rest
  ∧ Forall (λ f, total ≤ fl_offset f) rest ∧ Forall (lands txid vout ov outputs) locs.
Proof.
  intros Hov Hv. revert vout ov l locs rest total Hov.
  induction Hv as [|o outputs Ho Hv IH]; intros vout ov l locs rest total Hov Hmax Hs HF;
    cbn [place].
  - intros [= <- <- <-]. split; [cbn; lia|]. split; [done|]. split; [done|constructor].
  - rewrite sum_values_cons in Hmax. pose proof (sum_values_nonneg outputs Hv).
    rewrite wrap_small by (unfold in_range; lia).
    destruct (take_below txid vout ov (ov + value o) l) as [l1 r1] eqn:E1.
    destruct (place txid (vout + 1) (ov + value o) outputs r1) as [[l2 r2] t2] eqn:E2.
    intros [= <- <- <-].
    assert (ov + value o < 2 ^ 64) as Hend by lia.
    destruct (take_below_spec _ _ _ _ _ _ _ Hov Hend Hs HF E1) as (-> & Hr1 & Hr2 & Hl1).
    destruct (IH (vout + 1) (ov + value o) r1 l2 r2 t2 ltac:(lia) ltac:(lia) Hr1 Hr2 E2)
      as (-> & -> & Hr & Hl2).
    rewrite sum_values_cons. split; [lia|]. split; [by rewrite map_app, app_assoc|].
    split; [done|]. apply Forall_app. split.
    + eapply Forall_impl; [exact Hl1|]. intros p [Hp1 Hp2]. exists 0%nat, o. cbn [take].
      split; [done|]. change (sum_values []) with 0. rewrite !Z.add_0_r. split; [lia|done].
    + eapply Forall_impl; [exact Hl2|]. intros p (i & o' & Hi & Hb & Hp).
      exists (S i), o'. cbn [take]. rewrite sum_values_cons. split; [done|]. split; [lia|].
      rewrite Hp. f_equal; [f_equal|]; lia.
Qed.

(** ** Moving the inscriptions *)

Lemma update_locations_ids c acc locs :
  (foldl update_inscription_location (c, acc) locs).2
  = acc ++ map (λ p, (p.1, fl_inscription_id p.2)) locs.
Proof.
  revert c acc. induction locs as [|p locs IH]; intros c acc; cbn [foldl map];
    [by rewrite app_nil_r|].
  unfold update_inscription_location at 2. cbn [fst snd]. rewrite IH. by rewrite <- app_assoc.
Qed.

Lemma collect_outputs_perm n contained outs :
  collect_outputs n contained = Ok outs →
  length outs = n ∧ map snd (concat outs) ≡ₚ map snd contained.
Proof.
  unfold collect_outputs.
  assert (∀ l (o o' : list (list (Z * InscriptionId))),
    foldM (λ outs p,
      let vout := op_vout (sp_outpoint p.1) in
      l ← unwrap (get outs vout);
      Ok (E := Error) (<[Z.to_nat vout := l ++ [(sp_offset p.1, p.2)]]> outs)) o l = Ok o' →
    length o' = length o ∧ map snd (concat o') ≡ₚ map snd (concat o) ++ map snd l) as H.
  { induction l as [|[sp id] l IH]; intros o o'; cbn [foldM].
    - intros [= <-]. by rewrite app_nil_r.
    - cbn zeta. cbn [fst snd]. destruct (get o (op_vout (sp_outpoint sp))) as [x|] eqn:E; [|done].
      cbn [unwrap mbind outcome_bind]. intros (Hl & Hp)%IH. rewrite length_insert in Hl.
      split; [done|]. rewrite Hp. apply get_Some in E as [_ E].
      rewrite <- (take_drop_middle o _ x E) at 2.
      assert (Z.to_nat (op_vout (sp_outpoint sp)) < length o)%nat
        by (by eapply lookup_lt_Some).
      rewrite insert_take_drop by done. rewrite !concat_app. cbn [concat].
      rewrite !map_app. cbn [map snd]. rewrite <- !app_assoc. apply Permutation_app_head.
      cbn [app]. apply Permutation_app_head. rewrite Permutation_middle.
      by rewrite <- Permutation_middle. }
  intros Hc. apply H in Hc as [Hl Hp]. rewrite length_replicate in Hl. split; [done|].
  rewrite Hp. replace (concat (replicate n [])) with (@nil (Z * InscriptionId)); [done|].
  clear. induction n; done.
Qed.

Lemma collect_outputs_elem n contained outs i l off id :
  collect_outputs n contained = Ok outs → outs !! i = Some l → (off, id) ∈ l →
  ∃ sp, (sp, id) ∈ contained ∧ Z.to_nat (op_vout (sp_outpoint sp)) = i ∧ sp_offset sp = off.
Proof.
  unfold collect_outputs.
  set (P := λ outs : list (list (Z * InscriptionId)), ∀ i l off id,
    outs !! i = Some l → (off, id) ∈ l →
    ∃ sp, (sp, id) ∈ contained ∧ Z.to_nat (op_vout (sp_outpoint sp)) = i ∧ sp_offset sp = off).
  intros Hc. enough (P outs) as HP by eauto. revert Hc. apply (foldM_inv P).
  - intros s [sp id'] s' Hin HP Hs. cbn zeta in Hs. cbn [fst snd] in Hs.
    apply outcome_bind_Ok in Hs as (x & Hx & Hs). injection Hs as <-.
    destruct (get s _) as [y|] eqn:E; [|done]. cbn in Hx. injection Hx as ->.
    apply get_Some in E as [_ E]. intros j l' off' id'' Hj Hin'.
    destruct (decide (Z.to_nat (op_vout (sp_outpoint sp)) = j)) as [<-|Hne].
    + rewrite list_lookup_insert_eq in Hj by (by eapply lookup_lt_Some).
      injection Hj as <-. apply elem_of_app in Hin' as [Hin'|Hin']; [by eapply HP|].
      apply list_elem_of_singleton in Hin' as [= -> ->]. by exists sp.
    + rewrite list_lookup_insert_ne in Hj by done. by eapply HP.
  - intros j l' off' id' Hj. apply lookup_replicate in Hj as [-> _].
    by intros ?%elem_of_nil.
Qed.

Section moves.
Variable to_lowercase : list Z → list Z.
Variable json_message : list Z → option RawProtocolMessage.
Variable script_hash : list Z → Z.
Variable subsidy : Z → Z.

(** The offsets of the floating inscriptions are 64-bit integers. *)
Lemma floating_nonneg resolver height tx inputs :
  process_inputs script_hash subsidy resolver height tx = Ok inputs →
  Forall (λ f, 0 ≤ fl_offset f) (in_floating inputs).
Proof.
  unfold process_inputs.
  apply (foldM_inv (λ s, Forall (λ f, 0 ≤ fl_offset f) (in_floating s))); [|constructor].
  intros s i s' _ Hs. unfold process_input. destruct (is_null _); [by intros [= <-]|].
  destruct (resolver !! _) as [b|]; [|done]. intros [= <-]. cbn [in_floating add_value].
  generalize (tb_inscriptions b). clear -Hs. intros l. revert s Hs.
  induction l as [|[off id] l IH]; intros s Hs; [done|]. cbn [foldl]. apply IH. cbn.
  apply Forall_app. split; [done|]. constructor; [|constructor]. cbn. by apply wrap_range.
Qed.

Lemma parse_new_floating st tx inputs tov new :
  parse_new json_message st tx inputs tov = Ok new →
  Forall (λ f, 0 ≤ fl_offset f) (in_floating inputs) →
  Forall (λ f, 0 ≤ fl_offset f) (nw_floating new)
  ∧ (∃ fresh, nw_floating new = in_floating inputs ++ fresh ∧ (length fresh ≤ 1)%nat)
  ∧ is_cb (nw_state new) = is_cb st
  ∧ id_brc20 (is_db (nw_state new)) = id_brc20 (is_db st).
Proof.
  unfold parse_new. intros H HF.
  assert (∀ n, nw_floating n = in_floating inputs → is_cb (nw_state n) = is_cb st →
    id_brc20 (is_db (nw_state n)) = id_brc20 (is_db st) → 
    Forall (λ f, 0 ≤ fl_offset f) (nw_floating n)
    ∧ (∃ fresh, nw_floating n = in_floating inputs ++ fresh ∧ (length fresh ≤ 1)%nat)
    ∧ is_cb (nw_state n) = is_cb st
    ∧ id_brc20 (is_db (nw_state n)) = id_brc20 (is_db st)) as Hsame.
  { intros n -> H1 H2. split; [done|]. split; [|done]. exists []. rewrite app_nil_r.
    split; [done|cbn; lia]. }
  destruct (forallb _ _); [|injection H as <-; by apply Hsame].
  apply outcome_bind_Ok in H as (first & _ & H).
  apply outcome_bind_Ok in H as (txs & _ & H).
  apply outcome_bind_Ok in H as (parsed & _ & H).
  destruct parsed as [| |i]; [injection H as <-; by apply Hsame..|].
  apply outcome_bind_Ok in H as (og & _ & H). injection H as <-. cbn.
  split; [|split; [|done]].
  - apply Forall_app. split; [done|]. by constructor.
  - eexists. split; [done|cbn; lia].
Qed.

(** *** What a transaction carries *)

Definition input_value (resolver : Resolver) (height : Z) (txin : TxIn) : Z :=
  if is_null (previous_output txin) then subsidy (wrap 32 height)
  else match resolver !! txo_ref_of (previous_output txin) with Some b => value (tb_raw b) | None => 0 end.

Definition input_inscriptions (resolver : Resolver) (txin : TxIn) : list (Z * InscriptionId) :=
  if is_null (previous_output txin) then []
  else match resolver !! txo_ref_of (previous_output txin) with Some b => tb_inscriptions b | None => [] end.

(** The inscriptions of the inputs, each with the position of its satoshi in the value of
    all inputs. *)
Fixpoint carried (resolver : Resolver) (height start : Z) (ins : list TxIn) : list (Z * InscriptionId) :=
  match ins with
  | [] => []
  | i :: ins =>
      map (λ p, (start + p.1, p.2)) (input_inscriptions resolver i)
      ++ carried resolver height (start + input_value resolver height i) ins
  end.

Definition total_value (resolver : Resolver) (height : Z) (ins : list TxIn) : Z :=
  sumZ (map (input_value resolver height) ins).

(** Values are 64-bit, also in sum, and inscriptions are within their output. *)
Definition inputs_fit (resolver : Resolver) (height : Z) (ins : list TxIn) : Prop :=
  total_value resolver height ins < 2 ^ 64
  ∧ Forall (λ i, 0 ≤ input_value resolver height i
              ∧ Forall (λ p, 0 ≤ p.1 ≤ input_value resolver height i) (input_inscriptions resolver i)) ins.

Definition placed (f : Flotsam) : Z * InscriptionId := (fl_offset f, fl_inscription_id f).

Lemma float_all_placed prev sender transfers l acc :
  Forall (λ p : Z * InscriptionId, in_range 64 (in_value acc + p.1)) l →
  map placed (in_floating (foldl (float_one prev sender transfers) acc l))
  = map placed (in_floating acc) ++ map (λ p, (in_value acc + p.1, p.2)) l
  ∧ in_value (foldl (float_one prev sender transfers) acc l) = in_value acc.
Proof.
  revert acc. induction l as [|[off id] l IH]; intros acc HF; cbn [foldl map]; [by rewrite app_nil_r|].
  apply Forall_cons in HF as [Hoff HF]. destruct (IH (float_one prev sender transfers acc (off, id)) HF) as [-> ->].
  cbn [float_one in_floating in_value]. split; [|done]. rewrite map_app, <- app_assoc. cbn [map app placed fl_offset fl_inscription_id fst snd].
  unfold placed at 2. cbn [fl_offset fl_inscription_id]. by rewrite wrap_small.
Qed.

Lemma process_inputs_carried resolver height tx inputs :
  inputs_fit resolver height (input tx) → process_inputs script_hash subsidy resolver height tx = Ok inputs →
  map placed (in_floating inputs) = carried resolver height 0 (input tx).
Proof.
  unfold process_inputs, inputs_fit. intros [Hsum HF].
  assert (H : ∀ ins acc acc', Forall (λ i, 0 ≤ input_value resolver height i
      ∧ Forall (λ p, 0 ≤ p.1 ≤ input_value resolver height i) (input_inscriptions resolver i)) ins →
    0 ≤ in_value acc → in_value acc + total_value resolver height ins < 2 ^ 64 →
    foldM (process_input script_hash subsidy resolver height) acc ins = Ok acc' →
    map placed (in_floating acc') = map placed (in_floating acc) ++ carried resolver height (in_value acc) ins).
  2:{ intros Hp. by apply (H (input tx) (mkInputs [] ∅ 0)) in Hp. }
  clear tx inputs Hsum HF. induction ins as [|i ins IH]; intros acc acc' HF H0 Hs; cbn [foldM carried].
  { intros [= <-]. by rewrite app_nil_r. }
  apply Forall_cons in HF as [[Hv Hi] HF]. 
  change (total_value resolver height (i :: ins)) with (input_value resolver height i + total_value resolver height ins) in Hs.
  assert (Hn : 0 ≤ total_value resolver height ins).
  { apply sumZ_nonneg, Forall_map. eapply Forall_impl; [exact HF|]. by intros j [? _]. }
  intros (acc1 & H1 & H2)%outcome_bind_Ok.
  assert (map placed (in_floating acc1)
    = map placed (in_floating acc) ++ map (λ p, (in_value acc + p.1, p.2)) (input_inscriptions resolver i)
    ∧ in_value acc1 = in_value acc + input_value resolver height i) as [E1 E2].
  { unfold process_input, input_value, input_inscriptions in *. destruct (is_null _).
    - injection H1 as <-. cbn [add_value in_floating in_value map]. rewrite app_nil_r.
      split; [done|]. rewrite wrap_small by (unfold in_range; lia). done.
    - destruct (resolver !! _) as [b|]; [|done]. injection H1 as <-. cbn [add_value in_floating in_value].
      edestruct (float_all_placed (previous_output i) (script_hash (script_pubkey (tb_raw b)))
        (tb_unused_brc20_transfers b) (tb_inscriptions b) acc) as [-> ->].
      { eapply Forall_impl; [exact Hi|]. intros p Hp. unfold in_range. cbn beta in Hp. lia. }
      split; [done|]. rewrite wrap_small by (unfold in_range; lia). done. }
  rewrite (IH acc1 acc') by (done || lia). by rewrite E1, E2, <- app_assoc.
Qed.

Lemma parse_new_fresh st tx inputs tov new :
  parse_new json_message st tx inputs tov = Ok new →
  ∃ fresh, map placed (nw_floating new) = map placed (in_floating inputs) ++ map (pair 0) fresh
    ∧ map ni_id (is_new (nw_state new)) = map ni_id (is_new st) ++ fresh ∧ (length fresh ≤ 1)%nat
    ∧ (fresh ≠ [] → ∀ p, p ∈ map placed (in_floating inputs) → p.1 ≠ 0)
    ∧ is_counters (nw_state new) = is_counters st ∧ is_reward (nw_state new) = is_reward st.
Proof.
  unfold parse_new. intros H.
  assert (Hsame : ∀ n, nw_floating n = in_floating inputs → is_new (nw_state n) = is_new st →
    is_counters (nw_state n) = is_counters st → is_reward (nw_state n) = is_reward st →
    ∃ fresh, map placed (nw_floating n) = map placed (in_floating inputs) ++ map (pair 0) fresh
      ∧ map ni_id (is_new (nw_state n)) = map ni_id (is_new st) ++ fresh ∧ (length fresh ≤ 1)%nat
      ∧ (fresh ≠ [] → ∀ p, p ∈ map placed (in_floating inputs) → p.1 ≠ 0)
      ∧ is_counters (nw_state n) = is_counters st ∧ is_reward (nw_state n) = is_reward st).
  { intros n -> -> -> ->. exists []. cbn [map]. rewrite !app_nil_r. by repeat split; auto. }
  destruct (forallb _ _) eqn:Ef; [|injection H as <-; by apply Hsame].
  apply outcome_bind_Ok in H as (first & _ & H). apply outcome_bind_Ok in H as (txs & _ & H).
  apply outcome_bind_Ok in H as (parsed & _ & H).
  destruct parsed as [| |i]; [injection H as <-; by apply Hsame..|].
  apply outcome_bind_Ok in H as (og & _ & H). injection H as <-. cbn [nw_floating nw_state is_new is_counters is_reward].
  exists [mkInscriptionId og 0]. rewrite !map_app. split_and!; [done|done|cbn; lia| |done|done].
  intros _ p (f & -> & Hf)%list_elem_of_fmap. rewrite forallb_forall in Ef.
  apply list_elem_of_In, Ef, negb_true_iff, Z.eqb_neq in Hf. done.
Qed.

Lemma update_locations_lost c acc locs : lost_sats (foldl update_inscription_location (c, acc) locs).1 = lost_sats c.
Proof.
  revert c acc. induction locs as [|p locs IH]; intros c acc; cbn [foldl]; [done|].
  unfold update_inscription_location at 2. rewrite IH. unfold bump_new. by destruct (fl_origin p.2).
Qed.

(** What is left of a coinbase is lost, at the null outpoint. *)
Lemma leftover_lost transfers tiv ov c outgoing reward cb db rest :
  let l := settle_leftover true transfers tiv ov c outgoing reward cb db rest in
  lf_cb l = cb
  ∧ lf_outgoing l
    = outgoing ++ map (λ p, (mkSatPoint null_outpoint (wrap 64 (lost_sats c + p.1 - ov)), p.2)) (map placed rest).
Proof.
  cbn zeta. unfold settle_leftover.
  set (step := λ acc f, update_inscription_location acc (mkSatPoint null_outpoint (wrap 64 (lost_sats acc.1 + fl_offset f - ov)), f)).
  assert (H : ∀ l acc, lost_sats acc.1 = lost_sats c →
    (foldl step acc l).2
    = acc.2 ++ map (λ p, (mkSatPoint null_outpoint (wrap 64 (lost_sats c + p.1 - ov)), p.2)) (map placed l)).
  { induction l as [|f l IH]; intros acc Hacc; cbn [foldl map]; [by rewrite app_nil_r|].
    rewrite IH; unfold step; cbn [update_inscription_location fst snd].
    - rewrite Hacc, <- app_assoc. done.
    - unfold bump_new. by destruct (fl_origin f). }
  specialize (H rest (c, outgoing) eq_refl). destruct (foldl step (c, outgoing) rest). cbn in *. done.
Qed.

(** What is left of another transaction goes to the miner, after what he has. *)
Lemma leftover_fees transfers tiv ov c outgoing reward cb db rest :
  let l := settle_leftover false transfers tiv ov c outgoing reward cb db rest in
  map placed (lf_cb l) = map placed cb ++ map (λ p, (wrap 64 (reward + p.1 - ov), p.2)) (map placed rest)
  ∧ lf_outgoing l = outgoing.
Proof.
  cbn zeta. unfold settle_leftover. destruct (foldl (return_to_sender _) _ rest) as [db1 log1].
  cbn [lf_cb lf_outgoing]. by rewrite map_app, !map_map.
Qed.

(** Where inscriptions go: onto the outputs, each at its satoshi, or past them. *)
Record moved (tx : Transaction) (res : IndexInscriptionsResult) (before gone : list (Z * InscriptionId)) : Prop := {
  mv_all : map snd (concat (output_inscriptions res)) ++ map snd gone ≡ₚ map snd before;
  mv_outputs : ∀ i l off id, output_inscriptions res !! i = Some l → (off, id) ∈ l →
    (sum_values (take i (output tx)) + off, id) ∈ before
    ∧ ∃ o, output tx !! i = Some o ∧ 0 ≤ off < value o;
  mv_gone : ∀ p, p ∈ gone → p ∈ before ∧ sum_values (output tx) ≤ p.1;
}.

Lemma placed_moved tx fl locs rest total outs res :
  Forall (λ o, 0 ≤ value o) (output tx) → sum_values (output tx) < 2 ^ 64 → Forall (λ f, 0 ≤ fl_offset f) fl →
  place (txid tx) 0 0 (output tx) (sort_by_offset fl) = (locs, rest, total) →
  collect_outputs (length (output tx)) (map (λ p, (p.1, fl_inscription_id p.2)) locs) = Ok outs →
  output_inscriptions res = outs →
  total = sum_values (output tx) ∧ moved tx res (map placed fl) (map placed rest).
Proof.
  intros Hv Hsum Hfl Ep Houts Eres. rewrite <- (sort_by_offset_perm fl) in Hfl.
  destruct (place_spec _ _ _ _ _ _ _ _ (Z.le_refl 0) Hv Hsum (sort_by_offset_sorted _) Hfl Ep)
    as (Ht & Hsplit & Hrest & Hlands). split; [lia|]. subst outs.
  assert (Hin : ∀ f, f ∈ map snd locs ++ rest → placed f ∈ map placed fl).
  { intros f Hf. apply list_elem_of_fmap_2. by rewrite <- sort_by_offset_perm, Hsplit. }
  split.
  - apply collect_outputs_perm in Houts as [_ Hp]. rewrite Hp, !map_map. cbn [snd].
    change (map (λ x, fl_inscription_id x.2) locs ++ map fl_inscription_id rest ≡ₚ map fl_inscription_id fl).
    rewrite <- (map_map snd fl_inscription_id), <- map_app, <- Hsplit. by rewrite sort_by_offset_perm.
  - intros i l off id Hi Hl.
    destruct (collect_outputs_elem _ _ _ _ _ _ _ Houts Hi Hl) as (sp & Hsp & Hi' & Hoff).
    apply list_elem_of_fmap in Hsp as ([sp' f] & E & Hf). cbn in E. injection E as -> ->.
    rewrite Forall_forall in Hlands. destruct (Hlands _ Hf) as (j & o & Hj & Hb & E).
    cbn [fst snd] in E, Hb. subst sp'. cbn [sp_outpoint op_vout sp_offset] in Hi', Hoff.
    rewrite Z.add_0_l, Nat2Z.id in Hi'. subst j. split; [|exists o; split; [done|lia]].
    replace (sum_values (take i (output tx)) + off, fl_inscription_id f) with (placed f) by (unfold placed; f_equal; lia).
    apply Hin, elem_of_app. left. apply list_elem_of_fmap. by eexists (_, f).
  - intros p (f & -> & Hf)%list_elem_of_fmap. split; [apply Hin, elem_of_app; by right|].
    rewrite Forall_forall in Hrest. specialize (Hrest _ Hf). cbn in *. lia.
Qed.

Lemma place_own tx fl locs rest total :
  Forall (λ o, 0 ≤ value o) (output tx) → sum_values (output tx) < 2 ^ 64 → Forall (λ f, 0 ≤ fl_offset f) fl →
  place (txid tx) 0 0 (output tx) (sort_by_offset fl) = (locs, rest, total) →
  ∀ p, p ∈ map (λ p, (p.1, fl_inscription_id p.2)) locs → op_txid (sp_outpoint p.1) = txid tx.
Proof.
  intros Hv Hsum Hfl Ep p (q & -> & Hq)%list_elem_of_fmap. rewrite <- (sort_by_offset_perm fl) in Hfl.
  destruct (place_spec _ _ _ _ _ _ _ _ (Z.le_refl 0) Hv Hsum (sort_by_offset_sorted _) Hfl Ep) as (_ & _ & _ & Hlands).
  rewrite Forall_forall in Hlands. destruct (Hlands q Hq) as (i & o & _ & _ & E). cbn. by rewrite E.
Qed.

(** C11: Inscriptions move with the satoshis they are bound to.  Take the inscriptions that a
    transaction finds: those of the outputs it spends, each at the position of its satoshi
    in the value of the inputs, a new one (at most one, at position 0, and only when no other
    is there) and, in a coinbase, those that the transactions of the block left to the
    miner.  None is lost and none duplicated: each is on an output, or past the last one.
    One that is on output [i] at offset [off] is at the satoshi where it was, in the range
    of that output.  Those past the last output are left to the miner, in order and at
    their place in the fees, or, in a coinbase, recorded as lost at the null outpoint.
    (Values are within 64 bits and offsets within their outputs.) *)
Theorem index_inscriptions_moves (resolver : Resolver) (st st' : InscState) (tx : Transaction)
    (height : Z) (res : IndexInscriptionsResult) :
  Forall (λ o, 0 ≤ value o) (output tx) → sum_values (output tx) < 2 ^ 64 →
  inputs_fit resolver height (input tx) → Forall (λ f, 0 ≤ fl_offset f) (is_cb st) → txid tx ≠ 0 →
  index_inscriptions to_lowercase json_message script_hash subsidy resolver st tx height = Ok (res, st') →
  let found := carried resolver height 0 (input tx) in
  let past := sum_values (output tx) in
  ∃ fresh gone,
    map ni_id (is_new st') = map ni_id (is_new st) ++ fresh ∧ (length fresh ≤ 1)%nat
    ∧ (fresh ≠ [] → ∀ p, p ∈ found → p.1 ≠ 0)
    ∧ moved tx res (found ++ map (pair 0) fresh ++ (if is_coinbase tx then map placed (is_cb st) else [])) gone
    ∧ if is_coinbase tx then
        is_cb st' = []
        ∧ lost_or_unbound_inscriptions res
          = map (λ p, (mkSatPoint null_outpoint (wrap 64 (lost_sats (is_counters st) + p.1 - past)), p.2)) gone
      else
        map placed (is_cb st')
        = map placed (is_cb st) ++ map (λ p, (wrap 64 (is_reward st + p.1 - past), p.2)) gone
        ∧ lost_or_unbound_inscriptions res = [].
Proof.
  intros Hv Hsum Hfit Hcb Hid. unfold index_inscriptions. intros (inputs & Hin & H)%outcome_bind_Ok.
  apply outcome_bind_Ok in H as (new & Hnew & H). cbn zeta.
  destruct (parse_new_floating _ _ _ _ _ Hnew (floating_nonneg _ _ _ _ Hin)) as (Hnn & _ & Hcbs & _).
  destruct (parse_new_fresh _ _ _ _ _ Hnew) as (fresh & Hfl & Hni & Hone & Hzero & Hcount & Hrew).
  rewrite (process_inputs_carried _ _ _ _ Hfit Hin) in Hfl, Hzero. rewrite Hcbs in H.
  set (fl := nw_floating new ++ (if is_coinbase tx then is_cb st else [])) in H.
  assert (Efl : map placed fl = carried resolver height 0 (input tx) ++ map (pair 0) fresh
    ++ (if is_coinbase tx then map placed (is_cb st) else [])).
  { unfold fl. rewrite map_app, Hfl, <- app_assoc. by destruct (is_coinbase tx). }
  assert (Hfl0 : Forall (λ f, 0 ≤ fl_offset f) fl) by (apply Forall_app; split; [done|by destruct (is_coinbase tx)]).
  destruct (place (txid tx) 0 0 (output tx) (sort_by_offset fl)) as [[locs rest] total] eqn:Ep.
  rewrite Hcount, Hrew in H.
  pose proof (update_locations_ids (is_counters st) [] locs) as Hids.
  pose proof (update_locations_lost (is_counters st) [] locs) as Hlost.
  destruct (foldl update_inscription_location _ locs) as [counters outgoing]. cbn [fst snd app] in Hids, Hlost.
  assert (Hown : ∀ p, p ∈ outgoing → op_txid (sp_outpoint p.1) = txid tx).
  { rewrite Hids. by apply (place_own _ fl _ rest total). }
  apply outcome_bind_Ok in H as (out & _ & H). apply outcome_bind_Ok in H as (msgs & _ & H).
  apply outcome_bind_Ok in H as (outs & Houts & H). injection H as <- <-.
  exists fresh, (map placed rest). cbn [is_new is_cb lost_or_unbound_inscriptions]. rewrite <- Efl.
  split; [done|]. split; [done|]. split; [done|]. destruct (is_coinbase tx).
  - edestruct leftover_lost as [E1 E2]. rewrite E1, E2, Hlost in *. rewrite filter_app in Houts. rewrite filter_app.
    rewrite list_filter_all in Houts by done.
    rewrite (list_filter_none _ (map _ (map placed rest))) in Houts.
    2:{ apply Forall_forall. intros p (q & -> & _)%list_elem_of_fmap. cbn. congruence. }
    rewrite app_nil_r, Hids in Houts.
    match goal with |- context [moved tx ?r _ _] =>
      destruct (placed_moved tx fl locs rest total outs r Hv Hsum Hfl0 Ep Houts eq_refl) as [-> Hm] end.
    split; [exact Hm|]. split; [done|].
    rewrite (list_filter_none _ outgoing) by (apply Forall_forall; intros p Hp; rewrite Hown by done; auto).
    rewrite list_filter_all; [done|]. intros p (q & -> & _)%list_elem_of_fmap. cbn. congruence.
  - edestruct leftover_fees as [E1 E2]. rewrite E1, E2 in *. rewrite list_filter_all, Hids in Houts by done.
    match goal with |- context [moved tx ?r _ _] =>
      destruct (placed_moved tx fl locs rest total outs r Hv Hsum Hfl0 Ep Houts eq_refl) as [-> Hm] end.
    split; [exact Hm|]. split; [done|].
    apply list_filter_none, Forall_forall. intros p Hp. rewrite Hown by done. auto.
Qed.

(** ** The token log *)

Lemma brc20_steps_app db1 m1 db2 m2 db3 :
  brc20_steps to_lowercase db1 m1 db2 → brc20_steps to_lowercase db2 m2 db3 →
  brc20_steps to_lowercase db1 (m1 ++ m2) db3.
Proof. induction 1 as [|db m db1' ms db2' H1 H2 IH]; [done|]. intros. cbn. econstructor; eauto. Qed.

Lemma brc20_steps_snoc db0 ms db m db' :
  brc20_steps to_lowercase db0 ms db → brc20_step to_lowercase db m db' →
  brc20_steps to_lowercase db0 (ms ++ [m]) db'.
Proof. intros H1 H2. eapply brc20_steps_app; [done|]. econstructor; [done|constructor]. Qed.

(** [log] records exactly the writes that led from [db0] to [db]. *)
Definition logged (db0 : Brc20DB) (log : brc20_log) (db : Brc20DB) : Prop :=
  brc20_steps to_lowercase db0 (map snd log) db.

Lemma logged_snoc db0 log db id m db' :
  logged db0 log db → brc20_step to_lowercase db m db' → logged db0 (log ++ [(id, m)]) db'.
Proof. unfold logged. rewrite map_app. apply brc20_steps_snoc. Qed.

Lemma settle_leftover_logged coinbase transfers tiv ov counters outgoing reward cb db rest :
  let l := settle_leftover coinbase transfers tiv ov counters outgoing reward cb db rest in
  logged db (lf_log l) (lf_db l).
Proof.
  cbn zeta. unfold settle_leftover. destruct coinbase.
  { destruct (foldl _ (counters, outgoing) rest). constructor. }
  assert (∀ l acc, logged db acc.2 acc.1 →
    logged db (foldl (return_to_sender transfers) acc l).2
              (foldl (return_to_sender transfers) acc l).1) as H.
  { induction l as [|f l IH]; intros acc Hacc; [done|]. cbn [foldl]. apply IH.
    unfold return_to_sender. destruct (transfers !! _) as [[[[tick amt] s] p]|]; [|done].
    cbn. eapply logged_snoc; [done|]. constructor. }
  specialize (H rest (db, []) ltac:(constructor)).
  by destruct (foldl (return_to_sender transfers) (db, []) rest).
Qed.

Lemma settle_outgoing_logged scripts transfers db0 l acc acc' :
  logged db0 (og_log acc) (og_db acc) →
  foldM (settle_outgoing scripts transfers) acc l = Ok acc' →
  logged db0 (og_log acc') (og_db acc').
Proof.
  intros Hacc. apply (foldM_inv (λ a, logged db0 (og_log a) (og_db a))); [|done].
  intros a [sp id] a' _ Ha. unfold settle_outgoing.
  destruct (transfers !! id) as [[[[tick amt] s] p]|]; [|by intros [= <-]].
  intros (rcv & _ & H)%outcome_bind_Ok. injection H as <-. cbn.
  eapply logged_snoc; [done|]. constructor.
Qed.

Lemma process_message_same db insc raw rcv db' :
  process_message to_lowercase db insc raw rcv = Ok (db', None) → db' = db.
Proof.
  unfold process_message, if_parsed. intros H.
  repeat case_match; simplify_eq; done.
Qed.

Lemma handle_message_logged to_script db0 l acc acc' :
  logged db0 (ms_log acc) (ms_db acc) →
  foldM (handle_message to_lowercase to_script) acc l = Ok acc' →
  logged db0 (ms_log acc') (ms_db acc').
Proof.
  intros Hacc. apply (foldM_inv (λ a, logged db0 (ms_log a) (ms_db a))); [|done].
  intros a [insc raw] a' _ Ha. unfold handle_message.
  intros ([db valid] & Hp & H)%outcome_bind_Ok. injection H as <-.
  destruct (process_message to_lowercase (ms_db a) insc raw (to_script !! insc))
    as [r| |] eqn:E; try done. cbn in Hp. injection Hp as ->.
  destruct valid as [m|]; cbn.
  - eapply logged_snoc; [done|]. by econstructor.
  - apply process_message_same in E as ->. done.
Qed.

Lemma index_inscriptions_logged resolver st tx height res st' :
  index_inscriptions to_lowercase json_message script_hash subsidy resolver st tx height
    = Ok (res, st') →
  brc20_steps to_lowercase (id_brc20 (is_db st)) (map snd (brc20_resolver res))
    (id_brc20 (is_db st')).
Proof.
  unfold index_inscriptions.
  intros (inputs & Hin & H)%outcome_bind_Ok. apply outcome_bind_Ok in H as (new & Hnew & H).
  destruct (parse_new_floating _ _ _ _ _ Hnew (floating_nonneg _ _ _ _ Hin))
    as (_ & _ & _ & Hdb). rewrite <- Hdb.
  destruct (place _ _ _ _ _) as [[locs rest] total].
  destruct (foldl update_inscription_location _ locs) as [counters outgoing].
  apply outcome_bind_Ok in H as (out & Hout & H). apply outcome_bind_Ok in H as (msgs & Hmsgs & H).
  apply outcome_bind_Ok in H as (outs & _ & H). injection H as <- <-. cbn.
  eapply handle_message_logged; [|exact Hmsgs]. cbn.
  eapply settle_outgoing_logged; [|exact Hout]. cbn. apply settle_leftover_logged.
Qed.

(** The tables of partial inscriptions only change under the transaction's
    identifier. *)
Definition same_off (t : Txid) (db db' : InscDB) : Prop :=
  ∀ k, k ≠ t →
    PartialTxidToTxidsKV db' !! k = PartialTxidToTxidsKV db !! k
    ∧ PartialTxidToBytesKV db' !! k = PartialTxidToBytesKV db !! k.

Lemma parse_new_partials st tx inputs tov new :
  parse_new json_message st tx inputs tov = Ok new →
  same_off (txid tx) (is_db st) (is_db (nw_state new)).
Proof.
  unfold parse_new. intros H k Hk.
  destruct (forallb _ _); [|by injection H as <-].
  apply outcome_bind_Ok in H as (first & _ & H).
  apply outcome_bind_Ok in H as (txs & _ & H).
  apply outcome_bind_Ok in H as (parsed & _ & H).
  destruct parsed as [| |i].
  - by injection H as <-.
  - injection H as <-. cbn. by rewrite !lookup_insert_ne by done.
  - apply outcome_bind_Ok in H as (og & _ & H). by injection H as <-.
Qed.

Lemma index_inscriptions_partials resolver st tx height res st' :
  index_inscriptions to_lowercase json_message script_hash subsidy resolver st tx height
    = Ok (res, st') →
  same_off (txid tx) (is_db st) (is_db st').
Proof.
  unfold index_inscriptions.
  intros (inputs & _ & H)%outcome_bind_Ok. apply outcome_bind_Ok in H as (new & Hnew & H).
  apply parse_new_partials in Hnew.
  destruct (place _ _ _ _ _) as [[locs rest] total].
  destruct (foldl update_inscription_location _ locs) as [counters outgoing].
  apply outcome_bind_Ok in H as (out & _ & H). apply outcome_bind_Ok in H as (msgs & _ & H).
  apply outcome_bind_Ok in H as (outs & _ & H). by injection H as <- <-.
Qed.

(** C12: the token messages recorded for a transaction are exactly its writes to
    the token tables, in order; undoing them from the last to the first brings
    the tables back, so the resolver stored with a block is enough to roll its
    token effects back. *)
Theorem index_inscriptions_undoable (resolver : Resolver) (st st' : InscState)
    (tx : Transaction) (height : Z) (res : IndexInscriptionsResult) :
  brc20_range (id_brc20 (is_db st)) →
  index_inscriptions to_lowercase json_message script_hash subsidy resolver st tx height
    = Ok (res, st') →
  undo_messages (id_brc20 (is_db st')) (map snd (brc20_resolver res)) ≡ id_brc20 (is_db st).
Proof.
  intros Hr H. apply index_inscriptions_logged in H.
  eapply undo_steps; [done|exact H].
Qed.

End moves.

(** ** A sample: an inscription at offset 30 of a 100 satoshi input, over outputs
    of 20 and 50 satoshis and a fee of 30. *)

Definition sample_inscription : InscriptionId := mkInscriptionId 4 0.

Definition sample_insc_body : TxoBody :=
  mkTxoBody 9 (mkTxOut 100 [1]) [] [] [(30, sample_inscription)] ∅.

Definition sample_insc_resolver : Resolver := {[ (7, 0) := sample_insc_body ]}.

Definition sample_insc_tx : Transaction :=
  mkTransaction 8 [mkTxIn (mkOutPoint 7 0) []] [mkTxOut 20 [2]; mkTxOut 50 [3]].

Definition sample_state : InscState :=
  mkInscState (mkInscDB empty_db ∅ ∅) default_counters 0 [] [].

Definition sample_hash (s : list Z) : Z := default 0 (head s).

Definition no_json (b : list Z) : option RawProtocolMessage := None.

Definition sample_inputs : Inputs :=
  mkInputs [mkFlotsam sample_inscription 30 (Old (mkSatPoint (mkOutPoint 7 0) 30))] ∅ 100.

Definition sample_result : IndexInscriptionsResult :=
  mkIndexInscriptionsResult [[]; [(10, sample_inscription)]] [] [] [] ∅.

Definition sample_state' : InscState :=
  mkInscState (mkInscDB empty_db ∅ ∅) default_counters 30 [] [].

Lemma index_inscriptions_moves_witness :
  ∃ fresh gone,
    [] = fresh ∧ (length fresh ≤ 1)%nat
    ∧ (fresh ≠ [] → ∀ p, p ∈ carried (λ _, 0) sample_insc_resolver 5 0 (input sample_insc_tx) → p.1 ≠ 0)
    ∧ moved sample_insc_tx sample_result ([(30, sample_inscription)] ++ map (pair 0) fresh ++ []) gone
    ∧ map placed (is_cb sample_state') = map (λ p, (wrap 64 (0 + p.1 - 70), p.2)) gone
    ∧ lost_or_unbound_inscriptions sample_result = [].
Proof.
  apply (index_inscriptions_moves id no_json sample_hash (λ _, 0) sample_insc_resolver
           sample_state sample_state' sample_insc_tx 5); try (by vm_compute).
  - repeat (constructor; [cbn; lia|]). constructor.
  - split; [by vm_compute|]. constructor; [|done]. split; [by vm_compute|].
    change (input_inscriptions sample_insc_resolver (mkTxIn (mkOutPoint 7 0) [])) with [(30, sample_inscription)].
    constructor; [|done]. change (input_value (λ _, 0) sample_insc_resolver 5 (mkTxIn (mkOutPoint 7 0) [])) with 100.
    cbn. lia.
Defined.

Lemma index_inscriptions_undoable_witness :
  undo_messages (id_brc20 (is_db sample_state')) (map snd (brc20_resolver sample_result))
    ≡ id_brc20 (is_db sample_state).
Proof.
  apply (index_inscriptions_undoable id no_json sample_hash (λ _, 0) sample_insc_resolver
           sample_state sample_state' sample_insc_tx 5).
  - by split; intros k; cbn [is_db sample_state id_brc20 empty_db SupplyByBRC20 BRC20Balances];
      rewrite lk_None by apply lookup_empty.
  - by vm_compute.
Defined.

End InscriptionsUpdater.
