(* ===== verification/ChainDB.v ===== *)
(** The chain database of the compressor: applying and rolling back blocks.

    - [storage/txos/mod.rs]: [TxoKV::resolve_and_process] resolves the inputs of
      a block from memory and from the table, and runs the dunes and inscription
      indexers over its transactions;
    - [storage/mod.rs]: [ChainDB::apply_block_with_context],
      [ChainDB::rollback], [intersect_options], [cursor];
    - [storage/mutable/mod.rs]: the write-ahead log [MutableKV];
    - [storage/resolver/mod.rs]: what is stored with a block to undo it;
    - [sync/roll.rs]: [UtxoResolver] and the worker that feeds the database.

    A database transaction is the record of tables it will commit: an error
    leaves the tables of the last commit. *)

From S2P Require Import Prelude Dunes Dunestone Types DunesUpdater Inscription.
From S2P Require Import Brc20 InscriptionsUpdater.
Import Dunes Dunestone Types DunesUpdater Brc20 InscriptionsUpdater.

Module ChainDB.

(** ** sync/roll.rs: UtxoResolver *)

Section utxo_resolver.
(** The length of the consensus encoding of an output. *)
Variable txout_len : TxOut → Z.

Record UtxoResolver : Type := mkUtxoResolver { ur_map : Resolver; ur_size : Z }.

Definition UtxoResolver_new : UtxoResolver := mkUtxoResolver ∅ 0.

Definition UtxoResolver_remove (m : UtxoResolver) (r : TxoRef)
  : option TxoBody * UtxoResolver :=
  match ur_map m !! r with
  | Some x => (Some x, mkUtxoResolver (delete r (ur_map m))
                         (wrap 64 (ur_size m - txout_len (tb_raw x))))
  | None => (None, m)
  end.

Definition UtxoResolver_insert (m : UtxoResolver) (r : TxoRef) (b : TxoBody) : UtxoResolver :=
  mkUtxoResolver (<[r := b]> (ur_map m)) (wrap 64 (ur_size m + txout_len (tb_raw b))).
End utxo_resolver.

(** ** storage/resolver/mod.rs: what is kept with a block *)

Record ResolverEntry : Type := mkResolverEntry {
  re_hash : BlockHash;
  re_resolver : Resolver;
  re_output_runes : list (TxoRef * list (KDuneId * Z));
  re_etches : list (Z * Z);
  re_mints : list (Z * Z);
  re_output_inscriptions : list (TxoRef * list (Z * InscriptionId));
  re_valid_reinscriptions : list (Z * Z);
  re_counters : Counters;
  re_brc20 : list (InscriptionId * BRC20Message);
  re_new_inscriptions : list NewInscriptionInfo;
}.

(** ** storage/mutable/mod.rs: the log *)

Inductive Log : Type :=
| Apply (height : Z) (hash : BlockHash) (body : Block) (entry : ResolverEntry)
| Undo (height : Z) (hash : BlockHash) (body : Block)
| Mark (height : Z) (hash : BlockHash) (body : Block).

Definition log_height (l : Log) : Z :=
  match l with Apply h _ _ _ => h | Undo h _ _ => h | Mark h _ _ => h end.
Definition log_hash (l : Log) : BlockHash :=
  match l with Apply _ h _ _ => h | Undo _ h _ => h | Mark _ h _ => h end.
Definition log_body (l : Log) : Block :=
  match l with Apply _ _ b _ => b | Undo _ _ b => b | Mark _ _ b => b end.
Definition is_apply (l : Log) : bool := match l with Apply _ _ _ _ => true | _ => false end.
Definition is_mark (l : Log) : bool := match l with Mark _ _ _ => true | _ => false end.
Definition is_undo (l : Log) : bool := match l with Undo _ _ _ => true | _ => false end.

(** The entries of a table keyed by integers, in key order. *)
Definition sorted_entries {A} (m : gmap Z A) : list (Z * A) :=
  omap (λ k, pair k <$> m !! k) (merge_sort Z.le (map fst (map_to_list m))).

(** [prune]: delete from the start until an entry of [before_height]. *)
Fixpoint prune_keys (before_height : Z) (entries : list (Z * Log)) : list Z :=
  match entries with
  | [] => []
  | (key, val) :: rest =>
      if before_height <=? log_height val then [] else key :: prune_keys before_height rest
  end.

Definition prune (before_height : Z) (m : gmap Z Log) : gmap Z Log :=
  foldl (λ m k, delete k m) m (prune_keys before_height (sorted_entries m)).

(** [KVTable::scan_until_or]: the first key whose value satisfies the predicate,
    nothing if the other predicate holds first. *)
Fixpoint scan_until_or (found bail : Log → bool) (entries : list (Z * Log)) : option Z :=
  match entries with
  | [] => None
  | (key, val) :: rest =>
      if found val then Some key
      else if bail val then None
      else scan_until_or found bail rest
  end.

Definition find_wal_seq (m : gmap Z Log) (height : Z) (hash : BlockHash) : option Z :=
  scan_until_or
    (λ v, (is_apply v || is_mark v) && (log_height v =? height) && (log_hash v =? hash))
    (λ v, height <=? log_height v)
    (sorted_entries m).

(** ** storage/mod.rs: ChainDB *)

Record Tables : Type := mkTables {
  BlockByHeightKV : gmap Z (BlockHash * Block);
  TxoKV : Resolver;
  DunesKV : DunesDB;
  InscKV : InscDB;
  InscriptionCountersKV : option Counters;
  ResolverByHeightKV : gmap Z ResolverEntry;
  MutableKV : gmap Z Log;
}.

Record ChainDB : Type := mkChainDB {
  tables : Tables;
  next_wal_seq : Z;
  last_block_hash : option BlockHash;
  immutable_after_confs : option Z;
  first_rune_height : Z;
  first_inscription_height : Z;
  network : BitcoinCompatibleNetwork;
}.

(** [open]: the log is cleared, the hash of the last block is read. *)
Definition ChainDB_open (t : Tables) (confs : option Z) (n : BitcoinCompatibleNetwork)
    (first_rune first_inscription : Z) : ChainDB :=
  mkChainDB
    (mkTables (BlockByHeightKV t) (TxoKV t) (DunesKV t) (InscKV t) (InscriptionCountersKV t)
       (ResolverByHeightKV t) ∅)
    1 ((λ e, e.2.1) <$> last (sorted_entries (BlockByHeightKV t))) confs first_rune
    first_inscription n.

Definition cursor (db : ChainDB) : option (Z * BlockHash) :=
  (λ e, (e.1, e.2.1)) <$> last (sorted_entries (BlockByHeightKV (tables db))).

Section chain.
Variable SUBSIDY_HALVING_INTERVAL : Z.
Variable instructions : list Z → list (outcome script_error Instruction).
Variable is_op_return : list Z → bool.
Variable to_lowercase : list Z → list Z.
Variable json_message : list Z → option RawProtocolMessage.
Variable script_hash : list Z → Z.
Variable subsidy : Z → Z.
Variable txout_len : TxOut → Z.

(** ** resolve_and_process *)

(** The inputs of the transactions after the coinbase. *)
Definition all_input_refs (block : Block) : list TxoRef :=
  concat (map (λ tx, map (λ i, txo_ref_of (previous_output i)) (input tx)) (tail (txdata block))).

(** Resolving from memory first, then from the table. *)
Definition resolve_ref (txos : Resolver) (acc : Resolver * option UtxoResolver) (r : TxoRef)
  : Resolver * option UtxoResolver :=
  let '(resolver, mem) := acc in
  let from_db := match txos !! r with Some b => <[r := b]> resolver | None => resolver end in
  match mem with
  | Some m =>
      match UtxoResolver_remove txout_len m r with
      | (Some b, m') => (<[r := b]> resolver, Some m')
      | (None, m') => (from_db, Some m')
      end
  | None => (from_db, None)
  end.

Definition resolve_inputs (txos : Resolver) (block : Block) (mem : option UtxoResolver)
  : Resolver * option UtxoResolver :=
  let tx_ids := map txid (txdata block) in
  let refs := filter (λ r : TxoRef, r.1 ∉ tx_ids) (all_input_refs block) in
  foldl (resolve_ref txos) (∅, mem) (elements (list_to_set refs : gset TxoRef)).

(** The state of the processing of a block. *)
Record Processing : Type := mkProcessing {
  pr_resolver : Resolver;
  pr_mem : option UtxoResolver;
  pr_dunes : DunesDB;
  pr_insc : InscState;
  pr_etches : list (Z * Z);
  pr_mints : list (Z * Z);
  pr_reinscriptions : list (Z * Z);
  pr_brc20 : list (InscriptionId * BRC20Message);
}.

Definition with_resolver (r : Resolver) (m : option UtxoResolver) (p : Processing) : Processing :=
  mkProcessing r m (pr_dunes p) (pr_insc p) (pr_etches p) (pr_mints p) (pr_reinscriptions p)
    (pr_brc20 p).

(** The dunes of a transaction. *)
Definition process_dunes (first_rune_height height : Z) (network : BitcoinCompatibleNetwork)
    (idx : Z) (tx : Transaction) (p : Processing)
  : outcome Error (list balances * Processing) :=
  if first_rune_height <=? height then
    '(r, dunes) ← index_runes SUBSIDY_HALVING_INTERVAL instructions is_op_return
                    (pr_resolver p) (pr_dunes p) idx tx height network;
    Ok (output_dunes r,
        mkProcessing (pr_resolver p) (pr_mem p) dunes (pr_insc p)
          (pr_etches p ++ match successful_etch r with Some name => [(idx, name)] | None => [] end)
          (pr_mints p ++ map (pair idx) (successful_mints r))
          (pr_reinscriptions p) (pr_brc20 p))
  else Ok (replicate (length (output tx)) ∅, p).

(** The inscriptions of a transaction. *)
Definition process_inscriptions (first_inscription_height height idx : Z) (tx : Transaction)
    (p : Processing)
  : outcome Error (list (list (Z * InscriptionId)) * gmap InscriptionId (list Z * Z) * Processing) :=
  if first_inscription_height <=? height then
    '(res, insc) ← index_inscriptions to_lowercase json_message script_hash subsidy
                     (pr_resolver p) (pr_insc p) tx height;
    Ok (output_inscriptions res, new_unused_brc20_transfers res,
        mkProcessing (pr_resolver p) (pr_mem p) (pr_dunes p) insc (pr_etches p) (pr_mints p)
          (pr_reinscriptions p ++ map (pair idx) (valid_reinscriptions res))
          (pr_brc20 p ++ brc20_resolver res))
  else Ok (replicate (length (output tx)) [], ∅, p).

(** The spent outputs must be resolved; memory forgets them. *)
Definition drop_inputs (block_hash : BlockHash) (tx : Transaction) (p : Processing)
  : outcome Error Processing :=
  foldM (λ p i,
    let r := txo_ref_of (previous_output i) in
    match pr_resolver p !! r with
    | None => Err (MissingTxo block_hash r.1 r.2)
    | Some _ =>
        Ok (with_resolver (pr_resolver p)
              ((λ m, (UtxoResolver_remove txout_len m r).2) <$> pr_mem p) p)
    end) p (input tx).

(** [dunes.into_iter().map(|(x, y)| (DuneId::try_from(x).unwrap().into(), y))]. *)
Definition body_dunes (m : balances) : outcome Error (list (KDuneId * Z)) :=
  foldM (λ l p, id ← unwrap (DuneId_try_from p.1); Ok (l ++ [(kv_of_dune_id id, p.2)]))
    [] (map_to_list m).

(** One produced output enters the resolver and memory. *)
Definition produce_output (height : Z) (tx_id : Txid)
    (transfers : gmap InscriptionId (list Z * Z)) (p : Processing)
    (o : nat * (TxOut * (balances * list (Z * InscriptionId)))) : outcome Error Processing :=
  let '(idx, (out, (dunes, inscriptions))) := o in
  let r : TxoRef := (tx_id, Z.of_nat idx) in
  dunes ← body_dunes dunes;
  let inscids := map snd inscriptions in
  let unused := filter (λ kv, kv.1 ∈ inscids) transfers in
  let body := mkTxoBody height out [] dunes inscriptions unused in
  Ok (with_resolver (<[r := body]> (pr_resolver p))
        ((λ m, UtxoResolver_insert txout_len m r body) <$> pr_mem p) p).

Definition produce_outputs (height : Z) (tx : Transaction) (dunes : list balances)
    (inscriptions : list (list (Z * InscriptionId)))
    (transfers : gmap InscriptionId (list Z * Z)) (p : Processing) : outcome Error Processing :=
  foldM (produce_output height (txid tx) transfers) p
    (imap pair (zip (output tx) (zip dunes inscriptions))).

Definition process_tx (db : ChainDB) (height : Z) (block_hash : BlockHash) (p : Processing)
    (t : nat * Transaction) : outcome Error Processing :=
  let '(idx, tx) := t in
  let idx := Z.of_nat idx in
  '(dunes, p) ← process_dunes (first_rune_height db) height (network db) idx tx p;
  '(inscriptions, transfers, p) ←
    process_inscriptions (first_inscription_height db) height idx tx p;
  p ← drop_inputs block_hash tx p;
  produce_outputs height tx dunes inscriptions transfers p.

(** The coinbase comes last: its inscriptions and outputs. *)
Definition process_coinbase (first_inscription_height height : Z) (coinbase : Transaction)
    (dunes : list balances) (p : Processing) : outcome Error Processing :=
  '(inscriptions, transfers, p) ←
    process_inscriptions first_inscription_height height 0 coinbase p;
  produce_outputs height coinbase dunes inscriptions transfers p.

Definition resolve_and_process (db : ChainDB) (mem : option UtxoResolver) (height : Z)
    (block : Block) (counters : Counters) : outcome Error Processing :=
  let t := tables db in
  let '(resolver, mem) := resolve_inputs (TxoKV t) block mem in
  coinbase ← ok_or Decoding (head (txdata block));
  let p := mkProcessing resolver mem (DunesKV t)
             (mkInscState (InscKV t) counters (subsidy (wrap 32 height)) [] []) [] [] [] [] in
  '(cb_dunes, p) ← process_dunes (first_rune_height db) height (network db) 0 coinbase p;
  p ← foldM (process_tx db height (block_hash block)) p (tail (imap pair (txdata block)));
  process_coinbase (first_inscription_height db) height coinbase cb_dunes p.

(** ** apply_block_with_context *)

(** The body stored for a produced output: the indexed parts come from the
    resolver. *)
Definition stored_body (height : Z) (out : TxOut) (entry : TxoBody) : TxoBody :=
  mkTxoBody height out (tb_ord_ranges entry) (tb_dunes entry) (tb_inscriptions entry)
    (tb_unused_brc20_transfers entry).

Record Staging : Type := mkStaging {
  sg_txos : Resolver;
  sg_runes : list (TxoRef * list (KDuneId * Z));
  sg_inscriptions : list (TxoRef * list (Z * InscriptionId));
}.

Definition stage_output (height : Z) (hash : BlockHash) (resolver : Resolver) (tx_id : Txid)
    (s : Staging) (o : nat * TxOut) : outcome Error Staging :=
  let r : TxoRef := (tx_id, Z.of_nat o.1) in
  entry ← ok_or (MissingTxo hash tx_id (Z.of_nat o.1)) (resolver !! r);
  Ok (mkStaging (<[r := stored_body height o.2 entry]> (sg_txos s))
        (match tb_dunes entry with [] => sg_runes s | d => sg_runes s ++ [(r, d)] end)
        (match tb_inscriptions entry with
         | [] => sg_inscriptions s
         | d => sg_inscriptions s ++ [(r, d)]
         end)).

Definition delete_inputs (tx : Transaction) (txos : Resolver) : Resolver :=
  foldl (λ txos i, delete (txo_ref_of (previous_output i)) txos) txos (input tx).

(** Insert what a transaction produces, delete what it consumes. *)
Definition stage_tx (height : Z) (hash : BlockHash) (resolver : Resolver) (s : Staging)
    (tx : Transaction) : outcome Error Staging :=
  s ← foldM (stage_output height hash resolver (txid tx)) s (imap pair (output tx));
  Ok (mkStaging (delete_inputs tx (sg_txos s)) (sg_runes s) (sg_inscriptions s)).

(** What is stored with the block, the log, and the new state of the database. *)
Definition commit_block (db : ChainDB) (height : Z) (block : Block) (mutable : bool)
    (original_counters : Counters) (p : Processing) (s : Staging) : ChainDB :=
  let t := tables db in
  let hash := block_hash block in
  let input_refs := list_to_set (all_input_refs block) : gset TxoRef in
  let kept := filter (λ kv : TxoRef * TxoBody, kv.1 ∈ input_refs) (pr_resolver p) in
  let entry := mkResolverEntry hash kept (sg_runes s) (pr_etches p) (pr_mints p)
                 (sg_inscriptions s)
                 (pr_reinscriptions p) original_counters (pr_brc20 p) (is_new (pr_insc p)) in
  let log := if mutable then <[next_wal_seq db := Apply height hash block entry]> (MutableKV t)
             else MutableKV t in
  let log := match mutable, immutable_after_confs db with
             | true, Some prune_after =>
                 if prune_after <=? height then prune (height - prune_after) log else log
             | _, _ => log
             end in
  let t' := mkTables (<[height := (hash, block)]> (BlockByHeightKV t)) (sg_txos s) (pr_dunes p)
              (is_db (pr_insc p)) (Some (is_counters (pr_insc p)))
              (<[height := entry]> (ResolverByHeightKV t)) log in
  mkChainDB t' (wrap 64 (next_wal_seq db + 1)) (Some hash) (immutable_after_confs db)
    (first_rune_height db) (first_inscription_height db) (network db).

Definition apply_block_with_context (db : ChainDB) (height : Z) (block : Block) (mutable : bool)
    (mem : option UtxoResolver) : outcome Error (ChainDB * option UtxoResolver) :=
  let hash := block_hash block in
  let previous_hash := prev_blockhash block in
  if match last_block_hash db with Some h => negb (previous_hash =? h) | None => false end
  then Err (PreviousHashMismatch hash previous_hash (last_block_hash db))
  else
    let original_counters := default default_counters (InscriptionCountersKV (tables db)) in
    p ← resolve_and_process db mem height block original_counters;
    s ← foldM (stage_tx height hash (pr_resolver p)) (mkStaging (TxoKV (tables db)) [] [])
          (txdata block);
    Ok (commit_block db height block mutable original_counters p s, pr_mem p).

(** ** rollback *)

(** Undoing the dunes of a transaction. *)
Definition undo_etch (height idx : Z) (ds : Dunestone) (db : DunesDB) : outcome Error DunesDB :=
  match etching ds with
  | None => Ok db
  | Some e =>
      let etch_id := mkKDuneId height idx in
      match DuneTermsByIdKV db !! etch_id with
      | None => Ok db
      | Some terms =>
          let db := set_terms (delete etch_id) (set_names (delete (dt_name terms)) db) in
          match e_dune e with
          | Some _ => Ok db
          | None =>
              let old_reserved := default 0 (DunesReservedCountersKV db) in
              new_reserved ← unwrap (checked_sub 64 old_reserved 1);
              Ok (set_reserved new_reserved db)
          end
      end
  end.

Definition undo_mint (idx : Z) (mints : list (Z * Z)) (db : DunesDB) (c : nat * Z)
  : outcome Error DunesDB :=
  match DuneId_try_from c.2 with
  | None => Ok db
  | Some key =>
      if decide ((idx, wrap 16 (Z.of_nat c.1)) ∈ mints) then
        let mint_id := kv_of_dune_id key in
        let old_mints := default 0 (DuneMintsByIdKV db !! mint_id) in
        new_mints ← unwrap (checked_sub 128 old_mints 1);
        Ok (set_mints (<[mint_id := new_mints]>) db)
      else Ok db
  end.

Definition undo_mints (idx : Z) (ds : Dunestone) (mints : list (Z * Z)) (db : DunesDB)
  : outcome Error DunesDB :=
  foldM (undo_mint idx mints) db (imap pair (claims ds)).

Definition undo_dunes (height idx : Z) (mints : list (Z * Z)) (tx : Transaction) (db : DunesDB)
  : outcome Error DunesDB :=
  match from_transaction instructions (output tx) with
  | None => Ok db
  | Some ds => db ← undo_etch height idx ds db; undo_mints idx ds mints db
  end.

(** Reinserting what a transaction consumed and deleting what it produced;
    [idx] 0 is the coinbase, which consumed nothing. *)
Definition reinsert_input (hash : BlockHash) (acc : Resolver * Resolver) (i : TxIn)
  : outcome Error (Resolver * Resolver) :=
  let r := txo_ref_of (previous_output i) in
  body ← ok_or (MissingTxo hash r.1 r.2) (acc.1 !! r);
  Ok (delete r acc.1, <[r := body]> acc.2).

Definition delete_outputs (tx : Transaction) (txos : Resolver) : Resolver :=
  foldl (λ txos o, delete (txid tx, Z.of_nat o.1) txos) txos (imap pair (output tx)).

Definition undo_txos (hash : BlockHash) (idx : Z) (tx : Transaction)
    (acc : Resolver * Resolver) : outcome Error (Resolver * Resolver) :=
  '(resolver, txos) ←
    (if idx =? 0 then Ok acc else foldM (reinsert_input hash) acc (input tx));
  Ok (resolver, delete_outputs tx txos).

Definition undo_partial (tx : Transaction) (db : InscDB) : InscDB :=
  mkInscDB (id_brc20 db) (delete (txid tx) (PartialTxidToTxidsKV db))
    (delete (txid tx) (PartialTxidToBytesKV db)).

Record Undoing : Type := mkUndoing {
  un_dunes : DunesDB; un_insc : InscDB; un_resolver : Resolver; un_txos : Resolver;
}.

Definition undo_tx (height : Z) (hash : BlockHash) (mints : list (Z * Z)) (u : Undoing)
    (t : nat * Transaction) : outcome Error Undoing :=
  let '(idx, tx) := t in
  let insc := undo_partial tx (un_insc u) in
  dunes ← undo_dunes height (Z.of_nat idx) mints tx (un_dunes u);
  '(resolver, txos) ← undo_txos hash (Z.of_nat idx) tx (un_resolver u, un_txos u);
  Ok (mkUndoing dunes insc resolver txos).

(** Undoing one block: the tables and the next position of the log. *)
Definition undo_block (mutable : bool) (acc : Tables * Z) (e : Z * (BlockHash * Block))
  : outcome Error (Tables * Z) :=
  let '(t, seq) := acc in
  let '(height, (hash, block)) := e in
  let log := if mutable then <[seq := Undo height hash block]> (MutableKV t) else MutableKV t in
  let seq := if mutable then wrap 64 (seq + 1) else seq in
  entry ← ok_or (MissingResolver hash) (ResolverByHeightKV t !! height);
  if negb (re_hash entry =? hash) then Err (ResolverHashMismatch height hash (re_hash entry))
  else
    let brc20 := undo_messages (id_brc20 (InscKV t)) (map snd (re_brc20 entry)) in
    u ← foldM (undo_tx height hash (re_mints entry))
          (mkUndoing (DunesKV t) (set_brc20 brc20 (InscKV t)) (re_resolver entry) (TxoKV t))
          (rev (imap pair (txdata block)));
    Ok (mkTables (delete height (BlockByHeightKV t)) (un_txos u) (un_dunes u) (un_insc u)
          (Some (re_counters entry)) (delete height (ResolverByHeightKV t)) log, seq).

(** The mark of the rollback point, and the new state of the database. *)
Definition commit_rollback (db : ChainDB) (rb_height : Z) (rb_hash : BlockHash)
    (found_bytes : Block) (mutable : bool) (t : Tables) (seq : Z) : ChainDB :=
  let log := if mutable then <[seq := Mark rb_height rb_hash found_bytes]> (MutableKV t)
             else MutableKV t in
  let seq := if mutable then wrap 64 (seq + 1) else seq in
  let t := mkTables (BlockByHeightKV t) (TxoKV t) (DunesKV t) (InscKV t)
             (InscriptionCountersKV t) (ResolverByHeightKV t) log in
  mkChainDB t seq (Some rb_hash) (immutable_after_confs db) (first_rune_height db)
    (first_inscription_height db) (network db).

Definition rollback (db : ChainDB) (rb_height : Z) (rb_hash : BlockHash) (mutable : bool)
  : outcome Error ChainDB :=
  let t := tables db in
  let from := filter (λ e : Z * (BlockHash * Block), rb_height ≤ e.1)
                (sorted_entries (BlockByHeightKV t)) in
  match from with
  | [] => Err (InvalidRollbackPoint None)
  | (found_height, (found_hash, found_bytes)) :: to_remove =>
      if negb (rb_height =? found_height) || negb (rb_hash =? found_hash) then
        Err (InvalidRollbackPoint (Some (found_height, found_hash)))
      else
        '(t, seq) ← foldM (undo_block mutable) (t, next_wal_seq db) (rev to_remove);
        Ok (commit_rollback db rb_height rb_hash found_bytes mutable t seq)
  end.

(** ** The roll stage *)

Inductive PullEvent : Type :=
| RollForward (height : Z) (hash : BlockHash) (block : Block) (tip_height : Z)
| RollBack (height : Z) (hash : BlockHash) (tip_height : Z).

Record Stage : Type := mkStage {
  chain_db : ChainDB; stage_mutable : bool; memory_resolver : option UtxoResolver;
}.

Definition roll_execute (s : Stage) (e : PullEvent) : outcome Error Stage :=
  let db := chain_db s in
  match e with
  | RollForward height hash block tip =>
      let mutable :=
        stage_mutable s ||
        match immutable_after_confs db with
        | Some confirmations => tip <? wrap 64 (height + confirmations)
        | None => true
        end in
      '(db, mem) ← apply_block_with_context db height block mutable (memory_resolver s);
      Ok (mkStage db mutable mem)
  | RollBack rb_height rb_hash tip =>
      let mutable :=
        stage_mutable s ||
        match immutable_after_confs db with
        | Some confirmations => tip <? wrap 64 (rb_height + confirmations)
        | None => false
        end in
      db ← rollback db rb_height rb_hash mutable;
      Ok (mkStage db mutable (memory_resolver s))
  end.

End chain.

(** ** intersect_options *)

(** The heights proposed, from the tip down; [fuel] bounds their number. *)
Fixpoint intersect_indexes (fuel : nat) (count : nat) (step index : Z) : option (list Z) :=
  match fuel with
  | O => None
  | S f =>
      let step := if (10 <=? S count)%nat then wrap 64 (step * 2) else step in
      let next := saturating_sub index step in
      if next =? 0 then Some [index]
      else rest ← intersect_indexes f (S count) step next; Some (index :: rest)
  end.

Definition intersect_fuel : nat := 80.

Definition intersect_options (db : ChainDB) (genesis_hash : BlockHash)
  : outcome Error (list (Z * BlockHash)) :=
  let blocks := BlockByHeightKV (tables db) in
  out ← match last (sorted_entries blocks) with
        | None => Ok []
        | Some (tip_height, _) =>
            indexes ← unwrap (intersect_indexes intersect_fuel 0 1 tip_height);
            foldM (λ out x,
              b ← ok_or (IntersectMissingBlock x) (blocks !! x);
              Ok (out ++ [(x, b.1)])) [] indexes
        end;
  Ok (out ++ [(0, genesis_hash)]).

(** ** Transaction outputs: applying and undoing *)

Definition input_refs (tx : Transaction) : list TxoRef :=
  map (λ i, txo_ref_of (previous_output i)) (input tx).

Definition output_refs (tx : Transaction) : list TxoRef :=
  imap (λ i _, (txid tx, Z.of_nat i)) (output tx).

Lemma delete_list_lookup `{Countable K} {A} (l : list K) (m : gmap K A) k :
  foldl (λ m r, delete r m) m l !! k = if decide (k ∈ l) then None else m !! k.
Proof.
  revert m. induction l as [|r l IH]; intros m; cbn [foldl]; [done|].
  rewrite IH. destruct (decide (k ∈ l)).
  - rewrite decide_True; [done|by right].
  - destruct (decide (r = k)) as [->|].
    + rewrite lookup_delete_eq, decide_True; [done|by left].
    + rewrite lookup_delete_ne by done. rewrite decide_False; [done|].
      intros [?|?]%elem_of_cons; congruence.
Qed.

Lemma delete_inputs_lookup tx m (k : TxoRef) :
  delete_inputs tx m !! k = if decide (k ∈ input_refs tx) then None else m !! k.
Proof.
  unfold delete_inputs, input_refs. rewrite <- delete_list_lookup.
  f_equal. revert m. induction (input tx) as [|i l IH]; intros m; [done|]. cbn. apply IH.
Qed.

Lemma delete_outputs_lookup tx m (k : TxoRef) :
  delete_outputs tx m !! k = if decide (k ∈ output_refs tx) then None else m !! k.
Proof.
  unfold delete_outputs, output_refs. rewrite <- delete_list_lookup.
  replace (imap (λ i _, (txid tx, Z.of_nat i)) (output tx))
    with ((λ o : nat * TxOut, (txid tx, Z.of_nat o.1)) <$> imap pair (output tx))
    by (by rewrite fmap_imap).
  generalize (imap pair (output tx)). intros l. revert m.
  induction l as [|o l IH]; intros m; [done|]. cbn. apply IH.
Qed.

Lemma output_refs_elem tx (r : TxoRef) :
  r ∈ output_refs tx ↔ ∃ i o, output tx !! i = Some o ∧ r = (txid tx, Z.of_nat i).
Proof.
  unfold output_refs. rewrite elem_of_lookup_imap. naive_solver.
Qed.

(** What a transaction's outputs become in the table. *)
Lemma stage_outputs_lookup height hash resolver tx_id outs n s s' (k : TxoRef) :
  foldM (stage_output height hash resolver tx_id) s (imap (λ i o, (n + i, o)%nat) outs) = Ok s' →
  sg_txos s' !! k
  = match (if decide (k.1 = tx_id) then
             if decide (Z.of_nat n ≤ k.2 < Z.of_nat (n + length outs)) then
               outs !! (Z.to_nat k.2 - n)%nat else None
           else None) with
    | Some o => stored_body height o <$> resolver !! k
    | None => sg_txos s !! k
    end.
Proof.
  revert n s. induction outs as [|o outs IH]; intros n s; cbn [imap].
  - cbn [foldM]. intros [= <-]. repeat (case_decide; [|done]). cbn in *. lia.
  - cbn [foldM]. rewrite Nat.add_0_r.
    destruct (stage_output height hash resolver tx_id s (n, o)) as [s1| |] eqn:E; [|done|done].
    intros H. rewrite (imap_ext _ (λ i o, (S n + i, o)%nat)) in H
      by (intros; cbn; f_equal; lia).
    rewrite (IH _ _ H). clear IH H. unfold stage_output in E. cbn [fst snd] in E.
    apply outcome_bind_Ok in E as (entry & Er & [= <-]).
    apply ok_or_Ok in Er as Hr.
    cbn [sg_txos length]. destruct k as [kt kv]. cbn [fst snd].
    destruct (decide (kt = tx_id)) as [->|Hne]; [|by rewrite lookup_insert_ne by congruence].
    destruct (decide (kv = Z.of_nat n)) as [->|Hkv].
    + rewrite decide_False, decide_True by lia. rewrite Nat2Z.id, Nat.sub_diag. cbn.
      by rewrite lookup_insert_eq, Hr.
    + destruct (decide (Z.of_nat (S n) ≤ kv < Z.of_nat (S n + length outs))).
      * rewrite decide_True by lia.
        assert ((o :: outs) !! (Z.to_nat kv - n)%nat = outs !! (Z.to_nat kv - S n)%nat) as ->
          by (by replace (Z.to_nat kv - n)%nat with (S (Z.to_nat kv - S n)) by lia).
        destruct (outs !! _); [done|]. by rewrite lookup_insert_ne by congruence.
      * rewrite decide_False by lia. by rewrite lookup_insert_ne by congruence.
Qed.

Lemma stage_tx_lookup height hash resolver s tx s' (k : TxoRef) :
  stage_tx height hash resolver s tx = Ok s' →
  sg_txos s' !! k
  = if decide (k ∈ input_refs tx) then None
    else match (if decide (k ∈ output_refs tx) then output tx !! Z.to_nat k.2 else None) with
         | Some o => stored_body height o <$> resolver !! k
         | None => sg_txos s !! k
         end.
Proof.
  unfold stage_tx. intros (s1 & H1 & H)%outcome_bind_Ok. injection H as <-. cbn [sg_txos].
  rewrite delete_inputs_lookup. case_decide; [done|].
  rewrite (stage_outputs_lookup height hash resolver (txid tx) (output tx) 0 s s1 k H1).
  rewrite Nat.add_0_l, Nat.sub_0_r.
  destruct (decide (k ∈ output_refs tx)) as [Ho|Ho]; destruct k as [kt kv]; cbn [fst snd].
  - apply output_refs_elem in Ho as (i & o & Hi & [= -> ->]).
    rewrite decide_True by done. apply lookup_lt_Some in Hi as Hl. by rewrite decide_True by lia.
  - destruct (decide (kt = txid tx)) as [->|]; [|done]. case_decide as Hr; [|done].
    exfalso. apply Ho, output_refs_elem.
    destruct (lookup_lt_is_Some_2 (output tx) (Z.to_nat kv)) as [o Hi]; [lia|].
    exists (Z.to_nat kv), o. split; [done|]. f_equal. lia.
Qed.

Lemma reinsert_inputs_lookup hash l acc :
  NoDup (map (λ i, txo_ref_of (previous_output i)) l) →
  (∀ i, i ∈ l → is_Some (acc.1 !! txo_ref_of (previous_output i))) →
  ∃ acc', foldM (reinsert_input hash) acc l = Ok acc'
    ∧ (∀ k, acc'.1 !! k = if decide (k ∈ map (λ i, txo_ref_of (previous_output i)) l)
                          then None else acc.1 !! k)
    ∧ (∀ k, acc'.2 !! k = if decide (k ∈ map (λ i, txo_ref_of (previous_output i)) l)
                          then acc.1 !! k else acc.2 !! k).
Proof.
  revert acc. induction l as [|i l IH]; intros acc Hnd Hl; [by exists acc|].
  cbn [map] in *. apply NoDup_cons in Hnd as [Hni Hnd].
  destruct (Hl i ltac:(by left)) as [b Hb]. set (r := txo_ref_of (previous_output i)) in *.
  destruct (IH (delete r acc.1, <[r := b]> acc.2)) as (acc' & Hrun & H1 & H2); [done| |].
  { intros j Hj. cbn [fst]. rewrite lookup_delete_ne; [apply Hl; by right|].
    intros E. apply Hni. rewrite E. apply list_elem_of_fmap. by exists j. }
  exists acc'. cbn [foldM]. unfold reinsert_input at 1. fold r. rewrite Hb.
  cbn [ok_or mbind outcome_bind]. split; [done|]. cbn [fst snd] in *. split; intros k.
  - rewrite H1. destruct (decide (k ∈ map _ l)) as [Hk|Hk].
    + rewrite decide_True; [done|by right].
    + destruct (decide (r = k)) as [<-|Hne].
      * rewrite lookup_delete_eq, decide_True; [done|by left].
      * rewrite lookup_delete_ne by done. rewrite decide_False; [done|].
        intros [?|?]%elem_of_cons; congruence.
  - rewrite H2. destruct (decide (k ∈ map _ l)) as [Hk|Hk].
    + rewrite lookup_delete_ne by (intros <-; done). rewrite decide_True; [done|by right].
    + destruct (decide (r = k)) as [<-|Hne].
      * rewrite lookup_insert_eq, decide_True; [done|by left].
      * rewrite lookup_insert_ne by done. rewrite decide_False; [done|].
        intros [?|?]%elem_of_cons; congruence.
Qed.

Definition ins (txs : list Transaction) : list TxoRef := concat (map input_refs txs).
Definition outs (txs : list Transaction) : list TxoRef := concat (map output_refs txs).

Lemma ins_app a b : ins (a ++ b) = ins a ++ ins b.
Proof. unfold ins. by rewrite map_app, concat_app. Qed.
Lemma outs_app a b : outs (a ++ b) = outs a ++ outs b.
Proof. unfold outs. by rewrite map_app, concat_app. Qed.
Lemma outs_cons tx txs : outs (tx :: txs) = output_refs tx ++ outs txs.
Proof. done. Qed.
Lemma ins_cons tx txs : ins (tx :: txs) = input_refs tx ++ ins txs.
Proof. done. Qed.

(** A transaction spends outputs of earlier transactions of the block or of
    earlier blocks only. *)
Fixpoint spends_ordered (txs : list Transaction) : Prop :=
  match txs with
  | [] => True
  | tx :: post => Forall (λ k, k ∉ outs (tx :: post)) (input_refs tx) ∧ spends_ordered post
  end.

(** What the node guarantees of a block: its outputs are new, nothing is spent
    twice, the coinbase spends nothing that exists, spends are ordered. *)
Record valid_spends (txos : Resolver) (cb : Transaction) (txs : list Transaction) : Prop := {
  vs_fresh : Forall (λ k, txos !! k = None) (outs (cb :: txs));
  vs_once : NoDup (ins (cb :: txs));
  vs_coinbase : Forall (λ k, txos !! k = None) (input_refs cb);
  vs_order : spends_ordered txs;
}.

Lemma spends_ordered_app pre tx post k :
  spends_ordered (pre ++ tx :: post) → k ∈ input_refs tx → k ∉ outs (tx :: post).
Proof.
  induction pre as [|p pre IH]; cbn [app spends_ordered].
  - rewrite Forall_forall. naive_solver.
  - naive_solver.
Qed.

(** What an applied block leaves under the keys it does not produce. *)
Lemma stage_txs_lookup height hash resolver txs s s' (k : TxoRef) :
  foldM (stage_tx height hash resolver) s txs = Ok s' → k ∉ outs txs →
  sg_txos s' !! k = if decide (k ∈ ins txs) then None else sg_txos s !! k.
Proof.
  revert s. induction txs as [|tx txs IH]; intros s; cbn [foldM].
  { by intros [= <-]. }
  intros (s1 & H1 & H)%outcome_bind_Ok. rewrite outs_cons, ins_cons, not_elem_of_app.
  intros [Ho1 Ho2]. rewrite (IH _ H Ho2), (stage_tx_lookup _ _ _ _ _ _ _ H1).
  rewrite (decide_False (P := k ∈ output_refs tx)) by done.
  repeat case_decide; set_solver.
Qed.

(** The undo of the transactions after the coinbase, last first. *)
Definition undo_txos_of (hash : BlockHash) (acc : Resolver * Resolver) (t : nat * Transaction)
  : outcome Error (Resolver * Resolver) := undo_txos hash (Z.of_nat t.1) t.2 acc.

Definition indexed (txs : list Transaction) : list (nat * Transaction) :=
  imap (λ i t, (S i, t)) txs.

Lemma indexed_snoc txs tx : indexed (txs ++ [tx]) = indexed txs ++ [(S (length txs), tx)].
Proof. unfold indexed. rewrite imap_app. cbn. by rewrite Nat.add_0_r. Qed.

Record undoing_inv (txos : Resolver) (cb : Transaction) (txs pre : list Transaction)
    (acc : Resolver * Resolver) : Prop := {
  ui_resolver : ∀ k, k ∈ ins pre →
    ∃ b, acc.1 !! k = Some b ∧ (k ∉ outs (cb :: txs) → txos !! k = Some b);
  ui_txos : ∀ k, k ∉ outs (cb :: pre) →
    acc.2 !! k = if decide (k ∈ ins (cb :: pre)) then None else txos !! k;
}.

Lemma undo_txos_step txos cb txs hash pre tx post acc :
  valid_spends txos cb txs → txs = pre ++ tx :: post →
  undoing_inv txos cb txs (pre ++ [tx]) acc →
  ∃ acc', undo_txos_of hash acc (S (length pre), tx) = Ok acc' ∧ undoing_inv txos cb txs pre acc'.
Proof.
  intros V E I. pose proof (vs_once _ _ _ V) as Hnd.
  rewrite E, ins_cons, ins_app, ins_cons in Hnd.
  apply NoDup_app in Hnd as (_ & Hcb & (_ & Hpre & (Hnd & _ & _)%NoDup_app)%NoDup_app).
  destruct (reinsert_inputs_lookup hash (input tx) acc) as ([r t] & Hrun & Hr & Ht); [done| |].
  { intros i Hi. destruct (ui_resolver _ _ _ _ _ I (txo_ref_of (previous_output i))) as (b & -> & _);
      [|done]. rewrite ins_app, elem_of_app, ins_cons, elem_of_app. right; left.
    apply list_elem_of_fmap. by exists i. }
  exists (r, delete_outputs tx t). unfold undo_txos_of, undo_txos. cbn [fst snd].
  rewrite (proj2 (Z.eqb_neq _ _)) by lia. rewrite Hrun. split; [done|]. cbn [fst snd] in *.
  fold (input_refs tx) in *. split; cbn [fst snd]; intros k Hk.
  - rewrite Hr, decide_False; [|intros ?; eapply Hpre; [done|]; set_solver].
    apply (ui_resolver _ _ _ _ _ I). rewrite ins_app. set_solver.
  - rewrite delete_outputs_lookup. case_decide as Ho.
    { case_decide; [done|]. symmetry. pose proof (vs_fresh _ _ _ V) as F. rewrite Forall_forall in F.
      apply F. rewrite E, outs_cons, outs_app, outs_cons. set_solver. }
    rewrite Ht. case_decide as Hi.
    + destruct (ui_resolver _ _ _ _ _ I k) as (b & Hb & Htx); [rewrite ins_app, ins_cons; set_solver|].
      rewrite Hb, decide_False, Htx; [done| |].
      * pose proof (vs_order _ _ _ V) as Hord. rewrite E in Hord.
        pose proof (spends_ordered_app _ _ _ _ Hord Hi).
        rewrite E, outs_cons, outs_app. rewrite outs_cons in Hk. set_solver.
      * rewrite ins_cons, elem_of_app. intros [?|?].
        -- eapply Hcb; [done|]. set_solver.
        -- eapply Hpre; [done|]. set_solver.
    + rewrite (ui_txos _ _ _ _ _ I);
        [|rewrite outs_cons, outs_app; rewrite outs_cons in Hk; cbn; set_solver].
      rewrite !ins_cons, ins_app, ins_cons. repeat case_decide; set_solver.
Qed.

Lemma undo_txos_all txos cb txs hash pre post acc :
  valid_spends txos cb txs → txs = pre ++ post → undoing_inv txos cb txs pre acc →
  ∃ acc', foldM (undo_txos_of hash) acc (rev (indexed pre)) = Ok acc'
    ∧ undoing_inv txos cb txs [] acc'.
Proof.
  intros V. revert post acc. induction pre as [|tx pre IH] using rev_ind; intros post acc E I.
  { by exists acc. }
  rewrite <- app_assoc in E. destruct (undo_txos_step _ _ _ hash _ _ _ _ V E I) as (a & Ha & Ia).
  destruct (IH _ _ E Ia) as (b & Hb & Ib). exists b.
  rewrite indexed_snoc, rev_app_distr. cbn [rev app foldM]. rewrite Ha. done.
Qed.

(** The table of outputs after the undo of all transactions of a block. *)
Lemma undo_txos_block txos cb txs hash resolver after :
  valid_spends txos cb txs →
  (∀ k, k ∈ ins txs → ∃ b, resolver !! k = Some b ∧ (k ∉ outs (cb :: txs) → txos !! k = Some b)) →
  (∀ k, k ∉ outs (cb :: txs) →
    after !! k = if decide (k ∈ ins (cb :: txs)) then None else txos !! k) →
  ∃ r, foldM (undo_txos_of hash) (resolver, after) (rev (imap pair (cb :: txs))) = Ok (r, txos).
Proof.
  intros V HR HA. destruct (undo_txos_all txos cb txs hash txs [] (resolver, after) V)
    as ([r t] & Hrun & [_ Ht]); [by rewrite app_nil_r|by split|].
  exists r. cbn [imap rev]. rewrite foldM_app.
  assert (imap (pair ∘ S) txs = indexed txs) as -> by done. rewrite Hrun.
  cbn [mbind outcome_bind foldM].
  unfold undo_txos_of, undo_txos. cbn [fst snd Z.of_nat Z.eqb mbind outcome_bind].
  do 2 f_equal. apply map_eq. intros k. rewrite delete_outputs_lookup. cbn [snd] in Ht.
  destruct V as [HF _ HC _]. rewrite Forall_forall in HF, HC.
  case_decide as Ho; [symmetry; apply HF; rewrite outs_cons; set_solver|].
  rewrite Ht by (rewrite outs_cons; cbn; set_solver).
  rewrite ins_cons. case_decide as Hi; [|done]. symmetry. apply HC. cbn in Hi. set_solver.
Qed.

(** ** Processing a block *)

Section processing.
Variable SUBSIDY_HALVING_INTERVAL : Z.
Variable instructions : list Z → list (outcome script_error Instruction).
Variable is_op_return : list Z → bool.
Variable to_lowercase : list Z → list Z.
Variable json_message : list Z → option RawProtocolMessage.
Variable script_hash : list Z → Z.
Variable subsidy : Z → Z.
Variable txout_len : TxOut → Z.

Local Abbreviation process_dunes :=
  (process_dunes SUBSIDY_HALVING_INTERVAL instructions is_op_return).
Local Abbreviation process_inscriptions :=
  (process_inscriptions to_lowercase json_message script_hash subsidy).
Local Abbreviation process_tx :=
  (process_tx SUBSIDY_HALVING_INTERVAL instructions is_op_return to_lowercase json_message
     script_hash subsidy txout_len).

(** Nothing but the dunes changes in [process_dunes], and so on. *)
Lemma process_dunes_frame first height net idx tx p ds p' :
  process_dunes first height net idx tx p = Ok (ds, p') →
  pr_resolver p' = pr_resolver p ∧ pr_mem p' = pr_mem p ∧ pr_insc p' = pr_insc p
  ∧ pr_brc20 p' = pr_brc20 p.
Proof.
  unfold ChainDB.process_dunes. case_match; [|naive_solver].
  intros ([r d] & _ & Hp)%outcome_bind_Ok. naive_solver.
Qed.

Lemma process_inscriptions_frame first height idx tx p il tr p' :
  process_inscriptions first height idx tx p = Ok (il, tr, p') →
  pr_resolver p' = pr_resolver p ∧ pr_mem p' = pr_mem p ∧ pr_dunes p' = pr_dunes p
  ∧ pr_mints p' = pr_mints p.
Proof.
  unfold ChainDB.process_inscriptions. case_match; [|naive_solver].
  intros ([r d] & _ & Hp)%outcome_bind_Ok. naive_solver.
Qed.

(** Everything but the resolver and memory. *)
Definition indexed_parts (p : Processing) :=
  (pr_dunes p, pr_insc p, pr_etches p, pr_mints p, pr_reinscriptions p, pr_brc20 p).

Lemma drop_inputs_spec hash tx p p' :
  drop_inputs txout_len hash tx p = Ok p' →
  pr_resolver p' = pr_resolver p ∧ indexed_parts p' = indexed_parts p
  ∧ ∀ k, k ∈ input_refs tx → is_Some (pr_resolver p !! k).
Proof.
  unfold drop_inputs, input_refs. intros H.
  pattern (input tx), p'. eapply foldM_prefix; [|split; [done|split; [done|]]|exact H];
    [|cbn; set_solver].
  clear. intros pre i p1 p2 _ (Hr & Hp & Hk).
  destruct (pr_resolver p1 !! txo_ref_of (previous_output i)) eqn:E; [|done].
  intros [= <-]. cbn [with_resolver pr_resolver]. split; [done|]. split; [done|]. intros k.
  rewrite map_app, elem_of_app. intros [?|Hk']; [by apply Hk|]. cbn in Hk'.
  apply list_elem_of_singleton in Hk' as ->. rewrite Hr in E. by rewrite E.
Qed.

Lemma produce_outputs_spec height tx ds il tr p p' :
  produce_outputs txout_len height tx ds il tr p = Ok p' →
  indexed_parts p' = indexed_parts p
  ∧ (∀ k, k ∉ output_refs tx → pr_resolver p' !! k = pr_resolver p !! k)
  ∧ (∀ k, is_Some (pr_resolver p !! k) → is_Some (pr_resolver p' !! k)).
Proof.
  unfold produce_outputs. intros H. revert H.
  apply (foldM_inv (λ q, indexed_parts q = indexed_parts p
    ∧ (∀ k, k ∉ output_refs tx → pr_resolver q !! k = pr_resolver p !! k)
    ∧ (∀ k, is_Some (pr_resolver p !! k) → is_Some (pr_resolver q !! k)))); [|done].
  intros q [i [o [d n]]] q' Hin (Hp & Hr & Hs).
  intros (body & _ & H)%outcome_bind_Ok. injection H as <-. split; [done|].
  cbn [with_resolver pr_resolver].
  apply elem_of_lookup_imap in Hin as (j & y & [= <- <-] & Hj).
  apply lookup_zip_with_Some in Hj as (o' & y' & [= <- _] & Ho & _).
  split; intros k Hk.
  - rewrite lookup_insert_ne; [by apply Hr|]. intros <-. apply Hk, output_refs_elem. eauto.
  - destruct (decide ((txid tx, Z.of_nat i) = k)) as [<-|].
    + rewrite lookup_insert_eq. done.
    + rewrite lookup_insert_ne by done. by apply Hs.
Qed.

Lemma process_tx_split db height hash p i tx p' :
  process_tx db height hash p (i, tx) = Ok p' →
  ∃ ds p1 il tr p2 p3,
    process_dunes (first_rune_height db) height (network db) (Z.of_nat i) tx p = Ok (ds, p1)
    ∧ process_inscriptions (first_inscription_height db) height (Z.of_nat i) tx p1
      = Ok (il, tr, p2)
    ∧ drop_inputs txout_len hash tx p2 = Ok p3
    ∧ produce_outputs txout_len height tx ds il tr p3 = Ok p'.
Proof.
  unfold ChainDB.process_tx. intros ([ds p1] & H1 & H)%outcome_bind_Ok.
  apply outcome_bind_Ok in H as ([[il tr] p2] & H2 & H).
  apply outcome_bind_Ok in H as (p3 & H3 & H). naive_solver.
Qed.

(** The dunes of a block: the indexed transactions in order, the mints
    recorded for them and how each went. *)
Inductive dunes_log (first height : Z) (net : BitcoinCompatibleNetwork)
  : list (nat * Transaction) → DunesDB → list (Z * Z) → list IndexTrace → DunesDB → Prop :=
| log_nil db : dunes_log first height net [] db [] [] db
| log_skip l i tx db ms ts db1 :
    height < first → dunes_log first height net l db ms ts db1 →
    dunes_log first height net (l ++ [(i, tx)]) db ms ts db1
| log_run l i tx db ms ts db1 resolver trace db2 :
    first ≤ height → dunes_log first height net l db ms ts db1 →
    index_runes_trace SUBSIDY_HALVING_INTERVAL instructions is_op_return resolver db1
      (Z.of_nat i) tx height net = Ok (trace, db2) →
    dunes_log first height net (l ++ [(i, tx)]) db
      (ms ++ map (pair (Z.of_nat i)) (successful_mints (it_result trace))) (ts ++ [trace]) db2.

Lemma process_dunes_log first height net i tx p ds p' l db ms ts :
  process_dunes first height net (Z.of_nat i) tx p = Ok (ds, p') →
  dunes_log first height net l db ms ts (pr_dunes p) → pr_mints p = ms →
  ∃ ts', dunes_log first height net (l ++ [(i, tx)]) db (pr_mints p') ts' (pr_dunes p').
Proof.
  unfold ChainDB.process_dunes. intros H Hl <-. destruct (first <=? height) eqn:E.
  - apply outcome_bind_Ok in H as ([r d] & Hr & H). injection H as <- <-.
    unfold index_runes in Hr. apply outcome_bind_Ok in Hr as ([trace d'] & Hr & [= <- <-]).
    eexists. eapply log_run; [lia|exact Hl|exact Hr].
  - injection H as <- <-. eexists. apply log_skip; [lia|exact Hl].
Qed.

(** What is known once the coinbase's dunes and the transactions [done] have
    been processed from [p0]. *)
Record processed (db : ChainDB) (height : Z) (cb : Transaction) (p0 : Processing)
    (finished : list (nat * Transaction)) (p : Processing) : Prop := {
  pd_known : ∀ k, k ∈ ins (map snd finished) → is_Some (pr_resolver p !! k);
  pd_resolver : ∀ k b, k ∉ outs (map snd finished) →
    pr_resolver p !! k = Some b → pr_resolver p0 !! k = Some b;
  pd_dunes : ∃ ts, dunes_log (first_rune_height db) height (network db) ((0%nat, cb) :: finished)
    (pr_dunes p0) (pr_mints p) ts (pr_dunes p);
  pd_brc20 : brc20_steps to_lowercase (id_brc20 (is_db (pr_insc p0))) (map snd (pr_brc20 p))
    (id_brc20 (is_db (pr_insc p)));
  pd_partials : ∀ k, k ∉ map (λ t, txid t.2) finished →
    PartialTxidToTxidsKV (is_db (pr_insc p)) !! k = PartialTxidToTxidsKV (is_db (pr_insc p0)) !! k
    ∧ PartialTxidToBytesKV (is_db (pr_insc p)) !! k
      = PartialTxidToBytesKV (is_db (pr_insc p0)) !! k;
}.

Lemma process_inscriptions_logged first height idx tx p il tr p' base :
  process_inscriptions first height idx tx p = Ok (il, tr, p') →
  brc20_steps to_lowercase base (map snd (pr_brc20 p)) (id_brc20 (is_db (pr_insc p))) →
  brc20_steps to_lowercase base (map snd (pr_brc20 p')) (id_brc20 (is_db (pr_insc p')))
  ∧ same_off (txid tx) (is_db (pr_insc p)) (is_db (pr_insc p')).
Proof.
  unfold ChainDB.process_inscriptions. destruct (first <=? height); [|intros [= _ _ <-]; done].
  intros ([res insc] & H & Hp)%outcome_bind_Ok Hs. injection Hp as <- <- <-.
  cbn [pr_brc20 pr_insc]. split; [|by eapply index_inscriptions_partials].
  rewrite map_app. eapply brc20_steps_app; [exact Hs|]. by eapply index_inscriptions_logged.
Qed.

Lemma process_tx_processed db height hash cb p0 finished p i tx p' :
  processed db height cb p0 finished p →
  process_tx db height hash p (i, tx) = Ok p' →
  processed db height cb p0 (finished ++ [(i, tx)]) p'.
Proof.
  intros [H1 H2 [ts H3] H4 H5] H.
  apply process_tx_split in H as (ds & p1 & il & tr & p2 & p3 & Hd & Hi & Hdrop & Ho).
  destruct (process_dunes_log _ _ _ _ _ _ _ _ _ _ _ _ Hd H3 eq_refl) as [ts' Hlog].
  apply process_dunes_frame in Hd as (Er1 & _ & Ei1 & Eb1).
  rewrite <- Ei1, <- Eb1 in H4.
  destruct (process_inscriptions_logged _ _ _ _ _ _ _ _ _ Hi H4) as [Hb Hoff].
  apply process_inscriptions_frame in Hi as (Er2 & _ & Ed2 & Em2).
  apply drop_inputs_spec in Hdrop as (Er3 & Ep3 & Hk).
  apply produce_outputs_spec in Ho as (Ep4 & Hr & Hs).
  rewrite Ep3 in Ep4. injection Ep4 as Edunes Einsc _ Emints _ Ebrc.
  rewrite Er3, Er2, Er1 in *. split.
  - intros k. rewrite map_app, ins_app. cbn [map]. rewrite ins_cons, !elem_of_app.
    intros [?|[?|Hn]]; [by apply Hs, H1|by apply Hs, Hk|by inversion Hn].
  - intros k b. rewrite map_app, outs_app. cbn [map]. rewrite outs_cons, !not_elem_of_app.
    intros (? & ? & _). rewrite Hr by done. by apply H2.
  - exists ts'. rewrite Edunes, Emints, Ed2, Em2. exact Hlog.
  - by rewrite Einsc, Ebrc.
  - intros k. rewrite map_app. cbn [map]. rewrite not_elem_of_app, list_elem_of_singleton.
    cbn [snd]. intros [Hk1 Hk2]. rewrite Einsc. destruct (Hoff k Hk2) as [-> ->].
    rewrite Ei1. by apply H5.
Qed.

(** Memory holds outputs the table holds too. *)
Definition mem_ok (txos : Resolver) (mem : option UtxoResolver) : Prop :=
  match mem with Some m => ur_map m ⊆ txos | None => True end.

Lemma resolve_ref_sound txos acc r :
  acc.1 ⊆ txos → mem_ok txos acc.2 →
  (resolve_ref txout_len txos acc r).1 ⊆ txos ∧ mem_ok txos (resolve_ref txout_len txos acc r).2.
Proof.
  destruct acc as [resolver mem]. cbn [fst snd]. intros Hr Hm.
  assert (match txos !! r with Some b => <[r := b]> resolver | None => resolver end ⊆ txos) as Hdb.
  { destruct (txos !! r) eqn:E; [|done]. by apply insert_subseteq_l. }
  unfold resolve_ref, UtxoResolver_remove. destruct mem as [m|]; [|done].
  destruct (ur_map m !! r) as [b|] eqn:E; cbn; [|done]. split.
  - apply insert_subseteq_l; [|done]. by eapply lookup_weaken.
  - etrans; [apply delete_subseteq|done].
Qed.

Lemma resolve_inputs_sound txos block mem :
  mem_ok txos mem → (resolve_inputs txout_len txos block mem).1 ⊆ txos.
Proof.
  intros Hm. unfold resolve_inputs. generalize (elements (list_to_set (C := gset TxoRef)
    (filter (λ r : TxoRef, r.1 ∉ map txid (txdata block)) (all_input_refs block)))).
  assert (∀ l acc, acc.1 ⊆ txos → mem_ok txos acc.2 →
    (foldl (resolve_ref txout_len txos) acc l).1 ⊆ txos) as H.
  { induction l as [|r l IH]; intros acc Ha Hb; [done|]. cbn [foldl].
    destruct (resolve_ref_sound txos acc r Ha Hb). by apply IH. }
  intros l. apply H; [apply map_empty_subseteq|done].
Qed.

Local Abbreviation resolve_and_process :=
  (resolve_and_process SUBSIDY_HALVING_INTERVAL instructions is_op_return to_lowercase
     json_message script_hash subsidy txout_len).

Lemma resolve_and_process_spec db mem height block counters p cb txs :
  txdata block = cb :: txs → mem_ok (TxoKV (tables db)) mem →
  resolve_and_process db mem height block counters = Ok p →
  let t := tables db in
  (∀ k, k ∈ ins txs →
     ∃ b, pr_resolver p !! k = Some b ∧ (k ∉ outs (cb :: txs) → TxoKV t !! k = Some b))
  ∧ (∃ ts, dunes_log (first_rune_height db) height (network db) (imap pair (cb :: txs))
       (DunesKV t) (pr_mints p) ts (pr_dunes p))
  ∧ brc20_steps to_lowercase (id_brc20 (InscKV t)) (map snd (pr_brc20 p))
      (id_brc20 (is_db (pr_insc p)))
  ∧ (∀ k, k ∉ map txid (cb :: txs) →
       PartialTxidToTxidsKV (is_db (pr_insc p)) !! k = PartialTxidToTxidsKV (InscKV t) !! k
       ∧ PartialTxidToBytesKV (is_db (pr_insc p)) !! k = PartialTxidToBytesKV (InscKV t) !! k).
Proof.
  intros Htx Hm H t. unfold ChainDB.resolve_and_process in H. fold t in H.
  pose proof (resolve_inputs_sound (TxoKV t) block mem Hm) as Hsub.
  destruct (resolve_inputs txout_len (TxoKV t) block mem) as [resolver mem'].
  rewrite Htx in H. cbn [head ok_or mbind outcome_bind fst tail imap] in *.
  apply outcome_bind_Ok in H as ([ds p1] & Hd & H).
  apply outcome_bind_Ok in H as (p2 & Htxs & H).
  unfold process_coinbase in H. apply outcome_bind_Ok in H as ([[il tr] p3] & Hi & H).
  set (p0 := mkProcessing _ _ _ _ _ _ _ _) in Hd.
  destruct (process_dunes_log _ _ _ 0%nat _ _ _ _ [] (DunesKV t) [] [] Hd) as [ts0 Hlog0];
    [constructor|done|].
  apply process_dunes_frame in Hd as (Er1 & _ & Ei1 & Eb1).
  assert (processed db height cb p0 (imap (pair ∘ S) txs) p2) as [P1 P2 [ts P3] P4 P5].
  { eapply foldM_prefix; [|split|exact Htxs].
    - intros pre [i tx] s s' _. apply process_tx_processed.
    - intros k Hk. by inversion Hk.
    - intros k b _. by rewrite Er1.
    - exists ts0. exact Hlog0.
    - rewrite Eb1, Ei1. constructor.
    - rewrite Ei1. done. }
  assert (map snd (imap (pair ∘ S) txs) = txs) as Es.
  { generalize S. clear. induction txs as [|tx txs IH]; intros f; [done|]. cbn. f_equal. apply IH. }
  rewrite Es in *.
  destruct (process_inscriptions_logged _ _ _ _ _ _ _ _ _ Hi P4) as [Hb Hoff].
  apply process_inscriptions_frame in Hi as (Er2 & _ & Ed2 & Em2).
  apply produce_outputs_spec in H as (Ep & Hr & Hs).
  injection Ep as Edunes Einsc _ Emints _ Ebrc. rewrite Er2 in *. split; [|split; [|split]].
  - intros k Hk. destruct (Hs k (P1 k Hk)) as [b Hb']. exists b. split; [done|].
    rewrite outs_cons, not_elem_of_app. intros [Ho1 Ho2]. rewrite Hr in Hb' by done.
    apply P2 in Hb'; [|done]. by eapply lookup_weaken.
  - exists ts. by rewrite Edunes, Emints, Ed2, Em2.
  - by rewrite Einsc, Ebrc.
  - intros k. cbn [map]. rewrite not_elem_of_cons. intros [Hk1 Hk2]. rewrite Einsc.
    destruct (Hoff k Hk1) as [-> ->]. apply P5. by rewrite <- Es, map_map in Hk2.
Qed.

End processing.

(** ** Tables in key order *)

Definition key_lt {A} (a b : Z * A) : Prop := a.1 < b.1.

Lemma sorted_entries_elem {A} (m : gmap Z A) k v :
  (k, v) ∈ sorted_entries m ↔ m !! k = Some v.
Proof.
  unfold sorted_entries. rewrite list_elem_of_omap. split.
  - intros (k' & _ & H). destruct (m !! k') eqn:E; [|done]. by injection H as <- <-.
  - intros H. exists k. rewrite H. split; [|done]. rewrite (merge_sort_Permutation Z.le).
    apply list_elem_of_fmap. exists (k, v). split; [done|]. by apply elem_of_map_to_list.
Qed.

Lemma sorted_keys {A} (m : gmap Z A) :
  StronglySorted Z.lt (merge_sort Z.le (map fst (map_to_list m))).
Proof.
  assert (NoDup (merge_sort Z.le (map fst (map_to_list m)))) as Hnd.
  { rewrite (merge_sort_Permutation Z.le). apply NoDup_fst_map_to_list. }
  pose proof (StronglySorted_merge_sort Z.le (map fst (map_to_list m))) as Hs.
  induction (merge_sort Z.le (map fst (map_to_list m))) as [|k l IH]; [constructor|].
  apply StronglySorted_inv in Hs as [Hs Hk]. apply NoDup_cons in Hnd as [Hn Hnd].
  constructor; [by apply IH|]. rewrite Forall_forall in *. intros x Hx.
  specialize (Hk x Hx). assert (k ≠ x) by (by intros ->). lia.
Qed.

Lemma sorted_entries_sorted {A} (m : gmap Z A) : StronglySorted key_lt (sorted_entries m).
Proof.
  unfold sorted_entries. pose proof (sorted_keys m) as Hs.
  induction (merge_sort Z.le (map fst (map_to_list m))) as [|k l IH]; [constructor|].
  apply StronglySorted_inv in Hs as [Hs Hk]. cbn [omap list_omap].
  destruct (m !! k) as [v|] eqn:E; cbn; [|by apply IH]. constructor; [by apply IH|].
  apply Forall_forall. intros [k' v'] (k2 & Hk2 & H)%list_elem_of_omap.
  destruct (m !! k2) eqn:E2; [|done]. injection H as <- <-.
  rewrite Forall_forall in Hk. by apply Hk.
Qed.

(** Lists sorted by key with the same elements are equal. *)
Lemma key_sorted_unique {A} (l1 l2 : list (Z * A)) :
  StronglySorted key_lt l1 → StronglySorted key_lt l2 → (∀ x, x ∈ l1 ↔ x ∈ l2) → l1 = l2.
Proof.
  revert l2. induction l1 as [|x l1 IH]; intros [|y l2] H1 H2 H; [done| | |].
  - exfalso. apply (not_elem_of_nil y), H. by left.
  - exfalso. apply (not_elem_of_nil x), H. by left.
  - apply StronglySorted_inv in H1 as [H1 Hx]. apply StronglySorted_inv in H2 as [H2 Hy].
    rewrite Forall_forall in Hx, Hy.
    assert (x = y) as <-.
    { destruct (proj1 (elem_of_cons _ _ _) (proj1 (H x) ltac:(by left))) as [|Hxl]; [done|].
      destruct (proj1 (elem_of_cons _ _ _) (proj2 (H y) ltac:(by left))) as [|Hyl]; [done|].
      specialize (Hx y Hyl). specialize (Hy x Hxl). unfold key_lt in *. lia. }
    f_equal. apply IH; [done|done|]. intros z. specialize (H z).
    rewrite !elem_of_cons in H. split; intros Hz.
    + destruct (proj1 H (or_intror Hz)) as [->|]; [|done]. specialize (Hx x Hz). unfold key_lt in Hx. lia.
    + destruct (proj2 H (or_intror Hz)) as [->|]; [|done]. specialize (Hy x Hz). unfold key_lt in Hy. lia.
Qed.

Lemma sorted_entries_snoc {A} (m : gmap Z A) h v :
  (∀ k w, m !! k = Some w → k < h) →
  sorted_entries (<[h := v]> m) = sorted_entries m ++ [(h, v)].
Proof.
  intros Hm. apply key_sorted_unique; [apply sorted_entries_sorted| |].
  - apply StronglySorted_app. split; [|split; [apply sorted_entries_sorted|by repeat constructor]].
    intros [k w] x Hk%sorted_entries_elem Hx%list_elem_of_singleton. subst x. by eapply Hm.
  - intros [k w]. rewrite elem_of_app, list_elem_of_singleton, !sorted_entries_elem.
    rewrite lookup_insert_Some. split.
    + intros [[-> ->]|[_ ?]]; [by right|by left].
    + intros [H|[= -> ->]]; [right|by left]. split; [|done]. intros <-.
      apply Hm in H. lia.
Qed.

Lemma sorted_last {A} (l : list (Z * A)) x :
  StronglySorted key_lt l → last l = Some x →
  ∃ pre, l = pre ++ [x] ∧ Forall (λ y, y.1 < x.1) pre.
Proof.
  intros Hs (pre & ->)%last_Some. exists pre. split; [done|].
  apply Forall_forall. intros y Hy.
  apply (StronglySorted_app_1_elem_of key_lt pre [x] y x Hs Hy). by left.
Qed.

(** ** The log *)

Lemma prune_keys_split b l :
  ∃ dropped kept, l = dropped ++ kept ∧ prune_keys b l = map fst dropped
    ∧ Forall (λ e, log_height e.2 < b) dropped
    ∧ (∀ e, head kept = Some e → b ≤ log_height e.2).
Proof.
  induction l as [|[k v] l (dropped & kept & -> & Hk & Hd & Hh)]; [by exists [], []|].
  cbn [prune_keys]. destruct (Z.leb_spec b (log_height v)).
  - exists [], ((k, v) :: dropped ++ kept). split; [done|]. split; [done|]. split; [done|].
    by intros e [= <-].
  - exists ((k, v) :: dropped), kept. rewrite Hk. by repeat constructor.
Qed.

(** Deleting the keys of a prefix. *)
Lemma sorted_prune b m dropped kept :
  sorted_entries m = dropped ++ kept → prune_keys b (sorted_entries m) = map fst dropped →
  sorted_entries (prune b m) = kept.
Proof.
  intros E Hk. pose proof (sorted_entries_sorted m) as Hs. rewrite E in Hs.
  apply StronglySorted_app in Hs as (Hlt & _ & Hs).
  apply key_sorted_unique; [apply sorted_entries_sorted|done|]. intros [k v].
  rewrite sorted_entries_elem. unfold prune. rewrite Hk, delete_list_lookup.
  assert ((k, v) ∈ dropped ++ kept ↔ m !! k = Some v) as Hkv
    by (by rewrite <- E, sorted_entries_elem).
  rewrite elem_of_app in Hkv. case_decide as Hin.
  - split; [done|]. intros Hkept. exfalso.
    apply list_elem_of_fmap in Hin as ([k' v'] & -> & Hin).
    specialize (Hlt _ _ Hin Hkept). unfold key_lt in Hlt. cbn in Hlt. lia.
  - rewrite <- Hkv. split; [|by right]. intros [Hdrop|]; [|done]. exfalso. apply Hin.
    apply list_elem_of_fmap. by exists (k, v).
Qed.

(** Pruning the log removes a prefix of it and nothing else: the entries
    removed, from the start of the log, are all below [before_height], and the
    first entry kept is not.  An entry at or above the height is never lost. *)
Theorem prune_prefix (before_height : Z) (m : gmap Z Log) :
  ∃ dropped, sorted_entries m = dropped ++ sorted_entries (prune before_height m)
    ∧ Forall (λ e, log_height e.2 < before_height) dropped
    ∧ ∀ e, head (sorted_entries (prune before_height m)) = Some e →
        before_height ≤ log_height e.2.
Proof.
  destruct (prune_keys_split before_height (sorted_entries m))
    as (dropped & kept & E & Hk & Hd & Hh).
  exists dropped. by rewrite (sorted_prune _ _ _ _ E Hk).
Qed.

(** The entry looked for. *)
Definition is_point (height : Z) (hash : BlockHash) (v : Log) : Prop :=
  is_undo v = false ∧ log_height v = height ∧ log_hash v = hash.

Lemma is_point_true height hash v :
  (is_apply v || is_mark v) && (log_height v =? height) && (log_hash v =? hash) = true
  ↔ is_point height hash v.
Proof.
  unfold is_point. rewrite !andb_true_iff, !Z.eqb_eq. destruct v; cbn; naive_solver.
Qed.

Lemma scan_until_or_Some found bail l k :
  scan_until_or found bail l = Some k ↔
  ∃ pre v post, l = pre ++ (k, v) :: post ∧ found v = true
    ∧ Forall (λ e, found e.2 = false ∧ bail e.2 = false) pre.
Proof.
  induction l as [|[k' v'] l IH]; cbn [scan_until_or].
  - split; [done|]. intros (pre & v & post & H & _). by destruct pre.
  - destruct (found v') eqn:Ef; [|destruct (bail v') eqn:Eb].
    + split.
      * intros [= ->]. by exists [], v', l.
      * intros ([|p pre] & v & post & [= E1 E2] & Hf & Hp); [by subst|]. subst p.
        apply Forall_cons in Hp as [[H _] _]. cbn in H. congruence.
    + split; [done|]. intros ([|p pre] & v & post & [= E1 E2] & Hf & Hp); [congruence|]. subst p.
      apply Forall_cons in Hp as [[_ H] _]. cbn in H. congruence.
    + rewrite IH. split.
      * intros (pre & v & post & -> & Hf & Hp). exists ((k', v') :: pre), v, post.
        split; [done|]. split; [done|]. by constructor.
      * intros ([|p pre] & v & post & [= E1 E2] & Hf & Hp); [congruence|]. subst p.
        apply Forall_cons in Hp as [_ Hp]. by exists pre, v, post.
Qed.

(** What the search in the log finds.  It gives position [k] exactly when
    [k] holds an [Apply] or a [Mark] of that point, no earlier entry does, and
    every earlier entry is strictly below the height looked for. *)
Theorem find_wal_seq_spec (m : gmap Z Log) (height : Z) (hash : BlockHash) (k : Z) :
  find_wal_seq m height hash = Some k ↔
  ∃ pre v post, sorted_entries m = pre ++ (k, v) :: post ∧ is_point height hash v
    ∧ Forall (λ e, ¬ is_point height hash e.2 ∧ log_height e.2 < height) pre.
Proof.
  unfold find_wal_seq. rewrite scan_until_or_Some.
  assert (∀ pre : list (Z * Log), Forall (λ e,
      (is_apply e.2 || is_mark e.2) && (log_height e.2 =? height) && (log_hash e.2 =? hash) = false
      ∧ (height <=? log_height e.2) = false) pre
    ↔ Forall (λ e, ¬ is_point height hash e.2 ∧ log_height e.2 < height) pre) as Hpre.
  { intros pre. apply Forall_iff. intros e. rewrite Z.leb_gt.
    by rewrite <- is_point_true, not_true_iff_false. }
  split; intros (pre & v & post & H1 & H2 & H3); exists pre, v, post.
  - rewrite is_point_true in H2. by rewrite Hpre in H3.
  - rewrite is_point_true. by rewrite Hpre.
Qed.

(** A log in which block 201 replaces block 101 at height 10. *)
Definition sample_entry : ResolverEntry :=
  mkResolverEntry 0 ∅ [] [] [] [] [] default_counters [] [].

Definition sample_reorg_log : gmap Z Log :=
  {[ 1 := Apply 9 100 (mkBlock 100 99 []) sample_entry;
     2 := Apply 10 101 (mkBlock 101 100 []) sample_entry;
     3 := Undo 10 101 (mkBlock 101 100 []);
     4 := Mark 9 100 (mkBlock 100 99 []);
     5 := Apply 10 201 (mkBlock 201 100 []) sample_entry ]}.

(** After a reorganisation the search misses the current block.  The scan
    gives up at the first entry at the height looked for or above, where the
    comment says above; the block that replaced another one at its height,
    applied at position 5 of this log, is not found, the replaced one is. *)
Theorem find_wal_seq_misses :
  find_wal_seq sample_reorg_log 10 101 = Some 2
  ∧ find_wal_seq sample_reorg_log 10 201 = None
  ∧ ∃ v, sample_reorg_log !! 5 = Some v ∧ is_point 10 201 v.
Proof. split; [by vm_compute|]. split; [by vm_compute|]. eexists. by split; [by vm_compute|]. Qed.

(** ** The points proposed for an intersection *)

Definition descending (l : list Z) : Prop := StronglySorted Z.gt l.

(** [l] holds the points from [index] down. *)
Definition points_from (index : Z) (r : option (list Z)) : Prop :=
  ∃ l, r = Some (index :: l) ∧ descending (index :: l) ∧ Forall (λ x, 0 < x) l.

Lemma points_from_last index : points_from index (Some [index]).
Proof. exists []. split; [done|]. by repeat constructor. Qed.

Lemma points_from_cons index next r :
  0 < next < index → points_from next r →
  points_from index (rest ← r; Some (index :: rest)).
Proof.
  intros Hn (l & -> & Hd & Hl). cbn. eexists. split; [done|].
  split; [|constructor; [lia|done]]. constructor; [done|]. constructor; [lia|].
  apply StronglySorted_inv in Hd as [_ Hd]. eapply Forall_impl; [exact Hd|]. cbn. intros x Hx. lia.
Qed.

(** Once the step doubles: at step [2 ^ a] at most [2 ^ 64 - 2 ^ (a + 1)] is left,
    so 64 doublings are enough and the step does not overflow before. *)
Lemma intersect_indexes_double (f count : nat) (a index : Z) :
  0 ≤ a < 64 → 0 ≤ index ≤ 2 ^ 64 - 2 ^ (a + 1) → 64 - a ≤ Z.of_nat f → (9 ≤ count)%nat →
  points_from index (intersect_indexes f count (2 ^ a) index).
Proof.
  revert count a index. induction f as [|f IH]; intros count a index Ha Hi Hf Hc; [lia|].
  cbn [intersect_indexes]. rewrite (proj2 (Nat.leb_le 10 (S count))) by lia.
  rewrite Z.mul_comm, <- Z.pow_succ_r by lia. unfold saturating_sub.
  destruct (Z.eq_dec a 63) as [->|Ha63].
  { replace index with 0 by (change (2 ^ (63 + 1)) with (2 ^ 64) in Hi; lia).
    apply points_from_last. }
  assert (2 ^ Z.succ a < 2 ^ 64) as Hw by (apply Z.pow_lt_mono_r; lia).
  assert (0 < 2 ^ Z.succ a) as Hp by (apply Z.pow_pos_nonneg; lia).
  rewrite wrap_small by (unfold in_range; lia).
  destruct (Z.eqb_spec (Z.max 0 (index - 2 ^ Z.succ a)) 0) as [E|E]; [apply points_from_last|].
  assert (0 < index - 2 ^ Z.succ a) by lia. rewrite Z.max_r by lia. replace (a + 1) with (Z.succ a) in Hi by lia.
  apply (points_from_cons index (index - 2 ^ Z.succ a)); [lia|].
  apply IH; [lia| |lia|lia]. replace (Z.succ a + 1) with (Z.succ (Z.succ a)) by lia.
  rewrite (Z.pow_succ_r 2 (Z.succ a)) by lia. lia.
Qed.

(** The first ten points are consecutive. *)
Lemma intersect_indexes_unit (n f count : nat) (index : Z) :
  (count + n = 9)%nat → (64 + n ≤ f)%nat → 0 ≤ index ≤ 2 ^ 64 - 2 + Z.of_nat n →
  points_from index (intersect_indexes f count 1 index).
Proof.
  revert f count index. induction n as [|n IH]; intros f count index Hc Hf Hi.
  { apply (intersect_indexes_double f count 0 index); [lia| |lia|lia].
    change (2 ^ (0 + 1)) with 2. lia. }
  destruct f as [|f]; [lia|]. cbn [intersect_indexes].
  rewrite (proj2 (Nat.leb_gt 10 (S count))) by lia. unfold saturating_sub.
  destruct (Z.eqb_spec (Z.max 0 (index - 1)) 0) as [E|E]; [apply points_from_last|].
  assert (0 < index - 1) by lia. rewrite Z.max_r by lia. apply (points_from_cons index (index - 1)); [lia|].
  apply IH; lia.
Qed.

Lemma intersect_indexes_total index :
  u64_ok index → points_from index (intersect_indexes intersect_fuel 0 1 index).
Proof.
  intros Hi. apply (intersect_indexes_unit 9); [done|unfold intersect_fuel; lia|].
  unfold in_range in Hi. lia.
Qed.

Lemma intersect_lookups (blocks : gmap Z (BlockHash * Block)) l out :
  (∀ x, x ∈ l → is_Some (blocks !! x)) →
  ∃ ps, foldM (λ out x, b ← ok_or (IntersectMissingBlock x) (blocks !! x);
                 Ok (out ++ [(x, b.1)])) out l = Ok (out ++ ps)
    ∧ map fst ps = l ∧ Forall (λ p, fst <$> blocks !! p.1 = Some p.2) ps.
Proof.
  revert out. induction l as [|x l IH]; intros out Hl.
  { exists []. by rewrite app_nil_r. }
  destruct (Hl x ltac:(by left)) as [[hash b] Hx]. cbn [foldM]. rewrite Hx. cbn [ok_or mbind outcome_bind fst].
  destruct (IH (out ++ [(x, hash)])) as (ps & -> & Hm & Hps); [intros y Hy; apply Hl; by right|].
  exists ((x, hash) :: ps). rewrite <- app_assoc. split; [done|]. split; [cbn; by rewrite Hm|].
  constructor; [cbn; by rewrite Hx|done].
Qed.

(** The points proposed to find an intersection.  On a table that holds
    every block up to its tip, the call succeeds, whatever the height of the
    tip; the points are blocks of the table, from the tip down in strictly
    decreasing height, and the genesis block comes last. *)
Theorem intersect_options_points (db : ChainDB) (genesis : BlockHash) (tip : Z)
    (tip_hash : BlockHash) :
  cursor db = Some (tip, tip_hash) → u64_ok tip →
  (∀ x, 0 < x ≤ tip → is_Some (BlockByHeightKV (tables db) !! x)) →
  ∃ ps, intersect_options db genesis = Ok ((tip, tip_hash) :: ps ++ [(0, genesis)])
    ∧ descending (tip :: map fst ps)
    ∧ Forall (λ p, 0 < p.1 ∧ fst <$> BlockByHeightKV (tables db) !! p.1 = Some p.2) ps.
Proof.
  intros Hcur Htip Hall. unfold cursor in Hcur. unfold intersect_options.
  destruct (last _) as [[t [h b]]|] eqn:El; [|done]. cbn in Hcur. injection Hcur as -> ->.
  assert (BlockByHeightKV (tables db) !! tip = Some (tip_hash, b)) as Hb.
  { apply sorted_entries_elem. apply last_Some in El as [pre ->]. set_solver. }
  destruct (intersect_indexes_total tip Htip) as (l & -> & Hd & Hpos).
  cbn [unwrap mbind outcome_bind]. apply StronglySorted_inv in Hd as Hd2. destruct Hd2 as [_ Hlt].
  rewrite Forall_forall in Hpos, Hlt.
  destruct (intersect_lookups (BlockByHeightKV (tables db)) (tip :: l) []) as (ps & Hrun & Hm & Hps).
  { intros x [->|Hx]%elem_of_cons; [by rewrite Hb|]. apply Hall.
    specialize (Hpos x Hx). specialize (Hlt x Hx). lia. }
  rewrite Hrun. cbn [app]. destruct ps as [|[x hx] ps]; [done|]. injection Hm as -> Hm.
  apply Forall_cons in Hps as [Hx Hps]. cbn in Hx. rewrite Hb in Hx. injection Hx as <-.
  exists ps. split; [done|]. split; [by rewrite Hm|].
  apply Forall_forall. intros p Hp. rewrite Forall_forall in Hps. split; [|by apply Hps].
  apply Hpos. rewrite <- Hm. apply list_elem_of_fmap. by exists p.
Qed.

Definition sample_tip_db : ChainDB :=
  ChainDB_open (mkTables {[ 1 := (11, mkBlock 11 10 []); 2 := (12, mkBlock 12 11 []);
    3 := (13, mkBlock 13 12 []) ]} ∅ (mkDunesDB ∅ ∅ ∅ None) (mkInscDB empty_db ∅ ∅) None ∅ ∅)
    None Dogecoin 0 0.

Lemma intersect_options_points_witness :
  ∃ ps, intersect_options sample_tip_db 10 = Ok ((3, 13) :: ps ++ [(0, 10)])
    ∧ descending (3 :: map fst ps)
    ∧ Forall (λ p, 0 < p.1
        ∧ fst <$> BlockByHeightKV (tables sample_tip_db) !! p.1 = Some p.2) ps.
Proof.
  apply (intersect_options_points sample_tip_db 10 3 13).
  - by vm_compute.
  - by vm_compute.
  - intros x Hx. assert (x = 1 ∨ x = 2 ∨ x = 3) as [->|[->| ->]] by lia; by eexists.
Defined.

End ChainDB.
