(* ===== verification/Rollback.v ===== *)
(** Rolling back a block undoes what applying it did.

    [ChainDB::apply_block_with_context] and the body of [ChainDB::rollback]
    ([storage/mod.rs]) are inverse to each other on every table: outputs,
    dunes, tokens, partial inscriptions, counters and blocks.  The dunes are
    restored up to the difference between an absent counter and a zero one,
    which every reader takes for the same value. *)

From S2P Require Import Prelude Dunes Dunestone Types DunesUpdater Inscription.
From S2P Require Import Brc20 InscriptionsUpdater ChainDB.
Import Dunes Dunestone Types DunesUpdater Brc20 InscriptionsUpdater ChainDB.

Module Rollback.

(** ** Dunes tables that answer alike *)

#[export] Instance dunes_equiv : Equiv DunesDB := λ d1 d2,
  DuneIdByNameKV d1 = DuneIdByNameKV d2
  ∧ DuneTermsByIdKV d1 = DuneTermsByIdKV d2
  ∧ (∀ k, lk (DuneMintsByIdKV d1) k = lk (DuneMintsByIdKV d2) k)
  ∧ default 0 (DunesReservedCountersKV d1) = default 0 (DunesReservedCountersKV d2).

#[export] Instance dunes_equivalence : Equivalence (≡@{DunesDB}).
Proof.
  split.
  - by intros d.
  - intros d1 d2 (H1 & H2 & H3 & H4). repeat split; [done|done|by intros; rewrite H3|done].
  - intros d1 d2 d3 (H1 & H2 & H3 & H4) (H5 & H6 & H7 & H8).
    repeat split; [congruence|congruence|by intros; rewrite H3|congruence].
Qed.

(** The outcomes of two runs agree. *)
Definition outcome_sim (o1 o2 : outcome Error DunesDB) : Prop :=
  match o1, o2 with
  | Ok d1, Ok d2 => d1 ≡ d2
  | Err e1, Err e2 => e1 = e2
  | Panic, Panic => True
  | _, _ => False
  end.

Lemma foldM_sim {A} (f : DunesDB → A → outcome Error DunesDB) l d1 d2 :
  (∀ d1 d2 a, d1 ≡ d2 → outcome_sim (f d1 a) (f d2 a)) →
  d1 ≡ d2 → outcome_sim (foldM f d1 l) (foldM f d2 l).
Proof.
  intros Hf. revert d1 d2. induction l as [|a l IH]; intros d1 d2 Hd; [done|]. cbn [foldM].
  specialize (Hf d1 d2 a Hd). destruct (f d1 a), (f d2 a); try done. by apply IH.
Qed.

Lemma undo_etch_sim height idx ds d1 d2 :
  d1 ≡ d2 → outcome_sim (undo_etch height idx ds d1) (undo_etch height idx ds d2).
Proof.
  intros (H1 & H2 & H3 & H4). unfold undo_etch. destruct (etching ds) as [e|]; [|done].
  rewrite H2. destruct (DuneTermsByIdKV d2 !! _) as [t|]; [|done].
  destruct (e_dune e); cbn [DunesReservedCountersKV set_terms set_names].
  - split; [cbn; by rewrite H1|]. split; [cbn; by rewrite H2|done].
  - rewrite H4. destruct (unwrap _) as [c| |]; cbn [mbind outcome_bind outcome_sim]; [|done|done].
    split; [cbn; by rewrite H1|]. split; [cbn; by rewrite H2|done].
Qed.

Lemma undo_mints_sim idx ds mints d1 d2 :
  d1 ≡ d2 → outcome_sim (undo_mints idx ds mints d1) (undo_mints idx ds mints d2).
Proof.
  apply foldM_sim. clear. intros d1 d2 [i c] (H1 & H2 & H3 & H4). unfold undo_mint. cbn [fst snd].
  destruct (DuneId_try_from c) as [key|]; [|done]. case_decide; [|done].
  specialize (H3 (kv_of_dune_id key)) as Hk. unfold lk in Hk. rewrite Hk.
  destruct (unwrap _) as [n| |]; cbn [mbind outcome_bind outcome_sim]; [|done|done].
  split; [done|]. split; [done|]. split; [|done].
  intros k. cbn. by rewrite !lk_insert_if, H3.
Qed.

(** ** Claims and mints *)

Lemma dedup_subseteq l : dedup l ⊆ l.
Proof.
  induction l as [|x [|y l] IH]; [done|done|]. cbn [dedup] in *. destruct (x =? y); set_solver.
Qed.

Lemma dedup_NoDup l : StronglySorted Z.le l → NoDup (dedup l).
Proof.
  induction l as [|x [|y l] IH]; intros Hs; [constructor|by repeat constructor; set_solver|].
  apply StronglySorted_inv in Hs as [Hs Hx]. specialize (IH Hs).
  change (dedup (x :: y :: l)) with (if x =? y then dedup (y :: l) else x :: dedup (y :: l)).
  destruct (Z.eqb_spec x y) as [->|Hne]; [done|]. apply NoDup_cons. split; [|done].
  intros Hin%dedup_subseteq. apply StronglySorted_inv in Hs as [_ Hy].
  rewrite Forall_cons in Hx. destruct Hx as [Hxy _].
  apply elem_of_cons in Hin as [|Hin]; [done|]. rewrite Forall_forall in Hy.
  specialize (Hy x Hin). lia.
Qed.

Lemma claims_NoDup ds : NoDup (claims ds).
Proof. apply dedup_NoDup. apply (StronglySorted_merge_sort Z.le). Qed.

(** The key of a claim, and the claims that can be minted. *)
Definition mint_key (c : Z) : option KDuneId := kv_of_dune_id <$> DuneId_try_from c.

Definition claim_mint (db : DunesDB) (h c : Z) : option Z :=
  DuneId_try_from c ≫= λ key, mint db key h.

Definition collect_step (db : DunesDB) (h : Z) (acc : balances * list Z) (p : nat * Z)
  : balances * list Z :=
  match claim_mint db h p.2 with
  | Some x => (<[p.2 := x]> acc.1, acc.2 ++ [wrap 16 (Z.of_nat p.1)])
  | None => acc
  end.

Lemma collect_mintable_step db h cs :
  collect_mintable db h cs = foldl (collect_step db h) (∅, []) (imap pair cs).
Proof.
  unfold collect_mintable. generalize (∅ : balances, @nil Z), (imap pair cs). intros acc l.
  revert acc. induction l as [|p l IH]; intros acc; [done|]. cbn [foldl]. rewrite <- IH.
  f_equal. unfold collect_step, claim_mint. by destruct (DuneId_try_from p.2).
Qed.

Lemma collect_step_limits db h l acc c :
  is_Some ((foldl (collect_step db h) acc l).1 !! c) ↔
  is_Some (acc.1 !! c) ∨ (c ∈ l.*2 ∧ is_Some (claim_mint db h c)).
Proof.
  revert acc. induction l as [|[j d] l IH]; intros acc; cbn [foldl].
  { cbn. rewrite elem_of_nil. clear. tauto. }
  rewrite IH. clear IH. rewrite fmap_cons, elem_of_cons. unfold collect_step. cbn [fst snd].
  destruct (claim_mint db h d) as [x|] eqn:E; cbn [fst].
  - destruct (decide (c = d)) as [->|Hne].
    + rewrite lookup_insert_eq, E. split; [|by eauto]. intros _. right. by eauto.
    + rewrite lookup_insert_ne by done. tauto.
  - split; [tauto|]. intros [|[[->|] Hc]]; [by left| |by right].
    rewrite E in Hc. by destruct Hc.
Qed.

Lemma collect_step_indexes db h l acc :
  (foldl (collect_step db h) acc l).2
  = acc.2 ++ omap (λ p, (λ _, wrap 16 (Z.of_nat p.1)) <$> claim_mint db h p.2) l.
Proof.
  revert acc. induction l as [|[j d] l IH]; intros acc; cbn [foldl omap list_omap].
  { by rewrite app_nil_r. }
  rewrite IH. unfold collect_step. cbn [fst snd]. destruct (claim_mint db h d); cbn; [|done].
  by rewrite <- app_assoc.
Qed.

Lemma collect_mintable_elems db h cs limits mints :
  collect_mintable db h cs = (limits, mints) →
  (∀ c, is_Some (limits !! c) ↔ c ∈ cs ∧ is_Some (claim_mint db h c))
  ∧ (∀ i, i ∈ mints ↔
       ∃ j c, cs !! j = Some c ∧ i = wrap 16 (Z.of_nat j) ∧ is_Some (claim_mint db h c)).
Proof.
  rewrite collect_mintable_step. intros E.
  assert (limits = (foldl (collect_step db h) (∅, []) (imap pair cs)).1) as -> by (by rewrite E).
  assert (mints = (foldl (collect_step db h) (∅, []) (imap pair cs)).2) as -> by (by rewrite E).
  clear E. split.
  - intros c. rewrite collect_step_limits. cbn [fst]. rewrite lookup_empty.
    assert ((imap pair cs).*2 = cs) as ->
      by (rewrite fmap_imap; apply list_eq; intros i; rewrite list_lookup_imap;
          by destruct (cs !! i)).
    split; [intros [[]|]; done|by right].
  - intros i. rewrite collect_step_indexes. cbn [snd app]. rewrite list_elem_of_omap. split.
    + intros ([j c] & (j' & c' & [= <- <-] & Hc)%elem_of_lookup_imap & Hi). cbn [fst snd] in Hi.
      destruct (claim_mint db h c) eqn:Em; [|done]. injection Hi as <-. by eauto 6.
    + intros (j & c & Hc & -> & x & Hx). exists (j, c). cbn [fst snd]. rewrite Hx. split; [|done].
      apply elem_of_lookup_imap. by eauto.
Qed.

(** Tables that differ in their mint counters only. *)
Definition same_but_mints (d d' : DunesDB) : Prop :=
  DuneIdByNameKV d' = DuneIdByNameKV d ∧ DuneTermsByIdKV d' = DuneTermsByIdKV d
  ∧ DunesReservedCountersKV d' = DunesReservedCountersKV d.

(** Counting mints: one more for each key, when something of each was allocated. *)
Lemma increment_mints_lk (limits : balances) l db db' :
  NoDup (omap (λ p : Z * Z, mint_key p.1) l) →
  (∀ p, p ∈ l → ∃ key, mint_key p.1 = Some key ∧ 0 ≤ lk (DuneMintsByIdKV db) key < umax 128
     ∧ 0 < wrap 128 (lk limits p.1 - p.2)) →
  foldM (increment_mint limits) db l = Ok db' →
  same_but_mints db db'
  ∧ ∀ k, lk (DuneMintsByIdKV db') k
         = lk (DuneMintsByIdKV db) k + (if decide (k ∈ omap (λ p, mint_key p.1) l) then 1 else 0).
Proof.
  revert db. induction l as [|[c r] l IH]; intros db Hnd Hl; cbn [foldM].
  { intros [= <-]. split; [done|]. intros k. rewrite decide_False by apply not_elem_of_nil. lia. }
  destruct (Hl (c, r) ltac:(by left)) as (key & Hkey & Hk & Hpos). cbn [fst snd] in *.
  cbn [omap list_omap fst] in Hnd |- *. rewrite Hkey in Hnd |- *. apply NoDup_cons in Hnd as [Hni Hnd].
  intros (d1 & H1 & H)%outcome_bind_Ok. unfold increment_mint in H1. cbn [fst snd] in H1.
  apply outcome_bind_Ok in H1 as (limit & Hlim & H1).
  destruct (limits !! c) as [limit'|] eqn:El; [|done]. injection Hlim as ->.
  rewrite (lk_Some _ _ _ El) in Hpos. rewrite (proj2 (Z.ltb_lt _ _) Hpos) in H1.
  unfold mint_key in Hkey. destruct (DuneId_try_from c) as [id|]; [|done].
  cbn in Hkey. injection Hkey as Hkey. cbn [unwrap mbind outcome_bind] in H1. injection H1 as <-.
  rewrite Hkey in *. fold (lk (DuneMintsByIdKV db) key) in H.
  unfold umax in Hk. rewrite wrap_small in H by (unfold in_range; lia).
  apply IH in H as [Hsame Hlk]; [|done|].
  - split; [done|]. intros k. rewrite Hlk. cbn [DuneMintsByIdKV set_mints].
    rewrite lk_insert_if. destruct (decide (key = k)) as [<-|Hne].
    + rewrite decide_False by done. rewrite decide_True by (by left). lia.
    + destruct (decide (k ∈ omap _ l)) as [Hin|Hin].
      * rewrite decide_True; [done|by right].
      * rewrite decide_False; [done|]. intros [?|?]%elem_of_cons; congruence.
  - intros p Hp. destruct (Hl p ltac:(by right)) as (key' & Hkey' & Hk' & Hpos').
    exists key'. split; [done|]. split; [|done]. cbn. rewrite lk_insert_ne; [done|].
    intros ->. apply Hni. apply list_elem_of_omap. by exists p.
Qed.

(** Undoing mints: one less for each recorded key. *)
Definition recorded_key (idx : Z) (mints : list (Z * Z)) (c : nat * Z) : option KDuneId :=
  if decide ((idx, wrap 16 (Z.of_nat c.1)) ∈ mints) then mint_key c.2 else None.

Lemma undo_mint_eq idx mints db c :
  undo_mint idx mints db c
  = match recorded_key idx mints c with
    | Some key => new_mints ← unwrap (checked_sub 128 (lk (DuneMintsByIdKV db) key) 1);
                  Ok (set_mints (<[key := new_mints]>) db)
    | None => Ok db
    end.
Proof.
  unfold undo_mint, recorded_key, mint_key. destruct (DuneId_try_from c.2); by case_decide.
Qed.

Lemma undo_mints_lk idx mints l db :
  NoDup (omap (recorded_key idx mints) l) →
  (∀ k, k ∈ omap (recorded_key idx mints) l → 1 ≤ lk (DuneMintsByIdKV db) k < 2 ^ 128) →
  ∃ db', foldM (undo_mint idx mints) db l = Ok db'
    ∧ same_but_mints db db'
    ∧ ∀ k, lk (DuneMintsByIdKV db') k
           = lk (DuneMintsByIdKV db) k
             - (if decide (k ∈ omap (recorded_key idx mints) l) then 1 else 0).
Proof.
  revert db. induction l as [|c l IH]; intros db Hnd Hl; cbn [foldM].
  { exists db. split; [done|]. split; [done|]. intros k.
    rewrite decide_False by apply not_elem_of_nil. lia. }
  cbn [omap list_omap] in Hnd, Hl |- *. rewrite undo_mint_eq.
  destruct (recorded_key idx mints c) as [key|]; [|by apply IH].
  apply NoDup_cons in Hnd as [Hni Hnd].
  pose proof (Hl key ltac:(by left)) as Hk.
  unfold checked_sub. rewrite (proj2 (try_into_Some 128 _ (lk (DuneMintsByIdKV db) key - 1)))
    by (split; [done|unfold in_range; lia]).
  cbn [unwrap mbind outcome_bind].
  destruct (IH (set_mints <[key := lk (DuneMintsByIdKV db) key - 1]> db)) as (d & Hd & Hs & Hlk);
    [done| |].
  - intros k Hk'. cbn. rewrite lk_insert_ne by (intros ->; done). apply Hl. by right.
  - exists d. split; [done|]. split; [done|]. intros k. rewrite Hlk. cbn [DuneMintsByIdKV set_mints].
    rewrite lk_insert_if. destruct (decide (key = k)) as [<-|Hne].
    + rewrite decide_False by done. rewrite decide_True by (by left). lia.
    + destruct (decide (k ∈ omap _ l)) as [Hin|Hin].
      * rewrite decide_True; [done|by right].
      * rewrite decide_False; [done|]. intros [?|?]%elem_of_cons; congruence.
Qed.

Lemma mint_key_inj c c' key :
  0 ≤ c → 0 ≤ c' → mint_key c = Some key → mint_key c' = Some key → c = c'.
Proof.
  unfold mint_key. intros H0 H0'.
  destruct (DuneId_try_from c) as [i|] eqn:E; [|done].
  destruct (DuneId_try_from c') as [i'|] eqn:E'; [|done]. cbn. intros [= H] [= H'].
  assert (i = i') as <- by (destruct i, i'; rewrite <- H in H'; by injection H' as -> ->).
  by eapply DuneId_try_from_inj.
Qed.

Lemma claim_mint_key db h c x : claim_mint db h c = Some x →
  ∃ key t, mint_key c = Some key ∧ DuneTermsByIdKV db !! key = Some t
    ∧ lk (DuneMintsByIdKV db) key < cap_of t.
Proof.
  unfold claim_mint, mint_key. destruct (DuneId_try_from c) as [id|]; [|done]. cbn.
  intros (t & Ht & _ & _ & _ & Hlt)%mint_spec. by exists (kv_of_dune_id id), t.
Qed.

(** The mints recorded for transaction [idx] are [ms]. *)
Definition recorded (idx : Z) (mints : list (Z * Z)) (ms : list Z) : Prop :=
  ∀ j, (idx, j) ∈ mints ↔ j ∈ ms.

Lemma recorded_keys db h idx mints ds (limits rem : balances) ms k :
  collect_mintable db h (claims ds) = (limits, ms) → dom rem = dom limits →
  recorded idx mints ms → Z.of_nat (length (claims ds)) ≤ 2 ^ 16 →
  k ∈ omap (λ p, mint_key p.1) (map_to_list rem)
  ↔ k ∈ omap (recorded_key idx mints) (imap pair (claims ds)).
Proof.
  intros Hc Hdom Hrec Hlen. destruct (collect_mintable_elems _ _ _ _ _ Hc) as [Hlim Hms].
  rewrite !list_elem_of_omap. split.
  - intros ([c r] & Hr%elem_of_map_to_list & Hk). cbn [fst] in Hk.
    apply elem_of_dom_2 in Hr. rewrite Hdom, elem_of_dom, Hlim in Hr. destruct Hr as [Hin Hm].
    apply list_elem_of_lookup in Hin as [j Hj]. exists (j, c). split.
    + apply elem_of_lookup_imap. by exists j, c.
    + unfold recorded_key. cbn [fst snd]. rewrite decide_True; [done|]. apply Hrec, Hms. by eauto.
  - intros ([j c] & (j' & c' & [= <- <-] & Hj)%elem_of_lookup_imap & Hk).
    unfold recorded_key in Hk. cbn [fst snd] in Hk. case_decide as Hin; [|done].
    apply Hrec, Hms in Hin as (j2 & c2 & Hj2 & Ew & Hm).
    apply lookup_lt_Some in Hj as Hl1. apply lookup_lt_Some in Hj2 as Hl2.
    rewrite !wrap_small in Ew by (unfold in_range; lia). apply Nat2Z.inj in Ew as <-.
    assert (c2 = c) as -> by congruence.
    assert (is_Some (limits !! c)) as Hs by (apply Hlim; split; [by eapply list_elem_of_lookup_2|done]).
    rewrite <- elem_of_dom, <- Hdom, elem_of_dom in Hs. destruct Hs as [r Hr].
    exists (c, r). by rewrite elem_of_map_to_list.
Qed.

(** Undoing the mints of a dunestone, when every one of them was counted. *)
Lemma mints_undone h i db ds (limits rem : balances) ms mints idx db' d :
  dunes_inv h i db → Dunestone_ok ds →
  collect_mintable db h (claims ds) = (limits, ms) → dom rem = dom limits →
  increment_mints limits rem db = Ok db' →
  map_Forall (λ c r, 0 < wrap 128 (lk limits c - r)) rem →
  recorded idx mints ms → Z.of_nat (length (claims ds)) ≤ 2 ^ 16 →
  (∀ k, lk (DuneMintsByIdKV d) k = lk (DuneMintsByIdKV db') k) →
  same_but_mints db db'
  ∧ ∃ d', undo_mints idx ds mints d = Ok d' ∧ same_but_mints d d'
      ∧ ∀ k, lk (DuneMintsByIdKV d') k = lk (DuneMintsByIdKV db) k.
Proof.
  intros Hinv Hok Hc Hdom Hinc Hcnt Hrec Hlen Hd.
  pose proof (λ k, recorded_keys db h idx mints ds limits rem ms k Hc Hdom Hrec Hlen) as Hkeys.
  destruct (collect_mintable_elems _ _ _ _ _ Hc) as [Hlim _].
  assert (∀ c r, (c, r) ∈ map_to_list rem → c ∈ claims ds ∧ ∃ key t, mint_key c = Some key
    ∧ DuneTermsByIdKV db !! key = Some t ∧ lk (DuneMintsByIdKV db) key < cap_of t) as Hrem.
  { intros c r Hr%elem_of_map_to_list%elem_of_dom_2.
    rewrite Hdom, elem_of_dom, Hlim in Hr. destruct Hr as [Hin [x Hx]].
    split; [done|]. by eapply claim_mint_key. }
  assert (∀ key t, DuneTermsByIdKV db !! key = Some t → lk (DuneMintsByIdKV db) key < cap_of t →
    0 ≤ lk (DuneMintsByIdKV db) key < umax 128) as Hrange.
  { intros key t Ht Hlt. split.
    - unfold lk. destruct (DuneMintsByIdKV db !! key) eqn:E; [|done].
      by apply (di_mints _ _ _ Hinv) in E as [? _].
    - pose proof (di_caps _ _ _ Hinv _ _ Ht). lia. }
  destruct (increment_mints_lk limits (map_to_list rem) db db') as [Hsame Hlk]; [| |exact Hinc|].
  { apply omap_NoDup; [|apply NoDup_map_to_list]. intros [c r] [c' r'] key Hr Hr' Hk Hk'.
    cbn [fst] in *. assert (c = c') as <-.
    { apply (mint_key_inj c c' key); [| |done|done]; (apply (claims_nonneg _ _ Hok));
        by eapply Hrem. }
    apply elem_of_map_to_list in Hr, Hr'. congruence. }
  { intros [c r] Hr. destruct (Hrem c r Hr) as (_ & key & t & Hk & Ht & Hlt).
    exists key. split; [done|]. split; [by eapply Hrange|]. cbn [fst snd].
    apply Hcnt. by apply elem_of_map_to_list. }
  split; [done|]. unfold undo_mints.
  destruct (undo_mints_lk idx mints (imap pair (claims ds)) d) as (d' & Hrun & Hs & Hlk').
  - apply omap_NoDup.
    + intros [j c] [j' c'] key (? & ? & [= <- <-] & Hj)%elem_of_lookup_imap
        (? & ? & [= <- <-] & Hj')%elem_of_lookup_imap. unfold recorded_key. cbn [fst snd].
      case_decide; [|done]. case_decide; [|done]. intros Hk Hk'.
      assert (c = c') as <-.
      { apply (mint_key_inj c c' key); [| |done|done]; (apply (claims_nonneg _ _ Hok));
          by eapply list_elem_of_lookup_2. }
      f_equal. eapply NoDup_lookup; [apply (claims_NoDup ds)|done|done].
    + apply (NoDup_fmap_1 fst). rewrite fmap_imap. apply NoDup_alt. intros a b x Ha Hb.
      rewrite list_lookup_imap in Ha, Hb. destruct (_ !! a), (_ !! b); try done. naive_solver.
  - intros k Hk. apply Hkeys in Hk as Hk2. rewrite Hd, Hlk, decide_True by done.
    apply list_elem_of_omap in Hk2 as ([c r] & Hr & Hkey). cbn [fst] in Hkey.
    destruct (Hrem c r Hr) as (_ & key & t & Hk' & Ht & Hlt). replace key with k in * by congruence.
    pose proof (Hrange k t Ht Hlt). unfold umax in *. lia.
  - exists d'. split; [done|]. split; [done|]. intros k. rewrite Hlk', Hd, Hlk.
    destruct (decide (k ∈ omap (recorded_key idx mints) _)) as [Hk|Hk].
    + rewrite decide_True by (by apply Hkeys). lia.
    + rewrite decide_False by (by rewrite Hkeys). lia.
Qed.

(** ** The dunes of a transaction *)

Section dunes.
Variable SUBSIDY_HALVING_INTERVAL : Z.
Variable instructions : list Z → list (outcome script_error Instruction).
Variable is_op_return : list Z → bool.

(** An etching that took place, and what it wrote. *)
Lemma etch_allocation_cases db i ds h net a0 etch db2 :
  u16_ok i →
  etch_allocation SUBSIDY_HALVING_INTERVAL db i ds h net = Ok (a0, etch, db2) →
  match a0 with
  | None => db2 = db
  | Some a => ∃ e, etching ds = Some e ∧
      match e_dune e with
      | Some _ => db2 = db ∧ DuneIdByNameKV db !! al_dune a = None
      | None => db2 = set_reserved (wrap 64 (default 0 (DunesReservedCountersKV db) + 1)) db
                ∧ al_dune a = RESERVED + default 0 (DunesReservedCountersKV db)
      end
  end.
Proof.
  intros Hi. unfold etch_allocation, etched. destruct (etching ds) as [e|]; [|by intros [= <- _ <-]].
  assert (try_into 16 i = Some i) as Ei by (by apply try_into_Some).
  intros ([dune db1] & H & Ha)%outcome_bind_Ok. apply outcome_bind_Ok in H as (m & _ & H).
  destruct (e_dune e) as [name|] eqn:En.
  - destruct (_ || _) eqn:Ho; injection H as <- <-; injection Ha as <- _ <-; [done|].
    rewrite Ei. exists e. split; [done|]. rewrite En. split; [done|]. cbn.
    apply orb_false_iff in Ho as [_ Ho]. apply bool_decide_eq_false in Ho.
    by apply eq_None_not_Some.
  - apply outcome_bind_Ok in H as (name & Hn & H). injection H as <- <-. injection Ha as <- _ <-.
    rewrite Ei. exists e. split; [done|]. rewrite En. split; [done|]. cbn.
    unfold reserved, lift_panic, checked_add in Hn. destruct (try_into 128 _) eqn:E; [|done].
    cbn in Hn. injection Hn as <-. by apply try_into_Some in E as [-> _].
Qed.

Lemma dune_terms_name ds dune h t : dune_terms ds dune h = Ok t → dt_name t = dune.
Proof.
  unfold dune_terms. destruct (cenotaph ds); [by intros [= <-]|].
  intros (e & _ & H)%outcome_bind_Ok. destruct (e_terms e); by injection H as <-.
Qed.

(** Undoing an etching: names, terms and the reserved counter are back. *)
Lemma etch_undone db i ds h net a0 etch db2 db3 db' :
  dunes_inv h i db → u16_ok i → default 0 (DunesReservedCountersKV db) < umax 64 →
  etch_allocation SUBSIDY_HALVING_INTERVAL db i ds h net = Ok (a0, etch, db2) →
  same_but_mints db2 db3 →
  match a0 with
  | Some a => create_rune_entry db3 ds (mkDuneId h i) (al_dune a) h = Ok db'
  | None => db' = db3
  end →
  ∃ d, undo_etch h i ds db' = Ok d ∧ DuneMintsByIdKV d = DuneMintsByIdKV db3
    ∧ DuneIdByNameKV d = DuneIdByNameKV db ∧ DuneTermsByIdKV d = DuneTermsByIdKV db
    ∧ default 0 (DunesReservedCountersKV d) = default 0 (DunesReservedCountersKV db).
Proof.
  intros Hinv Hi Hres He (Hn & Ht & Hr) Hend. pose proof (di_counter _ _ _ Hinv) as H0.
  assert (DuneTermsByIdKV db !! mkKDuneId h i = None) as Hnew.
  { apply eq_None_not_Some. intros [t Ht']. apply (di_order _ _ _ Hinv) in Ht'.
    unfold before in Ht'. cbn in Ht'. lia. }
  apply etch_allocation_cases in He; [|done]. unfold undo_etch. destruct a0 as [a|].
  - destruct He as (e & -> & He). unfold create_rune_entry in Hend.
    apply outcome_bind_Ok in Hend as (t & Hterms & [= <-]). apply dune_terms_name in Hterms.
    cbn [DuneTermsByIdKV set_terms set_names kv_of_dune_id DunesReservedCountersKV height index].
    rewrite lookup_insert_eq, Hterms. destruct (e_dune e).
    + destruct He as [-> Hfree]. eexists. split; [done|]. cbn.
      rewrite Hn, Ht, Hr. by rewrite !delete_insert_id.
    + destruct He as [-> Hname]. cbn in Hn, Ht, Hr. cbn [mbind outcome_bind set_terms set_names].
      cbn [DunesReservedCountersKV]. rewrite Hr. cbn [default option_map].
      unfold umax in Hres. cbn in Hres. rewrite wrap_small by (unfold in_range; lia).
      unfold checked_sub. set (c := default 0 (DunesReservedCountersKV db)) in *.
      change (id (c + 1)) with (c + 1). rewrite (proj2 (try_into_Some 64 _ c))
        by (unfold in_range; lia).
      assert (DuneIdByNameKV db !! al_dune a = None) as Hfree.
      { apply eq_None_not_Some. intros [k Hk]. apply (di_reserved _ _ _ Hinv) in Hk. lia. }
      eexists. split; [done|]. cbn. rewrite Hn, Ht. by rewrite !delete_insert_id.
  - subst db' db2. exists db3. rewrite Ht, Hnew, Hn, Hr. split; [|done]. by destruct (etching ds).
Qed.

Hypothesis pushes_are_bytes :
  ∀ script push, Ok (PushBytes push) ∈ instructions script → bytes_ok push.

(** Every mint of the transaction allocated something, so was counted. *)
Definition counted (t : IndexTrace) : Prop :=
  map_Forall (λ c r, 0 < wrap 128 (lk (it_limits t) c - r)) (mintable (it_state t)).

(** The index of a claim fits the 16 bits it is recorded in. *)
Definition few_claims (tx : Transaction) : Prop :=
  match from_transaction instructions (output tx) with
  | Some ds => Z.of_nat (length (claims ds)) ≤ 2 ^ 16
  | None => True
  end.

Local Abbreviation index_runes_trace :=
  (index_runes_trace SUBSIDY_HALVING_INTERVAL instructions is_op_return).

Lemma no_mints_undone idx mints ds d : recorded idx mints [] → undo_mints idx ds mints d = Ok d.
Proof.
  intros Hrec. unfold undo_mints. generalize (imap pair (claims ds)). intros l.
  induction l as [|c l IH]; [done|]. cbn [foldM]. rewrite undo_mint_eq. unfold recorded_key.
  rewrite decide_False; [exact IH|]. rewrite (Hrec _). apply not_elem_of_nil.
Qed.

(** Where nothing was indexed, nothing is undone. *)
Lemma undo_dunes_skip h i tx mints db :
  dunes_inv h i db → recorded i mints [] → undo_dunes instructions h i mints tx db = Ok db.
Proof.
  intros Hinv Hrec. unfold undo_dunes. destruct (from_transaction _ _) as [ds|]; [|done].
  assert (undo_etch h i ds db = Ok db) as ->.
  { unfold undo_etch. destruct (etching ds); [|done].
    destruct (DuneTermsByIdKV db !! mkKDuneId h i) as [t|] eqn:E; [|done].
    apply (di_order _ _ _ Hinv) in E. unfold before in E. cbn in E. lia. }
  by apply no_mints_undone.
Qed.

(** The undo of a transaction's dunes brings the tables back. *)
Lemma undo_dunes_run resolver db i tx h net trace db' mints :
  dunes_inv h i db → u64_ok h → u16_ok i → default 0 (DunesReservedCountersKV db) < umax 64 →
  index_runes_trace resolver db i tx h net = Ok (trace, db') →
  counted trace → recorded i mints (successful_mints (it_result trace)) → few_claims tx →
  ∃ d, undo_dunes instructions h i mints tx db' = Ok d ∧ d ≡ db.
Proof.
  intros Hinv Hh Hi Hres H Hcnt Hrec Hfew. apply index_runes_trace_split in H.
  unfold few_claims, undo_dunes in *.
  destruct (from_transaction instructions (output tx)) as [ds|] eqn:Hds;
    [|destruct H as [-> _]; by exists db].
  assert (Dunestone_ok ds) as Hok by (by eapply from_transaction_ok).
  destruct H as (held & al0 & run & Hrun & Em & El & Es). rewrite Em in Hrec.
  apply run_dunestone_split in Hrun as (a0 & db2 & db3 & He & Hmid & Hend); [|done].
  destruct (etch_allocation_inv _ _ _ _ _ _ _ _ _ Hinv Hres He) as [Hinv2 _].
  pose proof (etch_allocation_tables _ _ _ _ _ _ _ _ _ He) as (_ & Em2 & _).
  assert (same_but_mints db2 db3 ∧ ∀ d, DuneMintsByIdKV d = DuneMintsByIdKV db3 →
    ∃ d', undo_mints i ds mints d = Ok d' ∧ same_but_mints d d'
      ∧ ∀ k, lk (DuneMintsByIdKV d') k = lk (DuneMintsByIdKV db2) k) as [Hsame Hundo].
  { destruct (cenotaph ds).
    - destruct Hmid as [-> Hno]. split; [done|]. intros d Hd. rewrite Hno in Hrec.
      exists d. rewrite no_mints_undone by done. by rewrite Hd.
    - destruct Hmid as (Hc & Hdom & Hinc). unfold counted in Hcnt. rewrite El, Es in Hcnt.
      split.
      + by eapply (mints_undone h i db2 ds _ _ _ mints i db3 db3).
      + intros d Hd. by eapply (mints_undone h i db2 ds _ _ _ mints i db3 d); [..|intros k; rewrite Hd]. }
  destruct (etch_undone _ _ _ _ _ _ _ _ _ _ Hinv Hi Hres He Hsame Hend)
    as (d & -> & Hm & Hn & Ht & Hr). cbn [mbind outcome_bind].
  destruct (Hundo d Hm) as (d' & Hd' & (H1 & H2 & H3) & Hlk). exists d'. split; [done|].
  split; [congruence|]. split; [congruence|]. split; [|by rewrite H3].
  intros k. by rewrite Hlk, Em2.
Qed.

(** ** The dunes of a block *)

Lemma index_runes_trace_reserved resolver db i tx h net trace db' :
  u64_ok h → u16_ok i → dunes_inv h i db → default 0 (DunesReservedCountersKV db) < umax 64 →
  index_runes_trace resolver db i tx h net = Ok (trace, db') →
  default 0 (DunesReservedCountersKV db') ≤ default 0 (DunesReservedCountersKV db) + 1.
Proof.
  intros Hh Hi Hinv Hres H. apply index_runes_trace_split in H.
  destruct (from_transaction instructions (output tx)) as [ds|] eqn:Hds;
    [|destruct H as [-> _]; lia].
  assert (Dunestone_ok ds) as Hok by (by eapply from_transaction_ok).
  destruct H as (held & al0 & run & Hrun & _).
  apply run_dunestone_split in Hrun as (a0 & db2 & db3 & He & Hmid & Hend); [|done].
  destruct (etch_allocation_inv _ _ _ _ _ _ _ _ _ Hinv Hres He) as [Hinv2 _].
  assert (DunesReservedCountersKV db3 = DunesReservedCountersKV db2) as E3.
  { destruct (cenotaph ds); [by destruct Hmid as [-> _]|]. destruct Hmid as (El & Hdom & Hinc).
    by destruct (collected_increment_inv _ _ _ _ _ _ _ _ _ Hinv2 Hok El Hdom Hinc)
      as (_ & _ & _ & H3). }
  assert (DunesReservedCountersKV db' = DunesReservedCountersKV db3) as ->.
  { destruct a0; [|by subst]. unfold create_rune_entry in Hend.
    by apply outcome_bind_Ok in Hend as (t & _ & [= <-]). }
  rewrite E3. apply etch_allocation_cases in He; [|done]. destruct a0 as [a|]; [|subst; lia].
  destruct He as (e & _ & He). destruct (e_dune e); destruct He as [-> _]; [lia|]. cbn.
  pose proof (di_counter _ _ _ Hinv). unfold umax in Hres.
  change (id ?x) with x. rewrite wrap_small by (unfold in_range; lia). done.
Qed.

Definition undo_dunes_of (h : Z) (mints : list (Z * Z)) (db : DunesDB) (t : nat * Transaction)
  : outcome Error DunesDB := undo_dunes instructions h (Z.of_nat t.1) mints t.2 db.

Lemma undo_dunes_sim h i mints tx d1 d2 :
  d1 ≡ d2 →
  outcome_sim (undo_dunes instructions h i mints tx d1) (undo_dunes instructions h i mints tx d2).
Proof.
  intros Hd. unfold undo_dunes. destruct (from_transaction _ _) as [ds|]; [|done].
  pose proof (undo_etch_sim h i ds d1 d2 Hd) as He.
  destruct (undo_etch h i ds d1), (undo_etch h i ds d2); try done. by apply undo_mints_sim.
Qed.

(** What is known after the dunes of the transactions [l] of a block. *)
Record log_facts (h : Z) (l : list (nat * Transaction)) (db : DunesDB) (ms : list (Z * Z))
    (db' : DunesDB) : Prop := {
  lf_inv : dunes_inv h (Z.of_nat (length l)) db';
  lf_reserved : default 0 (DunesReservedCountersKV db')
                ≤ default 0 (DunesReservedCountersKV db) + Z.of_nat (length l);
  lf_mints : ∀ i j, (i, j) ∈ ms → i < Z.of_nat (length l);
}.

Lemma dunes_log_facts first h net l db ms ts db' :
  dunes_log SUBSIDY_HALVING_INTERVAL instructions is_op_return first h net l db ms ts db' →
  l.*1 = seq 0 (length l) → dunes_inv h 0 db → u64_ok h → Z.of_nat (length l) ≤ 2 ^ 16 →
  default 0 (DunesReservedCountersKV db) + Z.of_nat (length l) < umax 64 →
  log_facts h l db ms db'.
Proof.
  induction 1 as [db|l i tx db ms ts db1 Hs Hl IH|l i tx db ms ts db1 resolver trace db2 Hf Hl IH Ht];
    intros Hseq Hinv Hh Hlen Hres.
  { split; [done|cbn; lia|]. by intros i j ?%elem_of_nil. }
  all: rewrite fmap_app, length_app in Hseq; cbn [length fmap list_fmap] in Hseq;
    rewrite Nat.add_1_r, seq_S in Hseq; apply app_inj_tail in Hseq as [Hseq Ei];
    cbn in Ei; subst i; rewrite length_app in *; cbn [length] in *;
    (destruct IH as [I1 I2 I3]; [done|done|done|lia|lia|]).
  - split; rewrite ?length_app; cbn [length].
    + rewrite Nat2Z.inj_add. by apply dunes_inv_next.
    + lia.
    + intros i j Hij%I3. lia.
  - assert (default 0 (DunesReservedCountersKV db1) < umax 64) as Hr1 by lia.
    assert (u16_ok (Z.of_nat (length l))) as H16 by (unfold in_range; lia).
    split; rewrite ?length_app; cbn [length].
    + rewrite Nat2Z.inj_add. by eapply index_runes_trace_inv.
    + apply index_runes_trace_reserved in Ht; [lia|done|done|done|done].
    + intros i j [Hij%I3|(y & [= -> ->] & _)%list_elem_of_fmap]%elem_of_app; lia.
Qed.

Lemma undo_step_equiv h all l i tx d db' db1 db :
  d ≡ db' →
  (∃ d1, undo_dunes instructions h (Z.of_nat i) all tx db' = Ok d1 ∧ d1 ≡ db1) →
  (∀ d1, d1 ≡ db1 → ∃ d0, foldM (undo_dunes_of h all) d1 (rev l) = Ok d0 ∧ d0 ≡ db) →
  ∃ d0, foldM (undo_dunes_of h all) d (rev (l ++ [(i, tx)])) = Ok d0 ∧ d0 ≡ db.
Proof.
  intros Hd (d1 & H1 & E1) Hrest. rewrite rev_app_distr. cbn [rev app foldM].
  unfold undo_dunes_of at 1. cbn [fst snd].
  pose proof (undo_dunes_sim h (Z.of_nat i) all tx d db' Hd) as Hs. rewrite H1 in Hs.
  destruct (undo_dunes _ _ _ _ _ d) as [d2| |]; [|done|done]. cbn in Hs.
  apply Hrest. by rewrite Hs.
Qed.

Lemma dunes_log_undone first h net l db ms ts db' all :
  dunes_log SUBSIDY_HALVING_INTERVAL instructions is_op_return first h net l db ms ts db' →
  l.*1 = seq 0 (length l) → dunes_inv h 0 db → u64_ok h → Z.of_nat (length l) ≤ 2 ^ 16 →
  default 0 (DunesReservedCountersKV db) + Z.of_nat (length l) < umax 64 →
  Forall counted ts → Forall few_claims l.*2 →
  (∀ i j, i < Z.of_nat (length l) → (i, j) ∈ all ↔ (i, j) ∈ ms) →
  ∀ d, d ≡ db' → ∃ d0, foldM (undo_dunes_of h all) d (rev l) = Ok d0 ∧ d0 ≡ db.
Proof.
  induction 1 as [db|l i tx db ms ts db1 Hs Hl IH|l i tx db ms ts db1 resolver trace db2 Hf Hl IH Ht];
    intros Hseq Hinv Hh Hlen Hres Hcnt Hfew Hall d Hd.
  { by exists d. }
  all: rewrite fmap_app, length_app in Hseq; cbn [length fmap list_fmap] in Hseq;
    rewrite Nat.add_1_r, seq_S in Hseq; apply app_inj_tail in Hseq as [Hseq Ei];
    cbn in Ei; subst i; rewrite length_app in *; cbn [length] in *;
    rewrite fmap_app, Forall_app in Hfew; destruct Hfew as [Hfew Htx].
  all: destruct (dunes_log_facts _ _ _ _ _ _ _ _ Hl Hseq Hinv Hh) as [I1 I2 I3]; [lia|lia|].
  - apply (undo_step_equiv h all l (length l) tx d db1 db1 db); [done| |].
    + exists db1. split; [|done]. apply undo_dunes_skip; [done|]. intros j. rewrite Hall by lia.
      split; [intros ?%I3; lia|by intros ?%elem_of_nil].
    + apply IH; try done; [lia|lia|]. intros i j Hi. apply Hall. lia.
  - apply Forall_app in Hcnt as [Hcnt Hc1]. rewrite Forall_singleton in Hc1.
    cbn [fmap list_fmap snd] in Htx. rewrite Forall_singleton in Htx.
    apply (undo_step_equiv h all l (length l) tx d db2 db1 db); [done| |].
    + eapply undo_dunes_run; [done|done|unfold in_range; lia|lia|exact Ht|done| |done].
      intros j. rewrite Hall by lia. rewrite elem_of_app, list_elem_of_fmap. split.
      * intros [?%I3|(y & [= ->] & ?)]; [lia|done].
      * intros Hj. right. by exists j.
    + apply IH; try done; [lia|lia|]. intros i j Hi. rewrite Hall by lia.
      rewrite elem_of_app, list_elem_of_fmap. split; [|by left].
      intros [?|(y & [= -> ->] & ?)]; [done|lia].
Qed.

(** ** A mint that is recorded and not counted *)

(** Nothing is taken from an empty balance. *)
Lemma allocate_nothing id al x o :
  x ≤ 0 → allocate id (0, al) x o = Ok (0, al).
Proof. intros Hx. unfold allocate. by destruct (Z.ltb_spec 0 x); [lia|]. Qed.

Lemma foldM_same {S A} (f : S → A → outcome Error S) s l :
  (∀ a, a ∈ l → f s a = Ok s) → foldM f s l = Ok s.
Proof.
  induction l as [|a l IH]; intros Hf; [done|]. cbn [foldM].
  rewrite (Hf a) by (by left). apply IH. intros b Hb. apply Hf. by right.
Qed.

Lemma split_nothing outputs id amount al s :
  0 ≤ amount → split_balance is_op_return outputs id amount (0, al) = Ok s → s = (0, al).
Proof.
  intros Ha. unfold split_balance. cbn [fst]. destruct (amount =? 0).
  - destruct (Z.eqb_spec (Z.of_nat (length (destinations is_op_return outputs))) 0); [done|].
    rewrite foldM_same; [by intros [= <-]|]. intros [j o] _. cbn [fst snd].
    rewrite Z.div_0_l, Z.mod_0_l by done.
    destruct (Z.ltb_spec (Z.of_nat j) 0); [lia|]. by apply allocate_nothing.
  - rewrite foldM_same; [by intros [= <-]|]. intros o _. cbn [fst]. apply allocate_nothing. lia.
Qed.

(** A claim with limit 0 keeps the limit it has. *)
Lemma process_edict_zero outputs st e st' v :
  0 ≤ ed_amount e → process_edict is_op_return outputs st e = Ok st' →
  mintable st !! v = Some 0 → mintable st' !! v = Some 0.
Proof.
  unfold process_edict. intros Ha H Hv.
  destruct (try_into 64 _); [|by injection H as <-].
  destruct (_ <=? _); [by injection H as <-|].
  destruct (edict_source st (ed_id e)) as [[[src b] id]|] eqn:Es; [|by injection H as <-].
  apply outcome_bind_Ok in H as ([b' al] & Hb & H). injection H as <-.
  destruct src as [|c|]; cbn; [done| |done].
  unfold edict_source in Es. destruct (ed_id e =? 0); [by destruct (allocation st)|].
  destruct (claim (ed_id e)) as [c'|]; [|by destruct (unalloc st !! ed_id e)].
  destruct (mintable st !! c') eqn:E; [|done]. injection Es as <- <- <-.
  apply lookup_insert_Some. destruct (decide (c' = v)) as [->|Hne]; [left|by right].
  split; [done|]. rewrite Hv in E. injection E as <-.
  destruct (_ =? Z.of_nat (length outputs)).
  - by apply split_nothing in Hb as [= -> _].
  - rewrite allocate_nothing in Hb; [by injection Hb as -> _|].
    destruct (ed_amount e =? 0); lia.
Qed.

Lemma run_dunestone_zero db i tx ds h net held al0 run db' v :
  Dunestone_ok ds →
  run_dunestone SUBSIDY_HALVING_INTERVAL is_op_return db i tx ds h net held al0 = Ok (run, db') →
  run_limits run !! v = Some 0 → mintable (run_state run) !! v = Some 0.
Proof.
  intros [Hok _] H. unfold run_dunestone in H.
  apply outcome_bind_Ok in H as ([[a0 etch] db2] & _ & H).
  apply outcome_bind_Ok in H as ([run1 db3] & Hmid & H).
  apply outcome_bind_Ok in H as (db4 & _ & [= <- _]).
  destruct (cenotaph ds); [by injection Hmid as <- _|].
  destruct (collect_mintable db2 h (claims ds)) as [limits mints].
  apply outcome_bind_Ok in Hmid as (st & Hst & Hmid).
  apply outcome_bind_Ok in Hmid as (db5 & _ & [= <- _]). cbn. intros Hv. revert Hst.
  apply (foldM_inv (λ s, mintable s !! v = Some 0)); [|done].
  intros s e s' He Hs Hstep. eapply process_edict_zero; [|exact Hstep|exact Hs].
  rewrite Forall_forall in Hok. by destruct (Hok e He) as (_ & [? _] & _).
Qed.

(** A dune etched without terms, of which nothing was ever counted. *)
Definition termless (k : KDuneId) (db : DunesDB) : Prop :=
  (∃ name, DuneTermsByIdKV db !! k = Some (mkDuneTerms name None None None None))
  ∧ lk (DuneMintsByIdKV db) k = 0.

(** [mint] accepts its claims at any height, with limit 0. *)
Lemma termless_claim db h v k :
  termless k db → mint_key v = Some k → claim_mint db h v = Some 0.
Proof.
  intros [[name Ht] Hm] Hk. unfold mint_key, claim_mint, mint in *.
  destruct (DuneId_try_from v) as [key|]; [|done]. cbn in *. injection Hk as ->.
  rewrite Ht. cbn. unfold lk in Hm. by rewrite Hm.
Qed.

(** Counting mints keeps the counter of a key whose claims have nothing allocated. *)
Lemma increment_mints_uncounted (limits : balances) k l db db' :
  (∀ p, p ∈ l → mint_key p.1 = Some k → limits !! p.1 = Some p.2) →
  foldM (increment_mint limits) db l = Ok db' →
  lk (DuneMintsByIdKV db') k = lk (DuneMintsByIdKV db) k
  ∧ DuneTermsByIdKV db' = DuneTermsByIdKV db.
Proof.
  intros Hl. apply (foldM_inv (λ d, lk (DuneMintsByIdKV d) k = lk (DuneMintsByIdKV db) k
    ∧ DuneTermsByIdKV d = DuneTermsByIdKV db)); [|done].
  intros d [c r] d' Hp [Hd Ht] H. unfold increment_mint in H. cbn [fst snd] in H.
  apply outcome_bind_Ok in H as (limit & Hlim & H).
  destruct (0 <? _) eqn:Epos; [|by injection H as <-].
  apply outcome_bind_Ok in H as (id & Hid & [= <-]). cbn. split; [|done].
  rewrite lk_insert_ne; [done|]. intros E.
  destruct (DuneId_try_from c) as [id'|] eqn:Ec; [|done]. injection Hid as ->.
  specialize (Hl (c, r) Hp). cbn [fst snd] in Hl. unfold mint_key in Hl. rewrite Ec in Hl.
  rewrite Hl in Hlim by (cbn; by rewrite E). injection Hlim as ->.
  by rewrite Z.sub_diag in Epos.
Qed.

(** The claim [c] of transaction [tx] is of the dune [k]. *)
Definition claims_dune (tx : Transaction) (c : nat) (k : KDuneId) : Prop :=
  ∃ ds v, from_transaction instructions (output tx) = Some ds ∧ cenotaph ds = false
    ∧ claims ds !! c = Some v ∧ mint_key v = Some k.

(** Counting the mints of a dunestone records its claims of a dune without
    terms and leaves the counter of the dune as it is. *)
Lemma termless_minted db h cs (limits rem : balances) ms db' k :
  termless k db → collect_mintable db h cs = (limits, ms) → dom rem = dom limits →
  (∀ v, limits !! v = Some 0 → rem !! v = Some 0) → increment_mints limits rem db = Ok db' →
  termless k db' ∧ DuneTermsByIdKV db' = DuneTermsByIdKV db
  ∧ ∀ c v, cs !! c = Some v → mint_key v = Some k → wrap 16 (Z.of_nat c) ∈ ms.
Proof.
  intros Hk Hc Hdom Hzero Hinc. destruct (collect_mintable_elems _ _ _ _ _ Hc) as [_ Hel].
  destruct (increment_mints_uncounted limits k (map_to_list rem) db db') as [Hl' Ht'];
    [|exact Hinc|].
  - intros [v r] Hp%elem_of_map_to_list Hv. cbn [fst snd] in *.
    assert (is_Some (limits !! v)) as [x Hx]
      by (apply elem_of_dom; rewrite <- Hdom; by eapply elem_of_dom_2).
    pose proof (collect_mintable_spec db h cs v x) as Hs. rewrite Hc in Hs.
    destruct (Hs Hx) as (_ & key & Hkey & Hm).
    pose proof (termless_claim _ h _ _ Hk Hv) as Hz. unfold claim_mint in Hz.
    rewrite Hkey in Hz. cbn in Hz. rewrite Hz in Hm. injection Hm as <-.
    apply Hzero in Hx as Hx'. congruence.
  - split; [unfold termless; by rewrite Ht', Hl'|]. split; [done|].
    intros c v Hcl Hv. apply Hel. exists c, v. split; [done|]. split; [done|].
    by rewrite (termless_claim _ h _ _ Hk Hv).
Qed.

(** The same of a whole transaction. *)
Lemma termless_run resolver db i tx h net trace db' k :
  dunes_inv h i db → u64_ok h → termless k db →
  index_runes_trace resolver db i tx h net = Ok (trace, db') →
  termless k db'
  ∧ ∀ c, claims_dune tx c k → wrap 16 (Z.of_nat c) ∈ successful_mints (it_result trace).
Proof.
  intros Hinv Hh Hk H. apply index_runes_trace_split in H. unfold claims_dune.
  destruct (from_transaction instructions (output tx)) as [ds|] eqn:Hds;
    [|destruct H as [-> _]; by split; [|intros ? (? & ? & ? & _)]].
  assert (Dunestone_ok ds) as Hok by (by eapply from_transaction_ok).
  destruct H as (held & al0 & run & Hrun & -> & _).
  pose proof (λ v, run_dunestone_zero _ _ _ _ _ _ _ _ _ _ v Hok Hrun) as Hzero.
  apply run_dunestone_split in Hrun as (a0 & db2 & db3 & He & Hmid & Hend); [|done].
  pose proof (etch_allocation_tables _ _ _ _ _ _ _ _ _ He) as (Et & Em & _).
  assert (termless k db2) as Hk2 by (unfold termless; by rewrite Et, Em).
  assert (termless k db3 ∧ DuneTermsByIdKV db3 = DuneTermsByIdKV db2
    ∧ (cenotaph ds = false → ∀ c v, claims ds !! c = Some v → mint_key v = Some k →
         wrap 16 (Z.of_nat c) ∈ run_mints run)) as (Hk3 & Et3 & Hms).
  { destruct (cenotaph ds); [by destruct Hmid as [-> _]|]. destruct Hmid as (Hc & Hdom & Hinc).
    by destruct (termless_minted _ _ _ _ _ _ _ _ Hk2 Hc Hdom Hzero Hinc) as (? & ? & ?). }
  split; [|intros c (ds0 & v & [= <-] & Ec & Hcl & Hv); by eapply Hms].
  destruct a0 as [a|]; [|by subst]. unfold create_rune_entry in Hend.
  apply outcome_bind_Ok in Hend as (t & _ & [= <-]). unfold termless. cbn.
  destruct Hk3 as [[name Hname] H0]. split; [|done]. exists name.
  rewrite lookup_insert_ne; [done|]. intros E. rewrite Et3, Et, <- E in Hname.
  apply (di_order _ _ _ Hinv) in Hname. unfold before in Hname. cbn in Hname. lia.
Qed.

Lemma termless_log first h net l db ms ts db' k :
  dunes_log SUBSIDY_HALVING_INTERVAL instructions is_op_return first h net l db ms ts db' →
  l.*1 = seq 0 (length l) → dunes_inv h 0 db → u64_ok h → Z.of_nat (length l) ≤ 2 ^ 16 →
  default 0 (DunesReservedCountersKV db) + Z.of_nat (length l) < umax 64 →
  first ≤ h → termless k db →
  termless k db'
  ∧ ∀ i tx c, (i, tx) ∈ l → claims_dune tx c k → (Z.of_nat i, wrap 16 (Z.of_nat c)) ∈ ms.
Proof.
  induction 1 as [db|l i tx db ms ts db1 Hs Hl IH|l i tx db ms ts db1 resolver trace db2 Hf Hl IH Ht];
    intros Hseq Hinv Hh Hlen Hres Hfirst Hk.
  { split; [done|]. by intros i tx c ?%elem_of_nil. }
  { lia. }
  rewrite fmap_app, length_app in Hseq. cbn [length fmap list_fmap] in Hseq.
  rewrite Nat.add_1_r, seq_S in Hseq. apply app_inj_tail in Hseq as [Hseq Ei].
  cbn in Ei. subst i. rewrite length_app in *. cbn [length] in *.
  destruct IH as [Hk1 Hms]; [done|done|done|lia|lia|done|done|].
  destruct (dunes_log_facts _ _ _ _ _ _ _ _ Hl Hseq Hinv Hh) as [I1 _ _]; [lia|lia|].
  destruct (termless_run _ _ _ _ _ _ _ _ _ I1 Hh Hk1 Ht) as [Hk2 Hrec]. split; [done|].
  intros i tx' c [Hi|[= -> ->]%list_elem_of_singleton]%elem_of_app Hc; apply elem_of_app.
  - left. by eapply Hms.
  - right. apply list_elem_of_fmap. eauto.
Qed.

(** What an undo does to a counter at 0: nothing, or it panics. *)
Definition stays_zero (k : KDuneId) (o : outcome Error DunesDB) : Prop :=
  match o with
  | Ok d => lk (DuneMintsByIdKV d) k = 0
  | Err _ => False
  | Panic => True
  end.

Lemma foldM_stays_zero {A} (f : DunesDB → A → outcome Error DunesDB) k l d :
  (∀ d a, lk (DuneMintsByIdKV d) k = 0 → stays_zero k (f d a)) →
  lk (DuneMintsByIdKV d) k = 0 → stays_zero k (foldM f d l).
Proof.
  intros Hf. revert d. induction l as [|a l IH]; intros d Hd; [done|]. cbn [foldM].
  specialize (Hf d a Hd). destruct (f d a); cbn; [by apply IH|done|done].
Qed.

(** A fold with a step that panics at such a counter panics. *)
Lemma foldM_zero_panics {A} (f : DunesDB → A → outcome Error DunesDB) k l d x :
  (∀ d a, lk (DuneMintsByIdKV d) k = 0 → stays_zero k (f d a)) →
  (∀ d, lk (DuneMintsByIdKV d) k = 0 → f d x = Panic) →
  x ∈ l → lk (DuneMintsByIdKV d) k = 0 → foldM f d l = Panic.
Proof.
  intros Hf Hx. revert d. induction l as [|a l IH]; intros d Hin Hd; [by apply elem_of_nil in Hin|].
  cbn [foldM]. apply elem_of_cons in Hin as [->|Hin]; [by rewrite Hx|].
  specialize (Hf d a Hd). destruct (f d a); cbn; [by apply IH|done|done].
Qed.

Lemma undo_mint_stays_zero idx mints k d c :
  lk (DuneMintsByIdKV d) k = 0 → stays_zero k (undo_mint idx mints d c).
Proof.
  intros Hd. rewrite undo_mint_eq. destruct (recorded_key idx mints c) as [key|]; [|done].
  unfold checked_sub. destruct (try_into 128 _) as [n|] eqn:En; cbn; [|done].
  rewrite lk_insert_ne; [done|]. intros ->. rewrite Hd in En. apply try_into_Some in En as [-> En].
  unfold in_range in En. lia.
Qed.

Lemma undo_etch_stays_zero h idx ds k d :
  lk (DuneMintsByIdKV d) k = 0 → stays_zero k (undo_etch h idx ds d).
Proof.
  intros Hd. unfold undo_etch. destruct (etching ds) as [e|]; [|done].
  destruct (DuneTermsByIdKV d !! _); [|done]. destruct (e_dune e); [done|].
  destruct (checked_sub _ _ _); done.
Qed.

Lemma undo_dunes_stays_zero h all k d t :
  lk (DuneMintsByIdKV d) k = 0 → stays_zero k (undo_dunes_of h all d t).
Proof.
  intros Hd. unfold undo_dunes_of, undo_dunes. destruct (from_transaction _ _) as [ds|]; [|done].
  pose proof (undo_etch_stays_zero h (Z.of_nat t.1) ds k d Hd) as He.
  destruct (undo_etch _ _ _ _); cbn in He |- *; [|done|done].
  apply foldM_stays_zero; [|done]. intros. by apply undo_mint_stays_zero.
Qed.

(** Undoing a transaction with a recorded claim whose counter is at 0 panics. *)
Lemma undo_dunes_panics h all k d i tx c :
  claims_dune tx c k → (Z.of_nat i, wrap 16 (Z.of_nat c)) ∈ all →
  lk (DuneMintsByIdKV d) k = 0 → undo_dunes_of h all d (i, tx) = Panic.
Proof.
  intros (ds & v & Hds & _ & Hc & Hv) Hin Hd. unfold undo_dunes_of, undo_dunes. cbn [fst snd].
  rewrite Hds. pose proof (undo_etch_stays_zero h (Z.of_nat i) ds k d Hd) as He.
  destruct (undo_etch _ _ _ _) as [d1| |]; cbn in He |- *; [|done|done].
  apply (foldM_zero_panics _ k _ _ (c, v)); [by intros; apply undo_mint_stays_zero| | |done].
  - intros d2 H2. rewrite undo_mint_eq. unfold recorded_key. cbn [fst snd].
    rewrite decide_True by done. by rewrite Hv, H2.
  - apply elem_of_lookup_imap. eauto.
Qed.

Lemma undo_block_dunes_panics h all k d i tx c l :
  claims_dune tx c k → (i, tx) ∈ l → (Z.of_nat i, wrap 16 (Z.of_nat c)) ∈ all →
  lk (DuneMintsByIdKV d) k = 0 → foldM (undo_dunes_of h all) d (rev l) = Panic.
Proof.
  intros Hc Hin Hall Hd. apply (foldM_zero_panics _ k _ _ (i, tx)).
  - intros. by apply undo_dunes_stays_zero.
  - intros. by eapply undo_dunes_panics.
  - by rewrite <- Permutation_rev.
  - done.
Qed.

End dunes.

(** ** The whole block *)

Lemma undo_tx_split instructions h hash mints l d i r t d' r' t' :
  foldM (undo_dunes_of instructions h mints) d l = Ok d' →
  foldM (undo_txos_of hash) (r, t) l = Ok (r', t') →
  foldM (undo_tx instructions h hash mints) (mkUndoing d i r t) l
  = Ok (mkUndoing d' (foldl (λ i t, undo_partial t.2 i) i l) r' t').
Proof.
  revert d i r t. induction l as [|[n tx] l IH]; intros d i r t; cbn [foldM foldl].
  { intros [= ->] [= -> ->]. done. }
  unfold undo_tx at 1, undo_dunes_of at 1, undo_txos_of at 1.
  cbn [fst snd un_dunes un_insc un_resolver un_txos].
  destruct (undo_dunes _ _ _ _ _ d) as [d1| |]; [|done|done].
  destruct (undo_txos _ _ _ _) as [[r1 t1]| |]; [|done|done]. cbn [mbind outcome_bind].
  apply IH.
Qed.

Lemma undo_tx_panics instructions h hash mints l d i r t r' t' :
  foldM (undo_dunes_of instructions h mints) d l = Panic →
  foldM (undo_txos_of hash) (r, t) l = Ok (r', t') →
  foldM (undo_tx instructions h hash mints) (mkUndoing d i r t) l = Panic.
Proof.
  revert d i r t. induction l as [|[n tx] l IH]; intros d i r t; cbn [foldM]; [done|].
  unfold undo_tx at 1, undo_dunes_of at 1, undo_txos_of at 1.
  cbn [fst snd un_dunes un_insc un_resolver un_txos].
  destruct (undo_dunes _ _ _ _ _ d) as [d1| |]; [|done|done].
  destruct (undo_txos _ _ _ _) as [[r1 t1]| |]; [|done|done]. cbn [mbind outcome_bind].
  apply IH.
Qed.

Lemma undo_partials_lookup l i k :
  let i' := foldl (λ i (t : nat * Transaction), undo_partial t.2 i) i l in
  id_brc20 i' = id_brc20 i
  ∧ PartialTxidToTxidsKV i' !! k
    = (if decide (k ∈ map (λ t, txid t.2) l) then None else PartialTxidToTxidsKV i !! k)
  ∧ PartialTxidToBytesKV i' !! k
    = (if decide (k ∈ map (λ t, txid t.2) l) then None else PartialTxidToBytesKV i !! k).
Proof.
  cbn zeta. revert i. induction l as [|[n tx] l IH]; intros i; cbn [foldl map snd]; [done|].
  destruct (IH (undo_partial tx i)) as (-> & -> & ->). split; [done|].
  unfold undo_partial. cbn [PartialTxidToTxidsKV PartialTxidToBytesKV snd].
  set (ids := map (λ t : nat * Transaction, txid t.2) l).
  destruct (decide (k ∈ txid tx :: ids)) as [Hk|Hk].
  - apply elem_of_cons in Hk as [->|Hk].
    + rewrite !lookup_delete_eq. by destruct (decide (txid tx ∈ ids)).
    + by destruct (decide (k ∈ ids)).
  - apply not_elem_of_cons in Hk as [Hne Hk]. destruct (decide (k ∈ ids)); [done|].
    by rewrite !lookup_delete_ne by done.
Qed.

Section block.
Variable SUBSIDY_HALVING_INTERVAL : Z.
Variable instructions : list Z → list (outcome script_error Instruction).
Variable is_op_return : list Z → bool.
Variable to_lowercase : list Z → list Z.
Variable json_message : list Z → option RawProtocolMessage.
Variable script_hash : list Z → Z.
Variable subsidy : Z → Z.
Variable txout_len : TxOut → Z.
Hypothesis pushes_are_bytes :
  ∀ script push, Ok (PushBytes push) ∈ instructions script → bytes_ok push.

Local Abbreviation apply_block_with_context :=
  (apply_block_with_context SUBSIDY_HALVING_INTERVAL instructions is_op_return to_lowercase
     json_message script_hash subsidy txout_len).
Local Abbreviation undo_block := (undo_block instructions).

(** What a block and the tables satisfy before the block is applied. *)
Record block_ready (t : Tables) (mem : option UtxoResolver) (h : Z) (block : Block)
    (cb : Transaction) (txs : list Transaction) : Prop := {
  br_txs : txdata block = cb :: txs;
  br_height : u64_ok h;
  br_new : BlockByHeightKV t !! h = None ∧ ResolverByHeightKV t !! h = None;
  br_spends : valid_spends (TxoKV t) cb txs;
  br_mem : mem_ok (TxoKV t) mem;
  br_dunes : dunes_inv h 0 (DunesKV t);
  br_size : Z.of_nat (length (cb :: txs)) ≤ 2 ^ 16;
  br_reserved : default 0 (DunesReservedCountersKV (DunesKV t)) + Z.of_nat (length (cb :: txs))
                < umax 64;
  br_claims : Forall (few_claims instructions) (cb :: txs);
  br_tokens : brc20_range (id_brc20 (InscKV t));
  br_partials : Forall (λ tx, PartialTxidToTxidsKV (InscKV t) !! txid tx = None
                              ∧ PartialTxidToBytesKV (InscKV t) !! txid tx = None) (cb :: txs);
}.

(** Tables that no reader can tell apart (the log aside). *)
Definition tables_equiv (t1 t2 : Tables) : Prop :=
  BlockByHeightKV t1 = BlockByHeightKV t2 ∧ TxoKV t1 = TxoKV t2 ∧ DunesKV t1 ≡ DunesKV t2
  ∧ id_brc20 (InscKV t1) ≡ id_brc20 (InscKV t2)
  ∧ PartialTxidToTxidsKV (InscKV t1) = PartialTxidToTxidsKV (InscKV t2)
  ∧ PartialTxidToBytesKV (InscKV t1) = PartialTxidToBytesKV (InscKV t2)
  ∧ default default_counters (InscriptionCountersKV t1)
    = default default_counters (InscriptionCountersKV t2)
  ∧ ResolverByHeightKV t1 = ResolverByHeightKV t2.

(** The tables after a block, in terms of its processing. *)
Lemma apply_block_tables db h block mutable mem db' mem' :
  apply_block_with_context db h block mutable mem = Ok (db', mem') →
  let t := tables db in
  ∃ p s log, resolve_and_process SUBSIDY_HALVING_INTERVAL instructions is_op_return to_lowercase
      json_message script_hash subsidy txout_len db mem h block
      (default default_counters (InscriptionCountersKV t)) = Ok p
    ∧ foldM (stage_tx h (block_hash block) (pr_resolver p)) (mkStaging (TxoKV t) [] [])
        (txdata block) = Ok s
    ∧ ∃ entry, tables db' =
        mkTables (<[h := (block_hash block, block)]> (BlockByHeightKV t)) (sg_txos s) (pr_dunes p)
          (is_db (pr_insc p)) (Some (is_counters (pr_insc p)))
          (<[h := entry]> (ResolverByHeightKV t)) log
      ∧ re_hash entry = block_hash block
      ∧ re_resolver entry = filter (λ kv : TxoRef * TxoBody,
          kv.1 ∈ (list_to_set (all_input_refs block) : gset TxoRef)) (pr_resolver p)
      ∧ re_mints entry = pr_mints p
      ∧ re_counters entry = default default_counters (InscriptionCountersKV t)
      ∧ re_brc20 entry = pr_brc20 p.
Proof.
  unfold ChainDB.apply_block_with_context. intros H. cbn zeta.
  destruct (match last_block_hash db with Some _ => _ | None => _ end); [done|].
  apply outcome_bind_Ok in H as (p & Hp & H). apply outcome_bind_Ok in H as (s & Hs & H).
  injection H as <- _. unfold commit_block. exists p, s. eexists. split; [done|]. split; [done|].
  eexists. split; [reflexivity|]. done.
Qed.

Lemma imap_pair_snd {A} (l : list A) : map snd (imap pair l) = l.
Proof.
  change (map snd (imap pair l)) with ((imap pair l).*2). rewrite fmap_imap.
  apply list_eq. intros i. rewrite list_lookup_imap. by destruct (l !! i).
Qed.

Lemma imap_pair_fst {A} (l : list A) : (imap pair l).*1 = seq 0 (length l).
Proof.
  rewrite fmap_imap. apply list_eq. intros i. rewrite list_lookup_imap.
  destruct (l !! i) eqn:E.
  - rewrite lookup_seq_lt; [done|by eapply lookup_lt_Some].
  - rewrite lookup_seq_ge; [done|by apply lookup_ge_None].
Qed.

Lemma all_input_refs_ins block cb txs :
  txdata block = cb :: txs → all_input_refs block = ins txs.
Proof. intros H. unfold all_input_refs. by rewrite H. Qed.

(** Tokens and partial inscriptions. *)
Lemma undo_tokens db0 (log : brc20_log) db : brc20_range db0 →
  brc20_steps to_lowercase db0 (map snd log) db → undo_messages db (map snd log) ≡ db0.
Proof. intros. by eapply undo_steps. Qed.

Lemma undo_partials (i i' : InscDB) (all : list Transaction) :
  Forall (λ tx, PartialTxidToTxidsKV i !! txid tx = None
                ∧ PartialTxidToBytesKV i !! txid tx = None) all →
  (∀ k, k ∉ map txid all → PartialTxidToTxidsKV i' !! k = PartialTxidToTxidsKV i !! k
     ∧ PartialTxidToBytesKV i' !! k = PartialTxidToBytesKV i !! k) →
  let u := foldl (λ i (t : nat * Transaction), undo_partial t.2 i) i' (rev (imap pair all)) in
  id_brc20 u = id_brc20 i' ∧ PartialTxidToTxidsKV u = PartialTxidToTxidsKV i
  ∧ PartialTxidToBytesKV u = PartialTxidToBytesKV i.
Proof.
  intros Hnew Hoff u. rewrite Forall_forall in Hnew.
  assert (∀ k, k ∈ map (λ t : nat * Transaction, txid t.2) (rev (imap pair all))
    ↔ k ∈ map txid all) as Hk.
  { intros k. rewrite map_rev. rewrite <- (imap_pair_snd all) at 2. rewrite map_map.
    by rewrite (Permutation_rev (map _ (imap pair all))) at 2. }
  assert (∀ k, PartialTxidToTxidsKV u !! k = PartialTxidToTxidsKV i !! k
    ∧ PartialTxidToBytesKV u !! k = PartialTxidToBytesKV i !! k) as Hu.
  { intros k. destruct (undo_partials_lookup (rev (imap pair all)) i' k) as (_ & H1 & H2).
    fold u in H1, H2. rewrite H1, H2. clear H1 H2.
    destruct (decide _) as [Hin|Hin]; rewrite Hk in Hin.
    - apply list_elem_of_fmap in Hin as (tx & -> & Htx). by destruct (Hnew tx Htx) as [-> ->].
    - by apply Hoff. }
  split; [by apply (undo_partials_lookup (rev (imap pair all)) i' 0)|].
  split; apply map_eq; intros k; apply Hu.
Qed.

(** The outputs of an applied block are undone. *)
Lemma undo_outputs t mem h block cb txs p s :
  block_ready t mem h block cb txs →
  foldM (stage_tx h (block_hash block) (pr_resolver p)) (mkStaging (TxoKV t) [] [])
    (txdata block) = Ok s →
  (∀ k, k ∈ ins txs → ∃ b, pr_resolver p !! k = Some b
     ∧ (k ∉ outs (cb :: txs) → TxoKV t !! k = Some b)) →
  ∃ r, foldM (undo_txos_of (block_hash block))
         (filter (λ kv : TxoRef * TxoBody,
            kv.1 ∈ (list_to_set (all_input_refs block) : gset TxoRef)) (pr_resolver p), sg_txos s)
         (rev (imap pair (cb :: txs))) = Ok (r, TxoKV t).
Proof.
  intros R Hs Hres. apply undo_txos_block; [apply R| |].
  - intros k Hk. destruct (Hres k Hk) as (b & Hb & Ho). exists b. split; [|done].
    apply map_lookup_filter_Some. split; [done|]. cbn.
    rewrite (all_input_refs_ins _ _ _ (br_txs _ _ _ _ _ _ R)). by apply elem_of_list_to_set.
  - intros k Hk. rewrite (br_txs _ _ _ _ _ _ R) in Hs. by apply (stage_txs_lookup _ _ _ _ _ _ k Hs).
Qed.

Lemma apply_then_undo db h block mutable mem db' mem' cb txs :
  block_ready (tables db) mem h block cb txs →
  apply_block_with_context db h block mutable mem = Ok (db', mem') →
  ∃ ms ts, dunes_log SUBSIDY_HALVING_INTERVAL instructions is_op_return (first_rune_height db) h
      (network db) (imap pair (cb :: txs)) (DunesKV (tables db)) ms ts (DunesKV (tables db'))
    ∧ (Forall counted ts → ∀ m seq log, ∃ t' seq',
         undo_block m (mkTables (BlockByHeightKV (tables db')) (TxoKV (tables db'))
             (DunesKV (tables db')) (InscKV (tables db')) (InscriptionCountersKV (tables db'))
             (ResolverByHeightKV (tables db')) log, seq) (h, (block_hash block, block))
           = Ok (t', seq')
         ∧ tables_equiv t' (tables db)).
Proof.
  intros R H. apply apply_block_tables in H as (p & s & log0 & Hp & Hs & entry & -> & E1 & E2 & E3 & E4 & E5).
  destruct (resolve_and_process_spec _ _ _ _ _ _ _ _ _ _ _ _ _ _ _ _ (br_txs _ _ _ _ _ _ R)
              (br_mem _ _ _ _ _ _ R) Hp) as (Hres & [ts Hlog] & Hbrc & Hpart).
  exists (pr_mints p), ts. split; [exact Hlog|]. intros Hcnt m seq log.
  destruct (dunes_log_undone _ _ _ pushes_are_bytes _ _ _ _ _ _ _ _ (pr_mints p) Hlog)
    with (d := pr_dunes p) as (d0 & Hd0 & Ed0); try done.
  { by rewrite imap_pair_fst, length_imap. }
  { apply R. } { apply R. }
  { rewrite length_imap. apply R. } { rewrite length_imap. apply R. }
  { change ((imap pair (cb :: txs)).*2) with (map snd (imap pair (cb :: txs))).
    rewrite imap_pair_snd. apply R. }
  destruct (undo_outputs _ _ _ _ _ _ _ _ R Hs Hres) as [r Hr]. rewrite <- E2 in Hr.
  destruct (undo_partials (InscKV (tables db))
              (set_brc20 (undo_messages (id_brc20 (is_db (pr_insc p))) (map snd (pr_brc20 p)))
                 (is_db (pr_insc p))) (cb :: txs)) as (U1 & U2 & U3); [apply R|exact Hpart|].
  unfold ChainDB.undo_block. cbn [BlockByHeightKV TxoKV DunesKV InscKV ResolverByHeightKV MutableKV].
  rewrite lookup_insert_eq. cbn [ok_or mbind outcome_bind]. rewrite E1, Z.eqb_refl. cbn [negb].
  rewrite E3, E4, E5, (br_txs _ _ _ _ _ _ R).
  rewrite (undo_tx_split _ _ _ _ _ _ _ _ _ _ _ _ Hd0 Hr). cbn [mbind outcome_bind].
  eexists _, _. split; [reflexivity|]. destruct (br_new _ _ _ _ _ _ R) as [N1 N2].
  unfold tables_equiv. cbn [BlockByHeightKV TxoKV DunesKV InscKV ResolverByHeightKV un_txos un_dunes
    un_insc InscriptionCountersKV].
  rewrite !delete_insert_id by done. rewrite U1, U2, U3. repeat (split; [done|]).
  split; [|done]. apply undo_tokens; [apply R|exact Hbrc].
Qed.

(** The rollback to the last block but one undoes the last. *)
Lemma rollback_last db db' h block m tip tip_hash :
  BlockByHeightKV (tables db') = <[h := (block_hash block, block)]> (BlockByHeightKV (tables db)) →
  cursor db = Some (tip, tip_hash) → tip < h →
  ∃ bytes, rollback instructions db' tip tip_hash m
    = ('(t, seq) ← undo_block m (tables db', next_wal_seq db') (h, (block_hash block, block));
       Ok (commit_rollback db' tip tip_hash bytes m t seq)).
Proof.
  unfold cursor. intros Hb Hcur Hlt.
  destruct (last (sorted_entries (BlockByHeightKV (tables db)))) as [[t0 [h0 b0]]|] eqn:El; [|done].
  injection Hcur as -> ->. apply sorted_last in El; [|apply sorted_entries_sorted].
  destruct El as (pre & Epre & Fpre). exists b0.
  unfold rollback. rewrite Hb, sorted_entries_snoc, Epre.
  2: { intros k w Hk%sorted_entries_elem. rewrite Epre in Hk.
       apply elem_of_app in Hk as [Hk|Hk%list_elem_of_singleton];
         [|by injection Hk as -> ->]. rewrite Forall_forall in Fpre. apply Fpre in Hk. cbn in Hk. lia. }
  rewrite !filter_app. rewrite (list_filter_none _ pre).
  2: { eapply Forall_impl; [exact Fpre|]. intros y Hy. cbn in *. lia. }
  rewrite filter_cons_True by (cbn; lia). rewrite filter_cons_True by (cbn; lia).
  cbn [filter list_filter app]. rewrite !Z.eqb_refl. cbn [negb orb rev app foldM].
  by destruct (undo_block _ _ _) as [[t seq]| |].
Qed.

Lemma apply_block_blocks db h block mutable mem db' mem' :
  apply_block_with_context db h block mutable mem = Ok (db', mem') →
  BlockByHeightKV (tables db') = <[h := (block_hash block, block)]> (BlockByHeightKV (tables db)).
Proof. by intros (? & ? & ? & _ & _ & ? & -> & _)%apply_block_tables. Qed.

(** C1: rolling back the last block undoes it.  When a block is applied on the
    tip and the database is then rolled back to that tip, every table answers as
    it did before: outputs, partial inscriptions, stored blocks and resolvers are
    equal, token balances, mint counters, names, terms and counters read the
    same.  The rollback succeeds on its own, provided that every mint the block
    recorded had been counted (the log [ts] of the block says so).  The
    hypotheses on the block are what the node checks: outputs are new, nothing
    is spent twice, and spends are in order. *)
Theorem apply_then_rollback (db db' : ChainDB) (h : Z) (block : Block) (mutable : bool)
    (mem mem' : option UtxoResolver) (cb : Transaction) (txs : list Transaction)
    (tip : Z) (tip_hash : BlockHash) :
  block_ready (tables db) mem h block cb txs →
  cursor db = Some (tip, tip_hash) → tip < h →
  apply_block_with_context db h block mutable mem = Ok (db', mem') →
  ∃ ms ts, dunes_log SUBSIDY_HALVING_INTERVAL instructions is_op_return (first_rune_height db) h
      (network db) (imap pair (cb :: txs)) (DunesKV (tables db)) ms ts (DunesKV (tables db'))
    ∧ (Forall counted ts → ∀ m, ∃ db'',
         rollback instructions db' tip tip_hash m = Ok db''
         ∧ tables_equiv (tables db'') (tables db) ∧ last_block_hash db'' = Some tip_hash
         ∧ cursor db'' = cursor db).
Proof.
  intros R Hcur Hlt H.
  destruct (apply_then_undo _ _ _ _ _ _ _ _ _ R H) as (ms & ts & Hlog & Hundo).
  exists ms, ts. split; [done|]. intros Hcnt m.
  destruct (rollback_last db db' h block m tip tip_hash (apply_block_blocks _ _ _ _ _ _ _ H) Hcur Hlt)
    as [bytes ->].
  destruct (Hundo Hcnt m (next_wal_seq db') (MutableKV (tables db'))) as (t' & seq' & Hrun & Heq).
  destruct (tables db') as [B T D I C RR L] eqn:Et. cbn [BlockByHeightKV TxoKV DunesKV InscKV
    InscriptionCountersKV ResolverByHeightKV MutableKV] in *. rewrite Hrun.
  cbn [mbind outcome_bind]. eexists. split; [reflexivity|]. cbn [tables last_block_hash].
  split; [exact Heq|]. split; [done|]. destruct Heq as (E1 & _). unfold cursor. cbn. by rewrite E1.
Qed.

(** C40: a recorded mint that was not counted makes the rollback panic.  [mint]
    accepts every claim of a dune etched without terms (its cap reads as
    unbounded, its limit as 0), so the claim is recorded as a successful mint;
    as nothing can be allocated its counter is not incremented.  When any block
    with such a claim in any of its transactions (not a cenotaph) has been
    applied on the tip, and the dune was etched in an earlier block and its
    counter reads 0, the rollback to that tip decrements the counter from 0 and
    [expect] panics. *)
Theorem uncounted_mint_rollback_panics (db db' : ChainDB) (h : Z) (block : Block)
    (mutable : bool) (mem mem' : option UtxoResolver) (cb : Transaction)
    (txs : list Transaction) (tip : Z) (tip_hash : BlockHash)
    (i c : nat) (tx : Transaction) (k : KDuneId) :
  block_ready (tables db) mem h block cb txs →
  cursor db = Some (tip, tip_hash) → tip < h → first_rune_height db ≤ h →
  termless k (DunesKV (tables db)) →
  (cb :: txs) !! i = Some tx → claims_dune instructions tx c k →
  apply_block_with_context db h block mutable mem = Ok (db', mem') →
  (∃ entry, ResolverByHeightKV (tables db') !! h = Some entry
     ∧ (Z.of_nat i, wrap 16 (Z.of_nat c)) ∈ re_mints entry)
  ∧ lk (DuneMintsByIdKV (DunesKV (tables db'))) k = 0
  ∧ ∀ m, rollback instructions db' tip tip_hash m = Panic.
Proof.
  intros R Hcur Hlt Hfirst Hk Hi Hc H. pose proof (apply_block_blocks _ _ _ _ _ _ _ H) as Hb.
  apply apply_block_tables in H as (p & s & log0 & Hp & Hs & entry & Et & E1 & E2 & E3 & E4 & E5).
  destruct (resolve_and_process_spec _ _ _ _ _ _ _ _ _ _ _ _ _ _ _ _ (br_txs _ _ _ _ _ _ R)
              (br_mem _ _ _ _ _ _ R) Hp) as (Hres & [ts Hlog] & _ & _).
  destruct (undo_outputs _ _ _ _ _ _ _ _ R Hs Hres) as [r Hr]. rewrite <- E2 in Hr.
  assert ((i, tx) ∈ imap pair (cb :: txs)) as Hin by (apply elem_of_lookup_imap; eauto).
  destruct (termless_log _ _ _ pushes_are_bytes _ _ _ _ _ _ _ _ k Hlog) as [[_ H0] Hms];
    [by rewrite imap_pair_fst, length_imap|apply R|apply R|rewrite length_imap; apply R
    |rewrite length_imap; apply R|done|done|].
  specialize (Hms i tx c Hin Hc).
  split; [exists entry; rewrite Et, E3; split; [by apply lookup_insert_eq|done]|].
  split; [by rewrite Et|]. intros m.
  destruct (rollback_last db db' h block m tip tip_hash Hb Hcur Hlt) as [bytes ->].
  unfold ChainDB.undo_block. rewrite Et.
  cbn [BlockByHeightKV TxoKV DunesKV InscKV ResolverByHeightKV MutableKV].
  rewrite lookup_insert_eq. cbn [ok_or mbind outcome_bind]. rewrite E1, Z.eqb_refl. cbn [negb].
  rewrite E3, (br_txs _ _ _ _ _ _ R).
  rewrite (undo_tx_panics _ _ _ _ _ _ _ _ _ _ _
             (undo_block_dunes_panics instructions h _ k _ i tx c _ Hc Hin Hms H0) Hr). done.
Qed.

End block.

(** ** A sample: a block with one transaction, which mints *)

(** A claim of dune [2:1] with an edict that allocates it to output 2. *)
Definition sample_mint_tx : Transaction :=
  mkTransaction 8 [mkTxIn (mkOutPoint 7 0) []]
    [mkTxOut 0 [106; 1; 68; 10; 0; 190; 254; 254; 255; 134; 255; 1; 40; 2];
     mkTxOut 1 [81]; mkTxOut 2 [82]].

Definition sample_coinbase : Transaction :=
  mkTransaction 20 [mkTxIn (mkOutPoint 0 (umax 32)) []] [mkTxOut 50 [83]].

Definition sample_block : Block := mkBlock 101 100 [sample_coinbase; sample_mint_tx].

Definition sample_chain (dunes : DunesDB) : ChainDB :=
  mkChainDB
    (mkTables {[ 5999999 := (100, mkBlock 100 99 []) ]} sample_resolver dunes
       (mkInscDB empty_db ∅ ∅) None ∅ ∅)
    1 (Some 100) (Some 10) 5000000 0 Dogecoin.

Definition sample_apply (dunes : DunesDB) : outcome Error (ChainDB * option UtxoResolver) :=
  apply_block_with_context 210000 (simple_instructions 32) sample_is_op_return id no_json
    sample_hash (λ _, 100) value (sample_chain dunes) 6000000 sample_block true None.

Definition sample_applied (dunes : DunesDB) : ChainDB :=
  match sample_apply dunes with Ok (db, _) => db | _ => sample_chain dunes end.

Lemma sample_dunes_inv : dunes_inv 6000000 0 sample_db.
Proof.
  split; cbn.
  - intros n k. split.
    + intros [<- <-]%lookup_singleton_Some. eexists. by rewrite lookup_singleton_eq.
    + intros (t & [<- <-]%lookup_singleton_Some & <-). by rewrite lookup_singleton_eq.
  - intros k t [<- _]%lookup_singleton_Some. left. cbn. lia.
  - intros n k [<- _]%lookup_singleton_Some. unfold RESERVED. lia.
  - lia.
  - intros k m. by rewrite lookup_empty.
  - intros k t [_ <-]%lookup_singleton_Some. by vm_compute.
Qed.

Lemma sample_ready dunes :
  dunes_inv 6000000 0 dunes → default 0 (DunesReservedCountersKV dunes) = 0 →
  block_ready (simple_instructions 32) (tables (sample_chain dunes)) None 6000000 sample_block
    sample_coinbase [sample_mint_tx].
Proof.
  intros Hinv Hres. split.
  - reflexivity.
  - by vm_compute.
  - by vm_compute.
  - split; cbn [tables sample_chain TxoKV].
    + vm_compute. by repeat constructor.
    + by apply (bool_decide_unpack _); vm_compute.
    + vm_compute. by repeat constructor.
    + split; [|done]. by apply (bool_decide_unpack _); vm_compute.
  - exact I.
  - exact Hinv.
  - by vm_compute.
  - cbn [tables sample_chain DunesKV]. by rewrite Hres.
  - by repeat (constructor; [by vm_compute|]).
  - by split; intros k; cbn; rewrite lk_None by apply lookup_empty.
  - by repeat (constructor; [by vm_compute|]).
Qed.

Lemma apply_then_rollback_witness :
  ∃ ms ts, dunes_log 210000 (simple_instructions 32) sample_is_op_return 5000000 6000000 Dogecoin
      (imap pair [sample_coinbase; sample_mint_tx]) sample_db ms ts
      (DunesKV (tables (sample_applied sample_db)))
    ∧ (Forall counted ts → ∀ m, ∃ db'',
         rollback (simple_instructions 32) (sample_applied sample_db) 5999999 100 m = Ok db''
         ∧ tables_equiv (tables db'') (tables (sample_chain sample_db))
         ∧ last_block_hash db'' = Some 100
         ∧ cursor db'' = cursor (sample_chain sample_db)).
Proof.
  apply (apply_then_rollback 210000 (simple_instructions 32) sample_is_op_return id no_json
           sample_hash (λ _, 100) value (simple_instructions_bytes 32)
           (sample_chain sample_db) (sample_applied sample_db) 6000000 sample_block true None None
           sample_coinbase [sample_mint_tx] 5999999 100).
  - by apply sample_ready; [apply sample_dunes_inv|].
  - by vm_compute.
  - lia.
  - by vm_compute.
Defined.

(** Dune [2:1] etched without terms: nothing can be minted of it. *)
Definition no_terms_db : DunesDB :=
  mkDunesDB {[ 5 := mkKDuneId 2 1 ]}
    {[ mkKDuneId 2 1 := mkDuneTerms 5 None None None None ]} ∅ None.

Lemma no_terms_inv : dunes_inv 6000000 0 no_terms_db.
Proof.
  split; cbn.
  - intros n k. split.
    + intros [<- <-]%lookup_singleton_Some. eexists. by rewrite lookup_singleton_eq.
    + intros (t & [<- <-]%lookup_singleton_Some & <-). by rewrite lookup_singleton_eq.
  - intros k t [<- _]%lookup_singleton_Some. left. cbn. lia.
  - intros n k [<- _]%lookup_singleton_Some. unfold RESERVED. lia.
  - lia.
  - intros k m. by rewrite lookup_empty.
  - intros k t [_ <-]%lookup_singleton_Some. by vm_compute.
Qed.

Lemma uncounted_mint_rollback_panics_witness :
  (∃ entry, ResolverByHeightKV (tables (sample_applied no_terms_db)) !! 6000000 = Some entry
     ∧ (1, 0) ∈ re_mints entry)
  ∧ lk (DuneMintsByIdKV (DunesKV (tables (sample_applied no_terms_db)))) (mkKDuneId 2 1) = 0
  ∧ ∀ m, rollback (simple_instructions 32) (sample_applied no_terms_db) 5999999 100 m = Panic.
Proof.
  apply (uncounted_mint_rollback_panics 210000 (simple_instructions 32) sample_is_op_return id
           no_json sample_hash (λ _, 100) value (simple_instructions_bytes 32)
           (sample_chain no_terms_db) (sample_applied no_terms_db) 6000000 sample_block true None
           None sample_coinbase [sample_mint_tx] 5999999 100 1 0 sample_mint_tx (mkKDuneId 2 1)).
  - by apply sample_ready; [apply no_terms_inv|].
  - by vm_compute.
  - lia.
  - by vm_compute.
  - split; [|by vm_compute]. exists 5. by vm_compute.
  - reflexivity.
  - exists (mkDunestone [mkEdict 281474976841729 40 2] None None false), 131073.
    repeat (split; [by vm_compute|]). by vm_compute.
  - by vm_compute.
Defined.

(** The same block with terms rolls back. *)
Example counted_mint_rolls_back :
  is_ok (rollback (simple_instructions 32) (sample_applied sample_db) 5999999 100 true) = true.
Proof. by vm_compute. Qed.

End Rollback.
