(* ===== verification/KvTable.v ===== *)
(** The typed tables of the compressor over the bytes of RocksDB ([storage/kvtable.rs]):
    the codecs of keys and values, the operations of the trait [KVTable], the table of
    values by type; and the proof that a table with integer keys behaves as the finite
    map in key order that the rest of the development uses for it.

    A column family is a map from byte strings to byte strings; its iterators give the
    keys in the order of their bytes.  A transaction or a snapshot is the database it
    reads.  Failures of RocksDB are left out, a missing column family is a panic. *)

From S2P Require Import Prelude Types ChainDB.
Import Types.
Import ChainDB (sorted_entries, sorted_entries_elem, sorted_entries_sorted, key_lt, Log, is_apply, is_mark, log_height, log_hash).

Module KvTable.

#[local] Opaque be_bytes.

(** ** Codecs *)

(** [Box<[u8]>: From<A>] and [A: From<Box<[u8]>>]. *)
Record Codec (A : Type) : Type := mkCodec {
  to_bytes : A → list Z;
  from_bytes : list Z → outcome unit A;
}.
Arguments mkCodec {A}.
Arguments to_bytes {A}.
Arguments from_bytes {A}.

Definition DBInt : Codec Z := mkCodec DBInt_to_bytes DBInt_from_bytes.
Definition DBUInt128 : Codec Z := mkCodec DBUInt128_to_bytes DBUInt128_from_bytes.
Definition DuneIdKey : Codec KDuneId := mkCodec KDuneId_to_bytes KDuneId_from_bytes.
Definition DBHash32 : Codec (list Z) := mkCodec (λ b, b) DBHash32_from_bytes.
Definition DBBytes : Codec (list Z) := mkCodec (λ b, b) Ok.

(** [DBSerde], over [bincode]. *)
Definition DBSerde {V} (serialize : V → list Z) (deserialize : list Z → option V) : Codec V :=
  mkCodec serialize (λ b, unwrap (deserialize b)).

(** Keys that are only written: an integer before another key. *)
Definition WithDBIntPrefix {T} (c : Codec T) : Codec (Z * T) :=
  mkCodec (λ x, WithDBIntPrefix_to_bytes x.1 (to_bytes c x.2)) (λ _, Panic).

(** What is written is read back; the order of the bytes is the order of the integers. *)
Class Lawful {A} (c : Codec A) (wf : A → Prop) : Prop :=
  from_to a : wf a → from_bytes c (to_bytes c a) = Ok a.

Class Ordered (c : Codec Z) (wf : Z → Prop) : Prop :=
  to_bytes_cmp a b : wf a → wf b → bytes_cmp (to_bytes c a) (to_bytes c b) = Z.compare a b.

#[export] Instance DBInt_lawful : Lawful DBInt (in_range 64).
Proof. intros n Hn. cbn. rewrite <- (app_nil_r (DBInt_to_bytes n)). by apply (slice_be 8). Qed.
#[export] Instance DBInt_ordered : Ordered DBInt (in_range 64).
Proof. intros a b Ha Hb. by apply (bytes_cmp_be_bytes 8). Qed.
#[export] Instance DBUInt128_lawful : Lawful DBUInt128 (in_range 128).
Proof. intros n Hn. cbn. rewrite <- (app_nil_r (DBUInt128_to_bytes n)). by apply (slice_be 16). Qed.
#[export] Instance DBUInt128_ordered : Ordered DBUInt128 (in_range 128).
Proof. intros a b Ha Hb. by apply (bytes_cmp_be_bytes 16). Qed.
#[export] Instance DBHash32_lawful : Lawful DBHash32 (λ b, length b = 32%nat).
Proof. intros b Hb. cbn. unfold DBHash32_from_bytes, slice. rewrite Hb. cbn. by rewrite drop_0, take_ge by lia. Qed.
#[export] Instance DBBytes_lawful : Lawful DBBytes (λ _, True).
Proof. by intros b _. Qed.
#[export] Instance DBSerde_lawful {V} (ser : V → list Z) de (wf : V → Prop) :
  (∀ v, wf v → de (ser v) = Some v) → Lawful (DBSerde ser de) wf.
Proof. intros H v Hv. cbn. by rewrite H. Qed.

Lemma to_bytes_inj {A} (c : Codec A) wf `{!Lawful c wf} a b : wf a → wf b → to_bytes c a = to_bytes c b → a = b.
Proof. intros Ha Hb E. pose proof (from_to a Ha) as H1. rewrite E, (from_to b Hb) in H1. by injection H1. Qed.

(** ** The database *)

Abbreviation CF := (gmap (list Z) (list Z)).
Abbreviation Rocks := (gmap string CF).

Inductive Direction : Type := Forward | Reverse.
Inductive IteratorMode : Type := Start | End_ | From (key : list Z) (direction : Direction).

Definition raw_entries (cf : CF) : list (list Z * list Z) :=
  omap (λ k, pair k <$> cf !! k) (merge_sort bytes_le (map fst (map_to_list cf))).

(** [iterator_cf]. *)
Definition iterator_cf (cf : CF) (mode : IteratorMode) : list (list Z * list Z) :=
  match mode with
  | Start => raw_entries cf
  | End_ => reverse (raw_entries cf)
  | From key Forward => filter (λ e, bytes_le key e.1) (raw_entries cf)
  | From key Reverse => reverse (filter (λ e, bytes_le e.1 key) (raw_entries cf))
  end.

(** ** [KVTable] *)

Record KVTable (K V : Type) : Type := mkKVTable {
  CF_NAME : string;
  key_codec : Codec K;
  value_codec : Codec V;
}.
Arguments mkKVTable {K V}.
Arguments CF_NAME {K V}.
Arguments key_codec {K V}.
Arguments value_codec {K V}.

Section table.
Context {K V : Type} (t : KVTable K V).

Definition cf (db : Rocks) : outcome unit CF := unwrap (db !! CF_NAME t).

(** The column family dropped and created again. *)
Definition reset (db : Rocks) : outcome unit Rocks := _ ← cf db; Ok (<[CF_NAME t := ∅]> db).

Definition get_by_key (k : K) (db : Rocks) : outcome unit (option V) :=
  c ← cf db;
  match c !! to_bytes (key_codec t) k with
  | Some x => Some <$> from_bytes (value_codec t) x
  | None => Ok None
  end.

Definition stage_upsert (k : K) (v : V) (db : Rocks) : outcome unit Rocks :=
  c ← cf db; Ok (<[CF_NAME t := <[to_bytes (key_codec t) k := to_bytes (value_codec t) v]> c]> db).

Definition stage_delete (k : K) (db : Rocks) : outcome unit Rocks :=
  c ← cf db; Ok (<[CF_NAME t := delete (to_bytes (key_codec t) k) c]> db).

(** The iterators: every entry is decoded when it is reached. *)
Definition key_of (e : list Z * list Z) : outcome unit K := from_bytes (key_codec t) e.1.
Definition value_of (e : list Z * list Z) : outcome unit V := from_bytes (value_codec t) e.2.
Definition entry_of (e : list Z * list Z) : outcome unit (K * V) := k ← key_of e; v ← value_of e; Ok (k, v).

Definition iter_keys (mode : IteratorMode) (db : Rocks) : outcome unit (list (outcome unit K)) :=
  c ← cf db; Ok (map key_of (iterator_cf c mode)).
Definition iter_values (mode : IteratorMode) (db : Rocks) : outcome unit (list (outcome unit V)) :=
  c ← cf db; Ok (map value_of (iterator_cf c mode)).
Definition iter_entries (mode : IteratorMode) (db : Rocks) : outcome unit (list (outcome unit (K * V))) :=
  c ← cf db; Ok (map entry_of (iterator_cf c mode)).

Definition iter_entries_from (from : K) : Rocks → outcome unit (list (outcome unit (K * V))) :=
  iter_entries (From (to_bytes (key_codec t) from) Forward).
Definition iter_values_from_reverse (from : K) : Rocks → outcome unit (list (outcome unit V)) :=
  iter_values (From (to_bytes (key_codec t) from) Reverse).

Definition is_empty (db : Rocks) : outcome unit bool :=
  iter ← iter_keys Start db;
  match iter with [] => Ok true | k :: _ => _ ← k; Ok false end.

(** The first item of an iterator. *)
Definition first_of {A} (iter : list (outcome unit A)) : outcome unit (option A) :=
  match iter with [] => Ok None | x :: _ => Some <$> x end.

Definition last_key (db : Rocks) : outcome unit (option K) := iter ← iter_keys End_ db; first_of iter.
Definition last_value (db : Rocks) : outcome unit (option V) := iter ← iter_values End_ db; first_of iter.
Definition last_entry (db : Rocks) : outcome unit (option (K * V)) := iter ← iter_entries End_ db; first_of iter.

Fixpoint scan (predicate bail_predicate : V → bool) (iter : list (outcome unit (K * V))) : outcome unit (option K) :=
  match iter with
  | [] => Ok None
  | entry :: iter =>
      '(k, v) ← entry;
      if predicate v then Ok (Some k)
      else if bail_predicate v then Ok None
      else scan predicate bail_predicate iter
  end.

Definition scan_until (mode : IteratorMode) (predicate : V → bool) (db : Rocks) : outcome unit (option K) :=
  iter ← iter_entries mode db; scan predicate (λ _, false) iter.
Definition scan_until_or (mode : IteratorMode) (predicate bail_predicate : V → bool) (db : Rocks)
  : outcome unit (option K) :=
  iter ← iter_entries mode db; scan predicate bail_predicate iter.

End table.

(** ** [AnyTable] *)

Definition AnyTable : KVTable Z (list Z) := mkKVTable "DefaultKV" DBInt DBBytes.

(** A value kept under the key of its type. *)
Definition stage_upsert_any {T} (type_key : Z) (serialize : T → list Z) (v : T) (db : Rocks) : outcome unit Rocks :=
  stage_upsert AnyTable type_key (serialize v) db.

Definition get_any {T} (type_key : Z) (deserialize : list Z → option T) (db : Rocks) : outcome unit (option T) :=
  raw ← get_by_key AnyTable type_key db;
  match raw with Some b => Some <$> unwrap (deserialize b) | None => Ok None end.

(** ** Bytes in order *)

(** Lists in strict order with the same elements are equal. *)
Lemma strictly_sorted_unique {A} (R : relation A) `{!Irreflexive R, !Transitive R} (l1 l2 : list A) :
  StronglySorted R l1 → StronglySorted R l2 → (∀ x, x ∈ l1 ↔ x ∈ l2) → l1 = l2.
Proof.
  revert l2. induction l1 as [|x l1 IH]; intros [|y l2] H1 H2 H; [done| | |].
  - exfalso. apply (not_elem_of_nil y), H. by left.
  - exfalso. apply (not_elem_of_nil x), H. by left.
  - apply StronglySorted_inv in H1 as [H1 Hx]. apply StronglySorted_inv in H2 as [H2 Hy].
    rewrite Forall_forall in Hx, Hy.
    assert (x = y) as <-.
    { destruct (proj1 (elem_of_cons _ _ _) (proj1 (H x) ltac:(by left))) as [|Hxl]; [done|].
      destruct (proj1 (elem_of_cons _ _ _) (proj2 (H y) ltac:(by left))) as [|Hyl]; [done|].
      exfalso. apply (irreflexivity R x). by transitivity y; [apply Hx|apply Hy]. }
    f_equal. apply IH; [done|done|]. intros z. specialize (H z).
    rewrite !elem_of_cons in H. split; intros Hz.
    + destruct (proj1 H (or_intror Hz)) as [->|]; [|done]. by destruct (irreflexivity R x (Hx x Hz)).
    + destruct (proj2 H (or_intror Hz)) as [->|]; [|done]. by destruct (irreflexivity R x (Hy x Hz)).
Qed.

Definition raw_lt (a b : list Z * list Z) : Prop := bytes_lt a.1 b.1.
#[export] Instance raw_lt_irrefl : Irreflexive raw_lt.
Proof. intros a H. by apply (bytes_lt_irrefl a.1). Qed.
#[export] Instance raw_lt_trans : Transitive raw_lt.
Proof. intros a b c. unfold raw_lt. apply bytes_lt_trans. Qed.

Lemma raw_entries_elem (c : CF) k v : (k, v) ∈ raw_entries c ↔ c !! k = Some v.
Proof.
  unfold raw_entries. rewrite list_elem_of_omap. split.
  - intros (k' & _ & H). destruct (c !! k') eqn:E; [|done]. by injection H as <- <-.
  - intros H. exists k. rewrite H. split; [|done]. rewrite (merge_sort_Permutation bytes_le).
    apply list_elem_of_fmap. exists (k, v). split; [done|]. by apply elem_of_map_to_list.
Qed.

Lemma raw_entries_sorted (c : CF) : StronglySorted raw_lt (raw_entries c).
Proof.
  unfold raw_entries. set (ks := merge_sort bytes_le (map fst (map_to_list c))).
  assert (Hs : StronglySorted bytes_lt ks).
  { assert (NoDup ks) as Hnd by (unfold ks; rewrite (merge_sort_Permutation bytes_le); apply NoDup_fst_map_to_list).
    assert (StronglySorted bytes_le ks) as Hs.
    { apply Sorted_StronglySorted; [apply _|]. apply (Sorted_merge_sort bytes_le). }
    clearbody ks. induction ks as [|k l IH]; [constructor|].
    apply StronglySorted_inv in Hs as [Hs Hk]. apply NoDup_cons in Hnd as [Hn Hnd].
    constructor; [by apply IH|]. rewrite Forall_forall in *. intros x Hx. specialize (Hk x Hx).
    unfold bytes_lt, bytes_le in *. destruct (bytes_cmp k x) eqn:E; [|done|done].
    apply bytes_cmp_Eq in E as ->. done. }
  clearbody ks. induction Hs as [|k l Hs IH Hk]; [constructor|]. cbn [omap list_omap].
  destruct (c !! k) as [v|] eqn:E; cbn; [|done]. constructor; [done|].
  apply Forall_forall. intros [k' v'] (k2 & Hk2 & H)%list_elem_of_omap.
  destruct (c !! k2) eqn:E2; [|done]. injection H as <- <-. rewrite Forall_forall in Hk. by apply Hk.
Qed.

Section refinement.
Context {V : Type} (t : KVTable Z V) (wf : Z → Prop) (wfv : V → Prop).
Context `{!Lawful (key_codec t) wf, !Ordered (key_codec t) wf, !Lawful (value_codec t) wfv}.

Abbreviation kb := (to_bytes (key_codec t)).
Abbreviation vb := (to_bytes (value_codec t)).

(** The bytes of a table of typed entries. *)
Definition represents (c : CF) (m : gmap Z V) : Prop :=
  (∀ k v, m !! k = Some v → wf k ∧ wfv v ∧ c !! kb k = Some (vb v))
  ∧ (∀ rk rv, c !! rk = Some rv → ∃ k v, m !! k = Some v ∧ rk = kb k ∧ rv = vb v).

Definition raw (e : Z * V) : list Z * list Z := (kb e.1, vb e.2).

(** The bytes are met in the order of the keys. *)
Lemma represents_entries c m : represents c m → raw_entries c = map raw (sorted_entries m).
Proof.
  intros [H1 H2]. apply (strictly_sorted_unique raw_lt); [apply raw_entries_sorted| |].
  - assert (Hwf : Forall (λ e, wf e.1) (sorted_entries m)).
    { apply Forall_forall. intros [k v] Hk%sorted_entries_elem. by apply H1 in Hk as [? _]. }
    induction (sorted_entries_sorted m) as [|e l Hs IH He]; [constructor|].
    apply Forall_cons in Hwf as [Hwe Hwl]. constructor; [by apply IH|].
    apply Forall_forall. intros x (y & -> & Hy)%list_elem_of_fmap. rewrite Forall_forall in He, Hwl.
    unfold raw_lt, bytes_lt, raw. cbn. rewrite (to_bytes_cmp _ _ Hwe (Hwl _ Hy)).
    apply Z.compare_lt_iff. by apply He.
  - intros [rk rv]. rewrite raw_entries_elem, list_elem_of_fmap. split.
    + intros (k & v & Hk & -> & ->)%H2. exists (k, v). split; [done|]. by apply sorted_entries_elem.
    + intros ([k v] & [= -> ->] & Hk%sorted_entries_elem). by apply H1 in Hk as (_ & _ & ?).
Qed.

Lemma represents_empty : represents ∅ ∅.
Proof. split; intros ? ? H; by rewrite lookup_empty in H. Qed.

Lemma represents_lookup c m k : represents c m → wf k → c !! kb k = vb <$> m !! k.
Proof.
  intros [H1 H2] Hk. destruct (m !! k) as [v|] eqn:E; [by apply H1 in E as (_ & _ & ?)|].
  destruct (c !! kb k) as [rv|] eqn:Ec; [|done].
  apply H2 in Ec as (k' & v & Hk' & Ek & _). apply (to_bytes_inj (key_codec t) wf) in Ek; [|done|by apply H1 in Hk' as [? _]].
  subst. congruence.
Qed.

Lemma represents_insert c m k v : represents c m → wf k → wfv v → represents (<[kb k := vb v]> c) (<[k := v]> m).
Proof.
  intros [H1 H2] Hk Hv. split.
  - intros k' v' [[<- <-]|[Hne Hk']]%lookup_insert_Some; [by rewrite lookup_insert_eq|].
    destruct (H1 _ _ Hk') as (Hw & Hwv & Hc). split_and!; [done..|]. rewrite lookup_insert_ne; [done|].
    intros E. apply Hne. by apply (to_bytes_inj (key_codec t) wf).
  - intros rk rv [[<- <-]|[Hne Hc]]%lookup_insert_Some.
    + exists k, v. by rewrite lookup_insert_eq.
    + apply H2 in Hc as (k' & v' & Hk' & -> & ->). exists k', v'. split_and!; [|done..].
      rewrite lookup_insert_ne; [done|]. by intros ->.
Qed.

Lemma represents_delete c m k : represents c m → wf k → represents (delete (kb k) c) (delete k m).
Proof.
  intros [H1 H2] Hk. split.
  - intros k' v' [Hne Hk']%lookup_delete_Some. destruct (H1 _ _ Hk') as (Hw & Hwv & Hc). split_and!; [done..|].
    rewrite lookup_delete_ne; [done|]. intros E. apply Hne. by apply (to_bytes_inj (key_codec t) wf).
  - intros rk rv [Hne Hc]%lookup_delete_Some. apply H2 in Hc as (k' & v' & Hk' & -> & ->).
    exists k', v'. split_and!; [|done..]. rewrite lookup_delete_ne; [done|]. by intros ->.
Qed.

(** ** The operations on typed entries *)

Inductive Mode : Type := FromStart | FromEnd | FromKey (k : Z) (d : Direction).

Definition raw_mode (mode : Mode) : IteratorMode :=
  match mode with FromStart => Start | FromEnd => End_ | FromKey k d => From (kb k) d end.

Definition mode_wf (mode : Mode) : Prop := match mode with FromKey k _ => wf k | _ => True end.

Definition entries_in (mode : Mode) (m : gmap Z V) : list (Z * V) :=
  match mode with
  | FromStart => sorted_entries m
  | FromEnd => reverse (sorted_entries m)
  | FromKey k Forward => filter (λ e, k ≤ e.1) (sorted_entries m)
  | FromKey k Reverse => reverse (filter (λ e, e.1 ≤ k) (sorted_entries m))
  end.

Fixpoint scan_entries (found bail : V → bool) (l : list (Z * V)) : option Z :=
  match l with
  | [] => None
  | (k, v) :: l => if found v then Some k else if bail v then None else scan_entries found bail l
  end.

Inductive Op : Type :=
| Upsert (k : Z) (v : V)
| Delete (k : Z)
| Get (k : Z)
| IsEmpty
| LastEntry
| Entries (mode : Mode)
| Values (mode : Mode)
| ScanUntilOr (mode : Mode) (found bail : V → bool)
| ScanUntil (mode : Mode) (found : V → bool).

Inductive Out : Type :=
| Done
| Value (v : option V)
| Flag (b : bool)
| Entry (e : option (Z * V))
| AllEntries (l : list (Z * V))
| AllValues (l : list V)
| Key (k : option Z).

Definition op_wf (op : Op) : Prop :=
  match op with
  | Upsert k v => wf k ∧ wfv v
  | Delete k | Get k => wf k
  | Entries mode | Values mode | ScanUntilOr mode _ _ | ScanUntil mode _ => mode_wf mode
  | IsEmpty | LastEntry => True
  end.

Definition typed_op (op : Op) (m : gmap Z V) : gmap Z V * Out :=
  match op with
  | Upsert k v => (<[k := v]> m, Done)
  | Delete k => (delete k m, Done)
  | Get k => (m, Value (m !! k))
  | IsEmpty => (m, Flag (match sorted_entries m with [] => true | _ => false end))
  | LastEntry => (m, Entry (last (sorted_entries m)))
  | Entries mode => (m, AllEntries (entries_in mode m))
  | Values mode => (m, AllValues (map snd (entries_in mode m)))
  | ScanUntilOr mode found bail => (m, Key (scan_entries found bail (entries_in mode m)))
  | ScanUntil mode found => (m, Key (scan_entries found (λ _, false) (entries_in mode m)))
  end.

(** An iterator read to its end. *)
Fixpoint collect {A} (iter : list (outcome unit A)) : outcome unit (list A) :=
  match iter with [] => Ok [] | x :: iter => a ← x; rest ← collect iter; Ok (a :: rest) end.

Definition byte_op (op : Op) (db : Rocks) : outcome unit (Rocks * Out) :=
  match op with
  | Upsert k v => db ← stage_upsert t k v db; Ok (db, Done)
  | Delete k => db ← stage_delete t k db; Ok (db, Done)
  | Get k => v ← get_by_key t k db; Ok (db, Value v)
  | IsEmpty => b ← is_empty t db; Ok (db, Flag b)
  | LastEntry => e ← last_entry t db; Ok (db, Entry e)
  | Entries mode => iter ← iter_entries t (raw_mode mode) db; l ← collect iter; Ok (db, AllEntries l)
  | Values mode => iter ← iter_values t (raw_mode mode) db; l ← collect iter; Ok (db, AllValues l)
  | ScanUntilOr mode found bail => k ← scan_until_or t (raw_mode mode) found bail db; Ok (db, Key k)
  | ScanUntil mode found => k ← scan_until t (raw_mode mode) found db; Ok (db, Key k)
  end.

Fixpoint byte_ops (ops : list Op) (db : Rocks) : outcome unit (Rocks * list Out) :=
  match ops with
  | [] => Ok (db, [])
  | op :: ops => '(db, out) ← byte_op op db; '(db, outs) ← byte_ops ops db; Ok (db, out :: outs)
  end.

Fixpoint typed_ops (ops : list Op) (m : gmap Z V) : gmap Z V * list Out :=
  match ops with
  | [] => (m, [])
  | op :: ops => let r := typed_op op m in let r' := typed_ops ops r.1 in (r'.1, r.2 :: r'.2)
  end.

Lemma filter_raw (P : list Z * list Z → Prop) (Q : Z * V → Prop) `{!∀ x, Decision (P x), !∀ x, Decision (Q x)} l :
  (∀ e, e ∈ l → P (raw e) ↔ Q e) → filter P (map raw l) = map raw (filter Q l).
Proof.
  induction l as [|e l IH]; intros HPQ; [done|]. cbn [map]. rewrite !filter_cons, IH by (intros; apply HPQ; by right).
  pose proof (HPQ e ltac:(by left)) as He. destruct (decide (P (raw e))), (decide (Q e)); tauto.
Qed.

Lemma raw_le (m : gmap Z V) k (e : Z * V) :
  (∀ k v, m !! k = Some v → wf k) → wf k → e ∈ sorted_entries m →
  (bytes_le (kb k) (kb e.1) ↔ k ≤ e.1) ∧ (bytes_le (kb e.1) (kb k) ↔ e.1 ≤ k).
Proof.
  intros Hm Hk He. destruct e as [k' v]. apply sorted_entries_elem, Hm in He. cbn.
  unfold bytes_le. rewrite !to_bytes_cmp by done. split; [|]; rewrite Z.compare_gt_iff; lia.
Qed.

Lemma iterator_typed c m mode :
  represents c m → mode_wf mode → iterator_cf c (raw_mode mode) = map raw (entries_in mode m).
Proof.
  intros Hr Hm. pose proof (represents_entries _ _ Hr) as E. destruct Hr as [H1 _].
  assert (Hwf : ∀ k v, m !! k = Some v → wf k) by (intros k v Hk; by apply H1 in Hk as [? _]).
  destruct mode as [| |k []]; cbn [raw_mode iterator_cf entries_in mode_wf] in *; rewrite E.
  - done.
  - symmetry. apply (fmap_reverse raw).
  - apply filter_raw. intros e He. by apply (raw_le m).
  - etrans; [|symmetry; apply (fmap_reverse raw)]. f_equal. apply filter_raw. intros e He. by apply (raw_le m).
Qed.

Lemma entry_of_raw e : wf e.1 → wfv e.2 → entry_of t (raw e) = Ok e.
Proof.
  intros Hk Hv. unfold entry_of, key_of, value_of, raw. cbn. rewrite from_to by done. cbn. rewrite from_to by done.
  by destruct e.
Qed.

Lemma entries_wf c m mode e : represents c m → e ∈ entries_in mode m → wf e.1 ∧ wfv e.2.
Proof.
  intros [H1 _] He. assert (e ∈ sorted_entries m) as He'.
  { destruct mode as [| |k []]; cbn in He; rewrite ?elem_of_reverse, ?list_elem_of_filter in He; tauto. }
  destruct e as [k v]. apply sorted_entries_elem, H1 in He'. tauto.
Qed.

Lemma iter_entries_typed db c m mode :
  db !! CF_NAME t = Some c → represents c m → mode_wf mode →
  iter_entries t (raw_mode mode) db = Ok (map Ok (entries_in mode m)).
Proof.
  intros Hdb Hr Hm. unfold iter_entries, cf. rewrite Hdb. cbn. rewrite (iterator_typed _ m) by done. f_equal.
  rewrite map_map. apply map_ext_in. intros e He%list_elem_of_In. destruct (entries_wf _ _ _ _ Hr He).
  by apply entry_of_raw.
Qed.

Lemma iter_values_typed db c m mode :
  db !! CF_NAME t = Some c → represents c m → mode_wf mode →
  iter_values t (raw_mode mode) db = Ok (map (λ e, Ok e.2) (entries_in mode m)).
Proof.
  intros Hdb Hr Hm. unfold iter_values, cf. rewrite Hdb. cbn. rewrite (iterator_typed _ m) by done. f_equal.
  rewrite map_map. apply map_ext_in. intros e He%list_elem_of_In. destruct (entries_wf _ _ _ _ Hr He) as [_ Hv].
  unfold value_of. by apply from_to.
Qed.

Lemma collect_Ok {A B} (f : A → B) l : collect (map (λ a, Ok (f a)) l) = Ok (map f l).
Proof. induction l as [|a l IH]; [done|]. cbn [map collect]. cbn. by rewrite IH. Qed.

Lemma scan_Ok found bail l : scan found bail (map Ok l) = Ok (scan_entries found bail l).
Proof.
  induction l as [|[k v] l IH]; [done|]. cbn [map scan scan_entries]. cbn.
  destruct (found v); [done|]. by destruct (bail v).
Qed.

(** One operation: the same answer, and bytes that represent the same entries. *)
Lemma byte_op_refines op db c m :
  db !! CF_NAME t = Some c → represents c m → op_wf op →
  ∃ db' c', byte_op op db = Ok (db', (typed_op op m).2) ∧ db' !! CF_NAME t = Some c'
    ∧ represents c' (typed_op op m).1 ∧ (∀ name, name ≠ CF_NAME t → db' !! name = db !! name).
Proof.
  intros Hdb Hr Hop. destruct op as [k v|k|k| | |mode|mode|mode f b|mode f]; cbn [byte_op typed_op fst snd op_wf] in *.
  - unfold stage_upsert, cf. rewrite Hdb. cbn. eexists _, _. split; [done|]. rewrite lookup_insert_eq.
    split_and!; [done|by apply represents_insert; tauto|]. intros name Hn. by rewrite lookup_insert_ne.
  - unfold stage_delete, cf. rewrite Hdb. cbn. eexists _, _. split; [done|]. rewrite lookup_insert_eq.
    split_and!; [done|by apply represents_delete|]. intros name Hn. by rewrite lookup_insert_ne.
  - exists db, c. split_and!; [|done..]. unfold get_by_key, cf. rewrite Hdb. cbn.
    rewrite (represents_lookup c m) by done. destruct (m !! k) as [v|] eqn:E; [|done]. cbn.
    rewrite from_to; [done|]. destruct Hr as [H1 _]. by apply H1 in E as (_ & ? & _).
  - exists db, c. split_and!; [|done..]. unfold is_empty, iter_keys, cf. rewrite Hdb. cbn.
    rewrite (represents_entries c m Hr). destruct (sorted_entries m) as [|[k v] l] eqn:E; [done|]. cbn.
    unfold key_of. cbn. rewrite from_to; [done|]. destruct Hr as [H1 _].
    apply (H1 k v). apply sorted_entries_elem. rewrite E. by left.
  - exists db, c. split_and!; [|done..]. unfold last_entry.
    change End_ with (raw_mode FromEnd). rewrite (iter_entries_typed db c m FromEnd) by done. cbn.
    destruct (sorted_entries m) as [|e l _] using rev_ind; [done|]. rewrite reverse_app, last_snoc. done.
  - exists db, c. split_and!; [|done..]. rewrite (iter_entries_typed db c m mode) by done. cbn.
    by rewrite (collect_Ok (λ e, e)), map_id.
  - exists db, c. split_and!; [|done..]. rewrite (iter_values_typed db c m mode) by done. cbn.
    by rewrite (collect_Ok snd).
  - exists db, c. split_and!; [|done..]. unfold scan_until_or. rewrite (iter_entries_typed db c m mode) by done. cbn.
    by rewrite scan_Ok.
  - exists db, c. split_and!; [|done..]. unfold scan_until. rewrite (iter_entries_typed db c m mode) by done. cbn.
    by rewrite scan_Ok.
Qed.

(** C3: A typed table over RocksDB is a finite map in key order.  For integer keys and
    any values whose codec reads back what it wrote, every sequence of operations on the
    bytes (upserts, deletions, reads, the last entry, iteration from the start, the end
    or a key in either direction, scans) answers what the map answers, without a panic,
    and leaves bytes that represent the map; the other tables are not touched. *)
Theorem table_refines_map ops db c m :
  db !! CF_NAME t = Some c → represents c m → Forall op_wf ops →
  ∃ db' c', byte_ops ops db = Ok (db', (typed_ops ops m).2) ∧ db' !! CF_NAME t = Some c'
    ∧ represents c' (typed_ops ops m).1 ∧ (∀ name, name ≠ CF_NAME t → db' !! name = db !! name).
Proof.
  intros Hdb Hr Hops. induction Hops as [|op ops Hop _ IH] in db, c, m, Hdb, Hr |- *; [by exists db, c|].
  destruct (byte_op_refines op db c m Hdb Hr Hop) as (db1 & c1 & E1 & Hdb1 & Hr1 & Hn1).
  destruct (IH db1 c1 _ Hdb1 Hr1) as (db2 & c2 & E2 & Hdb2 & Hr2 & Hn2).
  exists db2, c2. cbn [byte_ops typed_ops fst snd]. rewrite E1. cbn. rewrite E2. split_and!; [done..|].
  intros name Hn. by rewrite Hn2, Hn1.
Qed.

End refinement.

(** ** The tables of the compressor *)

#[export] Instance DuneIdKey_lawful : Lawful DuneIdKey (λ i, u64_ok (kd_block i) ∧ u64_ok (kd_tx i)).
Proof.
  intros i [Hb Ht]. cbn. rewrite <- (app_nil_r (KDuneId_to_bytes i)).
  by apply (table_keys_roundtrip i i 0 []).
Qed.

(** A value kept under the key of its type is read back. *)
Lemma get_upsert_any {T} key (ser : T → list Z) de v db c :
  db !! CF_NAME AnyTable = Some c → de (ser v) = Some v →
  stage_upsert_any key ser v db ≫= get_any key de = Ok (Some v).
Proof.
  intros Hdb Hv. unfold stage_upsert_any, stage_upsert, get_any, get_by_key, cf. rewrite Hdb. cbn [unwrap mbind outcome_bind].
  rewrite lookup_insert_eq. cbn [unwrap mbind outcome_bind]. rewrite lookup_insert_eq. cbn. by rewrite Hv.
Qed.

Section log.
Context (serialize : Log → list Z) (deserialize : list Z → option Log) (wfl : Log → Prop).
Context (Hde : ∀ l, wfl l → deserialize (serialize l) = Some l).

Definition MutableTable : KVTable Z Log := mkKVTable "MutableKV" DBInt (DBSerde serialize deserialize).

#[local] Instance log_lawful : Lawful (value_codec MutableTable) wfl := DBSerde_lawful serialize deserialize wfl Hde.
#[local] Instance log_key_lawful : Lawful (key_codec MutableTable) (in_range 64) := DBInt_lawful.
#[local] Instance log_key_ordered : Ordered (key_codec MutableTable) (in_range 64) := DBInt_ordered.

Lemma scan_entries_log found bail l : scan_entries found bail l = ChainDB.ChainDB.scan_until_or found bail l.
Proof. induction l as [|[k v] l IH]; [done|]. cbn. by rewrite IH. Qed.

(** The search in the bytes of the log is the search in the log. *)
Lemma find_wal_seq_bytes db c (m : gmap Z Log) height hash :
  db !! CF_NAME MutableTable = Some c → represents MutableTable (in_range 64) wfl c m →
  scan_until_or MutableTable Start
    (λ v, (is_apply v || is_mark v) && (log_height v =? height) && (log_hash v =? hash))
    (λ v, height <=? log_height v) db
  = Ok (ChainDB.ChainDB.find_wal_seq m height hash).
Proof.
  intros Hdb Hr. unfold scan_until_or. change Start with (raw_mode MutableTable FromStart).
  rewrite (iter_entries_typed MutableTable (in_range 64) wfl db c m) by done. cbn [mbind outcome_bind].
  by rewrite scan_Ok, scan_entries_log.
Qed.

End log.

(** A table of heights with three entries, of which one is deleted. *)
Definition height_table : KVTable Z Z := mkKVTable "HeightKV" DBInt DBUInt128.
Definition height_ops : list (Op (V := Z)) :=
  [Upsert 300 7; Upsert 5 8; Upsert 70000 9; Delete 300; Get 5; LastEntry; Entries (FromKey 6 Forward);
   Values FromEnd; ScanUntilOr FromStart (Z.eqb 9) (λ _, false)].

Example height_outs :
  (typed_ops height_ops ∅).2
  = [Done; Done; Done; Done; Value (Some 8); Entry (Some (70000, 9)); AllEntries [(70000, 9)]; AllValues [9; 8];
     Key (Some 70000)].
Proof. by vm_compute. Qed.

Lemma table_refines_map_witness :
  ∃ db' c', byte_ops height_table height_ops {[ "HeightKV" := ∅ ]} = Ok (db', (typed_ops height_ops ∅).2)
    ∧ db' !! CF_NAME height_table = Some c'
    ∧ represents height_table (in_range 64) (in_range 128) c' (typed_ops height_ops ∅).1
    ∧ (∀ name, name ≠ CF_NAME height_table → db' !! name = ({[ "HeightKV" := ∅ ]} : Rocks) !! name).
Proof.
  apply (table_refines_map height_table (in_range 64) (in_range 128) height_ops {[ "HeightKV" := ∅ ]} ∅ ∅).
  - by vm_compute.
  - apply represents_empty.
  - repeat constructor; by vm_compute.
Defined.

End KvTable.
