(* ===== verification/Timbre.v ===== *)
(** The key and value encodings of the [timbre-xbt] crate.

    - [src/encdec/encode.rs], [decode.rs]: the traits [Encode] and [Decode] with
      their implementations, as the classes [Encode] and [Decode]; [Lawful] is
      what the rest relies on: decoding an encoding gives the value back and
      leaves what follows it;
    - [src/encdec/builder.rs], [namespace.rs]: keys of the store;
    - [src/lib.rs], [src/reducers/mod.rs], [src/rollback/mod.rs]: variable-length
      integers, key ranges;
    - [macros/src/lib.rs]: what the derive macros generate for a struct (fields
      separated by a break byte) and an enum (variant index first). *)

From S2P Require Import Prelude Brc20.
Import Brc20.

Module Timbre.

Inductive TimbreError : Type :=
| MalformedInput
| InvalidUtf8
| InvalidUtf8Str
| MalformedBase64
| InvalidRange
| VarUIntCasting (n : Z).

(** A decoded value with the bytes after it. *)
Abbreviation decoded A := (outcome TimbreError (A * list Z)).

Class Encode (A : Type) : Type := encode : A → list Z.
Class Decode (A : Type) : Type := decode : list Z → decoded A.

(** ** encode.rs, decode.rs *)

(** An unsigned integer of [n] bytes. *)
Record UInt (n : nat) : Type := mkUInt { uint_value : Z }.
Arguments mkUInt {n} _.
Arguments uint_value {n} _.
Abbreviation u8 := (UInt 1).
Abbreviation u32 := (UInt 4).
Abbreviation u64 := (UInt 8).
Abbreviation u128 := (UInt 16).

#[export] Instance UInt_encode n : Encode (UInt n) := λ x, be_bytes n (uint_value x).
#[export] Instance UInt_decode n : Decode (UInt n) := λ bytes,
  match split_at n bytes with
  | Some (b, rest) => Ok (mkUInt (of_be_bytes b), rest)
  | None => Err MalformedInput
  end.

#[export] Instance bool_encode : Encode bool := λ b, [if b then 1 else 0].
#[export] Instance bool_decode : Decode bool := λ bytes,
  match bytes with
  | b :: rest => Ok (negb (b =? 0), rest)
  | [] => Err MalformedInput
  end.

(** [[u8; N]]. *)
Record Bytes (n : nat) : Type := mkBytes { bytes_of : list Z }.
Arguments mkBytes {n} _.
Arguments bytes_of {n} _.

#[export] Instance Bytes_encode n : Encode (Bytes n) := bytes_of.
#[export] Instance Bytes_decode n : Decode (Bytes n) := λ bytes,
  match split_at n bytes with
  | Some (b, rest) => Ok (mkBytes b, rest)
  | None => Err MalformedInput
  end.

#[export] Instance prod_encode `{Encode A, Encode B} : Encode (A * B) := λ p,
  encode p.1 ++ encode p.2.
#[export] Instance prod_decode `{Decode A, Decode B} : Decode (A * B) := λ bytes,
  '(first, bytes) ← decode bytes;
  '(second, bytes) ← decode bytes;
  Ok ((first, second), bytes).

Record ShortByteString : Type := mkShort { short_of : list Z }.

#[export] Instance Short_encode : Encode ShortByteString := λ s,
  wrap 8 (Z.of_nat (length (short_of s))) :: short_of s.
#[export] Instance Short_decode : Decode ShortByteString := λ bytes,
  match bytes with
  | [] => Err MalformedInput
  | len :: bytes =>
      match split_at (Z.to_nat len) bytes with
      | Some (data, bytes) => Ok (mkShort data, bytes)
      | None => Err MalformedInput
      end
  end.

Definition ShortByteString_try_from (bs : list Z) : option ShortByteString :=
  if umax 8 <? Z.of_nat (length bs) then None else Some (mkShort bs).

Record VarUInt : Type := mkVarUInt { var_value : Z }.

(** From the first byte that is not 0. *)
Fixpoint significant (bend : list Z) : list Z :=
  match bend with
  | [] => []
  | b :: rest => if b =? 0 then significant rest else bend
  end.

#[export] Instance VarUInt_encode : Encode VarUInt := λ v,
  let out := significant (be_bytes 16 (var_value v)) in
  Z.of_nat (length out) :: out.
#[export] Instance VarUInt_decode : Decode VarUInt := λ bytes,
  match bytes with
  | [] => Err MalformedInput
  | len :: bytes =>
      if 16 <? len then Err MalformedInput
      else
        match split_at (Z.to_nat len) bytes with
        | Some (data, bytes) =>
            Ok (mkVarUInt (of_be_bytes (replicate (16 - Z.to_nat len) 0 ++ data)), bytes)
        | None => Err MalformedInput
        end
  end.

(** [impl_try_from_varuint]. *)
Definition VarUInt_try_into (w : Z) (v : VarUInt) : outcome TimbreError Z :=
  match try_into w (var_value v) with
  | Some x => Ok x
  | None => Err (VarUIntCasting (var_value v))
  end.

#[export] Instance option_encode `{Encode A} : Encode (option A) := λ o,
  match o with Some a => 1 :: encode a | None => [0] end.
#[export] Instance option_decode `{Decode A} : Decode (option A) := λ bytes,
  '(presence, bytes) ← (decode bytes : decoded u8);
  if uint_value presence =? 0 then Ok (None, bytes)
  else '(value, bytes) ← decode bytes; Ok (Some value, bytes).

(** [n] values in a row. *)
Fixpoint decode_items `{Decode A} (n : nat) (bytes : list Z) : decoded (list A) :=
  match n with
  | O => Ok ([], bytes)
  | S n =>
      '(item, bytes) ← decode bytes;
      '(items, bytes) ← decode_items n bytes;
      Ok (item :: items, bytes)
  end.

#[export] Instance list_encode `{Encode A} : Encode (list A) := λ l,
  encode (mkUInt (n := 4) (wrap 32 (Z.of_nat (length l)))) ++ concat (map encode l).
#[export] Instance list_decode `{Decode A} : Decode (list A) := λ bytes,
  '(len, bytes) ← (decode bytes : decoded u32);
  decode_items (Z.to_nat (uint_value len)) bytes.

Record TimbreVec (A : Type) : Type := mkTimbreVec { vec_of : list A }.
Arguments mkTimbreVec {A} _.
Arguments vec_of {A} _.

#[export] Instance TimbreVec_encode `{Encode A} : Encode (TimbreVec A) := λ l,
  encode (mkVarUInt (Z.of_nat (length (vec_of l)))) ++ concat (map encode (vec_of l)).
#[export] Instance TimbreVec_decode `{Decode A} : Decode (TimbreVec A) := λ bytes,
  '(len, bytes) ← (decode bytes : decoded VarUInt);
  len ← VarUInt_try_into 64 len;
  '(items, bytes) ← decode_items (Z.to_nat len) bytes;
  Ok (mkTimbreVec items, bytes).

(** [IndexMap]: entries in insertion order; inserting an existing key keeps its
    place. *)
Record IndexMap (K V : Type) : Type := mkIndexMap { entries_of : list (K * V) }.
Arguments mkIndexMap {K V} _.
Arguments entries_of {K V} _.

Fixpoint index_insert `{EqDecision K} {V} (k : K) (v : V) (l : list (K * V)) : list (K * V) :=
  match l with
  | [] => [(k, v)]
  | (k', v') :: l => if decide (k' = k) then (k', v) :: l else (k', v') :: index_insert k v l
  end.

#[export] Instance IndexMap_encode `{Encode K, Encode V} : Encode (IndexMap K V) := λ m,
  encode (mkUInt (n := 8) (Z.of_nat (length (entries_of m))))
  ++ concat (map (λ e, encode e.1 ++ encode e.2) (entries_of m)).
#[export] Instance IndexMap_decode `{EqDecision K, Decode K, Decode V} : Decode (IndexMap K V) :=
  λ bytes,
  '(len, bytes) ← (decode bytes : decoded u64);
  '(items, bytes) ← (decode_items (Z.to_nat (uint_value len)) bytes : decoded (list (K * V)));
  Ok (mkIndexMap (foldl (λ m e, index_insert e.1 e.2 m) [] items), bytes).

(** [String]: the length is written as a [usize] and read as a [u32], from a
    slice of four bytes of which nothing is left. *)
Record RString : Type := mkRString { string_bytes : list Z }.

#[export] Instance RString_encode : Encode RString := λ s,
  encode (mkUInt (n := 8) (Z.of_nat (length (string_bytes s)))) ++ string_bytes s.
#[export] Instance RString_decode : Decode RString := λ bytes,
  if (length bytes <? 4)%nat then Panic
  else
    '(len, bytes) ← (decode (take 4 bytes) : decoded u32);
    match split_at (Z.to_nat (uint_value len)) bytes with
    | None => Panic
    | Some (str_bytes, bytes) =>
        if utf8_valid str_bytes then Ok (mkRString str_bytes, bytes) else Err InvalidUtf8
    end.

Record CursorValue : Type := mkCursorValue {
  cv_height : u64;
  cv_hash : Bytes 32;
  cv_was_mempool : bool;
  cv_timestamp : u64;
  cv_mempool_info : option ((u64 * Bytes 32) * u64);
}.

#[export] Instance CursorValue_encode : Encode CursorValue := λ c,
  encode (cv_height c) ++ encode (cv_hash c) ++ encode (cv_was_mempool c)
  ++ encode (cv_timestamp c) ++ encode (cv_mempool_info c).
#[export] Instance CursorValue_decode : Decode CursorValue := λ bytes,
  '(height, bytes) ← decode bytes;
  '(hash, bytes) ← decode bytes;
  '(was_mempool, bytes) ← decode bytes;
  '(timestamp, bytes) ← decode bytes;
  '(mempool_info, bytes) ← decode bytes;
  Ok (mkCursorValue height hash was_mempool timestamp mempool_info, bytes).

(** [AssetKind], with the derived instances. *)
Inductive AssetKind : Type := DogecoinAsset | Rune (id : VarUInt * VarUInt).

#[export] Instance AssetKind_encode : Encode AssetKind := λ a,
  match a with DogecoinAsset => [0] | Rune id => 1 :: encode id end.
#[export] Instance AssetKind_decode : Decode AssetKind := λ bytes,
  match bytes with
  | [] => Panic
  | kind :: bytes =>
      if kind =? 0 then Ok (DogecoinAsset, bytes)
      else if kind =? 1 then '(id, bytes) ← decode bytes; Ok (Rune id, bytes)
      else Err MalformedInput
  end.

(** ** builder.rs *)

Definition PREFIX_CURSOR : Z := 67.
Definition PREFIX_DATA : Z := 68.
Definition PREFIX_INFO : Z := 73.
Definition PREFIX_BATCHING_LOCK : Z := 76.
Definition PREFIX_BATCH_COMPLETE : Z := 66.
Definition PREFIX_ROLLBACK : Z := 82.
Definition PREFIX_COLLECTION_METADATA : Z := 84.
Definition PREFIX_MINER_METADATA : Z := 85.
Definition BREAK : Z := 96.
Definition BREAK_1 : Z := BREAK + 1.

(** An [EncodeBuilder] is the bytes built so far. *)
Definition enc : list Z := [].
Definition push (b : Z) (e : list Z) : list Z := e ++ [b].
Definition break_ : list Z → list Z := push BREAK.
Definition break1 : list Z → list Z := push BREAK_1.
Definition append `{Encode A} (data : A) (e : list Z) : list Z := e ++ encode data.
Definition append_with_break `{Encode A} (data : A) (e : list Z) : list Z :=
  break_ (append data e).

(** ** namespace.rs *)

Record Namespace : Type := mkNamespace { dataplane_id : Z; instance_id : Z }.

#[export] Instance Namespace_encode : Encode Namespace := λ n,
  append (mkUInt (n := 1) (instance_id n)) (append (mkUInt (n := 1) (dataplane_id n)) enc).

(** The reducers, and their discriminants. *)
Inductive Reducer : Type :=
| EtchingByRuneId | MintsByRuneId | UtxosByRuneId | UtxosByScriptHash | RunesByUtxo
| RuneInfoByRuneId | ScriptByScriptHash | ScriptHashByAddressPayloadHash | RuneIdByRuneName
| InscriptionsByUtxo | Brc20TotalBalanceByScriptHash | Brc20AvailableBalanceByScriptHash
| Brc20TermsByTicker | BalancesByBrc20 | TxsByScriptHash | RuneBalancesByScriptHash
| InscriptionsByScriptHash | ContentByInscriptionId | TransferInscriptionsByScriptHash
| SatsPerVbByBlock | InscriptionUtxosByScriptHash | InscriptionActivityByBlock | BlockByTxHash
| HeightByBlockHash | InscriptionActivityByTx | TxsByInscription | TxInfo | BlockInfo
| TxsByBlock | BalancesByRuneId | SpendingTxByTxo | RuneUtxosByScriptHash | TxsByRuneId
| TxFirstSeenTimestamp | RuneTxsByScriptHash | SatBalanceByScriptHash | SatTxsByScriptHash
| InscriptionActivityByScriptHash.

Definition reducer_discriminant (r : Reducer) : Z :=
  match r with
  | EtchingByRuneId => 97 | MintsByRuneId => 98 | UtxosByRuneId => 99
  | UtxosByScriptHash => 100 | RunesByUtxo => 101 | RuneInfoByRuneId => 102
  | ScriptByScriptHash => 103 | ScriptHashByAddressPayloadHash => 104
  | RuneIdByRuneName => 105 | InscriptionsByUtxo => 106 | Brc20TotalBalanceByScriptHash => 107
  | Brc20AvailableBalanceByScriptHash => 108 | Brc20TermsByTicker => 109
  | BalancesByBrc20 => 110 | TxsByScriptHash => 111 | RuneBalancesByScriptHash => 112
  | InscriptionsByScriptHash => 113 | ContentByInscriptionId => 114
  | TransferInscriptionsByScriptHash => 115 | SatsPerVbByBlock => 116
  | InscriptionUtxosByScriptHash => 117 | InscriptionActivityByBlock => 118
  | BlockByTxHash => 119 | HeightByBlockHash => 120 | InscriptionActivityByTx => 121
  | TxsByInscription => 122 | TxInfo => 123 | BlockInfo => 124 | TxsByBlock => 125
  | BalancesByRuneId => 126 | SpendingTxByTxo => 127 | RuneUtxosByScriptHash => 129
  | TxsByRuneId => 130 | TxFirstSeenTimestamp => 131 | RuneTxsByScriptHash => 132
  | SatBalanceByScriptHash => 133 | SatTxsByScriptHash => 134
  | InscriptionActivityByScriptHash => 135
  end.

#[export] Instance Reducer_encode : Encode Reducer := λ r, [reducer_discriminant r].

Inductive CollectionIngestor : Type :=
| MetadataByInscription | InscriptionsBySymbol | TokenMetadataByInscription | MetadataBySymbol.

#[export] Instance CollectionIngestor_encode : Encode CollectionIngestor := λ c,
  [match c with
   | MetadataByInscription => 67
   | InscriptionsBySymbol => 73
   | TokenMetadataByInscription => 77
   | MetadataBySymbol => 83
   end].

Inductive MinerIngestor : Type := mkMinerIngestor.

#[export] Instance MinerIngestor_encode : Encode MinerIngestor := λ _, [77].

(** [Prefix::data], [Prefix::cursor], [Prefix::rollback] and so on. *)
Definition Prefix_info (n : Namespace) : list Z := append n (break_ (push PREFIX_INFO enc)).

Definition Prefix_collection_metadata `{Encode T} (n : Namespace) (kind : CollectionIngestor)
    (data : T) : list Z :=
  append data (append_with_break kind (push PREFIX_COLLECTION_METADATA (append n enc))).

Definition Prefix_miner_metadata `{Encode T} (n : Namespace) (kind : MinerIngestor) (data : T)
  : list Z :=
  append data (append_with_break kind (push PREFIX_MINER_METADATA (append n enc))).

Definition miner_metadata_key_range (n : Namespace) : list Z * list Z :=
  let e := append mkMinerIngestor (push PREFIX_MINER_METADATA (append n enc)) in
  (break_ e, break1 e).

Definition Prefix_cursor (n : Namespace) : list Z := push PREFIX_CURSOR (append n enc).

Definition Prefix_data `{Encode T} (n : Namespace) (kind : Reducer) (data : T) : list Z :=
  append data (append_with_break kind (push PREFIX_DATA (append n enc))).

(** ** rollback/mod.rs, with the derived instances *)

Record MetadataKey : Type := mkMetadataKey {
  mk_height : u64;
  mk_hash : Bytes 32;
  mk_operation_idx : u64;
  mk_modified_key : list u8;
}.

#[export] Instance MetadataKey_encode : Encode MetadataKey := λ k,
  append (mk_modified_key k)
    (append_with_break (mk_operation_idx k)
       (append_with_break (mk_hash k) (append_with_break (mk_height k) enc))).

(** [&rest[1..]], which panics on an empty slice. *)
Definition skip_break (rest : list Z) : outcome TimbreError (list Z) :=
  match rest with [] => Panic | _ :: rest => Ok rest end.

#[export] Instance MetadataKey_decode : Decode MetadataKey := λ bytes,
  '(height, rest) ← decode bytes;
  bytes ← skip_break rest;
  '(hash, rest) ← decode bytes;
  bytes ← skip_break rest;
  '(operation_idx, rest) ← decode bytes;
  bytes ← skip_break rest;
  '(modified_key, rest) ← decode bytes;
  Ok (mkMetadataKey height hash operation_idx modified_key, rest).

Definition Prefix_rollback (n : Namespace) (data : MetadataKey) : list Z :=
  append data (break_ (push PREFIX_ROLLBACK (append n enc))).

Definition rollback_metadata_key_range `{Encode A, Encode B} (n : Namespace) (lower : option A)
    (upper : option B) : list Z * list Z :=
  let prefix := push PREFIX_ROLLBACK (append n enc) in
  (match lower with Some v => append v (break_ prefix) | None => break_ prefix end,
   match upper with Some v => append v (break_ prefix) | None => break1 prefix end).

(** ** reducers/mod.rs *)

Definition reducer_maybe_key_range `{Encode A, Encode B, Encode C} (n : Namespace)
    (reducer : Reducer) (params : option A) (lower : option B) (upper : option C)
  : option (list Z) * option (list Z) :=
  let prefix := append_with_break reducer (push PREFIX_DATA (append n enc)) in
  let prefix := match params with Some p => append_with_break p prefix | None => prefix end in
  ((λ v, append v prefix) <$> lower, (λ v, append v prefix) <$> upper).

Definition reducer_key_range `{Encode A, Encode B, Encode C} (n : Namespace)
    (reducer : Reducer) (params : option A) (lower : option B) (upper : option C)
  : list Z * list Z :=
  let e := append reducer (push PREFIX_DATA (append n enc)) in
  let e := match params with Some p => append p (break_ e) | None => e end in
  let '(start, end_) := reducer_maybe_key_range n reducer params lower upper in
  (default (break_ e) start, default (break1 e) end_).

(** ** reducers/utxos_by_script_hash.rs, with the derived instances *)

Record UtxoKey : Type := mkUtxoKey {
  uk_script_hash : Bytes 20;
  uk_height : u64;
  uk_utxo_hash : Bytes 32;
  uk_utxo_index : u32;
}.

#[export] Instance UtxoKey_encode : Encode UtxoKey := λ k,
  append (uk_utxo_index k)
    (append_with_break (uk_utxo_hash k)
       (append_with_break (uk_height k) (append_with_break (uk_script_hash k) enc))).

#[export] Instance UtxoKey_decode : Decode UtxoKey := λ bytes,
  '(script_hash, rest) ← decode bytes;
  bytes ← skip_break rest;
  '(height, rest) ← decode bytes;
  bytes ← skip_break rest;
  '(utxo_hash, rest) ← decode bytes;
  bytes ← skip_break rest;
  '(utxo_index, rest) ← decode bytes;
  Ok (mkUtxoKey script_hash height utxo_hash utxo_index, rest).

(** ** lib.rs: prefix_key_range *)

(** From the last byte back: the first that is not 255 is incremented and the
    rest dropped. [None] when there is none. *)
Fixpoint increment_last (rev_prefix : list Z) : option (list Z) :=
  match rev_prefix with
  | [] => None
  | b :: rest => if b =? 255 then increment_last rest else Some (rev (b + 1 :: rest))
  end.

Definition prefix_key_range (prefix : list Z) : list Z * list Z :=
  (prefix, default [] (increment_last (rev prefix))).

Definition dataplane_key_range (n : Namespace) : list Z * list Z :=
  prefix_key_range [dataplane_id n].

Definition instance_key_range (n : Namespace) : list Z * list Z := prefix_key_range (encode n).

Definition batch_complete_key_range (n : Namespace) : list Z * list Z :=
  prefix_key_range (break_ (push PREFIX_BATCH_COMPLETE (append n enc))).

(** A range of the store; an empty end is no bound. *)
Definition in_key_range (r : list Z * list Z) (k : list Z) : Prop :=
  bytes_le r.1 k ∧ (r.2 = [] ∨ bytes_lt k r.2).

(** ** Decoding an encoding *)

(** What the traits promise for the values of a type that satisfy [valid]. *)
Class Lawful (A : Type) `{Encode A, Decode A} : Type := {
  valid : A → Prop;
  decode_encode_app : ∀ a rest, valid a → decode (encode a ++ rest) = Ok (a, rest);
}.

(** An encoding determines the value it starts with: no encoding is a proper
    prefix of another. *)
Lemma encode_app_inj `{Lawful A} (a b : A) r r' :
  valid a → valid b → encode a ++ r = encode b ++ r' → a = b ∧ r = r'.
Proof.
  intros Ha Hb E. pose proof (decode_encode_app a r Ha) as Hd.
  rewrite E, decode_encode_app in Hd by done. by injection Hd as -> ->.
Qed.

#[export, refine] Instance UInt_lawful n : Lawful (UInt n) :=
  {| valid x := 0 ≤ uint_value x < 256 ^ Z.of_nat n |}.
Proof.
  intros [x] rest Hx. cbn in Hx. unfold encode, decode, UInt_encode, UInt_decode.
  rewrite split_at_app' by apply length_be_bytes. cbn. by rewrite of_be_be_bytes_small.
Defined.

#[export, refine] Instance bool_lawful : Lawful bool := {| valid _ := True |}.
Proof. by intros [] rest _. Defined.

#[export, refine] Instance Bytes_lawful n : Lawful (Bytes n) :=
  {| valid b := length (bytes_of b) = n |}.
Proof.
  intros [b] rest Hb. cbn in Hb. unfold encode, decode, Bytes_encode, Bytes_decode. cbn [bytes_of].
  by rewrite split_at_app'.
Defined.

#[export, refine] Instance prod_lawful `{Lawful A, Lawful B} : Lawful (A * B) :=
  {| valid p := valid p.1 ∧ valid p.2 |}.
Proof.
  intros [a b] rest [Ha Hb]. unfold encode, decode, prod_encode, prod_decode. cbn [fst snd] in *.
  rewrite <- app_assoc, decode_encode_app by done. cbn. by rewrite decode_encode_app.
Defined.

#[export, refine] Instance Short_lawful : Lawful ShortByteString :=
  {| valid s := Z.of_nat (length (short_of s)) ≤ umax 8 |}.
Proof.
  intros [s] rest Hs. cbn in Hs. unfold encode, decode, Short_encode, Short_decode. cbn [short_of].
  unfold umax in Hs. rewrite wrap_small by (unfold in_range; lia). cbn [app].
  rewrite Nat2Z.id. by rewrite split_at_app.
Defined.

#[export, refine] Instance option_lawful `{Lawful A} : Lawful (option A) :=
  {| valid o := match o with Some a => valid a | None => True end |}.
Proof.
  intros [a|] rest Ha; unfold encode, decode, option_encode, option_decode.
  - change ((1 :: encode a) ++ rest) with (be_bytes 1 1 ++ encode a ++ rest).
    change (be_bytes 1 1) with (encode (mkUInt (n := 1) 1)).
    rewrite decode_encode_app by (cbn; lia). cbn. by rewrite decode_encode_app.
  - change ([0] ++ rest) with (encode (mkUInt (n := 1) 0) ++ rest).
    by rewrite decode_encode_app by (cbn; lia).
Defined.

Lemma decode_items_encode `{Lawful A} (l : list A) rest :
  Forall valid l → decode_items (length l) (concat (map encode l) ++ rest) = Ok (l, rest).
Proof.
  induction 1 as [|a l Ha Hl IH]; [done|]. cbn [length map concat decode_items].
  rewrite <- app_assoc, decode_encode_app by done. cbn. by rewrite IH.
Qed.

#[export, refine] Instance list_lawful `{Lawful A} : Lawful (list A) :=
  {| valid l := Forall valid l ∧ Z.of_nat (length l) < 2 ^ 32 |}.
Proof.
  intros l rest [Hl Hlen]. unfold encode at 1, decode at 1, list_encode, list_decode.
  rewrite wrap_small by (unfold in_range; lia). rewrite <- app_assoc.
  rewrite decode_encode_app by (cbn; lia). cbn [mbind outcome_bind uint_value].
  rewrite Nat2Z.id. by apply decode_items_encode.
Defined.

(** The significant bytes of an integer: as many as it needs. *)
Lemma significant_be_bytes m v :
  0 ≤ v < 256 ^ Z.of_nat m →
  ∃ n, significant (be_bytes m v) = be_bytes n v ∧ (n ≤ m)%nat ∧ v < 256 ^ Z.of_nat n
    ∧ (n ≠ 0%nat → 256 ^ (Z.of_nat n - 1) ≤ v).
Proof.
  induction m as [|m IH]; intros Hv.
  { exists 0%nat. cbn in *. split; [done|]. split; [lia|]. split; [lia|done]. }
  cbn [be_bytes significant]. set (p := 256 ^ Z.of_nat m).
  assert (0 < p) as Hp by (apply Z.pow_pos_nonneg; lia).
  assert (256 ^ Z.of_nat (S m) = 256 * p) as Hsp
    by (rewrite Nat2Z.inj_succ, Z.pow_succ_r by lia; done).
  assert (0 ≤ v / p < 256) as Hdiv.
  { split; [apply Z.div_pos; lia|]. apply Z.div_lt_upper_bound; lia. }
  rewrite Z.mod_small by done. destruct (Z.eqb_spec (v / p) 0) as [E|E].
  - destruct IH as (n & H1 & H2 & H3 & H4).
    { fold p. apply Z.div_small_iff in E; lia. }
    exists n. split; [done|]. split; [lia|done].
  - exists (S m). split; [cbn [be_bytes]; fold p; by rewrite Z.mod_small|].
    split; [done|]. split; [apply Hv|]. intros _.
    replace (Z.of_nat (S m) - 1) with (Z.of_nat m) by lia. fold p.
    pose proof (Z.mul_div_le v p Hp). nia.
Qed.

Lemma VarUInt_encode_spec v :
  0 ≤ var_value v < 2 ^ 128 →
  ∃ n, encode v = Z.of_nat n :: be_bytes n (var_value v) ∧ (n ≤ 16)%nat
    ∧ var_value v < 256 ^ Z.of_nat n ∧ (n ≠ 0%nat → 256 ^ (Z.of_nat n - 1) ≤ var_value v).
Proof.
  intros Hv. destruct (significant_be_bytes 16 (var_value v)) as (n & H1 & H2 & H3 & H4);
    [done|]. exists n. unfold encode, VarUInt_encode. rewrite H1, length_be_bytes. done.
Qed.

#[export, refine] Instance VarUInt_lawful : Lawful VarUInt :=
  {| valid v := 0 ≤ var_value v < 2 ^ 128 |}.
Proof.
  intros v rest Hv. destruct (VarUInt_encode_spec v Hv) as (n & -> & Hn & Hlt & _).
  unfold decode, VarUInt_decode. cbn [app].
  destruct (Z.ltb_spec 16 (Z.of_nat n)); [lia|]. rewrite Nat2Z.id.
  rewrite split_at_app' by apply length_be_bytes. rewrite of_be_bytes_zeros, of_be_be_bytes_small.
  - by destruct v.
  - lia.
Defined.

#[export, refine] Instance TimbreVec_lawful `{Lawful A} : Lawful (TimbreVec A) :=
  {| valid l := Forall valid (vec_of l) ∧ Z.of_nat (length (vec_of l)) < 2 ^ 64 |}.
Proof.
  intros [l] rest [Hl Hlen]. cbn [vec_of] in *.
  unfold encode at 1, decode at 1, TimbreVec_encode, TimbreVec_decode. cbn [vec_of].
  rewrite <- app_assoc. rewrite decode_encode_app by (cbn; lia). cbn [mbind outcome_bind].
  unfold VarUInt_try_into. cbn [var_value].
  rewrite (proj2 (try_into_Some 64 _ (Z.of_nat (length l)))) by (unfold in_range; lia).
  cbn [mbind outcome_bind]. rewrite Nat2Z.id, decode_items_encode by done. done.
Defined.

Lemma index_insert_new `{EqDecision K} {V} (k : K) (v : V) l :
  k ∉ l.*1 → index_insert k v l = l ++ [(k, v)].
Proof.
  induction l as [|[k' v'] l IH]; [done|]. rewrite fmap_cons, not_elem_of_cons. cbn [fst].
  intros [Hne Hl]. cbn. rewrite decide_False by done. by rewrite IH.
Qed.

Lemma index_inserts `{EqDecision K} {V} (items acc : list (K * V)) :
  NoDup (acc ++ items).*1 → foldl (λ m e, index_insert e.1 e.2 m) acc items = acc ++ items.
Proof.
  revert acc. induction items as [|[k v] items IH]; intros acc Hnd; [by rewrite app_nil_r|].
  cbn [foldl fst snd]. rewrite index_insert_new.
  - rewrite IH by (by rewrite <- app_assoc). by rewrite <- app_assoc.
  - rewrite fmap_app, fmap_cons in Hnd. apply NoDup_app in Hnd as (_ & Hd & _).
    intros Hk. apply (Hd k Hk). by left.
Qed.

#[export, refine] Instance IndexMap_lawful `{EqDecision K, Lawful K, Lawful V}
  : Lawful (IndexMap K V) :=
  {| valid m := Forall valid (entries_of m) ∧ NoDup (entries_of m).*1
                ∧ Z.of_nat (length (entries_of m)) < 2 ^ 64 |}.
Proof.
  intros [l] rest (Hl & Hnd & Hlen). cbn [entries_of] in *.
  unfold encode at 1, decode at 1, IndexMap_encode, IndexMap_decode. cbn [entries_of].
  rewrite <- app_assoc, decode_encode_app by (cbn; lia). cbn [mbind outcome_bind uint_value].
  rewrite Nat2Z.id.
  change (map (λ e, encode e.1 ++ encode e.2) l) with (map (encode (A := K * V)) l).
  rewrite decode_items_encode by done. cbn. by rewrite index_inserts.
Defined.

#[export, refine] Instance AssetKind_lawful : Lawful AssetKind :=
  {| valid a := match a with DogecoinAsset => True | Rune id => valid id end |}.
Proof.
  intros [|id] rest Ha; [done|]. unfold encode at 1, decode at 1, AssetKind_encode, AssetKind_decode.
  cbn [app Z.eqb]. by rewrite decode_encode_app.
Defined.

#[export, refine] Instance CursorValue_lawful : Lawful CursorValue :=
  {| valid c := valid (cv_height c) ∧ valid (cv_hash c) ∧ valid (cv_timestamp c)
                ∧ valid (cv_mempool_info c) |}.
Proof.
  intros [h hash m t i] rest (Hh & Hhash & Ht & Hi).
  unfold encode at 1, decode at 1, CursorValue_encode, CursorValue_decode.
  rewrite <- !app_assoc. do 5 (rewrite decode_encode_app by done; cbn [mbind outcome_bind]). done.
Defined.

#[export, refine] Instance MetadataKey_lawful : Lawful MetadataKey :=
  {| valid k := valid (mk_height k) ∧ valid (mk_hash k) ∧ valid (mk_operation_idx k)
                ∧ valid (mk_modified_key k) |}.
Proof.
  intros [h hash i k] rest (Hh & Hhash & Hi & Hk).
  unfold encode at 1, decode at 1, MetadataKey_encode, MetadataKey_decode, append_with_break, append,
    break_, push, enc. cbn [app]. rewrite <- !app_assoc.
  do 3 (rewrite decode_encode_app by done; cbn [mbind outcome_bind app skip_break]).
  rewrite decode_encode_app by done. done.
Defined.

#[export, refine] Instance UtxoKey_lawful : Lawful UtxoKey :=
  {| valid k := valid (uk_script_hash k) ∧ valid (uk_height k) ∧ valid (uk_utxo_hash k)
                ∧ valid (uk_utxo_index k) |}.
Proof.
  intros [s h t i] rest (Hs & Hh & Ht & Hi).
  unfold encode at 1, decode at 1, UtxoKey_encode, UtxoKey_decode, append_with_break, append,
    break_, push, enc. cbn [app]. rewrite <- !app_assoc.
  do 3 (rewrite decode_encode_app by done; cbn [mbind outcome_bind app skip_break]).
  rewrite decode_encode_app by done. done.
Defined.

(** ** Order *)

(** Encodings that compare as the values do, whatever follows them. *)
Class Ordered (A : Type) `{Lawful A} : Type := {
  value_lt : A → A → Prop;
  encode_lt : ∀ a b r r', valid a → valid b → value_lt a b →
    bytes_lt (encode a ++ r) (encode b ++ r');
}.

#[export, refine] Instance UInt_ordered n : Ordered (UInt n) :=
  {| value_lt a b := uint_value a < uint_value b |}.
Proof.
  intros a b r r' Ha Hb Hlt. unfold bytes_lt, encode, UInt_encode.
  rewrite bytes_cmp_app_len by (by rewrite !length_be_bytes).
  rewrite bytes_cmp_be_bytes by done. by rewrite (proj2 (Z.compare_lt_iff _ _) Hlt).
Defined.

#[export, refine] Instance VarUInt_ordered : Ordered VarUInt :=
  {| value_lt a b := var_value a < var_value b |}.
Proof.
  intros a b r r' Ha Hb Hlt.
  destruct (VarUInt_encode_spec a Ha) as (n & -> & _ & Hn & Hn0).
  destruct (VarUInt_encode_spec b Hb) as (m & -> & _ & Hm & _).
  cbn [valid VarUInt_lawful] in Ha, Hb. unfold bytes_lt. cbn [app bytes_cmp].
  destruct (Z.compare_spec (Z.of_nat n) (Z.of_nat m)) as [E|E|E]; [|done|].
  - apply Nat2Z.inj in E as <-. rewrite bytes_cmp_app_len by (by rewrite !length_be_bytes).
    rewrite bytes_cmp_be_bytes by lia. by rewrite (proj2 (Z.compare_lt_iff _ _) Hlt).
  - exfalso. assert (256 ^ Z.of_nat m ≤ 256 ^ (Z.of_nat n - 1)) as Hp
      by (apply Z.pow_le_mono_r; lia).
    specialize (Hn0 ltac:(lia)). lia.
Defined.

(** Variable-length integers keep their order.  Every [u128] is encoded in
    at most 17 bytes, decoded back whatever follows, and the byte order of two
    encodings is the order of the integers. *)
Theorem VarUInt_order (a b : VarUInt) (rest : list Z) :
  0 ≤ var_value a < 2 ^ 128 → 0 ≤ var_value b < 2 ^ 128 →
  (length (encode a) ≤ 17)%nat
  ∧ decode (encode a ++ rest) = Ok (a, rest)
  ∧ (bytes_lt (encode a) (encode b) ↔ var_value a < var_value b).
Proof.
  intros Ha Hb. split; [|split; [by apply decode_encode_app|]].
  { destruct (VarUInt_encode_spec a Ha) as (n & -> & Hn & _). cbn. rewrite length_be_bytes. lia. }
  assert (∀ a b : VarUInt, valid a → valid b → var_value a < var_value b →
    bytes_lt (encode a) (encode b)) as Hlt.
  { intros x y Hx Hy Hxy. rewrite <- (app_nil_r (encode x)), <- (app_nil_r (encode y)).
    by apply encode_lt. }
  split; [|by apply Hlt]. intros Hab.
  destruct (Z.lt_trichotomy (var_value a) (var_value b)) as [|[E|E]]; [done| |].
  - exfalso. destruct a, b. cbn in E. subst. by apply bytes_lt_irrefl in Hab.
  - exfalso. apply (bytes_lt_irrefl (encode a)). eapply bytes_lt_trans; [exact Hab|]. by apply Hlt.
Qed.

Lemma VarUInt_order_witness :
  (length (encode (mkVarUInt 255)) ≤ 17)%nat
  ∧ decode (encode (mkVarUInt 255) ++ [7]) = Ok (mkVarUInt 255, [7])
  ∧ (bytes_lt (encode (mkVarUInt 255)) (encode (mkVarUInt 256))
     ↔ var_value (mkVarUInt 255) < var_value (mkVarUInt 256)).
Proof. apply (VarUInt_order (mkVarUInt 255) (mkVarUInt 256) [7]); cbn; lia. Defined.

(** The values and keys of the store are decoded to what was encoded: the
    cursor of an instance and the key of a rollback entry, whatever bytes follow
    them; the break bytes between fields are skipped where they were put. *)
Theorem store_roundtrip (c : CursorValue) (k : MetadataKey) (rest : list Z) :
  valid c → valid k →
  decode (encode c ++ rest) = Ok (c, rest) ∧ decode (encode k ++ rest) = Ok (k, rest).
Proof. intros Hc Hk. split; by apply decode_encode_app. Qed.

Definition sample_cursor : CursorValue :=
  mkCursorValue (mkUInt 1337) (mkBytes (replicate 32 10)) true (mkUInt 123456789)
    (Some (mkUInt 456, mkBytes (replicate 32 11), mkUInt 789)).

Definition sample_key : MetadataKey :=
  mkMetadataKey (mkUInt 1337) (mkBytes (replicate 32 10)) (mkUInt 420)
    (replicate 5 (mkUInt 123)).

Lemma store_roundtrip_witness :
  decode (encode sample_cursor ++ [1]) = Ok (sample_cursor, [1])
  ∧ decode (encode sample_key ++ [1]) = Ok (sample_key, [1]).
Proof.
  apply (store_roundtrip sample_cursor sample_key [1]).
  - by vm_compute.
  - split; [by vm_compute|]. split; [by vm_compute|]. split; [by vm_compute|]. split; [|by vm_compute].
    by apply Forall_replicate; vm_compute.
Defined.

(** ** Ranges *)

(** Between [q ++ b :: t] and [q ++ [b + 1]]. *)
Lemma interval_split q b t k :
  bytes_le (q ++ b :: t) k → bytes_lt k (q ++ [b + 1]) → ∃ r, k = q ++ b :: r ∧ bytes_le t r.
Proof.
  unfold bytes_le, bytes_lt. revert k. induction q as [|x q IH]; intros [|y k]; cbn [app bytes_cmp]; try done.
  - destruct (Z.compare_spec b y) as [->|Hb|Hb]; [| |done].
    + intros Ht _. by exists k.
    + intros _. destruct (Z.compare_spec y (b + 1)) as [->|Hy|Hy]; [|lia|done]. by destruct k.
  - rewrite (Z.compare_antisym y x). destruct (Z.compare_spec y x) as [->|Hy|Hy]; cbn; [|done|done].
    intros H1 H2. destruct (IH k H1 H2) as (r & -> & Hr). by exists r.
Qed.

Lemma interval_join q b r : bytes_lt (q ++ b :: r) (q ++ [b + 1]).
Proof.
  unfold bytes_lt. rewrite bytes_cmp_app_same. cbn.
  by rewrite (proj2 (Z.compare_lt_iff b (b + 1))) by lia.
Qed.

(** Keys between a prefix ended by a break and the same ended by the next byte. *)
Lemma break_interval q k :
  in_key_range (q ++ [BREAK], q ++ [BREAK_1]) k ↔ ∃ r, k = q ++ BREAK :: r.
Proof.
  unfold in_key_range. cbn [fst snd]. split.
  - intros [Hle [E|Hlt]]; [by destruct q|].
    destruct (interval_split q BREAK [] k Hle Hlt) as (r & -> & _). by exists r.
  - intros [r ->]. split; [|right; apply interval_join].
    replace (q ++ BREAK :: r) with ((q ++ [BREAK]) ++ r) by (by rewrite <- app_assoc).
    apply bytes_le_app_r.
Qed.

Lemma all_max_le n r :
  bytes_ok r → bytes_le (replicate n 255) r → ∃ r', r = replicate n 255 ++ r'.
Proof.
  unfold bytes_le. revert r. induction n as [|n IH]; intros r Hr; [by exists r|].
  destruct r as [|x r]; cbn [replicate bytes_cmp]; [done|]. apply Forall_cons in Hr as [Hx Hr]. unfold in_range in Hx.
  destruct (Z.compare_spec 255 x) as [<-|?|?]; [|lia|done].
  intros Hle. destruct (IH r Hr Hle) as [r' ->]. by exists r'.
Qed.

Lemma increment_last_spec l :
  match increment_last (rev l) with
  | None => ∃ n, l = replicate n 255
  | Some e => ∃ q b n, l = q ++ b :: replicate n 255 ∧ e = q ++ [b + 1]
  end.
Proof.
  induction l as [|x l IH] using rev_ind; [by exists 0%nat|].
  rewrite rev_app_distr. cbn [rev app increment_last].
  destruct (Z.eqb_spec x 255) as [->|Hx].
  - destruct (increment_last (rev l)) as [e|].
    + destruct IH as (q & b & n & -> & ->). exists q, b, (S n). split; [|done].
      rewrite <- app_assoc. cbn [app]. by rewrite <- replicate_S_end.
    + destruct IH as [n ->]. exists (S n). by rewrite replicate_S_end.
  - exists l, x, 0%nat. split; [done|]. cbn. by rewrite rev_involutive.
Qed.

(** A prefix range holds the keys with that prefix and no other, also when
    the prefix ends in bytes that cannot be incremented, where the range is
    shortened, or consists of such bytes only, where it has no end. *)
Theorem prefix_key_range_spec (prefix k : list Z) :
  bytes_ok k → in_key_range (prefix_key_range prefix) k ↔ ∃ r, k = prefix ++ r.
Proof.
  intros Hk. unfold in_key_range, prefix_key_range. cbn [fst snd].
  pose proof (increment_last_spec prefix) as Hspec.
  destruct (increment_last (rev prefix)) as [e|]; cbn [default].
  - destruct Hspec as (q & b & n & -> & ->). split.
    + intros [Hle [E|Hlt]]; [by destruct q|].
      destruct (interval_split q b _ k Hle Hlt) as (r & -> & Hr).
      apply Forall_app in Hk as [_ Hk]. apply Forall_cons in Hk as [_ Hk].
      destruct (all_max_le n r Hk Hr) as [r' ->]. exists r'. by rewrite <- app_assoc.
    + intros [r ->]. split; [apply bytes_le_app_r|]. right. rewrite <- app_assoc. apply interval_join.
  - destruct Hspec as [n ->]. split.
    + intros [Hle _]. by apply all_max_le.
    + intros [r ->]. split; [apply bytes_le_app_r|by left].
Qed.

Lemma prefix_key_range_spec_witness :
  in_key_range (prefix_key_range [1; 255]) [1; 255; 7] ↔ ∃ r, [1; 255; 7] = [1; 255] ++ r.
Proof. apply (prefix_key_range_spec [1; 255] [1; 255; 7]). by repeat constructor. Defined.

(** A data key whose first field is [q]: what the derived [Encode] gives for a
    struct of more than one field. *)
Definition first_field `{Encode A, Encode T} (q : A) (data : T) : Prop :=
  ∃ rest, encode data = encode q ++ BREAK :: rest.

Lemma reducer_discriminant_inj r r' : reducer_discriminant r = reducer_discriminant r' → r = r'.
Proof. destruct r, r'; (reflexivity || discriminate). Qed.

(** The range of a reducer for given parameters holds the keys of that
    reducer whose first field is the parameter, and no other data key of the
    namespace: a query by script hash or dune never returns entries of another
    one, nor of another reducer. *)
Theorem reducer_key_range_params `{Lawful A, Encode T} (n : Namespace) (kind kind' : Reducer)
    (p q : A) (data : T) :
  valid p → valid q → first_field q data →
  in_key_range (reducer_key_range n kind (Some p) (None : option u64) (None : option u64))
    (Prefix_data n kind' data) ↔ kind = kind' ∧ p = q.
Proof.
  intros Hp Hq [rest Hrest]. unfold reducer_key_range, reducer_maybe_key_range. cbn [fmap option_fmap
    option_map default]. unfold Prefix_data, append_with_break, append, break_, break1, push.
  rewrite Hrest. unfold encode at 2 5, Reducer_encode. rewrite break_interval. split.
  - intros [r E]. rewrite <- !app_assoc in E. apply app_inv_head in E. apply app_inv_head in E.
    injection E as Ek E. apply reducer_discriminant_inj in Ek as <-. split; [done|].
    by destruct (encode_app_inj p q (BREAK :: r) (BREAK :: rest) Hp Hq (eq_sym E)).
  - intros [<- <-]. exists rest. by rewrite <- !app_assoc.
Qed.

Lemma UtxoKey_first_field k : first_field (uk_script_hash k) k.
Proof.
  eexists. unfold encode at 1, UtxoKey_encode, append_with_break, append, break_, push, enc.
  cbn [app]. by rewrite <- !app_assoc.
Qed.

Definition sample_utxo_key : UtxoKey :=
  mkUtxoKey (mkBytes (replicate 20 96)) (mkUInt 3) (mkBytes (replicate 32 82)) (mkUInt 37).

Lemma reducer_key_range_params_witness :
  in_key_range (reducer_key_range (mkNamespace 1 2) UtxosByScriptHash (Some (uk_script_hash sample_utxo_key))
    (None : option u64) (None : option u64)) (Prefix_data (mkNamespace 1 2) UtxosByScriptHash sample_utxo_key)
  ↔ UtxosByScriptHash = UtxosByScriptHash
    ∧ uk_script_hash sample_utxo_key = uk_script_hash sample_utxo_key.
Proof.
  apply (reducer_key_range_params (mkNamespace 1 2) UtxosByScriptHash UtxosByScriptHash (uk_script_hash sample_utxo_key)
           (uk_script_hash sample_utxo_key) sample_utxo_key); [by vm_compute|by vm_compute|].
  apply UtxoKey_first_field.
Defined.

(** The rollback entries between two heights.  The range from [lower] to
    [upper] holds exactly the entries of the namespace whose block height is at
    least [lower] and below [upper], whatever their hash, operation and key. *)
Theorem rollback_range_heights (n : Namespace) (lower upper : u64) (k : MetadataKey) :
  valid lower → valid upper → valid k →
  in_key_range (rollback_metadata_key_range n (Some lower) (Some upper)) (Prefix_rollback n k)
  ↔ uint_value lower ≤ uint_value (mk_height k) < uint_value upper.
Proof.
  intros Hl Hu Hk. destruct Hk as (Hh & _).
  unfold in_key_range, rollback_metadata_key_range, Prefix_rollback, append, break_, push.
  cbn [fst snd]. set (pre := ((enc ++ encode n) ++ [PREFIX_ROLLBACK]) ++ [BREAK]).
  assert (∃ rest, encode k = encode (mk_height k) ++ rest) as [rest ->].
  { eexists. unfold encode at 1, MetadataKey_encode, append_with_break, append, break_, push, enc.
    cbn [app]. by rewrite <- !app_assoc. }
  unfold bytes_le, bytes_lt. rewrite !bytes_cmp_app_same.
  assert (∀ (a : u64) r, valid a → bytes_cmp (encode a) (encode (mk_height k) ++ r)
    = match Z.compare (uint_value a) (uint_value (mk_height k)) with
      | Eq => bytes_cmp [] r | c => c end) as Hcmp.
  { intros a r Ha. rewrite <- (app_nil_r (encode a)). unfold encode, UInt_encode.
    rewrite bytes_cmp_app_len by (by rewrite !length_be_bytes). by rewrite bytes_cmp_be_bytes. }
  rewrite (bytes_cmp_antisym (encode upper)), !Hcmp by done.
  assert (pre ++ encode upper ≠ []) as Hne by (unfold pre; by destruct (_ ++ [BREAK]) eqn:E;
    [apply app_eq_nil in E as [_ [=]]|]).
  destruct (Z.compare_spec (uint_value lower) (uint_value (mk_height k))),
    (Z.compare_spec (uint_value upper) (uint_value (mk_height k))), rest; cbn [bytes_cmp CompOpp];
    (split; [intros [? [?|?]]; first [done|lia]
            |intros ?; first [exfalso; lia|split; [done|right; done]]]).
Qed.

Lemma rollback_range_heights_witness :
  in_key_range (rollback_metadata_key_range (mkNamespace 1 2) (Some (mkUInt 1000 : u64))
    (Some (mkUInt 1338 : u64))) (Prefix_rollback (mkNamespace 1 2) sample_key)
  ↔ uint_value (mkUInt 1000 : u64) ≤ uint_value (mk_height sample_key)
    < uint_value (mkUInt 1338 : u64).
Proof.
  apply (rollback_range_heights (mkNamespace 1 2) (mkUInt 1000) (mkUInt 1338) sample_key);
    [by vm_compute|by vm_compute|].
  split; [by vm_compute|]. split; [by vm_compute|]. split; [by vm_compute|]. split; [|by vm_compute].
  by apply Forall_replicate; vm_compute.
Defined.

Lemma RString_decode_head len body :
  0 ≤ len < 2 ^ 32 →
  (decode (be_bytes 4 len ++ body) : decoded RString)
  = if len =? 0 then Ok (mkRString [], []) else Panic.
Proof.
  intros Hlen. unfold decode, RString_decode.
  destruct (Nat.ltb_spec (length (be_bytes 4 len ++ body)) 4) as [Hl|_].
  { rewrite length_app, length_be_bytes in Hl. lia. }
  rewrite take_app_length' by (by rewrite length_be_bytes).
  rewrite <- (app_nil_r (be_bytes 4 len)).
  change (be_bytes 4 len ++ []) with (encode (mkUInt (n := 4) len) ++ []).
  change (UInt_decode 4) with (decode (A := u32)). rewrite decode_encode_app by (cbn; lia).
  cbn [mbind outcome_bind uint_value]. destruct (Z.eqb_spec len 0) as [->|Hne]; [done|].
  unfold split_at. rewrite decide_False; [done|]. cbn [length]. lia.
Qed.

(** Strings are not read back.  The length of a string is written in eight
    bytes and read from the first four, which are 0: every encoded string decodes
    to the empty one and nothing is left to decode after it.  Bytes with a
    four-byte length that is not 0 make the decoder panic. *)
Theorem string_not_read_back (s rest : list Z) (len : Z) (body : list Z) :
  Z.of_nat (length s) < 2 ^ 32 → 0 < len < 2 ^ 32 →
  decode (encode (mkRString s) ++ rest) = Ok (mkRString [], [])
  ∧ (decode (be_bytes 4 len ++ body) : decoded RString) = Panic.
Proof.
  intros Hs Hlen. split; [|rewrite RString_decode_head by lia; by destruct (Z.eqb_spec len 0); [lia|]].
  assert (encode (mkRString s) ++ rest
    = be_bytes 4 0 ++ be_bytes 4 (Z.of_nat (length s)) ++ s ++ rest) as ->.
  { unfold encode, RString_encode, encode, UInt_encode. cbn [uint_value string_bytes].
    rewrite <- app_assoc. cbn [be_bytes app].
    rewrite !(Z.div_small (Z.of_nat (length s)) (256 ^ Z.of_nat _)) by (cbn; lia). done. }
  by rewrite RString_decode_head by lia.
Qed.

Lemma string_not_read_back_witness :
  decode (encode (mkRString [100; 111]) ++ [7]) = Ok (mkRString [], [])
  ∧ (decode (be_bytes 4 1 ++ [100]) : decoded RString) = Panic.
Proof. apply (string_not_read_back [100; 111] [7] 1 [100]); cbn; lia. Defined.

End Timbre.
