(* ===== verification/Crosscut.v ===== *)
(** What polyphony's stages share: chain points ([crosscut/args.rs]), the errors
    of [lib.rs] and the policies that say which of them may be skipped
    ([crosscut/policies.rs]). *)

From S2P Require Import Prelude.

Module Crosscut.

Record Point : Type := mkPoint { pt_height : Z; pt_hash : list Z }.

#[export] Instance Point_eq_dec : EqDecision Point.
Proof. solve_decision. Defined.

(** [gasket::error::Error], as far as the stages make them themselves. *)
Inductive WorkError : Type := Restart | WorkPanic.

(** [crate::Error], without its messages. *)
Inductive PolyError : Type :=
| ConfigError | NetworkError | LedgerError | MissingUtxo | SourceError | StorageError
| IntersectNotFound | Message | Custom | Encoding | RollbackOutOfRange.

Inductive ErrorAction : Type := Skip | Warn | Default.

Record RuntimePolicy : Type := mkPolicy {
  missing_data : option ErrorAction;
  ledger_errors : option ErrorAction;
  rollback_errors : option ErrorAction;
  any_error : option ErrorAction;
}.

Definition handle_error {T} (err : PolyError) (action : option ErrorAction)
  : outcome PolyError (option T) :=
  match action with Some (Skip | Warn) => Ok None | _ => Err err end.

Definition apply_policy {T} (self : outcome PolyError T) (policy : RuntimePolicy)
  : outcome PolyError (option T) :=
  match self with
  | Ok t => Ok (Some t)
  | Panic => Panic
  | Err err =>
      match any_error policy with
      | Some _ => handle_error err (any_error policy)
      | None =>
          match err with
          | MissingUtxo => handle_error err (missing_data policy)
          | LedgerError => handle_error err (ledger_errors policy)
          | RollbackOutOfRange => handle_error err (rollback_errors policy)
          | _ => Err err
          end
      end
  end.

(** [AsWorkError::or_panic]. *)
Definition or_panic {T} (r : outcome PolyError T) : outcome WorkError T :=
  match r with Ok t => Ok t | Err _ => Err WorkPanic | Panic => Panic end.

End Crosscut.
