(* ===== verification/StorageAction.v ===== *)
(** The storage actions of polyphony and how they reach the store.

    - [polyphony-xdg/src/model.rs]: [StorageAction], its [key], [size], [merge];
    - [storage/tikv.rs]: [SyncBatcher], which merges the actions of a batch of
      blocks per key; [execute_storage_op_in_txn] and its variant that returns
      the action undoing it; [apply_actions];
    - [rollback/buffer.rs]: [RollbackBuffer].

    The TiKV store is a [gmap] of byte strings; a transaction is the store it
    would commit.  The values a batch needs are read at its start ([kv_map]) and
    taken out of that map as the actions use them, as in the code. *)

From S2P Require Import Prelude Crosscut.
Import Crosscut.

Module StorageAction.

Abbreviation Key := (list Z).
Abbreviation Value := (list Z).
Abbreviation Store := (gmap (list Z) (list Z)).

(** ** model.rs *)

Inductive StorageAction : Type :=
| SSet (k : Key) (v : Value)
| Delete (k : Key)
| Insert (k : Key) (v : Value)
| IncrementU64 (k : Key) (d : Z)
| DecrementU64 (k : Key) (d : Z)
| IncrementU128 (k : Key) (d : Z)
| DecrementU128 (k : Key) (d : Z)
| DecrementU128NoDelete (k : Key) (d : Z).

#[export] Instance StorageAction_eq_dec : EqDecision StorageAction.
Proof. solve_decision. Defined.

Definition key (a : StorageAction) : Key :=
  match a with
  | SSet k _ | Delete k | Insert k _ | IncrementU64 k _ | DecrementU64 k _
  | IncrementU128 k _ | DecrementU128 k _ | DecrementU128NoDelete k _ => k
  end.

Definition requires_previous_value (a : StorageAction) : bool :=
  match a with SSet _ _ | Delete _ => false | _ => true end.

Definition size (a : StorageAction) : Z :=
  match a with
  | SSet k v | Insert k v => Z.of_nat (length k) + Z.of_nat (length v)
  | Delete k => Z.of_nat (length k)
  | IncrementU64 k _ | DecrementU64 k _ => Z.of_nat (length k) + 8
  | IncrementU128 k _ | DecrementU128 k _ | DecrementU128NoDelete k _ =>
      Z.of_nat (length k) + 16
  end.

Definition merge (self other : StorageAction) : outcome WorkError StorageAction :=
  if decide (key self = key other) then
    match self, other with
    | IncrementU64 _ pd, IncrementU64 nk nd => Ok (IncrementU64 nk (wrap 64 (pd + nd)))
    | IncrementU64 _ pd, DecrementU64 nk nd =>
        Ok (if nd <=? pd then IncrementU64 nk (pd - nd) else DecrementU64 nk (nd - pd))
    | DecrementU64 _ pd, DecrementU64 nk nd => Ok (DecrementU64 nk (wrap 64 (pd + nd)))
    | DecrementU64 _ pd, IncrementU64 nk nd =>
        Ok (if nd <=? pd then DecrementU64 nk (pd - nd) else IncrementU64 nk (nd - pd))
    | IncrementU128 _ pd, IncrementU128 nk nd => Ok (IncrementU128 nk (wrap 128 (pd + nd)))
    | IncrementU128 _ pd, DecrementU128 nk nd =>
        Ok (if nd <=? pd then IncrementU128 nk (pd - nd) else DecrementU128 nk (nd - pd))
    | IncrementU128 _ pd, DecrementU128NoDelete nk nd =>
        Ok (if nd <=? pd then IncrementU128 nk (pd - nd)
            else DecrementU128NoDelete nk (nd - pd))
    | DecrementU128 _ pd, DecrementU128 nk nd => Ok (DecrementU128 nk (wrap 128 (pd + nd)))
    | DecrementU128 _ pd, IncrementU128 nk nd =>
        Ok (if nd <=? pd then DecrementU128 nk (pd - nd) else IncrementU128 nk (nd - pd))
    | DecrementU128NoDelete _ pd, DecrementU128NoDelete nk nd =>
        Ok (DecrementU128NoDelete nk (wrap 128 (pd + nd)))
    | DecrementU128NoDelete _ pd, IncrementU128 nk nd =>
        Ok (if nd <=? pd then DecrementU128NoDelete nk (pd - nd)
            else IncrementU128 nk (nd - pd))
    | (SSet _ _ | Delete _ | Insert _ _), (SSet _ _ | Delete _) => Ok other
    | SSet _ _, Insert _ _ => Ok self
    | Delete _, Insert k v => Ok (SSet k v)
    | Insert _ _, Insert _ _ => Ok self
    | _, _ => Panic
    end
  else Panic.

(** ** SyncBatcher, but for its counters of merges, which are only logged *)

Record SyncBatcher : Type := mkBatcher {
  batch_actions : gmap (list Z) StorageAction;
  max_len : Z;
  current_len : Z;
  max_bytes : Z;
  estimated_bytes : Z;
}.

Definition batcher_new (max_len tikv_max_raft_entry_bytes : Z) : SyncBatcher :=
  mkBatcher ∅ max_len 0 tikv_max_raft_entry_bytes 0.

Definition push_action (m : gmap (list Z) StorageAction) (a : StorageAction)
  : outcome WorkError (gmap (list Z) StorageAction) :=
  match m !! key a with
  | Some prev => prev ← merge prev a; Ok (<[key a := prev]> m)
  | None => Ok (<[key a := a]> m)
  end.

Definition push_actions (b : SyncBatcher) (actions : list StorageAction)
  : outcome WorkError SyncBatcher :=
  m ← foldM push_action (batch_actions b) actions;
  Ok (mkBatcher m (max_len b) (current_len b + 1) (max_bytes b)
        (wrap 64 (estimated_bytes b + sumZ (map size actions)))).

Definition wipe (b : SyncBatcher) : SyncBatcher :=
  mkBatcher ∅ (max_len b) 0 (max_bytes b) 0.

Definition should_flush (b : SyncBatcher) (next_actions : list StorageAction) : bool :=
  let next_size := wrap 64 (sumZ (map size next_actions)) in
  if max_bytes b <? wrap 64 ((estimated_bytes b + next_size) * 2) then true
  else max_len b <=? current_len b.

Definition batcher_is_empty (b : SyncBatcher) : bool :=
  if decide (batch_actions b = ∅) then true else false.

(** ** Executing an action in a transaction *)

(** A transaction and the values fetched for it. *)
Abbreviation TxnState := (Store * Store)%type.

(** [uN::from_be_bytes(prev_value[0..n].try_into().unwrap())]. *)
Definition read_amount (n : nat) (v : Value) : outcome WorkError Z :=
  if (length v <? n)%nat then Panic else Ok (of_be_bytes (take n v)).

Definition bits (n : nat) : Z := 8 * Z.of_nat n.

Definition increment (n : nat) (k : Key) (d : Z) (st : TxnState) : outcome WorkError TxnState :=
  let '(txn, kv_map) := st in
  if d =? 0 then Ok st
  else
    match kv_map !! k with
    | Some prev_value =>
        prev_amount ← read_amount n prev_value;
        Ok (<[k := be_bytes n (wrap (bits n) (prev_amount + d))]> txn, delete k kv_map)
    | None => Ok (<[k := be_bytes n d]> txn, kv_map)
    end.

(** What a decrement leaves of an amount: nothing when it reaches 0 or would
    pass it. *)
Definition decremented (n : nat) (prev_amount d : Z) : option Value :=
  match checked_sub (bits n) prev_amount d with
  | Some v => if v =? 0 then None else Some (be_bytes n v)
  | None => None
  end.

Definition put_or_delete (k : Key) (v : option Value) (txn : Store) : Store :=
  match v with Some v => <[k := v]> txn | None => delete k txn end.

Definition decrement (n : nat) (k : Key) (d : Z) (st : TxnState) : outcome WorkError TxnState :=
  let '(txn, kv_map) := st in
  if d =? 0 then Ok st
  else
    match kv_map !! k with
    | Some prev_value =>
        prev_amount ← read_amount n prev_value;
        Ok (put_or_delete k (decremented n prev_amount d) txn, delete k kv_map)
    | None => Ok st
    end.

(** The same, which keeps a key whose amount reaches 0. *)
Definition decremented_no_delete (n : nat) (prev_amount d : Z) : Value :=
  match checked_sub (bits n) prev_amount d with
  | Some v => be_bytes n v
  | None => be_bytes n 0
  end.

Definition decrement_no_delete (n : nat) (k : Key) (d : Z) (st : TxnState)
  : outcome WorkError TxnState :=
  let '(txn, kv_map) := st in
  if d =? 0 then Ok st
  else
    match kv_map !! k with
    | Some prev_value =>
        prev_amount ← read_amount n prev_value;
        Ok (<[k := decremented_no_delete n prev_amount d]> txn, delete k kv_map)
    | None => Ok st
    end.

Definition execute_storage_op_in_txn (st : TxnState) (op : StorageAction)
  : outcome WorkError TxnState :=
  let '(txn, kv_map) := st in
  match op with
  | SSet k v => Ok (<[k := v]> txn, kv_map)
  | Delete k => Ok (delete k txn, kv_map)
  | Insert k v =>
      match kv_map !! k with
      | Some _ => Ok (txn, delete k kv_map)
      | None => Ok (<[k := v]> txn, kv_map)
      end
  | IncrementU64 k d => increment 8 k d st
  | DecrementU64 k d => decrement 8 k d st
  | IncrementU128 k d => increment 16 k d st
  | DecrementU128 k d => decrement 16 k d st
  | DecrementU128NoDelete k d => decrement_no_delete 16 k d st
  end.

(** ** The variant that returns the action undoing it *)

Abbreviation WithInverse := (TxnState * option StorageAction)%type.

Definition increment_with_inverse (n : nat) (k : Key) (d : Z) (st : TxnState)
  : outcome WorkError WithInverse :=
  let '(txn, kv_map) := st in
  match kv_map !! k with
  | Some prev_value =>
      prev_amount ← read_amount n prev_value;
      Ok ((<[k := be_bytes n (wrap (bits n) (prev_amount + d))]> txn, delete k kv_map),
          Some (SSet k prev_value))
  | None => Ok ((<[k := be_bytes n d]> txn, kv_map), Some (Delete k))
  end.

Definition decrement_with_inverse (n : nat) (k : Key) (d : Z) (st : TxnState)
  : outcome WorkError WithInverse :=
  let '(txn, kv_map) := st in
  match kv_map !! k with
  | Some prev_value =>
      prev_amount ← read_amount n prev_value;
      Ok ((put_or_delete k (decremented n prev_amount d) txn, delete k kv_map),
          Some (SSet k prev_value))
  | None => Ok (st, None)
  end.

Definition decrement_no_delete_with_inverse (n : nat) (k : Key) (d : Z) (st : TxnState)
  : outcome WorkError WithInverse :=
  let '(txn, kv_map) := st in
  match kv_map !! k with
  | Some prev_value =>
      prev_amount ← read_amount n prev_value;
      Ok ((<[k := decremented_no_delete n prev_amount d]> txn, delete k kv_map),
          Some (SSet k prev_value))
  | None => Ok (st, None)
  end.

Definition execute_storage_op_in_txn_with_inverse (st : TxnState) (op : StorageAction)
  : outcome WorkError WithInverse :=
  let '(txn, kv_map) := st in
  match op with
  | SSet k v =>
      match kv_map !! k with
      | Some prev_value =>
          if decide (prev_value = v) then Ok ((txn, delete k kv_map), None)
          else Ok ((<[k := v]> txn, delete k kv_map), Some (SSet k prev_value))
      | None => Ok ((<[k := v]> txn, kv_map), Some (Delete k))
      end
  | Delete k =>
      match kv_map !! k with
      | Some prev_value => Ok ((delete k txn, delete k kv_map), Some (SSet k prev_value))
      | None => Ok (st, None)
      end
  | Insert k v =>
      match kv_map !! k with
      | Some _ => Ok ((txn, delete k kv_map), None)
      | None => Ok ((<[k := v]> txn, kv_map), Some (Delete k))
      end
  | IncrementU64 k d => increment_with_inverse 8 k d st
  | DecrementU64 k d => decrement_with_inverse 8 k d st
  | IncrementU128 k d => increment_with_inverse 16 k d st
  | DecrementU128 k d => decrement_with_inverse 16 k d st
  | DecrementU128NoDelete k d => decrement_no_delete_with_inverse 16 k d st
  end.

(** ** Applying a list of actions *)

(** [txn.batch_get]: the pairs of the store among the keys (asked for in chunks
    of 1000). *)
Definition batch_get (txn : Store) (keys : list Key) : Store :=
  list_to_map (omap (λ k, (k,.) <$> txn !! k) keys).

Definition batch_get_required_kvs_for_batch (txn : Store) (actions : list StorageAction)
    (need_inverses : bool) : Store :=
  batch_get txn
    (map key (if need_inverses then actions
              else filter (λ a, requires_previous_value a = true) actions)).

Definition run_actions (st : TxnState) (actions : list StorageAction)
  : outcome WorkError TxnState :=
  foldM execute_storage_op_in_txn st actions.

Definition run_actions_with_inverses (st : TxnState) (actions : list StorageAction)
  : outcome WorkError (TxnState * list StorageAction) :=
  foldM (λ '(st, inverses) a,
           '(st, inverse) ← execute_storage_op_in_txn_with_inverse st a;
           Ok (st, inverses ++ option_list inverse))
        (st, []) actions.

(** [apply_actions] with [return_inverses] false and true. *)
Definition apply_actions (txn : Store) (actions : list StorageAction)
  : outcome WorkError Store :=
  '(txn, _) ← run_actions (txn, batch_get_required_kvs_for_batch txn actions false) actions;
  Ok txn.

Definition apply_actions_inverses (txn : Store) (actions : list StorageAction)
  : outcome WorkError (Store * list StorageAction) :=
  '((txn, _), inverses) ←
    run_actions_with_inverses (txn, batch_get_required_kvs_for_batch txn actions true) actions;
  Ok (txn, inverses).

(** ** rollback/buffer.rs *)

Section RollbackBuffer.
Context {P T : Type} `{EqDecision P}.

(** [PointWithResult] entries, the most recent first. *)
Record RollbackBuffer : Type := mkBuffer { blocks : list (P * T); buf_size : nat }.

Definition buffer_new (size : nat) : RollbackBuffer := mkBuffer [] size.

Definition position (b : RollbackBuffer) (point : P) : option nat :=
  fst <$> list_find (λ p, p.1 = point) (blocks b).

Definition buffer_is_empty (b : RollbackBuffer) : bool :=
  match blocks b with [] => true | _ => false end.

Definition latest (b : RollbackBuffer) : option (P * T) := head (blocks b).
Definition oldest (b : RollbackBuffer) : option (P * T) := last (blocks b).

Definition add_block (b : RollbackBuffer) (point : P) (result : T) : RollbackBuffer :=
  mkBuffer (take (buf_size b) ((point, result) :: blocks b)) (buf_size b).

Definition rollback_to_point (b : RollbackBuffer) (point : P)
  : option (list (P * T) * RollbackBuffer) :=
  p ← position b point;
  Some (take p (blocks b), mkBuffer (drop p (blocks b)) (buf_size b)).

Definition points_since (b : RollbackBuffer) (point : P) : option (list (P * T)) :=
  p ← position b point;
  Some (take p (blocks b)).
End RollbackBuffer.
Arguments RollbackBuffer : clear implicits.

(** ** One action at a time *)

(** What an action makes of the value of its key. *)
Definition effect_raw (op : StorageAction) (prev : option Value)
  : outcome WorkError (option Value) :=
  let incr n d :=
    match prev with
    | Some p => a ← read_amount n p; Ok (Some (be_bytes n (wrap (bits n) (a + d))))
    | None => Ok (Some (be_bytes n d))
    end in
  let decr n d :=
    match prev with
    | Some p => a ← read_amount n p; Ok (decremented n a d)
    | None => Ok None
    end in
  match op with
  | SSet _ v => Ok (Some v)
  | Delete _ => Ok None
  | Insert _ v => Ok (Some (default v prev))
  | IncrementU64 _ d => incr 8%nat d
  | IncrementU128 _ d => incr 16%nat d
  | DecrementU64 _ d => decr 8%nat d
  | DecrementU128 _ d => decr 16%nat d
  | DecrementU128NoDelete _ d =>
      match prev with
      | Some p => a ← read_amount 16 p; Ok (Some (decremented_no_delete 16 a d))
      | None => Ok None
      end
  end.

(** A counter moved by 0, which the plain variant skips. *)
Definition zero_delta (op : StorageAction) : bool :=
  match op with
  | IncrementU64 _ d | DecrementU64 _ d | IncrementU128 _ d | DecrementU128 _ d
  | DecrementU128NoDelete _ d => d =? 0
  | _ => false
  end.

Definition effect (op : StorageAction) (prev : option Value) : outcome WorkError (option Value) :=
  if zero_delta op then Ok prev else effect_raw op prev.

(** The action executed alone. *)
Definition run_one (s : Store) (op : StorageAction) : outcome WorkError Store :=
  v ← effect op (s !! key op); Ok (put_or_delete (key op) v s).

Lemma put_or_delete_same (k : Key) (s : Store) : put_or_delete k (s !! k) s = s.
Proof.
  unfold put_or_delete. destruct (s !! k) eqn:E; [by apply insert_id|by apply delete_id].
Qed.

Lemma lookup_put_or_delete (k k' : Key) (v : option Value) (s : Store) :
  put_or_delete k v s !! k' = if decide (k' = k) then v else s !! k'.
Proof.
  unfold put_or_delete. destruct (decide (k' = k)) as [->|Hne]; destruct v.
  - by rewrite lookup_insert_eq.
  - by rewrite lookup_delete_eq.
  - by rewrite lookup_insert_ne.
  - by rewrite lookup_delete_ne.
Qed.

Lemma lookup_put_or_delete_eq (k : Key) (v : option Value) (s : Store) : put_or_delete k v s !! k = v.
Proof. by rewrite lookup_put_or_delete, decide_True. Qed.

Lemma lookup_put_or_delete_ne (k k' : Key) (v : option Value) (s : Store) : k' ≠ k → put_or_delete k v s !! k' = s !! k'.
Proof. intros. by rewrite lookup_put_or_delete, decide_False. Qed.

(** Executing an action is its effect on the key, when the value it needs was
    fetched. *)
Lemma execute_effect (txn kv : Store) op :
  (requires_previous_value op = true → kv !! key op = txn !! key op) →
  ∃ kv', (∀ k, k ≠ key op → kv' !! k = kv !! k)
    ∧ execute_storage_op_in_txn (txn, kv) op
      = (v ← effect op (txn !! key op); Ok (put_or_delete (key op) v txn, kv')).
Proof.
  intros Hkv. destruct op; cbn [key requires_previous_value] in Hkv;
    unfold execute_storage_op_in_txn, increment, decrement, decrement_no_delete, effect;
    cbn [key zero_delta];
    try (exists kv; split; [done|reflexivity]);
    rewrite (Hkv eq_refl); destruct (txn !! k) as [p|] eqn:E; try destruct (d =? 0) eqn:Ed;
    try (exists kv; split; [done|]; cbn [effect_raw mbind outcome_bind default from_option id];
         rewrite <- ?E, ?put_or_delete_same; reflexivity);
    (exists (delete k kv); split; [intros; by rewrite lookup_delete_ne|]);
    cbn [effect_raw mbind outcome_bind default from_option id]; rewrite <- ?E, ?put_or_delete_same;
    try reflexivity; by destruct (read_amount _ p).
Qed.

Lemma batch_get_lookup (txn : Store) (keys : list Key) (k : Key) :
  k ∈ keys → batch_get txn keys !! k = txn !! k.
Proof.
  intros Hin. unfold batch_get. induction keys as [|k' keys IH]; [by apply not_elem_of_nil in Hin|].
  cbn [omap list_omap]. apply elem_of_cons in Hin. destruct (txn !! k') as [v|] eqn:E;
    cbn [fmap option_fmap option_map].
  - cbn [list_to_map foldr]. destruct (decide (k = k')) as [->|Hne].
    + cbn. by rewrite lookup_insert_eq.
    + cbn. rewrite lookup_insert_ne by done. apply IH. by destruct Hin.
  - destruct (decide (k = k')) as [->|Hne]; [|apply IH; by destruct Hin].
    rewrite E. destruct (decide (k' ∈ keys)) as [Hk|Hk]; [rewrite IH; done|].
    apply not_elem_of_list_to_map_1. intros (q & -> & Hq)%list_elem_of_fmap.
    apply list_elem_of_omap in Hq as (y & Hy & Heq).
    destruct (txn !! y) eqn:Ey; [|done]. injection Heq as <-. done.
Qed.

(** The values fetched cover what the actions ahead need. *)
Definition fetched (txn kv : Store) (actions : list StorageAction) : Prop :=
  Forall (λ a, requires_previous_value a = true → kv !! key a = txn !! key a) actions.

Lemma fetched_batch (txn : Store) (actions : list StorageAction) (need : bool) :
  fetched txn (batch_get_required_kvs_for_batch txn actions need) actions.
Proof.
  apply Forall_forall. intros a Ha Hreq. apply batch_get_lookup, list_elem_of_fmap.
  exists a. split; [done|]. destruct need; [done|]. by apply list_elem_of_filter.
Qed.

(** Distinct keys, but among the actions that need no previous value. *)
Definition no_clash (actions : list StorageAction) : Prop :=
  NoDup (map key actions) ∨ Forall (λ a, requires_previous_value a = false) actions.

Lemma no_clash_cons a l : no_clash (a :: l) →
  no_clash l ∧ Forall (λ b, requires_previous_value b = true → key b ≠ key a) l.
Proof.
  intros [H|H].
  - cbn in H. apply NoDup_cons in H as [Hni Hnd]. split; [by left|].
    apply Forall_forall. intros b Hb _ E. apply Hni. rewrite <- E. by apply list_elem_of_fmap_2.
  - apply Forall_cons in H as [_ H]. split; [by right|].
    eapply Forall_impl; [exact H|]. cbn. intros b -> [=].
Qed.

Lemma run_actions_spec (actions : list StorageAction) (txn kv : Store) :
  no_clash actions → fetched txn kv actions →
  ('(txn, _) ← run_actions (txn, kv) actions; Ok txn) = foldM run_one txn actions.
Proof.
  unfold run_actions. revert txn kv. induction actions as [|a l IH]; intros txn kv Hc Hf; [done|].
  apply no_clash_cons in Hc as [Hc Hne]. apply Forall_cons in Hf as [Ha Hf].
  destruct (execute_effect txn kv a Ha) as (kv' & Hkv' & E).
  cbn [foldM]. rewrite E. unfold run_one at 1.
  destruct (effect a (txn !! key a)) as [v| |]; [|done|done]. cbn [mbind outcome_bind].
  apply IH; [done|]. apply Forall_forall. intros b Hb Hreq.
  rewrite Forall_forall in Hne, Hf. specialize (Hne b Hb Hreq).
  rewrite Hkv', lookup_put_or_delete_ne by done. by apply Hf.
Qed.

(** A batch of actions on distinct keys is its actions executed one by one. *)
Lemma apply_actions_spec (s : Store) (actions : list StorageAction) :
  no_clash actions → apply_actions s actions = foldM run_one s actions.
Proof. intros Hc. apply run_actions_spec; [done|apply fetched_batch]. Qed.

(** The store after actions on distinct keys. *)
Lemma foldM_run_one (l : list StorageAction) (s : Store) :
  NoDup (map key l) → Forall (λ a, ∃ w, effect a (s !! key a) = Ok w) l →
  ∃ s', foldM run_one s l = Ok s'
    ∧ (∀ a, a ∈ l → effect a (s !! key a) = Ok (s' !! key a))
    ∧ (∀ k, k ∉ map key l → s' !! k = s !! k).
Proof.
  revert s. induction l as [|a l IH]; intros s Hnd Hok.
  { exists s. split; [done|]. split; [|done]. intros a Ha. by apply not_elem_of_nil in Ha. }
  cbn in Hnd. apply NoDup_cons in Hnd as [Hni Hnd]. apply Forall_cons in Hok as [[w Hw] Hok].
  cbn [foldM]. unfold run_one at 1. rewrite Hw. cbn [mbind outcome_bind].
  assert (∀ b, b ∈ l → key b ≠ key a) as Hne.
  { intros b Hb E. apply Hni. rewrite <- E. by apply list_elem_of_fmap_2. }
  destruct (IH (put_or_delete (key a) w s)) as (s' & Hs' & Hin & Hout); [done| |].
  { apply Forall_forall. intros b Hb. rewrite lookup_put_or_delete_ne by auto.
    by rewrite Forall_forall in Hok; apply Hok. }
  exists s'. split; [done|]. split.
  - intros b [->|Hb]%elem_of_cons; [by rewrite Hout, lookup_put_or_delete_eq|].
    rewrite <- Hin by done. by rewrite lookup_put_or_delete_ne by auto.
  - intros k [Hk1 Hk2]%not_elem_of_cons. by rewrite Hout, lookup_put_or_delete_ne.
Qed.

(** ** Undoing a block *)

Definition restore_action (k : Key) (prev : option Value) : StorageAction :=
  match prev with Some p => SSet k p | None => Delete k end.

Lemma effect_restore (k : Key) prev v : effect (restore_action k prev) v = Ok prev.
Proof. by destruct prev. Qed.

Lemma key_restore (k : Key) prev : key (restore_action k prev) = k.
Proof. by destruct prev. Qed.

(** The actions each put back the value their key has in [s]. *)
Definition records (s : Store) (inverses : list StorageAction) : Prop :=
  Forall (λ a, a = restore_action (key a) (s !! key a)) inverses.

Lemma records_plain (s : Store) (l : list StorageAction) : records s l → Forall (λ a, requires_previous_value a = false) l.
Proof. intros H. eapply Forall_impl; [exact H|]. cbn. intros a ->. by destruct (s !! _). Qed.

Lemma apply_records (s s' : Store) (l : list StorageAction) :
  records s l → ∃ s'', apply_actions s' l = Ok s''
    ∧ ∀ k, s'' !! k = if decide (k ∈ map key l) then s !! k else s' !! k.
Proof.
  intros H. rewrite apply_actions_spec by (right; by eapply records_plain).
  revert s'. induction l as [|a l IH]; intros s'; [by exists s'|].
  apply Forall_cons in H as [Ha Hl]. cbn [foldM]. unfold run_one at 1.
  assert (effect a (s' !! key a) = Ok (s !! key a)) as Ea
    by (destruct a, (s !! _); cbn in Ha |- *; congruence).
  rewrite Ea. cbn [mbind outcome_bind].
  destruct (IH Hl (put_or_delete (key a) (s !! key a) s')) as (s'' & E & Hs'').
  exists s''. split; [done|]. intros k. rewrite Hs''. cbn [map].
  destruct (decide (k ∈ map key l)) as [Hin|Hni].
  - rewrite decide_True; [done|]. by right.
  - destruct (decide (k = key a)) as [->|Hne].
    + rewrite lookup_put_or_delete_eq, decide_True; [done|]. by left.
    + rewrite lookup_put_or_delete_ne, decide_False; [done| |done].
      by rewrite elem_of_cons; intros [?|?].
Qed.

Lemma execute_inverse (txn kv txn' kv' : Store) (op : StorageAction)
    (inverse : option StorageAction) :
  kv !! key op = txn !! key op →
  execute_storage_op_in_txn_with_inverse (txn, kv) op = Ok ((txn', kv'), inverse) →
  (∀ k, k ≠ key op → kv' !! k = kv !! k)
  ∧ (∃ v, effect_raw op (txn !! key op) = Ok v ∧ txn' = put_or_delete (key op) v txn)
  ∧ match inverse with
    | Some a => a = restore_action (key op) (txn !! key op)
    | None => txn' = txn
    end.
Proof.
  intros Hkv. destruct op; cbn [key] in *;
    unfold execute_storage_op_in_txn_with_inverse, increment_with_inverse, decrement_with_inverse,
      decrement_no_delete_with_inverse; rewrite Hkv; destruct (txn !! k) as [p|] eqn:E;
    cbn [effect_raw default from_option id];
    try (destruct (read_amount _ p); cbn [mbind outcome_bind]; [|done|done]);
    try (destruct (decide (p = v)) as [->|]); intros [= <- <- <-];
    (split; [intros; by rewrite ?lookup_delete_ne|]);
    (split; [eexists; split; [reflexivity|]|try done; by apply delete_id]);
    rewrite <- ?E, ?put_or_delete_same; try reflexivity; cbn [put_or_delete];
    by rewrite ?insert_id, ?delete_id.
Qed.

(** The inverses of actions on distinct keys record the store before them, and
    every other key is as it was. *)
Lemma run_inverses_spec (actions : list StorageAction) (txn kv txn' kv' : Store)
    (inverses : list StorageAction) :
  NoDup (map key actions) → Forall (λ a, kv !! key a = txn !! key a) actions →
  run_actions_with_inverses (txn, kv) actions = Ok ((txn', kv'), inverses) →
  records txn inverses
  ∧ (∀ k, k ∉ map key inverses → txn' !! k = txn !! k)
  ∧ NoDup (map key inverses) ∧ map key inverses ⊆ map key actions
  ∧ (∀ a, a ∈ actions → effect_raw a (txn !! key a) = Ok (txn' !! key a)).
Proof.
  intros Hnd Hkv Hrun.
  cut (records txn inverses
  ∧ (∀ k, k ∉ map key inverses → txn' !! k = txn !! k)
  ∧ NoDup (map key inverses) ∧ map key inverses ⊆ map key actions
  ∧ (∀ k, k ∉ map key actions → kv' !! k = kv !! k ∧ txn' !! k = txn !! k)
  ∧ (∀ a, a ∈ actions → effect_raw a (txn !! key a) = Ok (txn' !! key a))).
  { intros (H1 & H2 & H3 & H4 & _ & H6). by repeat split. }
  revert txn' kv' inverses Hrun. unfold run_actions_with_inverses.
  induction actions as [|a l IH] using rev_ind; intros txn' kv' inverses Hrun.
  { injection Hrun as <- <- <-. repeat split; try done; try constructor.
    intros a Ha. by apply not_elem_of_nil in Ha. }
  rewrite foldM_app in Hrun.
  destruct (foldM _ _ l) as [[[t1 k1] inv1]| |] eqn:El; [|done|done].
  cbn [mbind outcome_bind foldM] in Hrun.
  rewrite map_app in Hnd. apply NoDup_app in Hnd as (Hnd & Hdis & _).
  apply Forall_app in Hkv as [Hkv [Ha _]%Forall_cons].
  destruct (IH Hnd Hkv t1 k1 inv1 eq_refl) as (Hrec & Hout & Hnd1 & Hsub & Hrest & Heff).
  assert (key a ∉ map key l) as Hal.
  { intros Hin. apply (Hdis _ Hin). by apply list_elem_of_singleton. }
  destruct (Hrest _ Hal) as [Hk1 Ht1].
  destruct (execute_storage_op_in_txn_with_inverse (t1, k1) a) as [[[t2 k2] inv]| |] eqn:Ea;
    [|done|done].
  cbn [mbind outcome_bind] in Hrun. injection Hrun as <- <- <-.
  destruct (execute_inverse t1 k1 t2 k2 a inv) as (Hk2 & (v & Hv & ->) & Hinv);
    [by rewrite Hk1, Ha|done|].
  rewrite Ht1 in Hv, Hinv.
  assert (∀ k, k ∉ map key (l ++ [a]) → k2 !! k = kv !! k
    ∧ put_or_delete (key a) v t1 !! k = txn !! k) as Hrest2.
  { intros k Hk. rewrite map_app in Hk. apply not_elem_of_app in Hk as [Hkl Hka].
    assert (k ≠ key a) as Hne by (intros ->; apply Hka; by apply list_elem_of_singleton).
    rewrite Hk2, lookup_put_or_delete_ne by done. by apply Hrest. }
  assert (∀ b, b ∈ l ++ [a] → effect_raw b (txn !! key b)
    = Ok (put_or_delete (key a) v t1 !! key b)) as Heff2.
  { intros b [Hb|Hb]%elem_of_app; [|apply list_elem_of_singleton in Hb as ->; by rewrite lookup_put_or_delete_eq].
    rewrite lookup_put_or_delete_ne; [by apply Heff|]. intros E. apply Hal. rewrite <- E.
    by apply list_elem_of_fmap_2. }
  destruct inv as [i|].
  - change (option_list (Some i)) with [i].
    assert (map key (inv1 ++ [i]) = map key inv1 ++ [key a]) as Hm
      by (rewrite map_app; cbn; by rewrite Hinv, key_restore).
    rewrite Hm. split; [|split; [|split; [|split; [|split]]]]; try done.
    + apply Forall_app. split; [done|]. apply Forall_singleton. by rewrite Hinv, key_restore.
    + intros k [Hk1' Hk2']%not_elem_of_app. rewrite lookup_put_or_delete_ne; [by apply Hout|].
      intros ->. apply Hk2'. by apply list_elem_of_singleton.
    + apply NoDup_app. split; [done|]. split; [|apply NoDup_singleton].
      intros k Hk ->%list_elem_of_singleton. by apply Hal, Hsub.
    + rewrite map_app. intros k [Hk|Hk]%elem_of_app; apply elem_of_app; [left; by apply Hsub|by right].
  - change (option_list None) with ([] : list StorageAction).
    rewrite app_nil_r. split; [done|]. rewrite Hinv in *. split; [done|]. split; [done|].
    split; [|by split]. rewrite map_app. intros k Hk. apply elem_of_app. left. by apply Hsub.
Qed.

Lemma apply_inverses_spec (s s' : Store) (actions inverses : list StorageAction) :
  NoDup (map key actions) → apply_actions_inverses s actions = Ok (s', inverses) →
  records s inverses ∧ (∀ k, k ∉ map key inverses → s' !! k = s !! k)
  ∧ NoDup (map key inverses) ∧ map key inverses ⊆ map key actions
  ∧ (∀ a, a ∈ actions → effect_raw a (s !! key a) = Ok (s' !! key a)).
Proof.
  intros Hnd. unfold apply_actions_inverses.
  destruct (run_actions_with_inverses _ actions) as [[[t k] inv]| |] eqn:E; [|done|done].
  intros [= -> ->]. eapply run_inverses_spec; [done| |exact E].
  apply Forall_forall. intros a Ha. apply batch_get_lookup. by apply list_elem_of_fmap_2.
Qed.

(** The inverses, in any order, undo a block. *)
Lemma apply_inverses_undo (s s' : Store) (actions inverses inverses' : list StorageAction) :
  NoDup (map key actions) → apply_actions_inverses s actions = Ok (s', inverses) →
  inverses' ≡ₚ inverses → apply_actions s' inverses' = Ok s.
Proof.
  intros Hnd E Hp. destruct (apply_inverses_spec s s' actions inverses Hnd E) as (Hrec & Hout & _).
  assert (records s inverses') as Hrec' by (unfold records; by rewrite Hp).
  destruct (apply_records s s' inverses' Hrec') as (s'' & -> & Hs''). f_equal.
  apply map_eq. intros k. rewrite Hs''. destruct (decide _) as [|Hni]; [done|].
  apply Hout. by rewrite <- Hp.
Qed.

(** ** Merging *)

(** What a key holds: data, or a counter of [width] bytes. *)
Inductive Kind : Type := KData | KU64 | KU128 | KU128Keep.

#[export] Instance Kind_eq_dec : EqDecision Kind.
Proof. solve_decision. Defined.

Definition width (kd : Kind) : nat := match kd with KData => 0 | KU64 => 8 | _ => 16 end.

Definition of_kind (kd : Kind) (a : StorageAction) : bool :=
  match kd, a with
  | KData, (SSet _ _ | Delete _ | Insert _ _) => true
  | KU64, (IncrementU64 _ _ | DecrementU64 _ _) => true
  | KU128, (IncrementU128 _ _ | DecrementU128 _ _) => true
  | KU128Keep, (IncrementU128 _ _ | DecrementU128NoDelete _ _) => true
  | _, _ => false
  end.

(** By how much a counter moves. *)
Definition delta (a : StorageAction) : Z :=
  match a with
  | IncrementU64 _ d | IncrementU128 _ d => d
  | DecrementU64 _ d | DecrementU128 _ d | DecrementU128NoDelete _ d => - d
  | _ => 0
  end.

Definition amount_arg (a : StorageAction) : Z :=
  match a with
  | IncrementU64 _ d | IncrementU128 _ d | DecrementU64 _ d | DecrementU128 _ d
  | DecrementU128NoDelete _ d => d
  | _ => 0
  end.

(** The number a counter key stands for; a missing key counts 0. *)
Definition amount (n : nat) (v : option Value) : Z :=
  match v with Some v => of_be_bytes (take n v) | None => 0 end.

(** Same data, or same count. *)
Definition same_reading (kd : Kind) (v w : option Value) : Prop :=
  match kd with KData => v = w | _ => amount (width kd) v = amount (width kd) w end.

#[export] Instance same_reading_equivalence kd : Equivalence (same_reading kd).
Proof. destruct kd; split; repeat intro; cbn in *; congruence. Qed.

Definition value_ok (kd : Kind) (v : option Value) : Prop :=
  match kd, v with
  | KData, _ | _, None => True
  | _, Some v => length v = width kd ∧ bytes_ok v
  end.

(** An action that neither takes a counter below 0 nor over its width. *)
Definition clean (kd : Kind) (a : StorageAction) (v : option Value) : Prop :=
  kd = KData ∨ in_range (bits (width kd)) (amount_arg a)
    ∧ in_range (bits (width kd)) (amount (width kd) v + delta a).

#[export] Instance clean_dec kd a v : Decision (clean kd a v).
Proof. unfold clean. apply _. Defined.

Lemma pow_bits n : 2 ^ bits n = 256 ^ Z.of_nat n.
Proof. unfold bits. rewrite Z.pow_mul_r by lia. done. Qed.

Lemma amount_be_bytes n z : in_range (bits n) z → amount n (Some (be_bytes n z)) = z.
Proof.
  intros Hz. unfold amount. rewrite take_ge by (rewrite length_be_bytes; lia).
  apply of_be_be_bytes_small. unfold in_range in Hz. by rewrite pow_bits in Hz.
Qed.

Lemma amount_range kd v : value_ok kd v → in_range (bits (width kd)) (amount (width kd) v).
Proof.
  intros Hv. destruct v as [v|]; cbn [amount].
  - destruct kd.
    { cbn. rewrite take_0. unfold in_range, bits. cbn. lia. }
    all: destruct Hv as [Hl Hb]; rewrite take_ge by (rewrite Hl; lia);
      pose proof (of_be_bytes_bound v Hb) as Hbd; rewrite Hl in Hbd;
      unfold in_range; by rewrite pow_bits.
  - unfold in_range, bits. split; [lia|]. apply Z.pow_pos_nonneg; lia.
Qed.

Lemma read_amount_ok kd v : kd ≠ KData → value_ok kd (Some v) →
  read_amount (width kd) v = Ok (amount (width kd) (Some v)).
Proof.
  intros Hkd Hv. unfold read_amount. destruct (Nat.ltb_spec (length v) (width kd)); [|done].
  destruct kd; [done|..]; destruct Hv; lia.
Qed.

Lemma value_ok_be_bytes kd z : value_ok kd (Some (be_bytes (width kd) z)).
Proof. destruct kd; [done|..]; (split; [apply length_be_bytes|apply be_bytes_ok]). Qed.

Lemma checked_sub_ok w a b : in_range w (a + - b) → checked_sub w a b = Some (a + - b).
Proof. intros H. unfold checked_sub. rewrite <- Z.add_opp_r. by apply try_into_ok. Qed.

(** The value [w] is fine for the kind and counts [z]. *)
Definition counts (kd : Kind) (z : Z) (w : option Value) : Prop :=
  value_ok kd w ∧ amount (width kd) w = z.

Lemma counts_be_bytes kd z : in_range (bits (width kd)) z →
  counts kd z (Some (be_bytes (width kd) z)).
Proof. intros Hz. split; [apply value_ok_be_bytes|by apply amount_be_bytes]. Qed.

Lemma counts_decremented kd a d : in_range (bits (width kd)) (a + - d) →
  counts kd (a + - d) (decremented (width kd) a d)
  ∧ counts kd (a + - d) (Some (decremented_no_delete (width kd) a d)).
Proof.
  intros H. unfold decremented, decremented_no_delete. rewrite checked_sub_ok by done.
  split; [|by apply counts_be_bytes].
  destruct (Z.eqb_spec (a + - d) 0) as [E|]; [|by apply counts_be_bytes].
  rewrite E. split; [by destruct kd|done].
Qed.

(** A clean counter action adds its delta. *)
Lemma effect_amount kd a v :
  kd ≠ KData → of_kind kd a = true → value_ok kd v → clean kd a v →
  ∃ w, effect a v = Ok w ∧ counts kd (amount (width kd) v + delta a) w.
Proof.
  intros Hkd Hk Hv [?|[Ha Hr]]; [done|]. unfold effect.
  destruct (zero_delta a) eqn:Hz.
  { exists v. split; [done|]. split; [done|].
    destruct a; cbn [zero_delta delta] in *; try lia; destruct kd; discriminate. }
  pose proof (counts_be_bytes kd _ Hr) as Hput.
  destruct v as [v|].
  - pose proof (read_amount_ok kd v Hkd Hv) as Hread.
    pose proof (counts_decremented kd (amount (width kd) (Some v)) (amount_arg a)) as Hdec.
    destruct kd, a; try done; cbn [width effect_raw delta amount_arg] in *; rewrite Hread;
      cbn [mbind outcome_bind]; rewrite ?wrap_small by done;
      (eexists; split; [reflexivity|]; first [done | by apply Hdec]).
  - destruct kd, a; try done; cbn [width effect_raw delta amount_arg amount zero_delta] in *;
      try (exfalso; unfold in_range in Hr, Ha; lia); (eexists; split; [reflexivity|done]).
Qed.

(** The merged action [a] takes the value [v] to what stands for [w]. *)
Definition stands_for (kd : Kind) (a : StorageAction) (v w : option Value) : Prop :=
  match kd with
  | KData => effect a v = Ok w
  | _ => in_range (bits (width kd)) (amount_arg a)
      ∧ amount (width kd) v + delta a = amount (width kd) w
  end.

Lemma merge_data a b v w w' :
  of_kind KData a = true → of_kind KData b = true → key a = key b →
  effect a v = Ok w → effect b w = Ok w' →
  ∃ c, merge a b = Ok c ∧ key c = key b ∧ of_kind KData c = true ∧ effect c v = Ok w'.
Proof.
  intros Ha Hb Hkey Hw Hw'. unfold merge. rewrite decide_True by done.
  destruct a, b; try done; cbn in Hkey; subst;
    injection Hw as <-; injection Hw' as <-; (eexists; split; [reflexivity|]); done.
Qed.

(** Counters merge by adding their deltas, within the width. *)
Lemma merge_counter kd a b :
  kd ≠ KData → of_kind kd a = true → of_kind kd b = true → key a = key b →
  in_range (bits (width kd)) (amount_arg a) → in_range (bits (width kd)) (amount_arg b) →
  - 2 ^ bits (width kd) < delta a + delta b < 2 ^ bits (width kd) →
  ∃ c, merge a b = Ok c ∧ key c = key b ∧ of_kind kd c = true
    ∧ in_range (bits (width kd)) (amount_arg c) ∧ delta c = delta a + delta b.
Proof.
  intros Hkd Ha Hb Hkey Hra Hrb Hsum. unfold merge. rewrite decide_True by done.
  destruct kd, a, b; try done; cbn [width amount_arg delta] in *;
    change (bits 8) with 64 in *; change (bits 16) with 128 in *; unfold in_range in *;
    rewrite ?wrap_small by (unfold in_range; lia);
    try destruct (Z.leb_spec d0 d); eexists; (split; [reflexivity|]); cbn [key of_kind amount_arg delta];
    (split; [done|]); (split; [done|]); lia.
Qed.

Lemma merge_total kd a b :
  of_kind kd a = true → of_kind kd b = true → key a = key b →
  ∃ c, merge a b = Ok c ∧ key c = key b ∧ of_kind kd c = true.
Proof.
  intros Ha Hb Hkey. unfold merge. rewrite decide_True by done.
  destruct kd, a, b; try done; try destruct (d0 <=? d);
    (eexists; split; [reflexivity|]; split; [done || by symmetry|done]).
Qed.

Lemma merge_step kd a b v w w' :
  of_kind kd a = true → of_kind kd b = true → key a = key b →
  value_ok kd v → value_ok kd w → stands_for kd a v w → clean kd b w → effect b w = Ok w' →
  ∃ c, merge a b = Ok c ∧ key c = key b ∧ of_kind kd c = true ∧ stands_for kd c v w'.
Proof.
  intros Ha Hb Hkey Hv Hw Hst Hcl Hw'. destruct (decide (kd = KData)) as [->|Hkd].
  { by eapply merge_data. }
  destruct (effect_amount kd b w Hkd Hb Hw Hcl) as (w2 & E & _ & Hw2).
  rewrite Hw' in E. injection E as <-.
  assert (in_range (bits (width kd)) (amount_arg a)
    ∧ amount (width kd) v + delta a = amount (width kd) w) as [Har Hsum] by (by destruct kd).
  destruct Hcl as [?|[Hbr Hrange]]; [done|].
  pose proof (amount_range kd v Hv) as Hvr.
  destruct (merge_counter kd a b) as (c & E & Hc & Hk & Hcr & Hd); try done.
  { unfold in_range in *. lia. }
  exists c. split; [done|]. split; [done|]. split; [done|].
  destruct kd; [done|..]; (split; [done|]); lia.
Qed.

Lemma stands_for_effect kd a v w :
  of_kind kd a = true → value_ok kd v → value_ok kd w → stands_for kd a v w →
  ∃ w', effect a v = Ok w' ∧ same_reading kd w' w.
Proof.
  intros Ha Hv Hw Hst. destruct (decide (kd = KData)) as [->|Hkd]; [by exists w|].
  assert (in_range (bits (width kd)) (amount_arg a)
    ∧ amount (width kd) v + delta a = amount (width kd) w) as [Har Hsum] by (by destruct kd).
  destruct (effect_amount kd a v) as (w' & E & _ & Hw'); try done.
  { right. split; [done|]. rewrite Hsum. by apply amount_range. }
  exists w'. split; [done|]. destruct kd; [done|..]; cbn [same_reading]; congruence.
Qed.

Section Batch.
Context (kind : Key → Kind).

Definition typed (a : StorageAction) : Prop := of_kind (kind (key a)) a = true.
Definition store_ok (s : Store) : Prop := ∀ k : Key, value_ok (kind k) (s !! k).

(** The actions executed one after another, none of which takes a counter out
    of its range. *)
Inductive runs : Store → list StorageAction → Store → Prop :=
| runs_nil s : runs s [] s
| runs_cons s a s' l s'' :
    clean (kind (key a)) a (s !! key a) → run_one s a = Ok s' → runs s' l s'' →
    runs s (a :: l) s''.

(** The run, computed. *)
Fixpoint runs_check (s : Store) (l : list StorageAction) : option Store :=
  match l with
  | [] => Some s
  | a :: l =>
      if decide (clean (kind (key a)) a (s !! key a))
      then match run_one s a with Ok s' => runs_check s' l | _ => None end else None
  end.

Lemma runs_check_sound (l : list StorageAction) (s s' : Store) :
  runs_check s l = Some s' → runs s l s'.
Proof.
  revert s. induction l as [|a l IH]; intros s; cbn [runs_check].
  - intros [= ->]. constructor.
  - destruct (decide _); [|done]. destruct (run_one s a) eqn:E; [|done|done].
    intros H. econstructor; [done|done|]. by apply IH.
Qed.

(** The batch [m] collected since [s], when one by one the store is [s']. *)
Definition collected (s s' : Store) (m : gmap (list Z) StorageAction) : Prop :=
  ∀ k : Key, value_ok (kind k) (s' !! k) ∧
    match m !! k with
    | None => s' !! k = s !! k
    | Some a => key a = k ∧ typed a ∧ stands_for (kind k) a (s !! k) (s' !! k)
    end.

Lemma effect_value_ok a v w :
  typed a → value_ok (kind (key a)) v → clean (kind (key a)) a v → effect a v = Ok w →
  value_ok (kind (key a)) w.
Proof.
  intros Ht Hv Hc E. destruct (decide (kind (key a) = KData)) as [->|Hkd]; [done|].
  destruct (effect_amount _ a v Hkd Ht Hv Hc) as (w' & E' & Hok & _). congruence.
Qed.

Lemma clean_stands_for a v w :
  typed a → value_ok (kind (key a)) v → clean (kind (key a)) a v → effect a v = Ok w →
  stands_for (kind (key a)) a v w.
Proof.
  intros Ht Hv Hc E. destruct (decide (kind (key a) = KData)) as [->|Hkd]; [done|].
  destruct (effect_amount _ a v Hkd Ht Hv Hc) as (w' & E' & _ & Hw).
  destruct Hc as [?|[Hr _]]; [done|]. rewrite E in E'. injection E' as <-.
  by destruct (kind (key a)).
Qed.

Lemma push_action_collected (s s' s'' : Store) m a :
  store_ok s → collected s s' m → typed a → clean (kind (key a)) a (s' !! key a) →
  run_one s' a = Ok s'' → ∃ m', push_action m a = Ok m' ∧ collected s s'' m'.
Proof.
  intros Hs Hcol Ht Hcl Hrun. unfold run_one in Hrun.
  destruct (effect a (s' !! key a)) as [w| |] eqn:Ew; [|done|done]. injection Hrun as <-.
  destruct (Hcol (key a)) as [Hok Hm].
  assert (∀ c, key c = key a → typed c → stands_for (kind (key a)) c (s !! key a) w →
    collected s (put_or_delete (key a) w s') (<[key a := c]> m)) as Hnext.
  { intros c Hkc Htc Hst k. destruct (decide (k = key a)) as [->|Hne].
    - rewrite lookup_put_or_delete_eq, lookup_insert_eq.
      split; [by eapply effect_value_ok|done].
    - rewrite lookup_put_or_delete_ne, lookup_insert_ne by done. apply Hcol. }
  unfold push_action. destruct (m !! key a) as [prev|].
  - destruct Hm as (Hkp & Htp & Hst). unfold typed in Htp. rewrite Hkp in Htp.
    destruct (merge_step _ prev a (s !! key a) (s' !! key a) w Htp Ht) as (c & -> & Hkc & Hkind & Hc);
      try done.
    cbn [mbind outcome_bind]. eexists. split; [reflexivity|]. apply Hnext; [done| |done].
    unfold typed. by rewrite Hkc.
  - eexists. split; [reflexivity|]. apply Hnext; [done|done|]. rewrite <- Hm.
    by apply clean_stands_for.
Qed.

Lemma push_actions_collected (s s' s'' : Store) (l : list StorageAction) m :
  store_ok s → collected s s' m → Forall typed l → runs s' l s'' →
  ∃ m', foldM push_action m l = Ok m' ∧ collected s s'' m'.
Proof.
  intros Hs Hcol Hty Hruns. revert m Hcol. induction Hruns as [s'|s' a s1 l s'' Hcl Hrun _ IH];
    intros m Hcol; [by exists m|]. apply Forall_cons in Hty as [Ht Hty]. specialize (IH Hty).
  destruct (push_action_collected s s' s1 m a) as (m' & E & Hcol'); try done.
  destruct (IH m' Hcol') as (m'' & E' & ?). exists m''. split; [|done].
  cbn [foldM]. rewrite E. done.
Qed.

Lemma collected_empty (s : Store) : store_ok s → collected s s ∅.
Proof. intros Hs k. split; [apply Hs|]. by rewrite lookup_empty. Qed.

(** Actions of the kinds of their keys merge. *)
Lemma push_actions_total (l : list StorageAction) m :
  Forall typed l → (∀ (k : Key) a, m !! k = Some a → key a = k ∧ typed a) →
  ∃ m', foldM push_action m l = Ok m' ∧ (∀ (k : Key) a, m' !! k = Some a → key a = k ∧ typed a).
Proof.
  intros Hl. revert m. induction Hl as [|a l Ha Hl IH]; intros m Hm; [by exists m|].
  assert (∃ c, push_action m a = Ok (<[key a := c]> m) ∧ key c = key a ∧ typed c)
    as (c & E & Hkc & Htc).
  { unfold push_action. destruct (m !! key a) as [prev|] eqn:E; [|by exists a].
    destruct (Hm _ _ E) as [Hkp Htp]. unfold typed in Htp. rewrite Hkp in Htp.
    destruct (merge_total _ prev a Htp Ha Hkp) as (c & -> & Hkc & Hc).
    exists c. split; [done|]. split; [done|]. unfold typed. by rewrite Hkc. }
  cbn [foldM]. rewrite E. cbn [mbind outcome_bind]. apply IH. intros k b Hb.
  destruct (decide (k = key a)) as [->|Hne].
  - rewrite lookup_insert_eq in Hb. by injection Hb as <-.
  - rewrite lookup_insert_ne in Hb by done. by apply Hm.
Qed.

(** The batch in the order of [HashMap::values], whatever it is. *)
Lemma collected_apply (s s' : Store) m (l : list StorageAction) :
  store_ok s → collected s s' m → l ≡ₚ (map_to_list m).*2 →
  ∃ s2, apply_actions s l = Ok s2 ∧ ∀ k : Key, same_reading (kind k) (s2 !! k) (s' !! k).
Proof.
  intros Hs Hcol Hp.
  assert ((map_to_list m).*1 = map key (map_to_list m).*2) as Hkeys.
  { rewrite <- list_fmap_compose. apply list_fmap_ext. intros i [k a] Hi.
    apply list_elem_of_lookup_2, elem_of_map_to_list in Hi.
    destruct (Hcol k) as [_ Hm]. rewrite Hi in Hm. by destruct Hm as [<- _]. }
  assert (∀ a, a ∈ l → m !! key a = Some a) as Hin.
  { intros a Ha. rewrite Hp in Ha. apply list_elem_of_fmap in Ha as ([k b] & -> & Hb).
    apply elem_of_map_to_list in Hb. destruct (Hcol k) as [_ Hm]. rewrite Hb in Hm.
    cbn. by destruct Hm as [-> _]. }
  assert (NoDup (map key l)) as Hnd.
  { rewrite Hp, <- Hkeys. apply NoDup_fst_map_to_list. }
  rewrite apply_actions_spec by (by left).
  assert (∀ a, a ∈ l → ∃ w, effect a (s !! key a) = Ok w
    ∧ same_reading (kind (key a)) w (s' !! key a)) as Heff.
  { intros a Ha. destruct (Hcol (key a)) as [Hok Hm]. rewrite (Hin a Ha) in Hm.
    destruct Hm as (_ & Ht & Hst). by apply stands_for_effect. }
  destruct (foldM_run_one l s Hnd) as (s2 & -> & Hs2 & Hout).
  { apply Forall_forall. intros a Ha. destruct (Heff a Ha) as (w & ? & _). by exists w. }
  exists s2. split; [done|]. intros k. destruct (decide (k ∈ map key l)) as [Hk|Hk].
  - apply list_elem_of_fmap in Hk as (a & -> & Ha). destruct (Heff a Ha) as (w & Hw & Hr).
    rewrite (Hs2 a Ha) in Hw. by injection Hw as ->.
  - rewrite Hout by done. destruct (Hcol k) as [_ Hm].
    destruct (m !! k) as [a|] eqn:E; [|by rewrite Hm].
    destruct Hm as (Hka & _). exfalso. apply Hk. rewrite <- Hka, Hp.
    apply list_elem_of_fmap_2. apply list_elem_of_fmap. exists (k, a).
    split; [done|]. by apply elem_of_map_to_list.
Qed.
End Batch.

(** Several blocks pushed one after another are their actions pushed in a row. *)
Lemma push_blocks (blocks : list (list StorageAction)) b m :
  foldM push_action (batch_actions b) (concat blocks) = Ok m →
  ∃ b', foldM push_actions b blocks = Ok b' ∧ batch_actions b' = m.
Proof.
  revert b. induction blocks as [|l blocks IH]; intros b.
  { intros [= <-]. by exists b. }
  cbn [concat foldM]. rewrite foldM_app. unfold push_actions at 1.
  destruct (foldM push_action (batch_actions b) l) as [m1| |]; [|done|done].
  cbn [mbind outcome_bind]. intros E. by apply IH.
Qed.

End StorageAction.
