(* ===== verification/ReducerOutput.v ===== *)
(** What the reducers of polyphony report, and the storage actions it becomes.

    - [polyphony-xdg/src/reducers/mod.rs] and the [Output] of each reducer:
      [ReducerOutput];
    - [timbre-xbt/src/reducers/*.rs]: the keys and values of each reducer, with
      the encoding the derive macros give a struct ([Fields]);
    - [storage/tikv.rs]: [reducer_output_to_storage_ops].

    Proved: every action is of the one kind its key holds, so merging the
    actions of any blocks never panics. *)

From S2P Require Import Prelude Timbre Crosscut StorageAction.
Import Timbre Crosscut StorageAction.

Module ReducerOutput.

(** ** Derived structs *)

(** A struct with the fields of [A] followed by those of [B]: the derived
    [Encode] puts a break between them, the derived [Decode] skips it. *)
Record Fields (A B : Type) : Type := mkFields { first_fields : A; last_fields : B }.
Arguments mkFields {A B} _ _.
Arguments first_fields {A B} _.
Arguments last_fields {A B} _.

Declare Scope fields_scope.
Delimit Scope fields_scope with fields.
Notation "A &: B" := (Fields A B) (at level 60, right associativity) : type_scope.
Notation "a &: b" := (mkFields a b) (at level 60, right associativity) : fields_scope.
#[local] Open Scope fields_scope.

#[export] Instance Fields_encode `{Encode A, Encode B} : Encode (A &: B) := λ f,
  append (last_fields f) (append_with_break (first_fields f) enc).
#[export] Instance Fields_decode `{Decode A, Decode B} : Decode (A &: B) := λ bytes,
  '(a, rest) ← decode bytes;
  bytes ← skip_break rest;
  '(b, rest) ← decode bytes;
  Ok (a &: b, rest).

#[export, refine] Instance Fields_lawful `{Lawful A, Lawful B} : Lawful (A &: B) :=
  {| valid f := valid (first_fields f) ∧ valid (last_fields f) |}.
Proof.
  intros [a b] rest [Ha Hb]. unfold decode, Fields_decode, encode, Fields_encode, append_with_break,
    append, break_, push, enc. cbn [first_fields last_fields] in *. cbn [app].
  rewrite <- !app_assoc.
  rewrite (decode_encode_app a _ Ha). cbn [mbind outcome_bind app skip_break].
  by rewrite (decode_encode_app b _ Hb).
Defined.

(** ** Keys and values of the reducers *)

Abbreviation u16 := (UInt 2).
Abbreviation Hash32 := (Bytes 32).
Abbreviation Hash20 := (Bytes 20).
Abbreviation Rid := (u64 * u32)%type.
Abbreviation Ord := (Hash32 * u32)%type.

Definition BalancesByBrc20_Key : Type := ShortByteString &: Hash20.
Definition BalancesByRuneId_Key : Type := (VarUInt * VarUInt) &: Hash20.
Definition Brc20BalancesByScriptHash_Key : Type := Hash20 &: ShortByteString.
Definition Brc20TermsByTicker_Key : Type := ShortByteString.
Definition Brc20TermsByTicker_Value : Type := u128 &: u128 &: u8 &: bool &: Ord.
Definition ContentByInscriptionId_Key : Type := Ord.
Definition ContentByInscriptionId_Value : Type := u64 &: u64 &: list u8 &: list u8.
Definition EtchingByRuneId_Key : Type := Rid.
Definition EtchingByRuneId_Value : Type :=
  Hash32 &: option u128 &: option u32 &: option u32 &: option u8 &: option u128 &: option u128
  &: option u128 &: option u64 &: option u64 &: option u64 &: option u64 &: bool &: bool.
Definition InscriptionUtxosByScriptHash_Key : Type := Hash20 &: VarUInt &: Hash32 &: VarUInt.
Definition InscriptionUtxosByScriptHash_Value : Type :=
  VarUInt &: TimbreVec (VarUInt * (Hash32 * VarUInt)).
Definition InscriptionsByScriptHash_Key : Type := Hash20 &: Ord.
Definition InscriptionsByScriptHash_Value : Type := u64 &: Hash32 &: u32 &: u32.
Definition UtxoRef_Key : Type := Hash32 &: u32.
Definition InscriptionsByUtxo_Value : Type := list (u32 * Ord).
Definition MintsByRuneId_Key : Type := Rid.
Definition RuneBalancesByScriptHash_Key : Type := Hash20 &: Rid.
Definition RuneIdByRuneName_Key : Type := u128.
Definition RuneIdByRuneName_Value : Type := Rid.
Definition RunesByUtxo_Value : Type := IndexMap Rid u128.
Definition SatBalanceByScriptHash_Key : Type := Hash20.
Definition ScriptByScriptHash_Key : Type := Hash20.
Definition ScriptByScriptHash_Value : Type := list u8.
Definition ScriptHashByAddressPayloadHash_Key : Type := Hash20.
Definition ScriptHashByAddressPayloadHash_Value : Type := Hash20.
Definition TransferInscriptionsByScriptHash_Key : Type := Hash20 &: ShortByteString &: Ord.
Definition TransferInscriptionsByScriptHash_Value : Type :=
  u128 &: u64 &: Hash32 &: u32 &: u32 &: u64.
Definition TxsByScriptHash_Key : Type := Hash20 &: u64 &: u16 &: Hash32.
Definition TxsByScriptHash_Value : Type := bool &: bool.
Definition UtxosByRuneId_Key : Type := Rid &: u64 &: Hash32 &: u32.
Definition UtxosByRuneId_Value : Type := Hash20 &: u128 &: u64.
Definition UtxosByScriptHash_Value : Type := u64.

(** ** Outputs *)

Inductive UtxoAction (T : Type) : Type := Consumed | Produced (t : T).
Arguments Consumed {T}.
Arguments Produced {T} _.

Inductive IncrOrDecr (T : Type) : Type := Increment (t : T) | Decrement (t : T).
Arguments Increment {T} _.
Arguments Decrement {T} _.

Record EtchingInfo : Type := mkEtchingInfo {
  ei_name : option u128;
  ei_spacers : option u32;
  ei_symbol : option u32;
  ei_divisibility : option u8;
  ei_max_mint_txs : option u128;
  ei_amount_per_mint : option u128;
  ei_start_height : option u64;
  ei_end_height : option u64;
  ei_start_offset : option u64;
  ei_end_offset : option u64;
  ei_turbo : bool;
}.

Inductive ReducerOutput : Type :=
| BalancesByBrc20 (brc_ticker : list Z) (script_hash : Hash20) (total_delta : IncrOrDecr Z)
| BalancesByRuneId (rune_id : Rid) (script_hash : Hash20) (action : IncrOrDecr Z)
| Brc20BalancesByScriptHash (script_hash : Hash20) (brc_ticker : list Z)
    (total_delta available_delta : IncrOrDecr Z)
| Brc20TermsByTicker (ticker : list Z) (max limit : u128) (dec : u8) (self_mint : bool)
    (deploy_id : Ord)
| EtchingByRuneId (rune_id : Rid) (tx_hash : Hash32) (etching : EtchingInfo) (cenotaph : bool)
| InscriptionUtxosByScriptHash (script_hash : Hash20) (height : u64) (utxo_hash : Hash32)
    (utxo_index : u32) (action : UtxoAction (u64 * list (u32 * Ord)))
| ContentByInscriptionId (inscription_id : Ord) (created_at inscription_num : u64)
    (content_type content_body : list u8)
| InscriptionsByScriptHash (script_hash : Hash20) (inscription_id : Ord)
    (action : UtxoAction (u64 * Ord * u32))
| InscriptionsByUtxo (utxo_hash : Hash32) (utxo_index : u32)
    (action : UtxoAction (list (u32 * Ord)))
| MintsByRuneId (rune_id : Rid)
| RuneBalancesByScriptHash (script_hash : Hash20) (rune_id : Rid) (delta : IncrOrDecr Z)
| RuneIdByRuneName (rune_name : u128) (rune_id : Rid)
| RunesByUtxo (utxo_hash : Hash32) (utxo_index : u32) (action : UtxoAction (list (Rid * u128)))
| SatBalanceByScriptHash (script_hash : Hash20) (delta : IncrOrDecr Z)
| ScriptByScriptHash (script_hash : Hash20) (script : list u8)
| ScriptHashByAddressPayloadHash (payload_hash script_hash : Hash20)
| TransferInscriptionsByScriptHash (script_hash : Hash20) (ticker : list Z)
    (inscription_id : Ord) (action : UtxoAction (u128 * u64 * Ord * u32 * u64))
| TxsByScriptHash (script_hash : Hash20) (height : u64) (tx_hash : Hash32)
    (tx_block_index : u16) (input output : bool)
| UtxosByRuneId (rune_id : Rid) (height : u64) (utxo_hash : Hash32) (utxo_index : u32)
    (action : UtxoAction (Hash20 * u128 * u64))
| UtxosByScriptHash (script_hash : Hash20) (height : u64) (utxo_hash : Hash32)
    (utxo_index : u32) (action : UtxoAction u64)
| Cursor (point : Point) (was_mempool : bool) (timestamp : u64).

(** ** storage/tikv.rs: the actions of an output *)

Definition var_of {n} (x : UInt n) : VarUInt := mkVarUInt (uint_value x).

(** [vec.into_iter().collect::<IndexMap<_, _>>()]. *)
#[export] Instance UInt_eq_dec n : EqDecision (UInt n).
Proof. solve_decision. Defined.
Definition collect_index_map {K V} `{EqDecision K} (l : list (K * V)) : IndexMap K V :=
  mkIndexMap (foldl (λ m e, index_insert e.1 e.2 m) [] l).

(** [ticker.try_into().unwrap()]. *)
Definition short_ticker (ticker : list Z) : outcome WorkError ShortByteString :=
  unwrap (ShortByteString_try_from ticker).

Definition incr_or_decr (incr decr : Key → Z → StorageAction) (k : Key) (d : IncrOrDecr Z)
  : StorageAction :=
  match d with Increment x => incr k x | Decrement x => decr k x end.

(** [Consumed] deletes the key, [Produced] sets it. *)
Definition utxo_action {T} (k : Key) (value : T → Value) (a : UtxoAction T) : StorageAction :=
  match a with Consumed => Delete k | Produced t => SSet k (value t) end.

Definition BalancesByBrc20_ops (n : Namespace) (brc_ticker : list Z) (script_hash : Hash20) (total_delta : IncrOrDecr Z)
  : outcome WorkError (list StorageAction) :=
  ticker ← short_ticker brc_ticker;
  let k : BalancesByBrc20_Key := ticker &: script_hash in
  Ok [incr_or_decr IncrementU128 DecrementU128 (Prefix_data n Timbre.BalancesByBrc20 k)
        total_delta].

Definition BalancesByRuneId_ops (n : Namespace) (rune_id : Rid) (script_hash : Hash20) (action : IncrOrDecr Z)
  : outcome WorkError (list StorageAction) :=
  let k : BalancesByRuneId_Key := (var_of rune_id.1, var_of rune_id.2) &: script_hash in
  Ok [incr_or_decr IncrementU128 DecrementU128 (Prefix_data n Timbre.BalancesByRuneId k)
        action].

Definition Brc20BalancesByScriptHash_ops (n : Namespace) (script_hash : Hash20) (brc_ticker : list Z) (total_delta available_delta : IncrOrDecr Z)
  : outcome WorkError (list StorageAction) :=
  ticker ← short_ticker brc_ticker;
  let k : Brc20BalancesByScriptHash_Key := script_hash &: ticker in
  Ok [incr_or_decr IncrementU128 DecrementU128NoDelete
        (Prefix_data n Timbre.Brc20TotalBalanceByScriptHash k) total_delta;
      incr_or_decr IncrementU128 DecrementU128NoDelete
        (Prefix_data n Timbre.Brc20AvailableBalanceByScriptHash k) available_delta].

Definition Brc20TermsByTicker_ops (n : Namespace) (ticker : list Z) (max limit : u128) (dec : u8) (self_mint : bool) (deploy_id : Ord)
  : outcome WorkError (list StorageAction) :=
  k ← short_ticker ticker;
  let value : Brc20TermsByTicker_Value := max &: limit &: dec &: self_mint &: deploy_id in
  Ok [SSet (Prefix_data n Timbre.Brc20TermsByTicker (k : Brc20TermsByTicker_Key))
        (encode value)].

Definition EtchingByRuneId_ops (n : Namespace) (rune_id : Rid) (tx_hash : Hash32) (etching : EtchingInfo) (cenotaph : bool)
  : outcome WorkError (list StorageAction) :=
  let value : EtchingByRuneId_Value :=
    tx_hash &: ei_name etching &: ei_spacers etching &: ei_symbol etching
    &: ei_divisibility etching &: None &: ei_max_mint_txs etching
    &: ei_amount_per_mint etching &: ei_start_height etching &: ei_end_height etching
    &: ei_start_offset etching &: ei_end_offset etching &: ei_turbo etching &: cenotaph in
  Ok [SSet (Prefix_data n Timbre.EtchingByRuneId (rune_id : EtchingByRuneId_Key))
        (encode value)].

Definition ContentByInscriptionId_ops (n : Namespace) (inscription_id : Ord) (created_at inscription_num : u64) (content_type content_body : list u8)
  : outcome WorkError (list StorageAction) :=
  let value : ContentByInscriptionId_Value :=
    created_at &: inscription_num &: content_type &: content_body in
  Ok [SSet (Prefix_data n Timbre.ContentByInscriptionId
              (inscription_id : ContentByInscriptionId_Key)) (encode value)].

Definition InscriptionUtxosByScriptHash_ops (n : Namespace) (script_hash : Hash20) (height : u64) (utxo_hash : Hash32) (utxo_index : u32) (action : UtxoAction (u64 * list (u32 * Ord)))
  : outcome WorkError (list StorageAction) :=
  let k : InscriptionUtxosByScriptHash_Key :=
    script_hash &: var_of height &: utxo_hash &: var_of utxo_index in
  let value t : Value :=
    let '(satoshis, inscriptions) := t in
    let items := map (λ i : u32 * Ord, (var_of i.1, (i.2.1, var_of i.2.2))) inscriptions in
    encode (var_of satoshis &: mkTimbreVec items : InscriptionUtxosByScriptHash_Value) in
  Ok [utxo_action (Prefix_data n Timbre.InscriptionUtxosByScriptHash k) value action].

Definition InscriptionsByScriptHash_ops (n : Namespace) (script_hash : Hash20) (inscription_id : Ord) (action : UtxoAction (u64 * Ord * u32))
  : outcome WorkError (list StorageAction) :=
  let k : InscriptionsByScriptHash_Key := script_hash &: inscription_id in
  let value t : Value :=
    let '(height, (utxo_hash, utxo_index), offset) := t in
    encode (height &: utxo_hash &: utxo_index &: offset : InscriptionsByScriptHash_Value) in
  Ok [utxo_action (Prefix_data n Timbre.InscriptionsByScriptHash k) value action].

Definition InscriptionsByUtxo_ops (n : Namespace) (utxo_hash : Hash32) (utxo_index : u32) (action : UtxoAction (list (u32 * Ord)))
  : outcome WorkError (list StorageAction) :=
  let k : UtxoRef_Key := utxo_hash &: utxo_index in
  Ok [utxo_action (Prefix_data n Timbre.InscriptionsByUtxo k)
        (λ inscriptions, encode (inscriptions : InscriptionsByUtxo_Value)) action].

Definition MintsByRuneId_ops (n : Namespace) (rune_id : Rid)
  : outcome WorkError (list StorageAction) :=
  Ok [IncrementU128 (Prefix_data n Timbre.MintsByRuneId (rune_id : MintsByRuneId_Key)) 1].

Definition RuneBalancesByScriptHash_ops (n : Namespace) (script_hash : Hash20) (rune_id : Rid) (delta : IncrOrDecr Z)
  : outcome WorkError (list StorageAction) :=
  let k : RuneBalancesByScriptHash_Key := script_hash &: rune_id in
  Ok [incr_or_decr IncrementU128 DecrementU128
        (Prefix_data n Timbre.RuneBalancesByScriptHash k) delta].

Definition RuneIdByRuneName_ops (n : Namespace) (rune_name : u128) (rune_id : Rid)
  : outcome WorkError (list StorageAction) :=
  Ok [SSet (Prefix_data n Timbre.RuneIdByRuneName (rune_name : RuneIdByRuneName_Key))
        (encode (rune_id : RuneIdByRuneName_Value))].

Definition RunesByUtxo_ops (n : Namespace) (utxo_hash : Hash32) (utxo_index : u32) (action : UtxoAction (list (Rid * u128)))
  : outcome WorkError (list StorageAction) :=
  let k : UtxoRef_Key := utxo_hash &: utxo_index in
  Ok [utxo_action (Prefix_data n Timbre.RunesByUtxo k)
        (λ runes, encode (collect_index_map runes : RunesByUtxo_Value)) action].

Definition SatBalanceByScriptHash_ops (n : Namespace) (script_hash : Hash20) (delta : IncrOrDecr Z)
  : outcome WorkError (list StorageAction) :=
  Ok [incr_or_decr IncrementU64 DecrementU64
        (Prefix_data n Timbre.SatBalanceByScriptHash
           (script_hash : SatBalanceByScriptHash_Key)) delta].

Definition ScriptByScriptHash_ops (n : Namespace) (script_hash : Hash20) (script : list u8)
  : outcome WorkError (list StorageAction) :=
  Ok [SSet (Prefix_data n Timbre.ScriptByScriptHash (script_hash : ScriptByScriptHash_Key))
        (encode (script : ScriptByScriptHash_Value))].

Definition ScriptHashByAddressPayloadHash_ops (n : Namespace) (payload_hash script_hash : Hash20)
  : outcome WorkError (list StorageAction) :=
  Ok [SSet (Prefix_data n Timbre.ScriptHashByAddressPayloadHash
              (payload_hash : ScriptHashByAddressPayloadHash_Key))
        (encode (script_hash : ScriptHashByAddressPayloadHash_Value))].

Definition TransferInscriptionsByScriptHash_ops (n : Namespace) (script_hash : Hash20) (ticker : list Z) (inscription_id : Ord) (action : UtxoAction (u128 * u64 * Ord * u32 * u64))
  : outcome WorkError (list StorageAction) :=
  let k : TransferInscriptionsByScriptHash_Key :=
    script_hash &: mkShort ticker &: inscription_id in
  let value t : Value :=
    let '(token_amount, sat_amount, (utxo_hash, utxo_index), offset, block_height) := t in
    encode (token_amount &: sat_amount &: utxo_hash &: utxo_index &: offset &: block_height
            : TransferInscriptionsByScriptHash_Value) in
  Ok [utxo_action (Prefix_data n Timbre.TransferInscriptionsByScriptHash k) value action].

Definition TxsByScriptHash_ops (n : Namespace) (script_hash : Hash20) (height : u64) (tx_hash : Hash32) (tx_block_index : u16) (input output : bool)
  : outcome WorkError (list StorageAction) :=
  let k : TxsByScriptHash_Key := script_hash &: height &: tx_block_index &: tx_hash in
  Ok [SSet (Prefix_data n Timbre.TxsByScriptHash k)
        (encode (input &: output : TxsByScriptHash_Value))].

Definition UtxosByRuneId_ops (n : Namespace) (rune_id : Rid) (height : u64) (utxo_hash : Hash32) (utxo_index : u32) (action : UtxoAction (Hash20 * u128 * u64))
  : outcome WorkError (list StorageAction) :=
  let k : UtxosByRuneId_Key := rune_id &: height &: utxo_hash &: utxo_index in
  let value t : Value :=
    let '(script_hash, rune_quantity, satoshis) := t in
    encode (script_hash &: rune_quantity &: satoshis : UtxosByRuneId_Value) in
  Ok [utxo_action (Prefix_data n Timbre.UtxosByRuneId k) value action].

Definition UtxosByScriptHash_ops (n : Namespace) (script_hash : Hash20) (height : u64) (utxo_hash : Hash32) (utxo_index : u32) (action : UtxoAction u64)
  : outcome WorkError (list StorageAction) :=
  let k := mkUtxoKey script_hash height utxo_hash utxo_index in
  Ok [utxo_action (Prefix_data n Timbre.UtxosByScriptHash k)
        (λ satoshis, encode (satoshis : UtxosByScriptHash_Value)) action].

Definition Cursor_ops (n : Namespace) (point : Point) (was_mempool : bool) (timestamp : u64)
  : outcome WorkError (list StorageAction) :=
  let value :=
    mkCursorValue (mkUInt (pt_height point)) (mkBytes (pt_hash point)) was_mempool timestamp
      None in
  Ok [SSet (Prefix_cursor n) (encode value); SSet (Prefix_info n) (encode value)].

Definition reducer_output_to_storage_ops (n : Namespace) (output : ReducerOutput)
  : outcome WorkError (list StorageAction) :=
  match output with
  | BalancesByBrc20 brc_ticker script_hash total_delta => BalancesByBrc20_ops n brc_ticker script_hash total_delta
  | BalancesByRuneId rune_id script_hash action => BalancesByRuneId_ops n rune_id script_hash action
  | Brc20BalancesByScriptHash script_hash brc_ticker total_delta available_delta => Brc20BalancesByScriptHash_ops n script_hash brc_ticker total_delta available_delta
  | Brc20TermsByTicker ticker max limit dec self_mint deploy_id => Brc20TermsByTicker_ops n ticker max limit dec self_mint deploy_id
  | EtchingByRuneId rune_id tx_hash etching cenotaph => EtchingByRuneId_ops n rune_id tx_hash etching cenotaph
  | ContentByInscriptionId inscription_id created_at inscription_num content_type content_body => ContentByInscriptionId_ops n inscription_id created_at inscription_num content_type content_body
  | InscriptionUtxosByScriptHash script_hash height utxo_hash utxo_index action => InscriptionUtxosByScriptHash_ops n script_hash height utxo_hash utxo_index action
  | InscriptionsByScriptHash script_hash inscription_id action => InscriptionsByScriptHash_ops n script_hash inscription_id action
  | InscriptionsByUtxo utxo_hash utxo_index action => InscriptionsByUtxo_ops n utxo_hash utxo_index action
  | MintsByRuneId rune_id => MintsByRuneId_ops n rune_id
  | RuneBalancesByScriptHash script_hash rune_id delta => RuneBalancesByScriptHash_ops n script_hash rune_id delta
  | RuneIdByRuneName rune_name rune_id => RuneIdByRuneName_ops n rune_name rune_id
  | RunesByUtxo utxo_hash utxo_index action => RunesByUtxo_ops n utxo_hash utxo_index action
  | SatBalanceByScriptHash script_hash delta => SatBalanceByScriptHash_ops n script_hash delta
  | ScriptByScriptHash script_hash script => ScriptByScriptHash_ops n script_hash script
  | ScriptHashByAddressPayloadHash payload_hash script_hash => ScriptHashByAddressPayloadHash_ops n payload_hash script_hash
  | TransferInscriptionsByScriptHash script_hash ticker inscription_id action => TransferInscriptionsByScriptHash_ops n script_hash ticker inscription_id action
  | TxsByScriptHash script_hash height tx_hash tx_block_index input output => TxsByScriptHash_ops n script_hash height tx_hash tx_block_index input output
  | UtxosByRuneId rune_id height utxo_hash utxo_index action => UtxosByRuneId_ops n rune_id height utxo_hash utxo_index action
  | UtxosByScriptHash script_hash height utxo_hash utxo_index action => UtxosByScriptHash_ops n script_hash height utxo_hash utxo_index action
  | Cursor point was_mempool timestamp => Cursor_ops n point was_mempool timestamp
  end.

(** The actions of an output, whatever it is, in the goal. *)
Ltac unfold_ops :=
  cbv beta iota delta [reducer_output_to_storage_ops
    BalancesByBrc20_ops BalancesByRuneId_ops Brc20BalancesByScriptHash_ops
    Brc20TermsByTicker_ops EtchingByRuneId_ops ContentByInscriptionId_ops
    InscriptionUtxosByScriptHash_ops InscriptionsByScriptHash_ops InscriptionsByUtxo_ops
    MintsByRuneId_ops RuneBalancesByScriptHash_ops RuneIdByRuneName_ops RunesByUtxo_ops
    SatBalanceByScriptHash_ops ScriptByScriptHash_ops ScriptHashByAddressPayloadHash_ops
    TransferInscriptionsByScriptHash_ops TxsByScriptHash_ops UtxosByRuneId_ops
    UtxosByScriptHash_ops Cursor_ops].

(** The actions of all the outputs of a block. *)
Definition outputs_to_storage_ops (n : Namespace) (outputs : list ReducerOutput)
  : outcome WorkError (list StorageAction) :=
  foldM (λ ops o, l ← reducer_output_to_storage_ops n o; Ok (ops ++ l)) [] outputs.

(** ** The kind of a key *)

Definition reducer_kind (r : Z) : Kind :=
  if r =? reducer_discriminant Timbre.SatBalanceByScriptHash then KU64
  else if (r =? reducer_discriminant Timbre.Brc20TotalBalanceByScriptHash)
       || (r =? reducer_discriminant Timbre.Brc20AvailableBalanceByScriptHash) then KU128Keep
  else if (r =? reducer_discriminant Timbre.BalancesByBrc20)
       || (r =? reducer_discriminant Timbre.BalancesByRuneId)
       || (r =? reducer_discriminant Timbre.MintsByRuneId)
       || (r =? reducer_discriminant Timbre.RuneBalancesByScriptHash) then KU128
  else KData.

Definition key_kind (n : Namespace) (k : Key) : Kind :=
  if decide (take 3 k = encode n ++ [PREFIX_DATA])
  then default KData (reducer_kind <$> k !! 3%nat) else KData.

Lemma key_kind_data `{Encode T} n r (data : T) :
  key_kind n (Prefix_data n r data) = reducer_kind (reducer_discriminant r).
Proof. unfold key_kind. by rewrite decide_True. Qed.

Lemma key_kind_cursor n : key_kind n (Prefix_cursor n) = KData.
Proof. unfold key_kind. by destruct (decide _). Qed.

Lemma key_kind_info n : key_kind n (Prefix_info n) = KData.
Proof.
  unfold key_kind. rewrite decide_False; [done|]. cbn. intros [= E1 E2 E3]. rewrite <- E1 in E3. discriminate.
Qed.

(** The keys an instance writes for its blocks. *)
Inductive own_key (n : Namespace) : Key → Prop :=
| own_data `{Encode T} r (data : T) : own_key n (Prefix_data n r data)
| own_cursor : own_key n (Prefix_cursor n)
| own_info : own_key n (Prefix_info n).

(** An action as the reducers report them. *)
Definition reported (n : Namespace) (a : StorageAction) : Prop :=
  typed (key_kind n) a ∧ own_key n (key a).

Lemma reported_data `{Encode T} n r (data : T) a :
  key a = Prefix_data n r data → of_kind (reducer_kind (reducer_discriminant r)) a = true →
  reported n a.
Proof. intros Hk Ha. unfold reported, typed. rewrite Hk, key_kind_data. split; [done|constructor]. Qed.

Lemma reported_incr_or_decr `{Encode T} n r (data : T) incr decr d :
  (∀ k x, key (incr k x) = k ∧ of_kind (reducer_kind (reducer_discriminant r)) (incr k x) = true) →
  (∀ k x, key (decr k x) = k ∧ of_kind (reducer_kind (reducer_discriminant r)) (decr k x) = true) →
  reported n (incr_or_decr incr decr (Prefix_data n r data) d).
Proof. intros Hi Hd. destruct d; eapply reported_data; apply Hi || apply Hd. Qed.

Lemma reported_utxo_action `{Encode T} {U} n r (data : T) (value : U → Value) a :
  reducer_kind (reducer_discriminant r) = KData →
  reported n (utxo_action (Prefix_data n r data) value a).
Proof. intros Hr. destruct a; eapply reported_data; try reflexivity; by rewrite Hr. Qed.

Lemma output_reported n o ops :
  reducer_output_to_storage_ops n o = Ok ops → Forall (reported n) ops.
Proof.
  destruct o; unfold_ops; intros E;
    repeat match type of E with
    | mbind _ (short_ticker ?t) = _ => destruct (short_ticker t); [cbn [mbind outcome_bind] in E|done|done]
    end; injection E as <-;
    repeat (apply Forall_cons; split; [|]); try apply Forall_nil_2;
    match goal with
    | |- reported _ (incr_or_decr _ _ _ _) => apply reported_incr_or_decr; intros; split; reflexivity
    | |- reported _ (utxo_action _ _ _) => apply reported_utxo_action; reflexivity
    | |- reported _ (_ (Prefix_data _ ?r ?d) _) => apply (reported_data n r d); reflexivity
    | |- reported _ (_ (Prefix_cursor _) _) =>
        split; [unfold typed; cbn [key]; by rewrite key_kind_cursor|constructor]
    | |- reported _ (_ (Prefix_info _) _) =>
        split; [unfold typed; cbn [key]; by rewrite key_kind_info|constructor]
    end.
Qed.

Lemma outputs_reported n outputs ops :
  outputs_to_storage_ops n outputs = Ok ops → Forall (reported n) ops.
Proof.
  unfold outputs_to_storage_ops. intros E.
  eapply (foldM_inv (Forall (reported n))); [|apply Forall_nil_2|exact E].
  intros acc o acc' _ Hacc Ho. cbn beta in Ho.
  destruct (reducer_output_to_storage_ops n o) as [l| |] eqn:El; [|done|done].
  injection Ho as <-. apply Forall_app. split; [done|]. by eapply output_reported.
Qed.

Lemma blocks_typed n blocks opss :
  Forall2 (λ b ops, outputs_to_storage_ops n b = Ok ops) blocks opss →
  Forall (typed (key_kind n)) (concat opss).
Proof.
  intros H. induction H as [|b ops blocks opss Hb _ IH]; [apply Forall_nil_2|].
  cbn. apply Forall_app. split; [|done].
  eapply Forall_impl; [by eapply outputs_reported|]. by intros a [? _].
Qed.

(** The batch of a synchronisation, whatever its blocks, never panics: the
    actions the reducers report for one key are all of one kind, and actions of
    one kind merge. *)
Theorem merging_never_panics (n : Namespace) (blocks : list (list ReducerOutput))
    (opss : list (list StorageAction)) (max_len max_bytes : Z) :
  Forall2 (λ b ops, outputs_to_storage_ops n b = Ok ops) blocks opss →
  is_ok (foldM push_actions (batcher_new max_len max_bytes) opss) = true.
Proof.
  intros H. destruct (push_actions_total (key_kind n) (concat opss) ∅) as (m & E & _).
  - by eapply blocks_typed.
  - intros k a Ha. by rewrite lookup_empty in Ha.
  - by destruct (push_blocks opss (batcher_new max_len max_bytes) m E) as (b & -> & _).
Qed.

(** C25: a batch stands for its blocks, as far as a reader can tell who takes an
    absent counter for 0.  Provided that the actions of the blocks, executed one
    after another, take no counter out of its range, applying the merged batch at
    once (in whatever order its hash map lists it) succeeds; every data key then
    holds the same value, or none, in both stores, and every counter reads the
    same count, an absent counter reading as 0.  The stores themselves may
    differ: a counter whose count is 0 may have a key in one and not in the
    other (an increment and a decrement by the same amount merge into a change
    by 0, which a batch skips; see also [zero_balance_depends_on_mode]). *)
Theorem batch_equivalent (n : Namespace) (blocks : list (list ReducerOutput))
    (opss : list (list StorageAction)) (max_len max_bytes : Z) (s s' : Store)
    (b : SyncBatcher) (batch : list StorageAction) :
  Forall2 (λ b ops, outputs_to_storage_ops n b = Ok ops) blocks opss →
  store_ok (key_kind n) s → runs (key_kind n) s (concat opss) s' →
  foldM push_actions (batcher_new max_len max_bytes) opss = Ok b →
  batch ≡ₚ (map_to_list (batch_actions b)).*2 →
  ∃ s2, apply_actions s batch = Ok s2
    ∧ ∀ k : Key, same_reading (key_kind n k) (s2 !! k) (s' !! k).
Proof.
  intros H Hs Hruns Hb Hp.
  destruct (push_actions_collected (key_kind n) s s s' (concat opss) ∅) as (m & E & Hcol);
    [done|by apply collected_empty|by eapply blocks_typed|done|].
  destruct (push_blocks opss (batcher_new max_len max_bytes) m E) as (b' & E' & Hm).
  rewrite Hb in E'. injection E' as <-. rewrite Hm in Hp. by eapply collected_apply.
Qed.

(** A script that had no balance and both receives and spends an amount in a
    block.  The two changes merge into a change by 0, which the batches of a
    synchronisation skip: the script still has no key.  The variant that returns
    inverses does not skip it: the same block applied to a mutable chain leaves
    the script with a key that holds 0. *)
Theorem zero_balance_depends_on_mode (n : Namespace) (h : Hash20) (amount : Z) (s : Store)
    (max_len max_bytes : Z) :
  let k := Prefix_data n Timbre.SatBalanceByScriptHash (h : SatBalanceByScriptHash_Key) in
  s !! k = None →
  ∃ ops b, outputs_to_storage_ops n
             [SatBalanceByScriptHash h (Increment amount); SatBalanceByScriptHash h (Decrement amount)]
           = Ok ops
    ∧ push_actions (batcher_new max_len max_bytes) ops = Ok b
    ∧ apply_actions s (map_to_list (batch_actions b)).*2 = Ok s
    ∧ apply_actions_inverses s (map_to_list (batch_actions b)).*2
      = Ok (<[k := be_bytes 8 0]> s, [Delete k]).
Proof.
  intros k Hk. eexists [IncrementU64 k amount; DecrementU64 k amount], _.
  split; [reflexivity|]. split.
  { unfold push_actions. cbn [foldM]. unfold push_action at 1. cbn [key batch_actions batcher_new].
    rewrite lookup_empty. cbn [mbind outcome_bind]. unfold push_action at 1. cbn [key].
    rewrite lookup_insert_eq. unfold merge. cbn [key]. rewrite decide_True by done.
    rewrite Z.leb_refl, Z.sub_diag. cbn [mbind outcome_bind]. reflexivity. }
  cbn [batch_actions]. rewrite insert_insert_eq. rewrite insert_empty, map_to_list_singleton.
  cbn [fmap list_fmap snd]. split; [reflexivity|].
  unfold apply_actions_inverses, batch_get_required_kvs_for_batch, batch_get.
  cbn [map key omap list_omap]. rewrite Hk. cbn [fmap option_fmap option_map list_to_map foldr].
  unfold run_actions_with_inverses. cbn [foldM execute_storage_op_in_txn_with_inverse].
  unfold increment_with_inverse. rewrite lookup_empty. reflexivity.
Qed.

Lemma zero_balance_depends_on_mode_witness :
  let n := mkNamespace 1 2 in
  let h : Hash20 := mkBytes (replicate 20 7) in
  ∃ ops b, outputs_to_storage_ops n
             [SatBalanceByScriptHash h (Increment 5); SatBalanceByScriptHash h (Decrement 5)] = Ok ops
    ∧ push_actions (batcher_new 10 1000) ops = Ok b
    ∧ apply_actions ∅ (map_to_list (batch_actions b)).*2 = Ok ∅
    ∧ apply_actions_inverses ∅ (map_to_list (batch_actions b)).*2
      = Ok (<[Prefix_data n Timbre.SatBalanceByScriptHash (h : SatBalanceByScriptHash_Key)
              := be_bytes 8 0]> ∅,
            [Delete (Prefix_data n Timbre.SatBalanceByScriptHash (h : SatBalanceByScriptHash_Key))]).
Proof.
  intros n h. apply (zero_balance_depends_on_mode n h 5 ∅ 10 1000). reflexivity.
Defined.

(** Two blocks: a script receives 50 and then spends 20. *)
Definition sample_namespace : Namespace := mkNamespace 1 2.

Definition sample_blocks : list (list ReducerOutput) :=
  let h : Hash20 := mkBytes (replicate 20 7) in
  [[SatBalanceByScriptHash h (Increment 50); Cursor (mkPoint 1 (replicate 32 1)) false (mkUInt 9)];
   [SatBalanceByScriptHash h (Decrement 20); Cursor (mkPoint 2 (replicate 32 2)) false (mkUInt 9)]].

Definition sample_opss : list (list StorageAction) :=
  Eval vm_compute in
    map (λ b, match outputs_to_storage_ops sample_namespace b with Ok ops => ops | _ => [] end)
      sample_blocks.

Lemma merging_never_panics_witness :
  is_ok (foldM push_actions (batcher_new 10 4000000) sample_opss) = true.
Proof.
  apply (merging_never_panics sample_namespace sample_blocks).
  repeat constructor; vm_compute; reflexivity.
Defined.

Definition sample_batcher : SyncBatcher :=
  match foldM push_actions (batcher_new 10 4000000) sample_opss with
  | Ok b => b
  | _ => batcher_new 0 0
  end.

Definition sample_after : Store :=
  default ∅ (runs_check (key_kind sample_namespace) ∅ (concat sample_opss)).

Lemma batch_equivalent_witness :
  ∃ s2, apply_actions ∅ (map_to_list (batch_actions sample_batcher)).*2 = Ok s2
    ∧ ∀ k : Key, same_reading (key_kind sample_namespace k) (s2 !! k) (sample_after !! k).
Proof.
  apply (batch_equivalent sample_namespace sample_blocks sample_opss 10 4000000 ∅ sample_after
           sample_batcher).
  - repeat constructor; vm_compute; reflexivity.
  - intros k. rewrite lookup_empty. by destruct (key_kind sample_namespace k).
  - apply runs_check_sound. vm_compute. reflexivity.
  - vm_compute. reflexivity.
  - reflexivity.
Defined.

End ReducerOutput.
