(* ===== verification/TikvWorker.v ===== *)
(** The storage stage of polyphony, [polyphony-xdg/src/storage/tikv.rs]: how
    blocks roll forward and back over the store.

    The state is the record [Worker]: what the store holds, the batch being
    collected, the rollback buffer, the unit locked for two-phase commit.  The
    code runs in the monad [M], which threads the worker and the number of
    transactions TiKV still commits before it fails one ([None]: it never does).
    A failed commit leaves the store as it was and ends the unit with [Restart],
    upon which the stage runs [schedule] again; the rest of the worker keeps what
    was assigned to it before.

    Redis and its timestamps are in [Registry], the clean-up of locks in
    [TikvLocks]; the counters of metrics are left out. [HashMap::values] lists a batch in an unspecified order: [values] is a
    parameter, constrained to be a permutation where a theorem needs it. *)

From S2P Require Import Prelude Timbre Crosscut StorageAction ReducerOutput.
Import Timbre Crosscut StorageAction ReducerOutput.

Module TikvWorker.

Inductive StorageActionPayload : Type :=
| RollForward (point : Point) (outputs : list ReducerOutput) (mutable mempool : bool)
| RollBack (point : Point) (mutable : bool).

Record Worker : Type := mkWorker {
  store : Store;
  sync_batcher : SyncBatcher;
  rollback_buffer : RollbackBuffer Point (list StorageAction);
  mutable : bool;
  work_unit_2pc : option StorageActionPayload;
  last_processed : option Point;
  buffer_size : Z;
}.

Definition set_store (s : Store) (w : Worker) : Worker :=
  mkWorker s (sync_batcher w) (rollback_buffer w) (mutable w) (work_unit_2pc w)
    (last_processed w) (buffer_size w).
Definition set_batcher (b : SyncBatcher) (w : Worker) : Worker :=
  mkWorker (store w) b (rollback_buffer w) (mutable w) (work_unit_2pc w)
    (last_processed w) (buffer_size w).
Definition set_buffer (b : RollbackBuffer Point (list StorageAction)) (w : Worker) : Worker :=
  mkWorker (store w) (sync_batcher w) b (mutable w) (work_unit_2pc w)
    (last_processed w) (buffer_size w).
Definition set_mutable (m : bool) (w : Worker) : Worker :=
  mkWorker (store w) (sync_batcher w) (rollback_buffer w) m (work_unit_2pc w)
    (last_processed w) (buffer_size w).
Definition set_unit (u : option StorageActionPayload) (w : Worker) : Worker :=
  mkWorker (store w) (sync_batcher w) (rollback_buffer w) (mutable w) u
    (last_processed w) (buffer_size w).
Definition set_last (p : option Point) (w : Worker) : Worker :=
  mkWorker (store w) (sync_batcher w) (rollback_buffer w) (mutable w) (work_unit_2pc w)
    p (buffer_size w).

(** ** The monad *)

Definition M (A : Type) : Type :=
  Worker → option nat → Worker * option nat * outcome WorkError A.

#[export] Instance M_ret : MRet M := λ A a w b, (w, b, Ok a).
#[export] Instance M_bind : MBind M := λ A B f m w b,
  match m w b with
  | (w, b, Ok a) => f a w b
  | (w, b, Err e) => (w, b, Err e)
  | (w, b, Panic) => (w, b, Panic)
  end.

Definition gets {A} (f : Worker → A) : M A := λ w b, (w, b, Ok (f w)).
Definition modify (f : Worker → Worker) : M unit := λ w b, (f w, b, Ok tt).
Definition lift {A} (o : outcome WorkError A) : M A := λ w b, (w, b, o).

(** [commit_txn_or_rollback(&mut txn).or_restart()]. *)
Definition commit (txn : Store) : M unit := λ w b,
  match b with
  | Some O => (w, b, Err Restart)
  | _ => (set_store txn w, pred <$> b, Ok tt)
  end.

(** [begin_tikv_transaction]. *)
Definition begin_txn : M Store := gets store.

(** ** Scans *)

#[export] Instance in_key_range_dec r k : Decision (in_key_range r k).
Proof. unfold in_key_range. apply _. Defined.

Definition sorted_keys (s : Store) : list Key := merge_sort bytes_le (map fst (map_to_list s)).

(** [scan_keys] and [scan] of a whole range, in key order. *)
Definition scan_keys (s : Store) (r : Key * Key) : list Key :=
  filter (in_key_range r) (sorted_keys s).

Definition scan (s : Store) (r : Key * Key) : list (Key * Value) :=
  omap (λ k, pair k <$> s !! k) (scan_keys s r).

(** [MetadataKey::decode(k.get(4..).unwrap()).unwrap()]. *)
Definition decode_metadata_key (k : Key) : outcome WorkError MetadataKey :=
  if (length k <? 4)%nat then Panic
  else match decode (drop 4 k) : decoded MetadataKey with Ok (m, _) => Ok m | _ => Panic end.

(** ** Rollback metadata *)

Section worker.
Context (n : Namespace) (values : gmap (list Z) StorageAction → list StorageAction).

Definition metadata_key (p : Point) (idx : Z) (modified_key : Key) : Key :=
  Prefix_rollback n
    (mkMetadataKey (mkUInt (pt_height p)) (mkBytes (pt_hash p)) (mkUInt idx)
       (map mkUInt modified_key)).

Fixpoint apply_storage_rb_actions_from (idx : Z) (txn : Store) (inverse_ops : list StorageAction)
    (p : Point) : outcome WorkError Store :=
  match inverse_ops with
  | [] => Ok txn
  | action :: rest =>
      value ← match action with
              | SSet _ v => Ok v
              | Delete _ => Ok []
              | _ => Err WorkPanic
              end;
      apply_storage_rb_actions_from (idx + 1)
        (<[metadata_key p idx (key action) := value]> txn) rest p
  end.

Definition apply_storage_rb_actions := apply_storage_rb_actions_from 0.

(** The keys of a page, deleted; a transaction holds one height. *)
Fixpoint delete_metadata_keys (keys : list Key) (txn : Store) (current_height : option Z)
  : M (Store * option Z) :=
  match keys with
  | [] => mret (txn, current_height)
  | k :: keys =>
      metadata_key ← lift (decode_metadata_key k);
      let height := uint_value (mk_height metadata_key) in
      txn ← match current_height with
            | Some ch => if ch =? height then mret txn else (commit txn;; begin_txn)
            | None => mret txn
            end;
      delete_metadata_keys keys (delete k txn) (Some height)
  end.

(** Pages of 1000 keys until the range is empty, [rev] for a scan from its end. *)
Fixpoint delete_metadata_pages (fuel : nat) (order : list Key → list Key) (range : Key * Key)
    (txn : Store) (current_height : option Z) : M unit :=
  match fuel with
  | O => lift Panic
  | S fuel =>
      match take 1000 (order (scan_keys txn range)) with
      | [] => commit txn
      | old_keys =>
          '(txn, current_height) ← delete_metadata_keys old_keys txn current_height;
          delete_metadata_pages fuel order range txn current_height
      end
  end.

Definition delete_metadata_range (order : list Key → list Key) (range : Key * Key) : M unit :=
  txn ← begin_txn;
  delete_metadata_pages (S (base.size txn)) order range txn None.

Definition garbage_collect_rollback_metadata (b_height : Z) : M unit :=
  size ← gets buffer_size;
  if size <=? b_height then
    delete_metadata_range id
      (rollback_metadata_key_range n (None : option u64) (Some (mkUInt (b_height - size) : u64)))
  else mret tt.

Definition trim_persistent_rollback_metadata (after_height : Z) : M unit :=
  delete_metadata_range (@rev Key)
    (rollback_metadata_key_range n (Some (mkUInt (wrap 64 (after_height + 1)) : u64))
       (None : option u64)).

(** ** apply_staggered_actions *)

Inductive StaggeredClass : Type := DelClass | SetClass | CursorClass | OtherClass.

Definition stagger_class (a : StorageAction) : StaggeredClass :=
  match a with
  | Delete _ => DelClass
  | SSet k _ => if decide (k = Prefix_cursor n) then CursorClass else SetClass
  | _ => OtherClass
  end.

#[export] Instance StaggeredClass_eq_dec : EqDecision StaggeredClass.
Proof. solve_decision. Defined.

Definition of_class (c : StaggeredClass) (actions : list StorageAction) : list StorageAction :=
  filter (λ a, stagger_class a = c) actions.

(** [chunks(5000)], each in a transaction of its own. *)
Fixpoint apply_sets (fuel : nat) (sets : list StorageAction) : M unit :=
  match fuel, sets with
  | S fuel, _ :: _ =>
      txn ← begin_txn;
      txn ← lift (apply_actions txn (take 5000 sets));
      commit txn;;
      apply_sets fuel (drop 5000 sets)
  | _, _ => mret tt
  end.

Definition apply_staggered_actions (actions : list StorageAction) : M unit :=
  txn ← begin_txn;
  '(txn, _) ← lift (run_actions (txn, ∅) (of_class DelClass actions));
  commit txn;;
  let sets := of_class SetClass actions in
  apply_sets (length sets) sets;;
  others ← match last (of_class CursorClass actions) with
           | Some cursor => mret (of_class OtherClass actions ++ [cursor])
           | None => lift Panic
           end;
  txn ← begin_txn;
  txn ← lift (apply_actions txn others);
  commit txn.

(** ** execute *)

Definition flush_batch : M unit :=
  actions ← gets (λ w, values (batch_actions (sync_batcher w)));
  if (5000 <? length actions)%nat then apply_staggered_actions actions
  else
    txn ← begin_txn;
    txn ← lift (apply_actions txn actions);
    commit txn.

(** The branch of [RollForward] when the chain is not mutable yet. *)
Definition execute_sync (u : StorageActionPayload) (point : Point) (ops : list StorageAction)
  : M unit :=
  flush ← gets (λ w, should_flush (sync_batcher w) ops);
  if (flush : bool) then
    modify (set_unit (Some u));;
    flush_batch;;
    modify (set_unit None);;
    modify (set_last (Some point));;
    modify (λ w, set_batcher (wipe (sync_batcher w)) w);;
    b ← gets sync_batcher;
    b ← lift (push_actions b ops);
    modify (set_batcher b)
  else
    b ← gets sync_batcher;
    b ← lift (push_actions b ops);
    modify (set_batcher b).

Definition zero_point : Point := mkPoint 0 (replicate 32 0).

(** What remains of the batch is applied before the first mutable block. *)
Definition flush_remaining : M unit :=
  rem_empty ← gets (λ w, batcher_is_empty (sync_batcher w));
  if (rem_empty : bool) then mret tt
  else
    actions ← gets (λ w, values (batch_actions (sync_batcher w)));
    apply_staggered_actions actions;;
    modify (λ w, set_batcher (wipe (sync_batcher w)) w).

(** The transaction of a mutable block: its actions, and the rollback metadata
    ([init] is the point the buffer starts from, for the first such block). *)
Definition commit_mutable_block (init : option Point) (point : Point) (ops : list StorageAction)
  : M (list StorageAction) :=
  txn ← begin_txn;
  merger ← lift (push_actions (batcher_new 1 (umax 64)) ops);
  '(txn, inverse_ops) ← lift (apply_actions_inverses txn (values (batch_actions merger)));
  txn ← lift (match init with
              | Some p => apply_storage_rb_actions txn [Delete []] p
              | None => Ok txn
              end);
  txn ← lift (apply_storage_rb_actions txn inverse_ops point);
  commit txn;;
  mret inverse_ops.

(** What the worker keeps of a block once it is committed. *)
Definition remember_block (first_mutable : bool) (point : Point)
    (inverse_ops : list StorageAction) (w : Worker) : Worker :=
  let w := set_unit None w in
  let w := if first_mutable
           then set_buffer
                  (add_block (rollback_buffer w) (default zero_point (last_processed w)) []) w
           else w in
  let w := set_last (Some point) w in
  set_buffer (add_block (rollback_buffer w) point inverse_ops) w.

(** The branch of [RollForward] when it is. *)
Definition execute_mutable (u : StorageActionPayload) (point : Point) (ops : list StorageAction)
  : M unit :=
  first_mutable ← gets (λ w, buffer_is_empty (rollback_buffer w));
  modify (set_unit (Some u));;
  flush_remaining;;
  init ← gets (λ w, if (first_mutable : bool) then last_processed w else None);
  inverse_ops ← commit_mutable_block init point ops;
  modify (remember_block first_mutable point inverse_ops);;
  garbage_collect_rollback_metadata (pt_height point).

(** Undo the blocks, the most recent first, each in its transaction. *)
Fixpoint undo_points (points : list (Point * list StorageAction)) : M unit :=
  match points with
  | [] => mret tt
  | p :: points =>
      txn ← begin_txn;
      txn ← lift (apply_actions txn (rev p.2));
      commit txn;;
      undo_points points
  end.

Definition out_of_range {T} (o : option T) : outcome PolyError T := ok_or RollbackOutOfRange o.

Definition execute_roll_back (policy : RuntimePolicy) (u : StorageActionPayload) (point : Point)
  : M unit :=
  modify (set_unit (Some u));;
  since ← gets (λ w, points_since (rollback_buffer w) point);
  points_and_results ← lift (or_panic (apply_policy (out_of_range since) policy));
  points_and_results ← lift (unwrap points_and_results);
  undo_points points_and_results;;
  trim_persistent_rollback_metadata (pt_height point);;
  modify (set_unit None);;
  modify (set_last (Some point));;
  back ← gets (λ w, rollback_to_point (rollback_buffer w) point);
  result ← lift (or_panic (apply_policy (out_of_range back) policy));
  match result with
  | Some (_, buffer) => modify (set_buffer buffer)
  | None => mret tt
  end.

Definition execute (policy : RuntimePolicy) (u : StorageActionPayload) : M unit :=
  match u with
  | RollForward point outputs mutable_ _ =>
      modify (λ w, set_mutable (mutable w || mutable_) w);;
      ops ← lift (outputs_to_storage_ops n outputs);
      m ← gets mutable;
      if (m : bool) then execute_mutable u point ops else execute_sync u point ops
  | RollBack point mutable_ =>
      modify (λ w, set_mutable (mutable w || mutable_) w);;
      execute_roll_back policy u point
  end.

(** [schedule]: the locked unit again, or the next message. *)
Definition schedule (w : Worker) (next : StorageActionPayload) : StorageActionPayload :=
  default next (work_unit_2pc w).

(** ** Start-up *)

Record PersistentBufferValue : Type := mkPersistent {
  pb_point : Point;
  inverse_actions : list StorageAction;
}.

(** The pages of the scan: the next one starts after the last key. *)
Fixpoint scan_pages (fuel scan_size : nat) (s : Store) (start end_ : Key)
  : list (Key * Value) :=
  match fuel with
  | O => []
  | S fuel =>
      let kvs := take scan_size (scan s (start, end_)) in
      match last kvs with
      | None => []
      | Some (last_key, _) => kvs ++ scan_pages fuel scan_size s (last_key ++ [0]) end_
      end
  end.

(** The loop over the metadata: the buffer so far, the point being read and its
    actions. *)
Definition read_metadata (st : list PersistentBufferValue * Point * list StorageAction)
    (kv : Key * Value)
  : outcome WorkError (list PersistentBufferValue * Point * list StorageAction) :=
  let '(buf, current_point, actions) := st in
  metadata_key ← decode_metadata_key kv.1;
  let height := uint_value (mk_height metadata_key) in
  let '(buf, current_point, actions) :=
    if height =? pt_height current_point then (buf, current_point, actions)
    else
      (if pt_height current_point =? 0 then buf
       else buf ++ [mkPersistent current_point actions],
       mkPoint height (bytes_of (mk_hash metadata_key)), []) in
  let modified_key := map uint_value (mk_modified_key metadata_key) in
  Ok (buf, current_point,
      actions ++ [match kv.2 with [] => Delete modified_key | v => SSet modified_key v end]).

Definition fetch_persistent_buffer (s : Store)
  : outcome WorkError (option (list PersistentBufferValue)) :=
  let '(start, end_) :=
    rollback_metadata_key_range n (None : option u64) (None : option u64) in
  let kvs := scan_pages (S (base.size s)) 2000 s start end_ in
  '(buf, current_point, actions) ← foldM read_metadata ([], zero_point, []) kvs;
  let buf := if pt_height current_point =? 0 then buf
             else buf ++ [mkPersistent current_point actions] in
  match buf with [] => Ok None | _ => Ok (Some buf) end.

(** [Cursor::last_point]. *)
Definition last_point (s : Store) : outcome WorkError (option Point) :=
  match s !! Prefix_cursor n with
  | None => Ok None
  | Some x =>
      match decode x : decoded (u64 * Bytes 32) with
      | Ok ((height, hash), _) => Ok (Some (mkPoint (uint_value height) (bytes_of hash)))
      | _ => Panic
      end
  end.

(** The worker [spawn_stages] makes. *)
Definition spawn (s : Store) (sync_batch_size raft_entry_max_size : Z) (intersect : option Point)
    (buf : option (list PersistentBufferValue)) (size : nat) : Worker :=
  mkWorker s (batcher_new sync_batch_size raft_entry_max_size)
    (foldl (λ b e, add_block b (pb_point e) (inverse_actions e)) (buffer_new size)
       (default [] buf))
    false None intersect (Z.of_nat size).

End worker.

End TikvWorker.
