(* ===== verification/TikvRefinement.v ===== *)
(** How the storage stage survives failed commits: what each transaction of a
    unit writes, what is left when one of them fails, and that running the unit
    again gives the result it would have had. *)

From S2P Require Import Prelude Timbre Crosscut StorageAction ReducerOutput TikvWorker.
Import Timbre Crosscut StorageAction ReducerOutput TikvWorker.

Module TikvRefinement.

Implicit Types (s txn : Store) (k : Key) (r : Key * Key) (w : Worker) (b : option nat).
Implicit Types (a : StorageAction) (keys : list Key).

(** ** Scans *)

Lemma elem_of_sorted_keys (s : Store) (k : Key) : k ∈ sorted_keys s ↔ is_Some (s !! k).
Proof.
  unfold sorted_keys. rewrite merge_sort_Permutation, list_elem_of_fmap. split.
  - intros ([k' v] & -> & H). apply elem_of_map_to_list in H. by exists v.
  - intros [v H]. exists (k, v). split; [done|]. by apply elem_of_map_to_list.
Qed.

Lemma NoDup_sorted_keys (s : Store) : NoDup (sorted_keys s).
Proof. unfold sorted_keys. rewrite merge_sort_Permutation. apply NoDup_fst_map_to_list. Qed.

Lemma Sorted_sorted_keys (s : Store) : StronglySorted bytes_le (sorted_keys s).
Proof. apply Sorted_StronglySorted; [apply _|]. apply (Sorted_merge_sort bytes_le). Qed.

Lemma elem_of_scan_keys (s : Store) r (k : Key) :
  k ∈ scan_keys s r ↔ in_key_range r k ∧ is_Some (s !! k).
Proof. unfold scan_keys. by rewrite list_elem_of_filter, elem_of_sorted_keys. Qed.

Lemma NoDup_scan_keys (s : Store) r : NoDup (scan_keys s r).
Proof. apply NoDup_filter, NoDup_sorted_keys. Qed.

Lemma length_scan_keys (s : Store) r : (length (scan_keys s r) ≤ base.size s)%nat.
Proof.
  unfold scan_keys. etrans; [apply length_filter|]. unfold sorted_keys.
  rewrite merge_sort_Permutation, length_fmap. by rewrite length_map_to_list.
Qed.

(** ** Deleting a range of metadata *)

(** [s'] is [s] without some keys of the range. *)
Definition cleared (r : Key * Key) (s s' : Store) : Prop :=
  ∀ k : Key, s' !! k = s !! k ∨ (in_key_range r k ∧ s' !! k = None).

Definition drop_range (r : Key * Key) (s : Store) : Store :=
  filter (λ kv, ¬ in_key_range r kv.1) s.

Lemma lookup_drop_range r (s : Store) (k : Key) :
  drop_range r s !! k = if decide (in_key_range r k) then None else s !! k.
Proof.
  unfold drop_range. destruct (decide _) as [Hin|Hout].
  - apply map_lookup_filter_None. right. intros v _ H. by apply H.
  - destruct (s !! k) as [v|] eqn:E.
    + by apply map_lookup_filter_Some.
    + apply map_lookup_filter_None. by left.
Qed.

#[export] Instance cleared_refl r : Reflexive (cleared r).
Proof. intros s k. by left. Qed.

Lemma cleared_delete r (s s' : Store) (k : Key) :
  in_key_range r k → cleared r s s' → cleared r s (delete k s').
Proof.
  intros Hk H k'. destruct (decide (k' = k)) as [->|Hne].
  - right. by rewrite lookup_delete_eq.
  - rewrite lookup_delete_ne by done. apply H.
Qed.

Lemma cleared_all r (s s' : Store) :
  cleared r s s' → scan_keys s' r = [] → s' = drop_range r s.
Proof.
  intros Hc Hnil. apply map_eq. intros k. rewrite lookup_drop_range.
  destruct (decide (in_key_range r k)) as [Hin|Hout].
  - destruct (s' !! k) as [v|] eqn:E; [|done].
    assert (k ∈ scan_keys s' r) as Hk by (apply elem_of_scan_keys; by eauto).
    rewrite Hnil in Hk. by apply not_elem_of_nil in Hk.
  - by destruct (Hc k) as [|[? _]].
Qed.

(** The keys of the range are metadata keys. *)
Definition readable (r : Key * Key) (s : Store) : Prop :=
  ∀ k : Key, in_key_range r k → is_Some (s !! k) → is_ok (decode_metadata_key k) = true.

Lemma readable_cleared r (s s' : Store) : cleared r s s' → readable r s → readable r s'.
Proof.
  intros Hc Hr k Hk [v Hv]. apply Hr; [done|]. destruct (Hc k) as [E|[_ E]].
  - rewrite <- E. by exists v.
  - congruence.
Qed.

(** The result of a piece of the worker that only writes the store. *)
Definition leaves {A} (m : M A) (w : Worker) (b : option nat)
    (P : Store → option nat → outcome WorkError A → Prop) : Prop :=
  match m w b with
  | (w', b', o) => ∃ s', w' = set_store s' w ∧ P s' b' o
  end.

Lemma set_store_set_store s s' w : set_store s (set_store s' w) = set_store s w.
Proof. done. Qed.

Lemma set_store_same w : set_store (store w) w = w.
Proof. by destruct w. Qed.

(** What can come out: a result that satisfies [P], or a failed commit, which
    needs a budget. *)
Definition outcome_of {A} (b : option nat) (P : A → Prop) (o : outcome WorkError A) : Prop :=
  match o with
  | Ok a => P a
  | Err Restart => b ≠ None
  | _ => False
  end.

(** The budget [b1] is what is left of [b]. *)
Definition left_of b1 b : Prop := (b = None → b1 = None) ∧ (b1 ≠ None → b ≠ None).

Lemma outcome_of_left {A} b1 b (P : A → Prop) o :
  left_of b1 b → outcome_of b1 P o → outcome_of b P o.
Proof. intros [_ H]. destruct o as [|[]|]; cbn; auto. Qed.

(** A commit, and then the rest: either it fails, which leaves the store alone,
    or the rest runs from the store committed. *)
Lemma leaves_commit {A} txn (m : M A) w b (P : Store → option nat → outcome WorkError A → Prop) :
  (b ≠ None → P (store w) b (Err Restart)) →
  (∀ b1, left_of b1 b → leaves m (set_store txn w) b1 P) →
  leaves (commit txn;; m) w b P.
Proof.
  intros Hfail Hok. unfold leaves, mbind, M_bind, commit. destruct b as [[|b]|].
  - exists (store w). rewrite set_store_same. split; [done|]. by apply Hfail.
  - specialize (Hok (Some b) ltac:(split; done)). unfold leaves in Hok. cbn.
    by destruct (m (set_store txn w) (Some b)) as [[w' b'] o].
  - specialize (Hok None ltac:(split; done)). unfold leaves in Hok. cbn.
    by destruct (m (set_store txn w) None) as [[w' b'] o].
Qed.

Lemma leaves_impl {A} (m : M A) w b (P Q : Store → option nat → outcome WorkError A → Prop) :
  leaves m w b P → (∀ s' b' o, P s' b' o → Q s' b' o) → leaves m w b Q.
Proof.
  unfold leaves. destruct (m w b) as [[w' b'] o]. intros (s' & -> & HP) H. exists s'. auto.
Qed.

Lemma delete_metadata_keys_spec r s0 keys txn current w b :
  Forall (in_key_range r) keys → Forall (λ k, is_ok (decode_metadata_key k) = true) keys →
  cleared r s0 txn → cleared r s0 (store w) →
  leaves (delete_metadata_keys keys txn current) w b (λ s' b' o,
    cleared r s0 s' ∧ (b = None → b' = None) ∧
    outcome_of b (λ p, p.1 = foldl (λ t k, delete k t) txn keys) o).
Proof.
  unfold leaves. intros Hr Hd. revert txn current w b.
  induction keys as [|k keys IH]; intros txn current w b Ht Hw.
  { cbn. exists (store w). by rewrite set_store_same. }
  apply Forall_cons in Hr as [Hk Hr]. apply Forall_cons in Hd as [Hdk Hd].
  cbn [delete_metadata_keys foldl]. unfold mbind, M_bind, lift at 1.
  destruct (decode_metadata_key k) as [m| |]; [|done|done].
  set (h := uint_value (mk_height m)).
  assert (∀ w1 b1, store w1 = store w ∨ store w1 = txn → set_store (store w1) w = w1 →
    (b = None → b1 = None) → (b1 ≠ None → b ≠ None) →
    match delete_metadata_keys keys (delete k txn) (Some h) w1 b1 with
    | (w', b', o) => ∃ s', w' = set_store s' w ∧ cleared r s0 s' ∧ (b = None → b' = None)
      ∧ outcome_of b (λ p, p.1 = foldl (λ t k, delete k t) (delete k txn) keys) o
    end) as Hgo.
  { intros w1 b1 Hw1 Hset Hb Hb'.
    specialize (IH Hr Hd (delete k txn) (Some h) w1 b1 (cleared_delete _ _ _ _ Hk Ht)).
    destruct (delete_metadata_keys keys _ _ w1 b1) as [[w' b'] o].
    destruct IH as (s' & -> & Hs' & Hbb & Ho); [by destruct Hw1 as [-> | ->]|].
    exists s'. split; [by rewrite <- Hset|]. split; [done|]. split; [by intros; apply Hbb, Hb|].
    destruct o as [|[]|]; try done. cbn. by apply Hb'. }
  destruct current as [ch|]; [|by apply Hgo; [left| by rewrite set_store_same| |]].
  destruct (ch =? h); [by apply Hgo; [left| by rewrite set_store_same| |]|].
  unfold commit, begin_txn, gets. destruct b as [[|b]|]; cbn.
  - exists (store w). by rewrite set_store_same.
  - apply (Hgo (set_store txn w) (Some b)); [by right|done|done|done].
  - apply (Hgo (set_store txn w) None); [by right|done|done|done].
Qed.

Lemma foldl_delete_lookup keys s k :
  foldl (λ t k, delete k t) s keys !! k = if decide (k ∈ keys) then None else s !! k.
Proof.
  revert s. induction keys as [|k' keys IH]; intros s.
  { rewrite decide_False; [done|]. apply not_elem_of_nil. }
  cbn [foldl]. rewrite IH. destruct (decide (k ∈ keys)) as [Hin|Hni].
  { rewrite decide_True; [done|]. by right. }
  destruct (decide (k = k')) as [->|Hne].
  - rewrite decide_True by (by left). by rewrite lookup_delete_eq.
  - rewrite decide_False, lookup_delete_ne; [done|done|]. by intros [?|?]%elem_of_cons.
Qed.

Lemma foldl_delete_cleared r keys s s' :
  Forall (in_key_range r) keys → cleared r s s' → cleared r s (foldl (λ t k, delete k t) s' keys).
Proof.
  intros Hk. revert s'. induction Hk as [|k keys Hk _ IH]; intros s' Hc; [done|].
  cbn [foldl]. by apply IH, cleared_delete.
Qed.

(** A page leaves fewer keys. *)
Lemma scan_keys_shrink r page s :
  page ≠ [] → page ⊆ scan_keys s r →
  (length (scan_keys (foldl (λ t k, delete k t) s page) r) < length (scan_keys s r))%nat.
Proof.
  destruct page as [|k0 page]; [done|]. intros _ Hsub.
  set (page' := k0 :: page) in *. set (s' := foldl _ s page').
  assert (NoDup (k0 :: scan_keys s' r)) as Hnd.
  { apply NoDup_cons. split; [|apply NoDup_scan_keys].
    intros [_ [v Hv]]%elem_of_scan_keys. unfold s' in Hv. rewrite foldl_delete_lookup in Hv.
    rewrite decide_True in Hv by (by left). done. }
  apply (NoDup_submseteq _ (scan_keys s r)) in Hnd; [by apply submseteq_length in Hnd|].
  intros k [->|Hk]%elem_of_cons; [apply Hsub; by left|].
  apply elem_of_scan_keys in Hk as [Hr [v Hv]]. apply elem_of_scan_keys. split; [done|].
  unfold s' in Hv. rewrite foldl_delete_lookup in Hv. destruct (decide _); [done|by exists v].
Qed.

Lemma delete_metadata_pages_spec r s0 order fuel txn current w b :
  (∀ l, order l ≡ₚ l) → readable r s0 → cleared r s0 txn → cleared r s0 (store w) →
  (length (scan_keys txn r) < fuel)%nat →
  leaves (delete_metadata_pages fuel order r txn current) w b (λ s' b' o,
    cleared r s0 s' ∧ (b = None → b' = None)
    ∧ outcome_of b (λ _, s' = drop_range r s0) o).
Proof.
  intros Hord Hread. revert txn current w b. unfold leaves.
  induction fuel as [|fuel IH]; intros txn current w b Ht Hw Hfuel; [lia|].
  cbn [delete_metadata_pages].
  destruct (take 1000 (order (scan_keys txn r))) as [|k0 page] eqn:Epage.
  { assert (scan_keys txn r = []) as Hnil.
    { apply Permutation_nil_r. rewrite <- (Hord (scan_keys txn r)).
      by destruct (order (scan_keys txn r)). }
    pose proof (cleared_all r s0 txn Ht Hnil) as ->.
    unfold commit. destruct b as [[|b]|].
    - exists (store w). by rewrite set_store_same.
    - by exists (drop_range r s0).
    - by exists (drop_range r s0). }
  assert (k0 :: page ⊆ scan_keys txn r) as Hsub.
  { intros k Hk. rewrite <- Epage in Hk. apply elem_of_take in Hk as (i & Hi & _).
    apply list_elem_of_lookup_2 in Hi. by rewrite Hord in Hi. }
  assert (Forall (in_key_range r) (k0 :: page)) as Hrange.
  { apply Forall_forall. intros k Hk. by apply Hsub, elem_of_scan_keys in Hk as [? _]. }
  assert (Forall (λ k, is_ok (decode_metadata_key k) = true) (k0 :: page)) as Hdec.
  { apply Forall_forall. intros k Hk. apply Hsub, elem_of_scan_keys in Hk as [Hk Hs].
    by apply (readable_cleared r s0 txn Ht Hread). }
  pose proof (delete_metadata_keys_spec r s0 (k0 :: page) txn current w b Hrange Hdec Ht Hw) as Hdel.
  unfold leaves in Hdel. unfold mbind, M_bind.
  destruct (delete_metadata_keys (k0 :: page) txn current w b) as [[w1 b1] o1].
  destruct Hdel as (s1 & -> & Hs1 & Hb1 & Ho1).
  destruct o1 as [[txn1 cur1]|[]|]; cbn in Ho1; try done; [|by exists s1].
  subst txn1.
  specialize (IH (foldl (λ t k, delete k t) txn (k0 :: page)) cur1 (set_store s1 w) b1).
  destruct (delete_metadata_pages fuel order r _ cur1 (set_store s1 w) b1) as [[w2 b2] o2].
  destruct IH as (s2 & -> & Hs2 & Hb2 & Ho2); [by apply foldl_delete_cleared|done| |].
  { pose proof (scan_keys_shrink r (k0 :: page) txn ltac:(done) Hsub). lia. }
  exists s2. split; [done|]. split; [done|]. split; [by intros; apply Hb2, Hb1|].
  destruct o2 as [|[]|]; try done. cbn in Ho2 |- *. intros E. by apply Ho2, Hb1.
Qed.

(** Deleting a range deletes exactly its keys, unless a commit fails, and then
    it deleted some of them. *)
Lemma delete_metadata_range_spec r order w b :
  (∀ l, order l ≡ₚ l) → readable r (store w) →
  leaves (delete_metadata_range order r) w b (λ s' b' o,
    cleared r (store w) s' ∧ (b = None → b' = None)
    ∧ outcome_of b (λ _, s' = drop_range r (store w)) o).
Proof.
  intros Hord Hread. unfold delete_metadata_range, begin_txn, gets. unfold leaves, mbind, M_bind.
  apply (delete_metadata_pages_spec r (store w)); try done.
  pose proof (length_scan_keys (store w) r). lia.
Qed.

(** ** Metadata keys and data keys *)

Definition metadata_range (n : Namespace) : Key * Key :=
  rollback_metadata_key_range n (None : option u64) (None : option u64).

Definition is_metadata (n : Namespace) (k : Key) : Prop := in_key_range (metadata_range n) k.

Lemma is_metadata_prefix n k :
  is_metadata n k ↔ ∃ rest, k = (encode n ++ [PREFIX_ROLLBACK]) ++ BREAK :: rest.
Proof. apply (break_interval (encode n ++ [PREFIX_ROLLBACK])). Qed.

(** Every range the worker deletes is made of metadata keys. *)
Lemma metadata_subrange `{Encode A, Encode B} n (lower : option A) (upper : option B) k :
  in_key_range (rollback_metadata_key_range n lower upper) k → is_metadata n k.
Proof.
  unfold is_metadata, metadata_range, in_key_range, rollback_metadata_key_range, append, break_,
    break1, push, enc.
  cbn [fst snd app]. set (p := encode n ++ [PREFIX_ROLLBACK]).
  intros [Hlo Hup]. split.
  - destruct lower as [v|]; [|done]. etrans; [|exact Hlo]. apply bytes_le_app_r.
  - right. destruct upper as [v|].
    + destruct Hup as [E|Hlt].
      { by apply app_nil in E as [E _]; apply app_nil in E as [_ [=]]. }
      eapply bytes_lt_trans; [exact Hlt|]. rewrite <- app_assoc. apply interval_join.
    + destruct Hup as [E|Hlt]; [by apply app_nil in E as [_ [=]]|done].
Qed.

Lemma own_key_data n k : own_key n k → ¬ is_metadata n k.
Proof.
  rewrite is_metadata_prefix. intros Hk [rest E].
  assert (take 3 k = encode n ++ [PREFIX_ROLLBACK]) as H3 by (rewrite E; reflexivity).
  destruct Hk; cbn in H3; [discriminate|discriminate|].
  injection H3 as E1 E2 E3. rewrite <- E1 in E3. discriminate.
Qed.

Lemma metadata_key_range n p idx k : is_metadata n (metadata_key n p idx k).
Proof.
  apply is_metadata_prefix. unfold metadata_key, Prefix_rollback, append, break_, push, enc.
  eexists. cbn [app]. rewrite <- !app_assoc. reflexivity.
Qed.

(** A key written for a point can be read back, whatever the modified key. *)
Lemma UInt_decode_bytes (m : nat) (x : UInt m) rest :
  decode (encode x ++ rest)
  = Ok (mkUInt (of_be_bytes (be_bytes m (uint_value x))) : UInt m, rest).
Proof.
  unfold decode, UInt_decode, encode, UInt_encode.
  by rewrite (split_at_app' m) by apply length_be_bytes.
Qed.

Lemma decode_items_bytes (l : list u8) (m : nat) :
  (m ≤ length l)%nat → is_ok (decode_items m (concat (map encode l)) : decoded (list u8)) = true.
Proof.
  revert l. induction m as [|m IH]; intros l Hm; [done|].
  destruct l as [|x l]; [cbn in Hm; lia|]. cbn [map concat decode_items].
  rewrite UInt_decode_bytes. cbn [mbind outcome_bind].
  specialize (IH l ltac:(cbn in Hm; lia)). by destruct (decode_items m _) as [[]| |].
Qed.

Lemma metadata_key_readable n p idx k :
  length (pt_hash p) = 32%nat → is_ok (decode_metadata_key (metadata_key n p idx k)) = true.
Proof.
  intros Hh. unfold decode_metadata_key, metadata_key, Prefix_rollback.
  set (m := mkMetadataKey _ _ _ _).
  change (append m (break_ (push PREFIX_ROLLBACK (append n enc))))
    with ([dataplane_id n / 256 ^ 0 mod 256; instance_id n / 256 ^ 0 mod 256; PREFIX_ROLLBACK; BREAK]
          ++ encode m).
  cbn [length app Nat.ltb Nat.leb drop]. rewrite drop_0.
  unfold encode at 1, MetadataKey_encode, decode, MetadataKey_decode, append_with_break, append,
    break_, push, enc. subst m. cbn [mk_height mk_hash mk_operation_idx mk_modified_key app].
  rewrite <- !app_assoc. rewrite UInt_decode_bytes. cbn [mbind outcome_bind app skip_break].
  assert (valid (mkBytes (pt_hash p) : Bytes 32)) as Hv by done.
  rewrite (decode_encode_app _ _ Hv). cbn [mbind outcome_bind app skip_break].
  rewrite UInt_decode_bytes. cbn [mbind outcome_bind app skip_break].
  unfold decode at 1, list_decode, encode at 1, list_encode. rewrite UInt_decode_bytes.
  cbn [mbind outcome_bind uint_value].
  set (l := map mkUInt k). set (c := Z.to_nat _).
  pose proof (decode_items_bytes l c) as Hit.
  assert (c ≤ length l)%nat as Hc.
  { subst c. rewrite of_be_be_bytes. unfold wrap.
    assert (0 ≤ Z.of_nat (length l) mod 2 ^ 32 ≤ Z.of_nat (length l)).
    { split; [apply Z.mod_pos_bound; lia|]. apply Z.mod_le; lia. }
    rewrite (Z.mod_small _ (256 ^ Z.of_nat 4)); [lia|].
    pose proof (Z.mod_pos_bound (Z.of_nat (length l)) (2 ^ 32) ltac:(lia)). cbn. lia. }
  specialize (Hit Hc). by destruct (decode_items c _) as [[]| |].
Qed.

(** ** Sets and deletes *)

Definition plain (a : StorageAction) : Prop := requires_previous_value a = false.

Definition plain_value (a : StorageAction) : option Value :=
  match a with SSet _ v => Some v | _ => None end.

Definition puts (s : Store) (l : list StorageAction) : Store :=
  foldl (λ s a, put_or_delete (key a) (plain_value a) s) s l.

Lemma puts_app s l l' : puts s (l ++ l') = puts (puts s l) l'.
Proof. apply foldl_app. Qed.

Lemma plain_effect a v : plain a → effect a v = Ok (plain_value a).
Proof. by destruct a. Qed.

Lemma apply_actions_plain s l : Forall plain l → apply_actions s l = Ok (puts s l).
Proof.
  intros Hl. rewrite apply_actions_spec by (by right).
  revert s. induction Hl as [|a l Ha _ IH]; intros s; [done|].
  cbn [foldM]. unfold run_one at 1. rewrite plain_effect by done. cbn [mbind outcome_bind]. apply IH.
Qed.

Lemma run_actions_plain s kv l :
  Forall plain l → ('(txn, _) ← run_actions (s, kv) l; Ok txn) = Ok (puts s l).
Proof.
  intros Hl. rewrite <- apply_actions_plain by done. rewrite apply_actions_spec by (by right).
  apply run_actions_spec; [by right|]. eapply Forall_impl; [exact Hl|]. cbn. intros a E. congruence.
Qed.

Lemma puts_outside s l k : k ∉ map key l → puts s l !! k = s !! k.
Proof.
  unfold puts. revert s. induction l as [|a l IH]; intros s Hk; [done|].
  apply not_elem_of_cons in Hk as [Hne Hk]. cbn [foldl]. rewrite IH by done.
  by apply lookup_put_or_delete_ne.
Qed.

(** What is under the keys written does not matter. *)
Lemma puts_agree s s' l k :
  k ∈ map key l ∨ s' !! k = s !! k → puts s' l !! k = puts s l !! k.
Proof.
  unfold puts. revert s s'. induction l as [|a l IH]; intros s s' Hk.
  { destruct Hk as [Hk|Hk]; [by apply not_elem_of_nil in Hk|done]. }
  cbn [foldl]. apply IH. destruct (decide (k = key a)) as [->|Hne].
  - right. by rewrite !lookup_put_or_delete_eq.
  - rewrite !lookup_put_or_delete_ne by done. destruct Hk as [[?|?]%elem_of_cons|?]; [done|by left|by right].
Qed.

(** [s'] is [s] but for the keys of [l]. *)
Definition but_for (l : list StorageAction) (s s' : Store) : Prop :=
  ∀ k : Key, k ∉ map key l → s' !! k = s !! k.

Lemma puts_but_for s s' l : but_for l s s' → puts s' l = puts s l.
Proof.
  intros H. apply map_eq. intros k. apply puts_agree.
  destruct (decide (k ∈ map key l)); [by left|right; by apply H].
Qed.

Lemma but_for_puts l l1 s s' :
  map key l1 ⊆ map key l → but_for l s s' → but_for l s (puts s' l1).
Proof. intros Hsub H k Hk. rewrite puts_outside; [by apply H|]. intros Hin. by apply Hk, Hsub. Qed.

Lemma records_plain' s l : records s l → Forall plain l.
Proof. apply records_plain. Qed.

(** ** Undoing points *)

Definition undo_list (points : list (Point * list StorageAction)) : list StorageAction :=
  concat (map (λ p, rev p.2) points).

Lemma undo_points_spec points w b :
  Forall (λ p, Forall plain p.2) points →
  leaves (undo_points points) w b (λ s' b' o,
    but_for (undo_list points) (store w) s' ∧ (b = None → b' = None)
    ∧ outcome_of b (λ _, s' = puts (store w) (undo_list points)) o).
Proof.
  intros Hp. revert w b. induction Hp as [|p points Hp _ IH]; intros w b.
  { cbn. exists (store w). rewrite set_store_same. by repeat split. }
  assert (undo_points (p :: points) w b
    = (commit (puts (store w) (rev p.2));; undo_points points) w b) as Hstep.
  { cbn [undo_points]. unfold begin_txn, gets, lift, mbind, M_bind.
    by rewrite apply_actions_plain by (by apply Forall_rev). }
  unfold leaves. rewrite Hstep. apply leaves_commit; [by intros; repeat split|].
  intros b1 Hb1. eapply leaves_impl; [apply IH|]. cbn [store set_store].
  unfold undo_list. cbn [map concat]. intros s' b' o (Hbut & Hbb & Ho). split; [|split].
  - intros k Hk. rewrite map_app in Hk. apply not_elem_of_app in Hk as [Hk1 Hk2].
    rewrite Hbut by done. by apply puts_outside.
  - intros E. by apply Hbb, Hb1.
  - rewrite puts_app. by apply (outcome_of_left b1).
Qed.

(** ** Staggered batches *)

Lemma apply_sets_spec fuel sets w b :
  Forall plain sets → (length sets ≤ fuel)%nat →
  leaves (apply_sets fuel sets) w b (λ s' b' o,
    but_for sets (store w) s' ∧ (b = None → b' = None)
    ∧ outcome_of b (λ _, s' = puts (store w) sets) o).
Proof.
  revert sets w b. induction fuel as [|fuel IH]; intros sets w b Hp Hl.
  { destruct sets; [|cbn in Hl; lia]. cbn. exists (store w). rewrite set_store_same. by repeat split. }
  destruct sets as [|a0 sets0]; [cbn; exists (store w); rewrite set_store_same; by repeat split|].
  set (sets := a0 :: sets0) in *.
  assert (apply_sets (S fuel) sets w b
    = (commit (puts (store w) (take 5000 sets));; apply_sets fuel (drop 5000 sets)) w b) as Hstep.
  { unfold sets. cbn [apply_sets]. unfold begin_txn, gets, lift, mbind, M_bind.
    by rewrite apply_actions_plain by (by apply Forall_take). }
  unfold leaves. rewrite Hstep. apply leaves_commit; [by intros; repeat split|].
  intros b1 Hb1. eapply leaves_impl; [apply IH; [by apply Forall_drop|]|].
  { rewrite length_drop. unfold sets in *. cbn [length] in *. lia. }
  cbn [store set_store]. intros s' b' o (Hbut & Hbb & Ho). split; [|split].
  - intros k Hk. rewrite <- (take_drop 5000 sets), map_app in Hk.
    apply not_elem_of_app in Hk as [Hk1 Hk2]. rewrite Hbut by done. by apply puts_outside.
  - intros E. by apply Hbb, Hb1.
  - apply (outcome_of_left b1); [done|]. by rewrite <- puts_app, take_drop in Ho.
Qed.

(** Executing actions panics or succeeds. *)
Lemma execute_no_err st a e : execute_storage_op_in_txn st a ≠ Err e.
Proof.
  destruct st as [txn kv]. destruct a; cbn; unfold read_amount;
    repeat match goal with
    | |- context [kv !! ?k] => destruct (kv !! k)
    | |- context [if ?c then _ else _] => destruct c
    end; done.
Qed.

Lemma apply_actions_no_err s l e : apply_actions s l ≠ Err e.
Proof.
  unfold apply_actions, run_actions. generalize (s, batch_get_required_kvs_for_batch s l false).
  induction l as [|a l IH]; intros st; [by destruct st|]. cbn [foldM].
  pose proof (execute_no_err st a e) as He.
  destruct (execute_storage_op_in_txn st a) as [st'|e'|]; [apply IH| |done].
  cbn. intros [= ->]. by apply He.
Qed.

(** ** Runs without failures *)

(** What a run gives when no commit of it failed, the run that never fails gives. *)
Definition robust {A} (m : M A) : Prop := ∀ w b w' b' o,
  m w b = (w', b', o) → o ≠ Err Restart → m w None = (w', None, o).

Lemma robust_ret {A} (x : A) : robust (mret x).
Proof. intros w b w' b' o [= <- <- <-] _. done. Qed.

Lemma robust_gets {A} (f : Worker → A) : robust (gets f).
Proof. intros w b w' b' o [= <- <- <-] _. done. Qed.

Lemma robust_modify f : robust (modify f).
Proof. intros w b w' b' o [= <- <- <-] _. done. Qed.

Lemma robust_lift {A} (x : outcome WorkError A) : robust (lift x).
Proof. intros w b w' b' o [= <- <- <-] _. done. Qed.

Lemma robust_commit txn : robust (commit txn).
Proof. intros w b w' b' o. unfold commit. destruct b as [[|b]|]; by intros [= <- <- <-]. Qed.

Lemma robust_bind {A B} (m : M A) (f : A → M B) :
  robust m → (∀ x, robust (f x)) → robust (m ≫= f).
Proof.
  intros Hm Hf w b w' b' o. unfold mbind, M_bind.
  destruct (m w b) as [[w1 b1] o1] eqn:E. intros E' Ho.
  destruct o1 as [x|e|].
  - rewrite (Hm _ _ _ _ _ E) by done. by eapply Hf.
  - injection E' as <- <- <-. by rewrite (Hm _ _ _ _ _ E) by (intros [= ->]; by apply Ho).
  - injection E' as <- <- <-. by rewrite (Hm _ _ _ _ _ E).
Qed.

Create HintDb robust.
#[local] Hint Resolve robust_ret robust_gets robust_modify robust_lift robust_commit : robust.

Ltac solve_robust :=
  repeat match goal with
  | |- robust (mbind _ _) => apply robust_bind; [|intros ?]
  | |- robust (if ?c then _ else _) => destruct c
  | |- robust (match ?c with _ => _ end) => destruct c
  | |- robust (let '_ := ?c in _) => destruct c
  end; auto with robust.

Lemma robust_delete_metadata_keys keys txn cur : robust (delete_metadata_keys keys txn cur).
Proof.
  revert txn cur. induction keys as [|k keys IH]; intros txn cur; cbn [delete_metadata_keys];
    unfold begin_txn; solve_robust.
Qed.

Lemma robust_delete_metadata_pages fuel order r txn cur :
  robust (delete_metadata_pages fuel order r txn cur).
Proof.
  revert txn cur. induction fuel as [|fuel IH]; intros txn cur; cbn [delete_metadata_pages];
    [auto with robust|].
  destruct (take 1000 _) as [|k0 page]; [auto with robust|].
  apply robust_bind; [apply robust_delete_metadata_keys|]. intros [txn' cur']. apply IH.
Qed.

Lemma robust_delete_metadata_range order r : robust (delete_metadata_range order r).
Proof.
  unfold delete_metadata_range, begin_txn. apply robust_bind; [auto with robust|].
  intros txn. apply robust_delete_metadata_pages.
Qed.

Lemma robust_undo_points points : robust (undo_points points).
Proof. induction points as [|p points IH]; cbn [undo_points]; unfold begin_txn; solve_robust. Qed.

Lemma robust_apply_sets fuel sets : robust (apply_sets fuel sets).
Proof.
  revert sets. induction fuel as [|fuel IH]; intros sets; cbn [apply_sets]; [auto with robust|].
  unfold begin_txn. destruct sets; solve_robust.
Qed.
#[local] Hint Resolve robust_delete_metadata_range robust_undo_points robust_apply_sets : robust.

Lemma bind_restart {A B} (m : M A) (f : A → M B) w b w' b' :
  (m ≫= f) w b = (w', b', Err Restart) →
  m w b = (w', b', Err Restart)
  ∨ ∃ x w1 b1, m w b = (w1, b1, Ok x) ∧ f x w1 b1 = (w', b', Err Restart).
Proof.
  unfold mbind, M_bind. destruct (m w b) as [[w1 b1] [x|e|]] eqn:E; intros E'.
  - right. by exists x, w1, b1.
  - left. injection E' as -> -> ->. done.
  - done.
Qed.

(** Functions of the code that never ask for a restart. *)
Lemma foldM_no_restart {A S} (f : S → A → outcome WorkError S) (st : S) (l : list A) :
  (∀ st x, f st x ≠ Err Restart) → foldM f st l ≠ Err Restart.
Proof.
  intros Hf. revert st. induction l as [|x l IH]; intros st; [done|]. cbn [foldM].
  pose proof (Hf st x) as Hx. destruct (f st x) as [st'|[]|]; [apply IH|done|done|done].
Qed.

Lemma outputs_no_restart n outputs : outputs_to_storage_ops n outputs ≠ Err Restart.
Proof.
  apply foldM_no_restart. intros ops o.
  assert (∀ t, short_ticker t ≠ Err Restart) as Ht.
  { intros t. unfold short_ticker. by destruct (ShortByteString_try_from t). }
  destruct o; unfold_ops; cbn [mbind outcome_bind]; try done;
    match goal with |- context [short_ticker ?t] => specialize (Ht t); destruct (short_ticker t) as [|[]|]; cbn; done end.
Qed.

Lemma push_no_restart (b : SyncBatcher) l : push_actions b l ≠ Err Restart.
Proof.
  unfold push_actions. assert (foldM push_action (batch_actions b) l ≠ Err Restart) as H.
  { apply foldM_no_restart. intros m a. unfold push_action. destruct (m !! key a) as [p|]; [|done].
    unfold merge. destruct (decide _); [|done]. by destruct p, a. }
  destruct (foldM push_action _ l) as [|[]|]; cbn; done.
Qed.

Lemma inverses_no_restart s l : apply_actions_inverses s l ≠ Err Restart.
Proof.
  unfold apply_actions_inverses, run_actions_with_inverses.
  match goal with |- context [foldM ?f ?st l] => assert (foldM f st l ≠ Err Restart) as H end.
  { apply foldM_no_restart. intros [[txn kv] inv] a. destruct a; cbn; unfold read_amount;
      repeat match goal with
      | |- context [kv !! ?k] => destruct (kv !! k)
      | |- context [if ?c then _ else _] => destruct c
      end; done. }
  destruct (foldM _ _ l) as [[[]]|[]|]; cbn; done.
Qed.

Lemma rb_no_restart n idx txn l p : apply_storage_rb_actions_from n idx txn l p ≠ Err Restart.
Proof.
  revert idx txn. induction l as [|a l IH]; intros idx txn; cbn; [done|].
  destruct a; cbn; try done; apply IH.
Qed.

Section worker.
Context (n : Namespace) (values : gmap (list Z) StorageAction → list StorageAction).
Context (values_perm : ∀ m, values m ≡ₚ (map_to_list m).*2).

Definition staggered_plain (actions : list StorageAction) : list StorageAction :=
  of_class n DelClass actions ++ of_class n SetClass actions.

(** The last transaction of a staggered batch, from the store it starts in. *)
Definition staggered_end (actions : list StorageAction) (s : Store)
  : Store * outcome WorkError unit :=
  match last (of_class n CursorClass actions) with
  | None => (s, Panic)
  | Some cursor =>
      match apply_actions s (of_class n OtherClass actions ++ [cursor]) with
      | Ok s' => (s', Ok tt)
      | Err e => (s, Err e)
      | Panic => (s, Panic)
      end
  end.

Lemma class_plain c actions : c ≠ OtherClass → Forall plain (of_class n c actions).
Proof.
  intros Hc. apply Forall_forall. intros a Ha. apply list_elem_of_filter in Ha as [Ha _].
  destruct a; cbn in Ha; try done; by subst c.
Qed.

(** A staggered batch after its deletes. *)
Definition staggered_last (actions : list StorageAction) : M unit :=
  others ← match last (of_class n CursorClass actions) with
           | Some cursor => mret (of_class n OtherClass actions ++ [cursor])
           | None => lift Panic
           end;
  txn ← begin_txn; txn ← lift (apply_actions txn others); commit txn.

Definition staggered_rest (actions : list StorageAction) : M unit :=
  let sets := of_class n SetClass actions in
  apply_sets (length sets) sets;; staggered_last actions.

Lemma staggered_unfold actions w b :
  apply_staggered_actions n actions w b
  = (commit (puts (store w) (of_class n DelClass actions));; staggered_rest actions) w b.
Proof.
  unfold apply_staggered_actions, staggered_rest, staggered_last, begin_txn, gets, lift, mbind, M_bind.
  assert (Forall plain (of_class n DelClass actions)) as Hp by (by apply class_plain).
  pose proof (run_actions_plain (store w) ∅ _ Hp) as Hrun.
  destruct (run_actions (store w, ∅) _) as [[t kv]| |]; try done.
  cbn in Hrun. injection Hrun as ->. reflexivity.
Qed.

Lemma staggered_last_spec actions w b :
  leaves (staggered_last actions) w b (λ s' b' o,
    (b = None → b' = None) ∧
    ((o = Err Restart ∧ b ≠ None ∧ s' = store w) ∨ staggered_end actions (store w) = (s', o))).
Proof.
  unfold leaves, staggered_last, staggered_end, begin_txn, gets, lift, mbind, M_bind, mret, M_ret.
  destruct (last _) as [cursor|].
  2: { exists (store w). rewrite set_store_same. split; [done|]. split; [done|by right]. }
  destruct (apply_actions (store w) _) as [s3| |].
  2,3: exists (store w); rewrite set_store_same; (split; [done|]); (split; [done|by right]).
  unfold commit. destruct b as [[|b]|]; cbn.
  - exists (store w). rewrite set_store_same. split; [done|]. split; [done|by left].
  - exists s3. split; [done|]. split; [done|by right].
  - exists s3. split; [done|]. split; [done|by right].
Qed.

Lemma staggered_rest_spec actions w b :
  let sets := of_class n SetClass actions in
  leaves (staggered_rest actions) w b (λ s' b' o,
    (b = None → b' = None) ∧
    ((o = Err Restart ∧ b ≠ None ∧ but_for sets (store w) s')
     ∨ staggered_end actions (puts (store w) sets) = (s', o))).
Proof.
  intros sets. assert (Forall plain sets) as Hp by (by apply class_plain).
  pose proof (apply_sets_spec (length sets) sets w b Hp ltac:(done)) as Hsets.
  unfold leaves, staggered_rest in *. fold sets. unfold mbind at 1, M_bind.
  destruct (apply_sets (length sets) sets w b) as [[w2 b2] o2].
  destruct Hsets as (s2 & -> & Hbut & Hb2 & Ho2).
  destruct o2 as [[]|[]|]; try done.
  - cbn in Ho2. subst s2.
    pose proof (staggered_last_spec actions (set_store (puts (store w) sets) w) b2) as Hlast.
    unfold leaves in Hlast. destruct (staggered_last actions _ b2) as [[w3 b3] o3].
    destruct Hlast as (s3 & -> & Hb3 & H3). exists s3. split; [done|].
    split; [by intros; apply Hb3, Hb2|]. destruct H3 as [(-> & Hb & ->)|E]; [left|by right].
    split; [done|]. split; [|done]. intros E. by apply Hb, Hb2.
  - exists s2. split; [done|]. split; [done|]. by left.
Qed.

Lemma staggered_spec actions w b :
  leaves (apply_staggered_actions n actions) w b (λ s' b' o,
    (b = None → b' = None) ∧
    ((o = Err Restart ∧ b ≠ None ∧ but_for (staggered_plain actions) (store w) s')
     ∨ staggered_end actions (puts (store w) (staggered_plain actions)) = (s', o))).
Proof.
  unfold leaves. rewrite staggered_unfold. apply leaves_commit.
  { intros Hb. split; [done|]. left. by repeat split. }
  intros b1 Hb1. eapply leaves_impl; [apply staggered_rest_spec|]. cbn [store set_store].
  intros s' b' o [Hbb H]. split; [by intros; apply Hbb, Hb1|].
  unfold staggered_plain. rewrite puts_app. destruct H as [(-> & Hb & Hbut)|E]; [left|by right].
  split; [done|]. split; [by apply Hb1|]. intros k Hk. rewrite map_app in Hk.
  apply not_elem_of_app in Hk as [Hk1 Hk2]. rewrite Hbut by done. by apply puts_outside.
Qed.

(** Without a failed commit. *)
Lemma staggered_None actions w :
  apply_staggered_actions n actions w None
  = (let '(s', o) := staggered_end actions (puts (store w) (staggered_plain actions)) in
     (set_store s' w, None, o)).
Proof.
  pose proof (staggered_spec actions w None) as H. unfold leaves in H.
  destruct (apply_staggered_actions n actions w None) as [[w' b'] o].
  destruct H as (s' & -> & Hb & [(_ & ? & _)|E]); [done|]. rewrite E. by rewrite Hb.
Qed.

(** A staggered batch that was interrupted can be applied again. *)
Lemma staggered_retry actions w b w1 b1 :
  apply_staggered_actions n actions w b = (w1, b1, Err Restart) →
  (∃ s1, w1 = set_store s1 w)
  ∧ apply_staggered_actions n actions w1 None = apply_staggered_actions n actions w None
  ∧ b ≠ None.
Proof.
  intros E. pose proof (staggered_spec actions w b) as H. unfold leaves in H. rewrite E in H.
  destruct H as (s1 & -> & _ & [(_ & Hb & Hbut)|H]).
  - split; [by exists s1|]. split; [|done]. rewrite !staggered_None. cbn [store set_store].
    rewrite (puts_but_for _ _ _ Hbut). by destruct (staggered_end _ _).
  - exfalso. unfold staggered_end in H. destruct (last _) as [cursor|] eqn:Ec; [|by inversion H].
    destruct (apply_actions _ _) as [| |] eqn:Er; inversion H; subst.
    by apply apply_actions_no_err in Er.
Qed.
(** ** Which keys each step touches *)

(** Same values under the keys that satisfy [P]. *)
Definition same_on (P : Key → Prop) (s s' : Store) : Prop := ∀ k : Key, P k → s' !! k = s !! k.

#[local] Instance same_on_refl P : Reflexive (same_on P).
Proof. by intros s k. Qed.

#[local] Instance same_on_trans P : Transitive (same_on P).
Proof. intros s1 s2 s3 H1 H2 k Hk. by rewrite (H2 k Hk), (H1 k Hk). Qed.

Abbreviation metadata_eq := (same_on (is_metadata n)).
Abbreviation data_eq := (same_on (λ k, ¬ is_metadata n k)).

Definition data_actions (l : list StorageAction) : Prop :=
  Forall (λ a, ¬ is_metadata n (key a)) l.

Lemma data_actions_keys l k : data_actions l → is_metadata n k → k ∉ map key l.
Proof.
  intros Hl Hk Hin. apply list_elem_of_fmap in Hin as (a & -> & Ha).
  unfold data_actions in Hl. rewrite Forall_forall in Hl. by apply (Hl a).
Qed.

Lemma puts_metadata s l : data_actions l → metadata_eq s (puts s l).
Proof. intros Hl k Hk. by apply puts_outside, data_actions_keys. Qed.

Lemma but_for_metadata l s s' : data_actions l → but_for l s s' → metadata_eq s s'.
Proof. intros Hl Hb k Hk. by apply Hb, data_actions_keys. Qed.

(** The cases of an executed action. *)
Ltac exec_cases E kv :=
  repeat (match type of E with
  | context [kv !! ?k] => destruct (kv !! k)
  | context [if ?c then _ else _] => destruct c
  | context [decremented ?m ?x ?y] => destruct (decremented m x y)
  end; cbn [mbind outcome_bind] in E).

Lemma execute_outside st a st' k :
  execute_storage_op_in_txn st a = Ok st' → k ≠ key a → st'.1 !! k = st.1 !! k.
Proof.
  destruct st as [txn kv]. intros E Hk.
  destruct a; cbn in E, Hk; unfold read_amount, put_or_delete in E;
    exec_cases E kv; try done; injection E as <-; cbn; by rewrite ?lookup_insert_ne, ?lookup_delete_ne by done.
Qed.

Lemma apply_actions_metadata s l s' :
  data_actions l → apply_actions s l = Ok s' → metadata_eq s s'.
Proof.
  unfold apply_actions, run_actions. intros Hl.
  generalize (batch_get_required_kvs_for_batch s l false). intros kv0.
  change (metadata_eq s s') with (metadata_eq (s, kv0).1 s'). generalize (s, kv0). clear s kv0.
  induction Hl as [|a l Ha _ IH]; intros st; cbn [foldM].
  { destruct st as [t kv]. cbn. by intros [= <-]. }
  destruct (execute_storage_op_in_txn st a) as [st'| |] eqn:E; [|done|done].
  intros E'. etrans; [|by apply IH]. intros k Hk. eapply execute_outside; [done|].
  by intros ->.
Qed.

Lemma staggered_end_metadata actions s s' o :
  data_actions actions → staggered_end actions s = (s', o) → metadata_eq s s'.
Proof.
  intros Hd. unfold staggered_end.
  destruct (last _) as [cursor|] eqn:Ec; [|by intros [= <- _]].
  destruct (apply_actions s _) as [s2| |] eqn:E; [|by intros [= <- _]|by intros [= <- _]].
  intros [= <- _]. eapply apply_actions_metadata; [|exact E].
  unfold data_actions in *. rewrite Forall_forall in *. intros a Ha. apply Hd.
  apply elem_of_app in Ha as [Ha|Ha].
  - by apply list_elem_of_filter in Ha as [_ ?].
  - apply list_elem_of_singleton in Ha as ->. apply last_Some_elem_of in Ec.
    by apply list_elem_of_filter in Ec as [_ ?].
Qed.

Lemma staggered_plain_data actions : data_actions actions → data_actions (staggered_plain actions).
Proof.
  unfold data_actions, staggered_plain. rewrite !Forall_forall. intros H a Ha. apply H.
  apply elem_of_app in Ha as [Ha|Ha]; by apply list_elem_of_filter in Ha as [_ ?].
Qed.

(** The metadata of a block touches nothing else and can be read. *)
Lemma apply_storage_rb_actions_spec idx txn l p txn' :
  length (pt_hash p) = 32%nat → apply_storage_rb_actions_from n idx txn l p = Ok txn' →
  data_eq txn txn' ∧ (readable (metadata_range n) txn → readable (metadata_range n) txn').
Proof.
  intros Hh. revert idx txn. induction l as [|a l IH]; intros idx txn; cbn.
  { by intros [= <-]. }
  destruct (match a with SSet _ v => Ok v | Delete _ => Ok [] | _ => Err WorkPanic end)
    as [v| |] eqn:Ev; cbn; [|done|done].
  intros E. apply IH in E as [Hd Hr]. split.
  - etrans; [|exact Hd]. intros k Hk. rewrite lookup_insert_ne; [done|].
    intros <-. apply Hk, metadata_key_range.
  - intros Hread. apply Hr. intros k Hk [v' Hv']. destruct (decide (k = metadata_key n p idx (key a))) as [->|Hne].
    + by apply metadata_key_readable.
    + rewrite lookup_insert_ne in Hv' by done. apply Hread; [done|by exists v'].
Qed.

(** ** Batches *)

Definition batch_keyed (m : gmap (list Z) StorageAction) : Prop :=
  ∀ (k : Key) a, m !! k = Some a → key a = k ∧ ¬ is_metadata n k.

Lemma merge_key a a' c : merge a a' = Ok c → key c = key a'.
Proof.
  unfold merge. destruct (decide (key a = key a')) as [E|]; [|done].
  destruct a, a'; cbn in *; try done; try (destruct (_ <=? _)); intros [= <-]; by cbn.
Qed.

Lemma push_action_keyed m a m' :
  batch_keyed m → ¬ is_metadata n (key a) → push_action m a = Ok m' → batch_keyed m'.
Proof.
  intros Hm Ha. unfold push_action.
  assert (∀ c, key c = key a → batch_keyed (<[key a := c]> m)) as Hins.
  { intros c Hc k a' Hk. destruct (decide (k = key a)) as [->|Hne].
    - rewrite lookup_insert_eq in Hk. by injection Hk as <-.
    - rewrite lookup_insert_ne in Hk by done. by apply Hm. }
  destruct (m !! key a) as [prev|]; [|intros [= <-]; by apply Hins].
  destruct (merge prev a) as [c| |] eqn:E; cbn; [|done|done]. intros [= <-].
  apply Hins. by eapply merge_key.
Qed.

Lemma push_actions_keyed (b : SyncBatcher) l (b' : SyncBatcher) :
  batch_keyed (batch_actions b) → data_actions l → push_actions b l = Ok b' →
  batch_keyed (batch_actions b').
Proof.
  intros Hb Hl. unfold push_actions.
  destruct (foldM push_action (batch_actions b) l) as [m| |] eqn:E; cbn; [|done|done].
  intros [= <-]. cbn. eapply (foldM_inv batch_keyed); [|exact Hb|exact E].
  intros m1 a m2 Hin Hm Hpush. eapply push_action_keyed; [done| |done].
  unfold data_actions in Hl. rewrite Forall_forall in Hl. by apply Hl.
Qed.

Lemma keyed_values m :
  batch_keyed m → NoDup (map key (values m)) ∧ data_actions (values m)
    ∧ map key (values m) ≡ₚ (map_to_list m).*1.
Proof using values_perm.
  intros Hm.
  assert (map key (map_to_list m).*2 = (map_to_list m).*1) as Hkeys.
  { rewrite <- list_fmap_compose. apply list_fmap_ext. intros i [k a] Hi.
    apply list_elem_of_lookup_2, elem_of_map_to_list in Hi. by destruct (Hm k a Hi) as [<- _]. }
  assert (map key (values m) ≡ₚ (map_to_list m).*1) as Hp by (by rewrite values_perm, Hkeys).
  split; [rewrite Hp; apply NoDup_fst_map_to_list|]. split; [|done].
  unfold data_actions. rewrite values_perm. apply Forall_forall. intros a Ha.
  apply list_elem_of_fmap in Ha as ([k b] & -> & Hb). apply elem_of_map_to_list in Hb.
  cbn. destruct (Hm k b Hb) as [-> ?]. done.
Qed.

Lemma outputs_data outputs ops : outputs_to_storage_ops n outputs = Ok ops → data_actions ops.
Proof.
  intros E. apply outputs_reported in E. eapply Forall_impl; [exact E|].
  intros a [_ Hk]. by apply own_key_data.
Qed.

Lemma merger_keyed ops merger :
  data_actions ops → push_actions (batcher_new 1 (umax 64)) ops = Ok merger →
  batch_keyed (batch_actions merger).
Proof.
  intros Hd. apply push_actions_keyed; [|done]. intros k a Hk. cbn in Hk. by rewrite lookup_empty in Hk.
Qed.

(** ** The invariant of the worker *)

Definition point_ok (p : Point) : Prop := length (pt_hash p) = 32%nat.

Record worker_ok (w : Worker) : Prop := {
  ok_metadata : readable (metadata_range n) (store w);
  ok_batch : batch_keyed (batch_actions (sync_batcher w));
  ok_buffer : Forall (λ p, Forall plain p.2 ∧ data_actions p.2) (blocks (rollback_buffer w));
  ok_last : ∀ p, last_processed w = Some p → point_ok p;
}.

Definition payload_ok (u : StorageActionPayload) : Prop :=
  match u with RollForward p _ _ _ | RollBack p _ => point_ok p end.

Lemma readable_metadata_eq s s' :
  metadata_eq s s' → readable (metadata_range n) s → readable (metadata_range n) s'.
Proof. intros E H k Hk Hs. apply H; [done|]. by rewrite <- (E k Hk). Qed.

Lemma readable_subrange r s :
  (∀ k, in_key_range r k → is_metadata n k) → readable (metadata_range n) s → readable r s.
Proof. intros Hr H k Hk. apply H. by apply Hr. Qed.

Lemma cleared_metadata r s s' :
  (∀ k, in_key_range r k → is_metadata n k) → cleared r s s' → data_eq s s'.
Proof. intros Hr Hc k Hk. destruct (Hc k) as [|[? _]]; [done|]. exfalso. by apply Hk, Hr. Qed.

(** ** Running an interrupted unit again *)

Lemma robust_staggered actions : robust (apply_staggered_actions n actions).
Proof. unfold apply_staggered_actions, begin_txn. solve_robust. Qed.
#[local] Hint Resolve robust_staggered : robust.

Lemma robust_flush_batch : robust (flush_batch n values).
Proof. unfold flush_batch, begin_txn. solve_robust. Qed.
#[local] Hint Resolve robust_flush_batch : robust.

Lemma robust_flush_remaining : robust (flush_remaining n values).
Proof. unfold flush_remaining. solve_robust. Qed.
#[local] Hint Resolve robust_flush_remaining : robust.

Lemma robust_commit_mutable_block init point ops :
  robust (commit_mutable_block n values init point ops).
Proof. unfold commit_mutable_block, begin_txn. solve_robust. Qed.
#[local] Hint Resolve robust_commit_mutable_block : robust.

Lemma robust_execute policy u : robust (execute n values policy u).
Proof.
  unfold execute, execute_mutable, execute_sync, execute_roll_back,
    garbage_collect_rollback_metadata, trim_persistent_rollback_metadata. solve_robust.
Qed.

Lemma commit_restart txn w b w1 b1 : commit txn w b = (w1, b1, Err Restart) → w1 = w.
Proof. unfold commit. destruct b as [[|b]|]; by intros [= <- <-]. Qed.

Lemma flush_batch_retry w b w1 b1 :
  flush_batch n values w b = (w1, b1, Err Restart) →
  (∃ s1, w1 = set_store s1 w) ∧ flush_batch n values w1 None = flush_batch n values w None.
Proof.
  unfold flush_batch, begin_txn, gets, lift. unfold mbind, M_bind.
  destruct (Nat.ltb _ _) eqn:Elen.
  - intros E. apply staggered_retry in E as ((s1 & ->) & E & _). split; [by exists s1|].
    cbn [sync_batcher set_store]. by rewrite Elen, E.
  - destruct (apply_actions (store w) _) as [s'|[]|] eqn:Ea; try done.
    + intros ->%commit_restart. split; [by exists (store w); rewrite set_store_same|].
      by rewrite Elen, Ea.
    + by apply apply_actions_no_err in Ea.
Qed.

Lemma execute_sync_retry u point ops w b w1 b1 :
  execute_sync n values u point ops w b = (w1, b1, Err Restart) →
  work_unit_2pc w1 = Some u ∧ mutable w1 = mutable w
  ∧ execute_sync n values u point ops w1 None = execute_sync n values u point ops w None.
Proof.
  unfold execute_sync. intros E.
  apply bind_restart in E as [E|(flush & w2 & b2 & [= <- <- <-] & E)]; [done|].
  destruct (should_flush (sync_batcher w) ops) eqn:Ef.
  2: { exfalso. unfold gets, lift, modify, mbind, M_bind in E.
       pose proof (push_no_restart (sync_batcher w) ops) as Hp.
       destruct (push_actions (sync_batcher w) ops); try done. by injection E as _ _ ->. }
  apply bind_restart in E as [E|([] & w2 & b2 & [= <- <-] & E)]; [done|].
  apply bind_restart in E as [E|([] & w3 & b3 & E3 & E)].
  - apply flush_batch_retry in E as ((s1 & ->) & E). split; [done|]. split; [done|].
    unfold gets, modify, mbind, M_bind. cbn [sync_batcher set_store set_unit]. rewrite Ef.
    change (set_unit (Some u) (set_store s1 (set_unit (Some u) w)))
      with (set_store s1 (set_unit (Some u) w)).
    by rewrite E.
  - exfalso. unfold gets, lift, modify, mbind, M_bind in E.
    match type of E with context [push_actions ?x ?y] => pose proof (push_no_restart x y) as Hp;
      destruct (push_actions x y); try done end. by injection E as _ _ ->.
Qed.

Lemma batcher_is_empty_wipe (b : SyncBatcher) : batcher_is_empty (wipe b) = true.
Proof. unfold batcher_is_empty. by rewrite decide_True. Qed.

(** What the flush leaves: the store, and an empty batch when it succeeds. *)
Lemma flush_remaining_spec w b w1 b1 o :
  batch_keyed (batch_actions (sync_batcher w)) →
  flush_remaining n values w b = (w1, b1, o) →
  ∃ s1, metadata_eq (store w) s1 ∧
    match o with
    | Ok _ => (w1 = set_store s1 w ∨ w1 = set_batcher (wipe (sync_batcher w)) (set_store s1 w))
        ∧ flush_remaining n values w1 None = (w1, None, Ok tt)
    | Err Restart => w1 = set_store s1 w
        ∧ flush_remaining n values w1 None = flush_remaining n values w None
    | _ => w1 = set_store s1 w
    end.
Proof using values_perm.
  intros Hb. unfold flush_remaining, gets, modify, mbind, M_bind, mret, M_ret.
  destruct (batcher_is_empty (sync_batcher w)) eqn:Ee.
  { intros [= <- <- <-]. exists (store w). split; [done|]. rewrite Ee.
    split; [by left; rewrite set_store_same|done]. }
  set (actions := values (batch_actions (sync_batcher w))).
  assert (data_actions actions) as Hd by (by apply keyed_values).
  pose proof (staggered_spec actions w b) as Hsp. unfold leaves in Hsp.
  destruct (apply_staggered_actions n actions w b) as [[w2 b2] o2] eqn:Es.
  destruct Hsp as (s2 & -> & _ & Hsp). intros E.
  assert (metadata_eq (store w) s2) as Hm.
  { destruct Hsp as [(_ & _ & Hbut)|Hend].
    - by eapply but_for_metadata; [apply staggered_plain_data|].
    - etrans; [by apply (puts_metadata _ (staggered_plain actions)), staggered_plain_data|].
      by eapply staggered_end_metadata. }
  exists s2. split; [done|]. destruct o2 as [[]|[]|]; injection E as <- <- <-; try done.
  - split; [by right|]. cbn [sync_batcher set_batcher]. by rewrite batcher_is_empty_wipe.
  - split; [done|]. apply staggered_retry in Es as (_ & Es & _).
    cbn [sync_batcher set_store]. rewrite Ee.
    change (values (batch_actions (sync_batcher (set_store s2 w)))) with actions. by rewrite Es.
Qed.

Lemma commit_mutable_block_spec init point ops w b w1 b1 o :
  data_actions ops → point_ok point → (∀ p, init = Some p → point_ok p) →
  commit_mutable_block n values init point ops w b = (w1, b1, o) →
  match o with
  | Ok inverse_ops => ∃ merger s1 s2,
      push_actions (batcher_new 1 (umax 64)) ops = Ok merger
      ∧ apply_actions_inverses (store w) (values (batch_actions merger)) = Ok (s1, inverse_ops)
      ∧ data_eq s1 s2 ∧ (readable (metadata_range n) (store w) → readable (metadata_range n) s2)
      ∧ w1 = set_store s2 w
  | _ => w1 = w
  end.
Proof using values_perm.
  intros Hops Hp Hinit. unfold commit_mutable_block, begin_txn, gets, lift, mbind, M_bind, mret, M_ret.
  destruct (push_actions (batcher_new 1 (umax 64)) ops) as [merger| |] eqn:Em;
    [|by intros [= <- <- <-]|by intros [= <- <- <-]].
  destruct (apply_actions_inverses (store w) _) as [[s1 inv]| |] eqn:Ea;
    [|by intros [= <- <- <-]|by intros [= <- <- <-]].
  assert (metadata_eq (store w) s1) as Hm1.
  { destruct (keyed_values (batch_actions merger)) as (Hnd & Hd & _); [by eapply merger_keyed|].
    destruct (apply_inverses_spec _ _ _ _ Hnd Ea) as (_ & Hout & _ & Hsub & _).
    intros k Hk. apply Hout. intros Hin. by apply Hsub, data_actions_keys in Hin. }
  destruct (match init with Some p => _ | None => Ok s1 end) as [s1'| |] eqn:Ei;
    [|by intros [= <- <- <-]|by intros [= <- <- <-]].
  assert (data_eq s1 s1' ∧ (readable (metadata_range n) s1 → readable (metadata_range n) s1'))
    as [Hd1 Hr1].
  { destruct init as [p|]; [|injection Ei as <-; done].
    by apply (apply_storage_rb_actions_spec 0) in Ei; [|apply Hinit]. }
  destruct (apply_storage_rb_actions n s1' inv point) as [s2| |] eqn:Er;
    [|by intros [= <- <- <-]|by intros [= <- <- <-]].
  apply (apply_storage_rb_actions_spec 0) in Er as [Hd2 Hr2]; [|done].
  unfold commit. destruct b as [[|b]|]; intros [= <- <- <-]; [done|..];
    exists merger, s1, s2; (split; [done|]); (split; [done|]); (split; [by etrans|]); (split; [|done]);
    intros Hr; apply Hr2, Hr1; by eapply readable_metadata_eq.
Qed.

Definition gc_range (size b_height : Z) : Key * Key :=
  rollback_metadata_key_range n (None : option u64) (Some (mkUInt (b_height - size) : u64)).

Lemma gc_spec h w b :
  readable (metadata_range n) (store w) →
  leaves (garbage_collect_rollback_metadata n h) w b (λ s' b' o,
    cleared (gc_range (buffer_size w) h) (store w) s' ∧ (b = None → b' = None)
    ∧ outcome_of b (λ _, s' = if buffer_size w <=? h then drop_range (gc_range (buffer_size w) h) (store w)
                              else store w) o).
Proof.
  intros Hr. unfold leaves, garbage_collect_rollback_metadata, gets, mbind, M_bind.
  destruct (buffer_size w <=? h).
  - apply (delete_metadata_range_spec (gc_range (buffer_size w) h) id); [done|].
    eapply readable_subrange; [|done]. intros k. apply metadata_subrange.
  - cbn. exists (store w). by rewrite set_store_same.
Qed.

(** What a restart of [u] from [w1] still has to do, compared to a run of it from
    [w] without failures: everything, or nothing but collecting metadata. *)
Definition retried (m : M unit) (u : StorageActionPayload) (w w1 : Worker) : Prop :=
  (work_unit_2pc w1 = Some u ∧ m w1 None = m w None)
  ∨ (work_unit_2pc w1 = None ∧ ∃ s2, m w None = (set_store s2 w1, None, Ok tt)
       ∧ cleared (metadata_range n) (store w1) s2).

Lemma gc_cleared r s s1 :
  (∀ k, in_key_range r k → is_metadata n k) → cleared r s s1 →
  cleared (metadata_range n) s1 (drop_range r s).
Proof.
  intros Hr Hc k. rewrite lookup_drop_range. destruct (decide (in_key_range r k)) as [Hk|Hk].
  - right. split; [by apply Hr|done].
  - left. by destruct (Hc k) as [->|[? _]].
Qed.

Lemma gc_restart h w b w1 b1 :
  readable (metadata_range n) (store w) →
  garbage_collect_rollback_metadata n h w b = (w1, b1, Err Restart) →
  ∃ s1 s2, w1 = set_store s1 w
    ∧ garbage_collect_rollback_metadata n h w None = (set_store s2 w, None, Ok tt)
    ∧ cleared (metadata_range n) s1 s2.
Proof.
  intros Hr E. pose proof (gc_spec h w b Hr) as Hb. pose proof (gc_spec h w None Hr) as Hn.
  unfold leaves in Hb, Hn. rewrite E in Hb. destruct Hb as (s1 & -> & Hc1 & _ & _).
  destruct (garbage_collect_rollback_metadata n h w None) as [[w2 b2] o2].
  destruct Hn as (s2 & -> & _ & Hb2 & Ho). rewrite (Hb2 eq_refl).
  destruct o2 as [[]|[]|]; try done. cbn in Ho. exists s1, s2. split; [done|]. split; [done|].
  subst s2. destruct (buffer_size w <=? h) eqn:Ecmp.
  - apply gc_cleared; [|done]. intros k. apply metadata_subrange.
  - exfalso. unfold garbage_collect_rollback_metadata, gets, mbind, M_bind in E.
    by rewrite Ecmp in E.
Qed.

Lemma execute_mutable_retry u point ops w b w1 b1 :
  worker_ok w → data_actions ops → point_ok point →
  execute_mutable n values u point ops w b = (w1, b1, Err Restart) →
  mutable w1 = mutable w ∧ retried (execute_mutable n values u point ops) u w w1.
Proof using values_perm.
  intros Hok Hops Hp. unfold execute_mutable at 1. intros E.
  apply bind_restart in E as [E|(first & ? & ? & [= <- <- <-] & E)]; [done|].
  set (first := buffer_is_empty (rollback_buffer w)) in *.
  apply bind_restart in E as [E|([] & ? & ? & [= <- <-] & E)]; [done|].
  set (w0 := set_unit (Some u) w) in *.
  assert (∀ w', rollback_buffer w' = rollback_buffer w → set_unit (Some u) w' = w' →
    execute_mutable n values u point ops w' None =
    (flush_remaining n values;;
     init ← gets (λ w, if first then last_processed w else None);
     inverse_ops ← commit_mutable_block n values init point ops;
     modify (remember_block first point inverse_ops);;
     garbage_collect_rollback_metadata n (pt_height point)) w' None) as Hrun.
  { intros w' Hbuf Hu. unfold execute_mutable, gets, modify, mbind, M_bind. cbv beta iota.
    rewrite Hu, Hbuf. done. }
  assert (execute_mutable n values u point ops w None = execute_mutable n values u point ops w0 None)
    as Hw0 by done.
  apply bind_restart in E as [E|([] & w2 & b2 & E2 & E)].
  - pose proof (flush_remaining_spec w0 b w1 b1 _ (ok_batch w Hok) E) as (s1 & _ & -> & Er).
    split; [done|]. left. split; [done|]. rewrite Hw0, !Hrun by done.
    unfold mbind at 1 4, M_bind at 1 4. by rewrite Er.
  - pose proof (flush_remaining_spec w0 b w2 b2 _ (ok_batch w Hok) E2) as (s1 & Hm & Hw2 & Er).
    assert (flush_remaining n values w0 None = (w2, None, Ok tt)) as Ew0
      by (by eapply robust_flush_remaining).
    assert (rollback_buffer w2 = rollback_buffer w ∧ work_unit_2pc w2 = Some u
      ∧ last_processed w2 = last_processed w ∧ mutable w2 = mutable w ∧ store w2 = s1) as (Hb2 & Hu2 & Hl2 & Hmu & Hs2)
      by (destruct Hw2 as [-> | ->]; done).
    apply bind_restart in E as [E|(init & ? & ? & [= <- <- <-] & E)]; [done|].
    set (init := if first then last_processed w2 else None) in *.
    assert (∀ p, init = Some p → point_ok p) as Hinit.
    { intros p. unfold init. destruct first; [|done]. rewrite Hl2. apply Hok. }
    apply bind_restart in E as [E|(inv & w3 & b3 & E3 & E)].
    + pose proof (commit_mutable_block_spec _ _ _ _ _ _ _ _ Hops Hp Hinit E) as ->.
      split; [done|]. left. split; [done|].
      rewrite Hw0, !Hrun by (done || by destruct w2; cbn in *; subst).
      unfold mbind at 1 5, M_bind at 1 5. by rewrite Er, Ew0.
    + pose proof (commit_mutable_block_spec _ _ _ _ _ _ _ _ Hops Hp Hinit E3)
        as (merger & s3 & s4 & _ & _ & _ & Hread & ->).
      pose proof (robust_commit_mutable_block _ _ _ _ _ _ _ _ E3 ltac:(done)) as E3n.
      apply bind_restart in E as [E|([] & ? & ? & [= <- <-] & E)]; [done|].
      apply gc_restart in E as (s5 & s6 & -> & Egc & Hc).
      * split; [by destruct first|]. right. split; [by destruct first|]. exists s6.
        rewrite Hw0, Hrun by done. unfold mbind at 1, M_bind at 1. rewrite Ew0.
        unfold mbind at 1, M_bind at 1, gets. fold init. unfold mbind at 1, M_bind at 1. rewrite E3n.
        unfold mbind, M_bind, modify. rewrite Egc. split; [done|]. exact Hc.
      * replace (store (remember_block first point inv (set_store s4 w2))) with s4 by (by destruct first).
        apply Hread. rewrite Hs2. eapply readable_metadata_eq; [exact Hm|]. apply Hok.
Qed.

(** ** Rolling back *)

Definition trim_range (h : Z) : Key * Key :=
  rollback_metadata_key_range n (Some (mkUInt (wrap 64 (h + 1)) : u64)) (None : option u64).

Lemma trim_range_metadata h k : in_key_range (trim_range h) k → is_metadata n k.
Proof. apply metadata_subrange. Qed.

Lemma trim_spec h w b :
  readable (metadata_range n) (store w) →
  leaves (trim_persistent_rollback_metadata n h) w b (λ s' b' o,
    cleared (trim_range h) (store w) s' ∧ (b = None → b' = None)
    ∧ outcome_of b (λ _, s' = drop_range (trim_range h) (store w)) o).
Proof.
  intros Hr. apply (delete_metadata_range_spec (trim_range h)).
  - intros l. symmetry. apply Permutation_rev.
  - eapply readable_subrange; [apply trim_range_metadata|done].
Qed.

(** The blocks after a point, and the buffer without them. *)
Lemma points_since_Some w point points :
  points_since (rollback_buffer w) point = Some points →
  ∃ rest, blocks (rollback_buffer w) = points ++ rest ∧ (∃ inv rest', rest = (point, inv) :: rest')
    ∧ Forall (λ p, p.1 ≠ point) points
    ∧ rollback_to_point (rollback_buffer w) point
      = Some (points, mkBuffer rest (buf_size (rollback_buffer w))).
Proof.
  unfold points_since, rollback_to_point, position.
  destruct (list_find _ _) as [[i [q inv]]|] eqn:E; cbn; [|done]. intros [= <-].
  apply list_find_Some in E as (Hi & Hq & Hbefore). cbn in Hq. subst q.
  exists (drop i (blocks (rollback_buffer w))). split; [by rewrite take_drop|]. split; [|split; [|done]].
  - exists inv, (drop (S i) (blocks (rollback_buffer w))). by apply drop_S.
  - apply Forall_forall. intros p Hp. apply elem_of_take in Hp as (j & Hj & Hlt).
    by apply (Hbefore j p).
Qed.

Definition rolled_back (point : Point) (points : list (Point * list StorageAction))
    (rest : list (Point * list StorageAction)) (w : Worker) : Worker :=
  set_buffer (mkBuffer rest (buf_size (rollback_buffer w)))
    (set_last (Some point) (set_unit None
       (set_store (drop_range (trim_range (pt_height point)) (puts (store w) (undo_list points))) w))).

Lemma undo_plain w points rest :
  worker_ok w → blocks (rollback_buffer w) = points ++ rest →
  Forall (λ p, Forall plain p.2) points ∧ data_actions (undo_list points).
Proof.
  intros Hok E. pose proof (ok_buffer w Hok) as Hb. rewrite E in Hb. apply Forall_app in Hb as [Hb _].
  split; [eapply Forall_impl; [exact Hb|]; by intros p [? _]|].
  unfold undo_list, data_actions. apply Forall_concat, Forall_map.
  eapply Forall_impl; [exact Hb|]. intros p [_ Hd]. cbn. by apply Forall_rev.
Qed.

(** A rollback to a point of the buffer, when no commit fails. *)
Lemma execute_roll_back_None policy u point w points rest :
  worker_ok w → points_since (rollback_buffer w) point = Some points →
  blocks (rollback_buffer w) = points ++ rest →
  execute_roll_back n policy u point w None = (rolled_back point points rest w, None, Ok tt).
Proof.
  intros Hok Hsince Hsplit. destruct (undo_plain w points rest Hok Hsplit) as [Hpl Hd].
  destruct (points_since_Some w point points Hsince) as (rest' & Hsplit' & _ & _ & Hback).
  assert (rest' = rest) as -> by (rewrite Hsplit in Hsplit'; by apply app_inv_head in Hsplit').
  set (w0 := set_unit (Some u) w).
  pose proof (undo_points_spec points w0 None Hpl) as Hu. unfold leaves in Hu.
  destruct (undo_points points w0 None) as [[w1 b1] o1] eqn:Eu.
  destruct Hu as (s1 & -> & _ & Hb1 & Ho1). rewrite (Hb1 eq_refl) in *.
  destruct o1 as [[]|[]|]; try done. cbn in Ho1. subst s1.
  set (w1 := set_store (puts (store w) (undo_list points)) w0) in *.
  pose proof (trim_spec (pt_height point) w1 None) as Ht. unfold leaves in Ht.
  destruct (trim_persistent_rollback_metadata n (pt_height point) w1 None) as [[w2 b2] o2] eqn:Et.
  destruct Ht as (s2 & -> & _ & Hb2 & Ho2).
  { eapply readable_metadata_eq; [by apply puts_metadata|]. apply Hok. }
  rewrite (Hb2 eq_refl) in *. destruct o2 as [[]|[]|]; try done. cbn in Ho2. subst s2.
  unfold execute_roll_back, modify, gets, lift, mbind, M_bind. fold w0.
  change (rollback_buffer w0) with (rollback_buffer w). rewrite Hsince. cbn.
  change (set_store (puts (store w0) (undo_list points)) w0) with w1 in Eu.
  rewrite Eu, Et. cbn [rollback_buffer set_store set_unit set_last w1 w0].
  change (rollback_buffer (set_last _ _)) with (rollback_buffer w). by rewrite Hback.
Qed.

Lemma worker_ok_store s u w :
  worker_ok w → readable (metadata_range n) s → worker_ok (set_store s (set_unit u w)).
Proof. intros [] Hs. by split. Qed.

Lemma rolled_back_retry s u point points rest w :
  (∀ k, s !! k = store w !! k ∨ k ∈ map key (undo_list points)
        ∨ in_key_range (trim_range (pt_height point)) k) →
  rolled_back point points rest (set_store s (set_unit u w)) = rolled_back point points rest w.
Proof.
  intros Hs. unfold rolled_back. cbn [store set_store set_unit].
  replace (drop_range (trim_range (pt_height point)) (puts s (undo_list points)))
    with (drop_range (trim_range (pt_height point)) (puts (store w) (undo_list points))); [done|].
  apply map_eq. intros k. rewrite !lookup_drop_range. destruct (decide _) as [|Hk]; [done|].
  symmetry. apply puts_agree. destruct (Hs k) as [?|[?|?]]; [by right|by left|done].
Qed.

(** A point that is not in the buffer: nothing is undone, the stage stops. *)
Lemma roll_back_missing policy u point w b :
  points_since (rollback_buffer w) point = None →
  ∃ o, execute_roll_back n policy u point w b = (set_unit (Some u) w, b, o)
    ∧ (o = Err WorkPanic ∨ o = Panic).
Proof.
  intros Hsince. unfold execute_roll_back, modify, gets, lift, mbind, M_bind.
  change (rollback_buffer (set_unit (Some u) w)) with (rollback_buffer w). rewrite Hsince.
  unfold out_of_range, apply_policy, handle_error. cbn.
  destruct (any_error policy) as [[]|], (rollback_errors policy) as [[]|]; cbn; eauto.
Qed.

Lemma roll_back_retry policy u point w b w1 b1 :
  worker_ok w → execute_roll_back n policy u point w b = (w1, b1, Err Restart) →
  work_unit_2pc w1 = Some u ∧ mutable w1 = mutable w
  ∧ execute_roll_back n policy u point w1 None = execute_roll_back n policy u point w None.
Proof.
  intros Hok E. destruct (points_since (rollback_buffer w) point) as [points|] eqn:Hsince.
  2: { destruct (roll_back_missing policy u point w b Hsince) as (o & Eo & Ho).
       rewrite Eo in E. injection E as _ _ ->. by destruct Ho. }
  unfold execute_roll_back in E at 1.
  apply bind_restart in E as [E|([] & ? & ? & [= <- <-] & E)]; [done|].
  apply bind_restart in E as [E|(since & ? & ? & [= <- <- <-] & E)]; [done|].
  set (w0 := set_unit (Some u) w) in *. change (rollback_buffer w0) with (rollback_buffer w) in E.
  rewrite Hsince in E.
  apply bind_restart in E as [E|(found & ? & ? & [= <- <- <-] & E)]; [done|].
  apply bind_restart in E as [E|(pts & ? & ? & [= <- <- <-] & E)]; [done|].
  destruct (points_since_Some w point points Hsince) as (rest & Hsplit & _).
  destruct (undo_plain w points rest Hok Hsplit) as [Hpl Hd].
  assert (∀ s, readable (metadata_range n) s →
    (∀ k, s !! k = store w !! k ∨ k ∈ map key (undo_list points)
        ∨ in_key_range (trim_range (pt_height point)) k) →
    execute_roll_back n policy u point (set_store s w0) None
    = execute_roll_back n policy u point w None) as Hagain.
  { intros s Hr Hs. rewrite (execute_roll_back_None policy u point (set_store s w0) points rest),
      (execute_roll_back_None policy u point w points rest); try done;
      [by unfold w0; rewrite rolled_back_retry|by apply worker_ok_store]. }
  apply bind_restart in E as [E|([] & w2 & b2 & E2 & E)].
  - pose proof (undo_points_spec points w0 b Hpl) as Hu. unfold leaves in Hu. rewrite E in Hu.
    destruct Hu as (s1 & -> & Hbut & _). split; [done|]. split; [done|]. apply Hagain.
    + eapply readable_metadata_eq; [by eapply but_for_metadata|]. apply Hok.
    + intros k. destruct (decide (k ∈ map key (undo_list points))); [by right; left|].
      left. by apply Hbut.
  - pose proof (undo_points_spec points w0 b Hpl) as Hu. unfold leaves in Hu. rewrite E2 in Hu.
    destruct Hu as (s2 & -> & _ & _ & Hs2). cbn in Hs2. subst s2.
    assert (readable (metadata_range n) (puts (store w) (undo_list points))) as Hread.
    { eapply readable_metadata_eq; [by apply puts_metadata|]. apply Hok. }
    apply bind_restart in E as [E|([] & w3 & b3 & E3 & E)].
    + pose proof (trim_spec (pt_height point) (set_store (puts (store w) (undo_list points)) w0) b2
        Hread) as Ht.
      unfold leaves in Ht. rewrite E in Ht. destruct Ht as (s3 & -> & Hc & _).
      split; [done|]. split; [done|]. rewrite set_store_set_store. apply Hagain.
      * eapply readable_cleared; [|exact Hread]. intros k. destruct (Hc k) as [?|[Hk ?]]; [by left|].
        right. split; [|done]. by eapply trim_range_metadata.
      * intros k. destruct (Hc k) as [Hk|[Hk ?]]; [|by right; right].
        destruct (decide (k ∈ map key (undo_list points))); [by right; left|]. left.
        rewrite Hk. by apply puts_outside.
    + exfalso. unfold modify, gets, lift, mbind, M_bind in E.
      by destruct (apply_policy (out_of_range _) policy) as [[[]|]|[]|].
Qed.

Lemma worker_ok_mutable m w : worker_ok w → worker_ok (set_mutable m w).
Proof. intros []. by split. Qed.

Lemma set_mutable_again m w w1 :
  mutable w1 = (mutable w || m) → set_mutable (mutable w1 || m) w1 = w1.
Proof.
  intros E. rewrite E. replace (mutable w || m || m) with (mutable w1).
  - by destruct w1.
  - rewrite E. by destruct (mutable w), m.
Qed.

(** A roll forward is one of the two block handlers, run after the mode is
    raised. *)
Lemma execute_roll_forward policy point outputs m mempool w b :
  let u := RollForward point outputs m mempool in
  let wm := set_mutable (mutable w || m) w in
  execute n values policy u w b
  = match outputs_to_storage_ops n outputs with
    | Ok ops => (if mutable wm then execute_mutable n values u point ops
                 else execute_sync n values u point ops) wm b
    | Err e => (wm, b, Err e)
    | Panic => (wm, b, Panic)
    end.
Proof.
  cbn. unfold modify, lift, gets, mbind, M_bind.
  by destruct (outputs_to_storage_ops n outputs).
Qed.

(** C13: a unit of work interrupted by a failed commit, at whichever commit it
    is, loses nothing.  Either the unit is still locked, so that it is scheduled
    again, and running it again without failures ends exactly as if it had never
    been interrupted (for the batch of a synchronisation, a mutable block and a
    rollback alike); or the block was committed, the next message is scheduled,
    and the only difference with a run without failures is that some old
    rollback metadata is not collected yet. *)
Theorem interrupted_unit_retried policy u w b w1 b1 :
  worker_ok w → payload_ok u →
  execute n values policy u w b = (w1, b1, Err Restart) →
  ((∀ next, schedule w1 next = u)
   ∧ execute n values policy u w1 None = execute n values policy u w None)
  ∨ ((∀ next, schedule w1 next = next)
     ∧ ∃ s2, execute n values policy u w None = (set_store s2 w1, None, Ok tt)
       ∧ cleared (metadata_range n) (store w1) s2).
Proof using values_perm.
  intros Hok Hpay E. unfold schedule. destruct u as [point outputs m mempool|point m].
  - rewrite execute_roll_forward in E. rewrite !execute_roll_forward.
    set (u := RollForward point outputs m mempool) in *. cbv zeta in *.
    set (wm := set_mutable (mutable w || m) w) in *.
    assert (worker_ok wm) as Hokm by (by apply worker_ok_mutable).
    destruct (outputs_to_storage_ops n outputs) as [ops|e|] eqn:Eops;
      [|injection E as <- <- ->; by apply outputs_no_restart in Eops|done].
    change (mutable (set_mutable _ w1)) with (mutable w1 || m).
    assert (mutable w1 = mutable wm →
      (mutable w1 || m) = mutable wm ∧ set_mutable (mutable w1 || m) w1 = w1) as Hset.
    { intros Hm. split; [|by apply (set_mutable_again m w)]. rewrite Hm. cbn.
      by destruct (mutable w), m. }
    destruct (mutable wm) eqn:Emu.
    + apply execute_mutable_retry in E as [Hm [[Hu E]|[Hu E]]]; [..|done|by eapply outputs_data|done].
      * left. split; [by rewrite Hu|]. rewrite Emu in Hm. by destruct (Hset Hm) as [-> ->].
      * right. split; [by rewrite Hu|done].
    + apply execute_sync_retry in E as (Hu & Hm & E). left. split; [by rewrite Hu|].
      rewrite Emu in Hm. by destruct (Hset Hm) as [-> ->].
  - cbn [execute payload_ok] in *.
    apply bind_restart in E as [E|([] & ? & ? & [= <- <-] & E)]; [done|].
    apply roll_back_retry in E as (Hu & Hm & E); [|by apply worker_ok_mutable].
    left. split; [by rewrite Hu|]. unfold modify, mbind, M_bind.
    by rewrite (set_mutable_again m w w1).
Qed.

End worker.

(** ** A worker to try things on *)

Definition list_values (m : gmap (list Z) StorageAction) : list StorageAction :=
  (map_to_list m).*2.

Definition sample_point (i : Z) : Point := mkPoint i (replicate 32 i).

Definition sample_forward (i : Z) : StorageActionPayload :=
  RollForward (sample_point i)
    [SatBalanceByScriptHash (mkBytes (replicate 20 7)) (Increment (10 * i));
     Cursor (sample_point i) false (mkUInt 9)] true false.

(** At block 1, with a buffer of three points. *)
Definition sample_worker : Worker :=
  mkWorker ∅ (batcher_new 10 4000000) (mkBuffer [(sample_point 1, [])] 3) true None
    (Some (sample_point 1)) 3.

Lemma sample_worker_ok : worker_ok sample_namespace sample_worker.
Proof.
  split.
  - intros k _ [v Hv]. cbn in Hv. by rewrite lookup_empty in Hv.
  - intros k a Hk. cbn in Hk. by rewrite lookup_empty in Hk.
  - by repeat constructor.
  - by intros p [= <-].
Qed.

Definition no_policy : RuntimePolicy := mkPolicy None None None None.

(** Block 2, whose commit fails. *)
Definition sample_interrupted : Worker * option nat * outcome WorkError unit :=
  execute sample_namespace list_values no_policy (sample_forward 2) sample_worker (Some 0%nat).

Lemma interrupted_unit_retried_witness :
  let '(w1, _, _) := sample_interrupted in
  ((∀ next, schedule w1 next = sample_forward 2)
   ∧ execute sample_namespace list_values no_policy (sample_forward 2) w1 None
     = execute sample_namespace list_values no_policy (sample_forward 2) sample_worker None)
  ∨ ((∀ next, schedule w1 next = next)
     ∧ ∃ s2, execute sample_namespace list_values no_policy (sample_forward 2) sample_worker None
             = (set_store s2 w1, None, Ok tt)
         ∧ cleared (metadata_range sample_namespace) (store w1) s2).
Proof.
  destruct sample_interrupted as [[w1 b1] o] eqn:E.
  apply (interrupted_unit_retried sample_namespace list_values (λ m, reflexivity _) no_policy
           (sample_forward 2) sample_worker (Some 0%nat) w1 b1).
  - apply sample_worker_ok.
  - reflexivity.
  - transitivity (w1, b1, o); [exact E|]. f_equal. apply (f_equal snd) in E. cbn [snd] in E. rewrite <- E.
    vm_compute. reflexivity.
Defined.

End TikvRefinement.
