(* ===== verification/TikvSnapshots.v ===== *)
(** The storage stage against its abstract specification: a stack of the
    recent points of the chain, each with the data the store held there.  A
    mutable block pushes the data it leads to, a rollback to a point pops down to
    what the store held at that point. *)

From S2P Require Import Prelude Timbre Crosscut StorageAction ReducerOutput TikvWorker TikvRefinement.
Import Timbre Crosscut StorageAction ReducerOutput TikvWorker TikvRefinement.

Module TikvSnapshots.

Implicit Types (s d : Store) (k : Key) (w : Worker) (b : option nat) (p : Point).
Implicit Types (a : StorageAction).

Lemma bind_Ok {A B} (m : M A) (f : A → M B) w b w' b' y :
  (m ≫= f) w b = (w', b', Ok y) →
  ∃ x w1 b1, m w b = (w1, b1, Ok x) ∧ f x w1 b1 = (w', b', Ok y).
Proof.
  unfold mbind, M_bind. destruct (m w b) as [[w1 b1] [x|e|]] eqn:E; intros E'; [|done|done].
  by exists x, w1, b1.
Qed.

(** ** The specification *)

Abbreviation History := (list (Point * gmap (list Z) (list Z))).

(** What the actions of a block, merged per key, make of the data. *)
Definition block_effect (batch : list StorageAction) (d d' : Store) : Prop :=
  (∀ a, a ∈ batch → effect_raw a (d !! key a) = Ok (d' !! key a))
  ∧ ∀ k : Key, k ∉ map key batch → d' !! k = d !! k.

Inductive history_step (n : Namespace) (depth : nat)
  : StorageActionPayload → History → History → Prop :=
| step_forward p outputs m mempool ops merged q d d' h :
    outputs_to_storage_ops n outputs = Ok ops →
    push_actions (batcher_new 1 (umax 64)) ops = Ok merged →
    block_effect (map_to_list (batch_actions merged)).*2 d d' →
    history_step n depth (RollForward p outputs m mempool)
      ((q, d) :: h) (take depth ((p, d') :: (q, d) :: h))
| step_back p m newer d h :
    p ∉ map fst newer →
    history_step n depth (RollBack p m) (newer ++ (p, d) :: h) ((p, d) :: h).

(** ** Data and metadata *)

Section worker.
Context (n : Namespace) (values : gmap (list Z) StorageAction → list StorageAction).
Context (values_perm : ∀ m, values m ≡ₚ (map_to_list m).*2).

Definition data (s : Store) : Store := drop_range (metadata_range n) s.

Lemma lookup_data s k : data s !! k = if decide (is_metadata n k) then None else s !! k.
Proof. apply lookup_drop_range. Qed.

Lemma data_same s s' : same_on (λ k, ¬ is_metadata n k) s s' → data s' = data s.
Proof.
  intros H. apply map_eq. intros k. rewrite !lookup_data. destruct (decide _); [done|by apply H].
Qed.

Lemma data_puts s l : data_actions n l → data (puts s l) = puts (data s) l.
Proof.
  intros Hl. apply map_eq. intros k. rewrite lookup_data. destruct (decide _) as [Hk|Hk].
  - rewrite puts_outside by (by eapply data_actions_keys).
    rewrite lookup_data. by rewrite decide_True.
  - apply puts_agree. right. rewrite lookup_data. by rewrite decide_False.
Qed.

Lemma data_drop_range r s :
  (∀ k, in_key_range r k → is_metadata n k) → data (drop_range r s) = data s.
Proof.
  intros Hr. apply data_same. intros k Hk. rewrite lookup_drop_range.
  rewrite decide_False; [done|]. intros Hin. by apply Hk, Hr.
Qed.

Lemma block_effect_data s s' batch inverses :
  NoDup (map key batch) → data_actions n batch →
  apply_actions_inverses s batch = Ok (s', inverses) →
  block_effect batch (data s) (data s') ∧ puts (data s') (rev inverses) = data s
  ∧ Forall plain inverses ∧ data_actions n inverses.
Proof.
  intros Hnd Hd E.
  destruct (apply_inverses_spec _ _ _ _ Hnd E) as (Hrec & Hout & _ & Hsub & Heff).
  assert (data_actions n inverses) as Hdi.
  { unfold data_actions. apply Forall_forall. intros a Ha Hk.
    eapply (data_actions_keys n batch); [done|exact Hk|]. apply Hsub. by apply list_elem_of_fmap_2. }
  split; [split|split; [|split; [by eapply records_plain'|done]]].
  - intros a Ha. unfold data_actions in Hd. rewrite Forall_forall in Hd.
    rewrite !lookup_data, !decide_False by (by apply Hd). by apply Heff.
  - intros k Hk. rewrite !lookup_data. destruct (decide _); [done|]. apply Hout.
    intros Hin. by apply Hk, Hsub.
  - assert (data_actions n (rev inverses)) as Hdr by (by apply Forall_rev).
    rewrite <- data_puts by done. f_equal.
    pose proof (apply_inverses_undo _ _ _ _ (rev inverses) Hnd E) as Hu.
    rewrite apply_actions_plain in Hu by (by apply Forall_rev; eapply records_plain').
    specialize (Hu ltac:(symmetry; apply Permutation_rev)). by injection Hu as ->.
Qed.

(** ** The relation *)

(** Undoing the blocks of the buffer leads from each snapshot to the one before;
    the entry of the oldest point is never undone. *)
Inductive undoes : list (Point * list StorageAction) → History → Prop :=
| undoes_one p inverses d : undoes [(p, inverses)] [(p, d)]
| undoes_cons p inverses d blocks q e h :
    undoes blocks ((q, e) :: h) → puts d (rev inverses) = e →
    undoes ((p, inverses) :: blocks) ((p, d) :: (q, e) :: h).

Record tracks (w : Worker) (h : History) : Prop := {
  tr_ok : worker_ok n w;
  tr_mutable : mutable w = true;
  tr_size : (0 < buf_size (rollback_buffer w))%nat;
  tr_batch : batcher_is_empty (sync_batcher w) = true;
  tr_undoes : undoes (blocks (rollback_buffer w)) h;
  tr_head : snd <$> head h = Some (data (store w));
}.

Lemma undoes_head bs h : undoes bs h → fst <$> head bs = fst <$> head h.
Proof. by destruct 1. Qed.

Lemma undoes_take i bs h : (0 < i)%nat → undoes bs h → undoes (take i bs) (take i h).
Proof.
  intros Hi H. revert i Hi. induction H as [p inverses d|p inverses d bs q e h H IH Hu];
    intros i Hi; destruct i as [|i]; try lia; cbn [take].
  - rewrite !take_nil. constructor.
  - destruct i as [|i]; cbn [take]; [constructor|].
    constructor; [|done]. apply (IH (S i)). lia.
Qed.

(** Popping blocks and undoing them reaches the snapshot below. *)
Lemma undoes_app newer p inverses older h d0 :
  undoes (newer ++ (p, inverses) :: older) h → snd <$> head h = Some d0 →
  ∃ h1 h2, h = h1 ++ (p, puts d0 (undo_list newer)) :: h2 ∧ map fst h1 = map fst newer
    ∧ undoes ((p, inverses) :: older) ((p, puts d0 (undo_list newer)) :: h2).
Proof.
  revert h d0. induction newer as [|[q inv] newer IH]; intros h d0 H Hd0.
  - exists []. cbn in *. inversion H; subst; injection Hd0 as ->; eexists; by split_and!.
  - cbn in H. inversion H as [? ? ? E|? ? d ? q' e h' Hrest Hu]; subst.
    { by destruct newer. }
    injection Hd0 as ->. destruct (IH _ _ Hrest eq_refl) as (h1 & h2 & E & Em & Hund).
    unfold undo_list in *. cbn [map concat]. rewrite puts_app.
    exists ((q, d0) :: h1), h2. cbn. by rewrite E, Em.
Qed.

(** ** Rolling forward *)

(** The buffer after a block: its initial entry for the first one. *)
Definition buffer_with (w : Worker) (p : Point) (inverses : list StorageAction)
  : RollbackBuffer Point (list StorageAction) :=
  let buf := rollback_buffer w in
  add_block (if buffer_is_empty buf then add_block buf (default zero_point (last_processed w)) []
             else buf) p inverses.

Lemma flush_remaining_Ok w b w' b' :
  flush_remaining n values w b = (w', b', Ok tt) →
  batcher_is_empty (sync_batcher w') = true ∧ (batcher_is_empty (sync_batcher w) = true → w' = w).
Proof.
  unfold flush_remaining. intros E. apply bind_Ok in E as (empty & ? & ? & [= <- <- <-] & E).
  destruct (batcher_is_empty (sync_batcher w)) eqn:Ee; [by injection E as <- <-|].
  apply bind_Ok in E as (actions & ? & ? & [= <- <- <-] & E).
  apply bind_Ok in E as ([] & w1 & b1 & _ & [= <- <-]).
  split; [by apply batcher_is_empty_wipe|done].
Qed.

Lemma batch_keyed_empty batcher :
  batcher_is_empty batcher = true → batch_keyed n (batch_actions batcher).
Proof.
  unfold batcher_is_empty. intros E%bool_decide_eq_true k a Hk. by rewrite E, lookup_empty in Hk.
Qed.

(** What a mutable block does when it succeeds: [s0] is the store after what was
    left of the batch, [s'] the final one. *)
Lemma execute_mutable_Ok u p ops w b w' b' :
  worker_ok n w → data_actions n ops → point_ok p →
  execute_mutable n values u p ops w b = (w', b', Ok tt) →
  ∃ s0 s' batcher merged inverses,
    w' = mkWorker s' batcher (buffer_with w p inverses) (mutable w) None (Some p) (buffer_size w)
    ∧ (batcher_is_empty (sync_batcher w) = true → data s0 = data (store w))
    ∧ readable (metadata_range n) s' ∧ batcher_is_empty batcher = true ∧ batch_keyed n (batch_actions batcher)
    ∧ push_actions (batcher_new 1 (umax 64)) ops = Ok merged
    ∧ block_effect (map_to_list (batch_actions merged)).*2 (data s0) (data s')
    ∧ puts (data s') (rev inverses) = data s0 ∧ Forall plain inverses ∧ data_actions n inverses.
Proof using values_perm.
  intros Hok Hops Hp E. unfold execute_mutable in E.
  apply bind_Ok in E as (first & ? & ? & [= <- <- <-] & E).
  apply bind_Ok in E as ([] & ? & ? & [= <- <-] & E).
  set (w0 := set_unit (Some u) w) in *.
  apply bind_Ok in E as ([] & w1 & b1 & E1 & E).
  pose proof (flush_remaining_spec n values values_perm w0 b w1 b1 _ (ok_batch n w Hok) E1)
    as (s0 & Hm & Hw1 & _).
  apply bind_Ok in E as (init & ? & ? & [= <- <- <-] & E).
  apply bind_Ok in E as (inverses & w2 & b2 & E2 & E).
  eapply (commit_mutable_block_spec n values values_perm) in E2
    as (merged & s1 & s2 & Hmerged & Happly & Hdata & Hread & ->); [|done|done|].
  2: { intros q Hq. apply (ok_last n w Hok). destruct Hw1 as [-> | ->]; cbn in Hq;
       by destruct (buffer_is_empty _). }
  apply bind_Ok in E as ([] & ? & ? & [= <- <-] & E).
  assert (Hr0 : readable (metadata_range n) (store w1)).
  { eapply readable_metadata_eq; [|apply Hok]. by destruct Hw1 as [-> | ->]. }
  set (w3 := remember_block _ p inverses (set_store s2 w1)) in *.
  assert (store w3 = s2) as Hs3 by (unfold w3, remember_block; by destruct (buffer_is_empty _)).
  pose proof (gc_spec n (pt_height p) w3 b2) as Hgc. unfold leaves in Hgc. rewrite E, Hs3 in Hgc.
  destruct Hgc as (s' & -> & Hclear & _); [by apply Hread|].
  destruct (flush_remaining_Ok _ _ _ _ E1) as [Hempty Hsame].
  destruct (keyed_values n values values_perm (batch_actions merged)) as (Hnd & Hd & _);
    [by eapply merger_keyed|].
  destruct (block_effect_data _ _ _ _ Hnd Hd Happly) as (Heff & Hundo & Hpl & Hdi).
  assert (data s' = data s1) as Hs'.
  { etrans; apply data_same; [|exact Hdata]. eapply cleared_metadata; [|exact Hclear].
    intros k. apply metadata_subrange. }
  exists (store w1), s', (sync_batcher w1), merged, inverses. rewrite Hs'.
  split_and!; try done.
  - destruct Hw1 as [-> | ->]; unfold w3, remember_block, buffer_with; cbn [rollback_buffer set_store
      set_batcher set_unit w0]; by destruct (buffer_is_empty _).
  - intros He. by rewrite (Hsame He).
  - eapply readable_cleared; [|apply Hread, Hr0]. intros k. destruct (Hclear k) as [?|[Hk ?]]; [by left|].
    right. split; [|done]. revert Hk. apply metadata_subrange.
  - by apply batch_keyed_empty.
  - destruct Heff as [Hin Hout]. split.
    + intros a Ha. apply Hin. by rewrite values_perm.
    + intros k Hk. apply Hout. by rewrite values_perm.
Qed.

Lemma Forall_buffer_with w p inverses :
  worker_ok n w → Forall plain inverses → data_actions n inverses →
  Forall (λ e : Point * list StorageAction, Forall plain e.2 ∧ data_actions n e.2) (blocks (buffer_with w p inverses)).
Proof.
  intros Hok Hpl Hd. pose proof (ok_buffer n w Hok) as Hb. apply Forall_take.
  constructor; [done|]. destruct (buffer_is_empty _); [|done].
  apply Forall_take. constructor; [by split; constructor|done].
Qed.

Lemma tracks_forward u p ops w h b w' b' :
  tracks w h → data_actions n ops → point_ok p →
  execute_mutable n values u p ops w b = (w', b', Ok tt) →
  ∃ merged q d d' h0, h = (q, d) :: h0
    ∧ push_actions (batcher_new 1 (umax 64)) ops = Ok merged
    ∧ block_effect (map_to_list (batch_actions merged)).*2 d d'
    ∧ tracks w' (take (buf_size (rollback_buffer w)) ((p, d') :: h)).
Proof using values_perm.
  intros [Hok Hmu Hsize Hbatch Hund Hhead] Hops Hp E.
  apply execute_mutable_Ok in E
    as (s0 & s' & batcher & merged & inverses & -> & Hs0 & Hread & He & Hk & Hm & Heff & Hundo & Hpl & Hd);
    [|done..].
  specialize (Hs0 Hbatch). rewrite Hs0 in *. destruct h as [|[q d] h]; [done|].
  injection Hhead as ->. exists merged, q, (data (store w)), (data s'), h.
  split_and!; try done. split; cbn [sync_batcher rollback_buffer store].
  - split; cbn; [done|done|by apply Forall_buffer_with|by intros ? [= <-]].
  - done.
  - unfold buffer_with. by destruct (buffer_is_empty _).
  - done.
  - unfold buffer_with. assert (buffer_is_empty (rollback_buffer w) = false) as ->.
    { unfold buffer_is_empty. by inversion Hund. }
    apply undoes_take; [done|]. by constructor.
  - by destruct (buf_size (rollback_buffer w)); [lia|].
Qed.

(** ** Rolling back *)

Lemma undo_list_data w newer older :
  worker_ok n w → blocks (rollback_buffer w) = newer ++ older → data_actions n (undo_list newer).
Proof. intros Hok E. by destruct (undo_plain n w newer older Hok E). Qed.

Lemma worker_ok_rolled_back p newer older w :
  worker_ok n w → point_ok p → blocks (rollback_buffer w) = newer ++ older →
  worker_ok n (rolled_back n p newer older w).
Proof.
  intros Hok Hp E. pose proof (undo_list_data _ _ _ Hok E) as Hd. split; cbn.
  - eapply readable_cleared; [apply (gc_cleared n (trim_range n (pt_height p)));
      [apply trim_range_metadata|by left]|].
    eapply readable_metadata_eq; [by apply puts_metadata|]. apply Hok.
  - apply Hok.
  - pose proof (ok_buffer n w Hok) as Hb. rewrite E in Hb. by apply Forall_app in Hb as [_ Hb].
  - by intros ? [= <-].
Qed.

Lemma tracks_back p newer older w h :
  tracks w h → point_ok p → points_since (rollback_buffer w) p = Some newer →
  blocks (rollback_buffer w) = newer ++ older →
  ∃ h1 d h2, h = h1 ++ (p, d) :: h2 ∧ (p ∉ map fst h1)
    ∧ tracks (rolled_back n p newer older w) ((p, d) :: h2).
Proof.
  intros [Hok Hmu Hsize Hbatch Hund Hhead] Hp Hsince Hsplit.
  destruct (points_since_Some w p newer Hsince) as (older' & Hsplit' & (inv & rest & Eolder) & Hnew & _).
  assert (older' = older) as -> by (rewrite Hsplit in Hsplit'; by apply app_inv_head in Hsplit').
  subst older. rewrite Hsplit in Hund.
  destruct (undoes_app _ _ _ _ _ _ Hund Hhead) as (h1 & h2 & -> & Hfst & Hund').
  eexists h1, _, h2. split; [done|]. split.
  - rewrite Hfst. rewrite Forall_forall in Hnew. intros Hin.
    apply list_elem_of_fmap in Hin as (x & -> & Hx). by apply (Hnew x Hx).
  - split; [by apply worker_ok_rolled_back|done|done|done|done|]. cbn. f_equal.
    pose proof (undo_list_data _ _ _ Hok Hsplit) as Hd.
    rewrite data_drop_range by apply trim_range_metadata. by rewrite data_puts.
Qed.

(** ** Runs of the stage *)

(** The stage executes the units it is sent one after the other. *)
Fixpoint run (policy : RuntimePolicy) (units : list StorageActionPayload) : M unit :=
  match units with
  | [] => mret tt
  | u :: units => execute n values policy u;; run policy units
  end.

Inductive history_run (depth : nat) : list StorageActionPayload → History → History → Prop :=
| run_done h : history_run depth [] h h
| run_step u units h h1 h2 :
    history_step n depth u h h1 → history_run depth units h1 h2 →
    history_run depth (u :: units) h h2.

Lemma tracks_set_mutable m w h : tracks w h → set_mutable (mutable w || m) w = w.
Proof. intros [_ Hmu _ _ _ _]. rewrite Hmu. destruct w. cbn in *. by subst. Qed.

Lemma buf_size_buffer_with w p inverses :
  buf_size (buffer_with w p inverses) = buf_size (rollback_buffer w).
Proof. unfold buffer_with. by destruct (buffer_is_empty _). Qed.

Lemma execute_simulates policy u w h b w' b' :
  tracks w h → payload_ok u → execute n values policy u w b = (w', b', Ok tt) →
  ∃ h', history_step n (buf_size (rollback_buffer w)) u h h' ∧ tracks w' h'
    ∧ buf_size (rollback_buffer w') = buf_size (rollback_buffer w).
Proof using values_perm.
  intros Htr Hpay E. destruct u as [p outputs m mempool|p m].
  - rewrite execute_roll_forward in E. cbv zeta in E.
    rewrite (tracks_set_mutable m w h Htr), (tr_mutable w h Htr) in E.
    destruct (outputs_to_storage_ops n outputs) as [ops| |] eqn:Eops; [|done|done].
    apply outputs_data in Eops as Hops.
    pose proof E as (s0 & s' & batcher & ? & inverses & -> & _)%execute_mutable_Ok;
      [|apply Htr|done|done].
    eapply tracks_forward in E as (merged & q & d & d' & h0 & -> & Hm & Heff & Htr'); [|done..].
    eexists. split; [by econstructor|]. split; [done|]. apply buf_size_buffer_with.
  - assert (execute n values policy (RollBack p m) w None = (w', None, Ok tt)) as En
      by (by eapply robust_execute). clear E. rename En into E.
    cbn [execute] in E. apply bind_Ok in E as ([] & ? & ? & [= <- <-] & E).
    rewrite (tracks_set_mutable m w h Htr) in E.
    destruct (points_since (rollback_buffer w) p) as [newer|] eqn:Hsince.
    2: { destruct (roll_back_missing n policy (RollBack p m) p w None Hsince) as (o & Eo & Ho).
         rewrite Eo in E. injection E as _ ->. by destruct Ho. }
    destruct (points_since_Some w p newer Hsince) as (older & Hsplit & _).
    rewrite (execute_roll_back_None n policy _ p w newer older) in E by (done || apply Htr).
    injection E as <-.
    destruct (tracks_back p newer older w h) as (h1 & d & h2 & -> & Hp & Htr'); [done..|].
    exists ((p, d) :: h2). split; [by constructor|done].
Qed.

Lemma app_cons_unique {A B} (l1 l1' l2 l2' : list (A * B)) x y y' :
  l1 ++ (x, y) :: l2 = l1' ++ (x, y') :: l2' → x ∉ map fst l1 → x ∉ map fst l1' →
  l1' = l1 ∧ y' = y ∧ l2' = l2.
Proof.
  revert l1'. induction l1 as [|[z u] l1 IH]; intros [|[z' u'] l1'] E H1 H1'; cbn in *.
  - by injection E as -> ->.
  - injection E as -> -> _. exfalso. apply H1'. by left.
  - injection E as -> -> _. exfalso. apply H1. by left.
  - injection E as -> -> E. rewrite not_elem_of_cons in H1, H1'.
    destruct (IH l1' E) as (-> & -> & ->); [by destruct H1|by destruct H1'|done].
Qed.

Lemma undoes_points bs h : undoes bs h → map fst bs = map fst h.
Proof. induction 1 as [|??????? _ IH _]; cbn in *; [done|]. by rewrite IH. Qed.

Lemma points_since_found (buf : RollbackBuffer Point (list StorageAction)) p :
  p ∈ map fst (blocks buf) →
  ∃ newer older, blocks buf = newer ++ older ∧ points_since buf p = Some newer.
Proof.
  intros (e & -> & Hin)%list_elem_of_fmap. unfold points_since, position.
  destruct (list_find _ (blocks buf)) as [[i e']|] eqn:Hi.
  - exists (take i (blocks buf)), (drop i (blocks buf)). by rewrite take_drop.
  - apply list_find_None in Hi. rewrite Forall_forall in Hi. by destruct (Hi e Hin).
Qed.

(** C5: the storage stage refines a stack of snapshots.  Whatever units it
    executes once the chain is mutable, its data evolves as the top of a stack of
    (point, data) pairs: a block pushes the data that its merged actions make of
    the top, a rollback to a point pops every entry above it, so that the store
    holds again exactly the data it held at that point.  The relation survives the
    whole run, with the rollback buffer deep enough for the configured number of
    points. *)
Theorem run_refines_history policy units w h b w' b' :
  tracks w h → Forall payload_ok units →
  run policy units w b = (w', b', Ok tt) →
  ∃ h', history_run (buf_size (rollback_buffer w)) units h h' ∧ tracks w' h'.
Proof using values_perm.
  intros Htr Hpay. revert w h b Htr. induction Hpay as [|u units Hu _ IH]; intros w h b Htr E.
  - injection E as <- <-. exists h. split; [constructor|done].
  - cbn [run] in E. apply bind_Ok in E as ([] & w1 & b1 & E1 & E).
    apply (execute_simulates policy u w h) in E1 as (h1 & Hstep & Htr1 & Hsize); [|done..].
    destruct (IH w1 h1 b1 Htr1 E) as (h2 & Hrun & Htr2). rewrite Hsize in Hrun.
    exists h2. split; [by econstructor|done].
Qed.

(** C16: a rollback to any point the stage keeps goes through.  It ends without an
    error, whatever the policies are, the store holds exactly the data that was
    recorded for the point, the entries above it are gone, and the stage is ready
    for the next unit. *)
Theorem roll_back_succeeds policy p m w newer d older :
  tracks w (newer ++ (p, d) :: older) → p ∉ map fst newer → point_ok p →
  ∃ w', execute n values policy (RollBack p m) w None = (w', None, Ok tt)
    ∧ tracks w' ((p, d) :: older) ∧ data (store w') = d
    ∧ last_processed w' = Some p ∧ work_unit_2pc w' = None.
Proof.
  intros Htr Hp Hpok.
  destruct (points_since_found (rollback_buffer w) p) as (bnew & bold & Hsplit & Hsince).
  { rewrite (undoes_points _ _ (tr_undoes w _ Htr)), map_app. apply elem_of_app. right. by left. }
  exists (rolled_back n p bnew bold w). split.
  - cbn [execute]. unfold modify, mbind, M_bind. rewrite (tracks_set_mutable m w _ Htr).
    apply execute_roll_back_None; [apply Htr|done|done].
  - destruct (tracks_back p bnew bold w _ Htr Hpok Hsince Hsplit) as (h1 & d' & h2 & E & Hp1 & Htr').
    apply app_cons_unique in E as (-> & -> & ->); [|done..]. split; [done|].
    split; [|done]. pose proof (tr_head _ _ Htr') as Hd. cbn [head fmap option_fmap option_map snd] in Hd. congruence.
Qed.

(** ** The invariant, for every unit and every outcome *)

(** [m] keeps the invariant, and what it returns satisfies [Q]. *)
Definition keeps {A} (m : M A) (Q : A → Prop) : Prop :=
  ∀ w b w' b' o, worker_ok n w → m w b = (w', b', o) →
    worker_ok n w' ∧ ∀ x, o = Ok x → Q x.

Lemma keeps_bind {A B} (m : M A) (f : A → M B) Q R :
  keeps m Q → (∀ x, Q x → keeps (f x) R) → keeps (m ≫= f) R.
Proof.
  intros Hm Hf w b w' b' o Hok. unfold mbind, M_bind.
  destruct (m w b) as [[w1 b1] o1] eqn:E. destruct (Hm _ _ _ _ _ Hok E) as [Hok1 HQ].
  destruct o1 as [x|e|]; [|by intros [= <- <- <-]|by intros [= <- <- <-]].
  apply Hf; [by apply HQ|done].
Qed.

Lemma keeps_gets {A} (f : Worker → A) (Q : A → Prop) :
  (∀ w, worker_ok n w → Q (f w)) → keeps (gets f) Q.
Proof. intros H w b w' b' o Hok [= <- <- <-]. split; [done|]. intros x [= <-]. by apply H. Qed.

Lemma keeps_modify f : (∀ w, worker_ok n w → worker_ok n (f w)) → keeps (modify f) (λ _, True).
Proof. intros H w b w' b' o Hok [= <- <- <-]. split; [by apply H|done]. Qed.

Lemma keeps_lift {A} (o : outcome WorkError A) (Q : A → Prop) :
  (∀ x, o = Ok x → Q x) → keeps (lift o) Q.
Proof. intros H w b w' b' o' Hok [= <- <- <-]. done. Qed.

Lemma keeps_ret {A} (x : A) (Q : A → Prop) : Q x → keeps (mret x) Q.
Proof. intros H w b w' b' o Hok [= <- <- <-]. split; [done|]. by intros ? [= <-]. Qed.

Lemma worker_ok_batcher batcher w :
  worker_ok n w → batch_keyed n (batch_actions batcher) → worker_ok n (set_batcher batcher w).
Proof. intros [] H. by split. Qed.

Lemma worker_ok_buffer buffer w :
  worker_ok n w → Forall (λ e, Forall plain e.2 ∧ data_actions n e.2) (blocks buffer) →
  worker_ok n (set_buffer buffer w).
Proof. intros [] H. by split. Qed.

Lemma worker_ok_unit u w : worker_ok n w → worker_ok n (set_unit u w).
Proof. intros []. by split. Qed.

Lemma worker_ok_last p w : worker_ok n w → point_ok p → worker_ok n (set_last (Some p) w).
Proof. intros [] H. split; [done..|]. by intros q [= <-]. Qed.

Lemma worker_ok_metadata s w :
  worker_ok n w → same_on (is_metadata n) (store w) s → worker_ok n (set_store s w).
Proof. intros [] H. split; [|done..]. by eapply readable_metadata_eq. Qed.

(** A step that leaves the worker but for its store. *)
Lemma keeps_leaves {A} (m : M A) (P : Worker → option nat → Store → Prop) :
  (∀ w b, worker_ok n w → leaves m w b (λ s' _ _, P w b s')) →
  (∀ w b s', worker_ok n w → P w b s' → readable (metadata_range n) s') → keeps m (λ _, True).
Proof.
  intros Hm HP w b w' b' o Hok E. pose proof (Hm w b Hok) as H. unfold leaves in H. rewrite E in H.
  destruct H as (s' & -> & Hs'). split; [|done]. destruct Hok as [Hr Hb Hf Hl].
  split; [|done..]. by eapply HP.
Qed.

Lemma staggered_metadata actions w b :
  data_actions n actions →
  leaves (apply_staggered_actions n actions) w b (λ s' _ _, same_on (is_metadata n) (store w) s').
Proof.
  intros Hd. eapply leaves_impl; [apply staggered_spec|]. cbn. intros s' b' o [_ [(_ & _ & H)|H]].
  - by eapply but_for_metadata; [apply staggered_plain_data|].
  - intros k Hk. rewrite (staggered_end_metadata n actions _ _ _ Hd H k Hk).
    by apply (puts_metadata n); [apply staggered_plain_data|].
Qed.

Lemma keeps_flush_batch : keeps (flush_batch n values) (λ _, True).
Proof using values_perm.
  intros w b w' b' o Hok. unfold flush_batch, begin_txn, gets, lift, mbind, M_bind.
  set (actions := values (batch_actions (sync_batcher w))).
  destruct (keyed_values n values values_perm (batch_actions (sync_batcher w)) (ok_batch n w Hok))
    as (_ & Hd & _). fold actions in Hd.
  destruct (Nat.ltb _ _).
  - pose proof (staggered_metadata actions w b Hd) as H. unfold leaves in H. intros E. rewrite E in H.
    destruct H as (s' & -> & Hs'). split; [|done]. by apply worker_ok_metadata.
  - destruct (apply_actions (store w) actions) as [s'| |] eqn:Ea;
      [|by intros [= <- <- <-]|by intros [= <- <- <-]].
    assert (worker_ok n (set_store s' w)).
    { apply worker_ok_metadata; [done|]. by eapply apply_actions_metadata. }
    unfold commit. destruct b as [[|b]|]; by intros [= <- <- <-].
Qed.

Lemma keeps_flush_remaining : keeps (flush_remaining n values) (λ _, True).
Proof using values_perm.
  intros w b w' b' o Hok E.
  destruct (flush_remaining_spec n values values_perm w b w' b' o (ok_batch n w Hok) E)
    as (s1 & Hm & H). split; [|done].
  assert (worker_ok n (set_store s1 w)) as Hok1 by (by apply worker_ok_metadata).
  destruct o as [[]|[]|].
  - destruct H as [[-> | ->] _]; [done|]. apply worker_ok_batcher; [done|].
    apply batch_keyed_empty, batcher_is_empty_wipe.
  - by destruct H as [-> _].
  - by subst w'.
  - by subst w'.
Qed.

Lemma keeps_push ops :
  data_actions n ops →
  keeps (batcher ← gets sync_batcher;
         batcher ← lift (push_actions batcher ops);
         modify (set_batcher batcher)) (λ _, True).
Proof.
  intros Hops. apply (keeps_bind _ _ (λ batcher, batch_keyed n (batch_actions batcher))).
  { apply keeps_gets. intros w Hok. apply Hok. }
  intros batcher Hb. apply (keeps_bind _ _ (λ batcher, batch_keyed n (batch_actions batcher))).
  - apply keeps_lift. intros b' E. by eapply push_actions_keyed.
  - intros b' Hb'. apply keeps_modify. intros w Hok. by apply worker_ok_batcher.
Qed.

Lemma keeps_execute_sync u p ops :
  data_actions n ops → point_ok p → keeps (execute_sync n values u p ops) (λ _, True).
Proof using values_perm.
  intros Hops Hp. unfold execute_sync. eapply (keeps_bind _ _ (λ _, True)); [by apply keeps_gets|].
  intros flush _. destruct flush; [|by apply keeps_push].
  eapply keeps_bind; [apply keeps_modify; intros; by apply worker_ok_unit|]. intros _ _.
  eapply keeps_bind; [apply keeps_flush_batch|]. intros _ _.
  eapply keeps_bind; [apply keeps_modify; intros; by apply worker_ok_unit|]. intros _ _.
  eapply keeps_bind; [apply keeps_modify; intros; by apply worker_ok_last|]. intros _ _.
  eapply keeps_bind; [|intros _ _; by apply keeps_push].
  apply keeps_modify. intros w Hok. apply worker_ok_batcher; [done|].
  apply batch_keyed_empty, batcher_is_empty_wipe.
Qed.

Lemma keeps_commit_mutable_block init p ops :
  data_actions n ops → point_ok p → (∀ q, init = Some q → point_ok q) →
  keeps (commit_mutable_block n values init p ops)
    (λ inverses, Forall plain inverses ∧ data_actions n inverses).
Proof using values_perm.
  intros Hops Hp Hinit w b w' b' o Hok E.
  pose proof (commit_mutable_block_spec n values values_perm _ _ _ _ _ _ _ _ Hops Hp Hinit E) as H.
  destruct o as [inverses| |]; [|by subst w'|by subst w'].
  destruct H as (merged & s1 & s2 & Hm & Ha & _ & Hr & ->).
  destruct (keyed_values n values values_perm (batch_actions merged)) as (Hnd & Hd & _);
    [by eapply merger_keyed|].
  destruct (block_effect_data _ _ _ _ Hnd Hd Ha) as (_ & _ & Hpl & Hdi).
  split; [|by intros ? [= <-]]. destruct Hok. split; [by apply Hr|done..].
Qed.

Lemma worker_ok_remember first p inverses w :
  worker_ok n w → point_ok p → Forall plain inverses → data_actions n inverses →
  worker_ok n (remember_block first p inverses w).
Proof.
  intros Hok Hp Hpl Hd. unfold remember_block.
  assert (∀ buf q inv, Forall (λ e, Forall plain e.2 ∧ data_actions n e.2) (blocks buf) →
    Forall plain inv → data_actions n inv →
    Forall (λ e : Point * list StorageAction, Forall plain e.2 ∧ data_actions n e.2)
      (blocks (add_block buf q inv))) as Hadd.
  { intros buf q inv Hb H1 H2. apply Forall_take. by constructor. }
  assert (worker_ok n (set_unit None w)) as Hok1 by (by apply worker_ok_unit).
  destruct first; repeat (apply worker_ok_buffer || apply worker_ok_last || apply Hadd);
    try done; try apply Hok; by constructor.
Qed.

Lemma keeps_gc h : keeps (garbage_collect_rollback_metadata n h) (λ _, True).
Proof.
  eapply keeps_leaves.
  - intros w b Hok. eapply leaves_impl; [apply gc_spec, Hok|].
    intros s' b' o [Hc _]. exact Hc.
  - cbn. intros w _ s' Hok Hc. eapply readable_cleared; [|apply Hok].
    intros k. destruct (Hc k) as [?|[Hk ?]]; [by left|]. right. split; [|done].
    revert Hk. apply metadata_subrange.
Qed.

Lemma keeps_execute_mutable u p ops :
  data_actions n ops → point_ok p → keeps (execute_mutable n values u p ops) (λ _, True).
Proof using values_perm.
  intros Hops Hp. unfold execute_mutable.
  eapply (keeps_bind _ _ (λ _, True)); [by apply keeps_gets|]. intros first _.
  eapply keeps_bind; [apply keeps_modify; intros; by apply worker_ok_unit|]. intros _ _.
  eapply keeps_bind; [apply keeps_flush_remaining|]. intros _ _.
  eapply (keeps_bind _ _ (λ init, ∀ q, init = Some q → point_ok q)).
  { apply keeps_gets. intros w Hok. destruct first; [apply Hok|done]. }
  intros init Hinit. eapply keeps_bind; [by apply keeps_commit_mutable_block|].
  intros inverses [Hpl Hd]. eapply keeps_bind; [|intros _ _; apply keeps_gc].
  apply keeps_modify. intros w Hok. by apply worker_ok_remember.
Qed.

Lemma keeps_undo_points points :
  Forall (λ e, Forall plain e.2 ∧ data_actions n e.2) points → keeps (undo_points points) (λ _, True).
Proof.
  intros Hb. eapply keeps_leaves.
  - intros w b _. eapply leaves_impl; [apply undo_points_spec|].
    + eapply Forall_impl; [exact Hb|]. by intros e [? _].
    + intros s' b' o [H _]. exact H.
  - cbn. intros w _ s' Hok H. eapply readable_metadata_eq; [|apply Hok].
    eapply but_for_metadata; [|exact H]. unfold undo_list, data_actions.
    apply Forall_concat, Forall_map. eapply Forall_impl; [exact Hb|]. intros e [_ Hd].
    cbn. by apply Forall_rev.
Qed.

Lemma keeps_trim h : keeps (trim_persistent_rollback_metadata n h) (λ _, True).
Proof.
  eapply keeps_leaves.
  - intros w b Hok. eapply leaves_impl; [apply trim_spec, Hok|].
    intros s' b' o [Hc _]. exact Hc.
  - cbn. intros w _ s' Hok Hc. eapply readable_cleared; [|apply Hok].
    intros k. destruct (Hc k) as [?|[Hk ?]]; [by left|]. right. split; [|done].
    revert Hk. apply trim_range_metadata.
Qed.

Abbreviation entries_ok :=
  (Forall (λ e : Point * list StorageAction, Forall plain e.2 ∧ data_actions n e.2)).

Lemma keeps_policy {A} (o : option A) policy (Q : A → Prop) :
  (∀ x, o = Some x → Q x) →
  keeps (lift (or_panic (apply_policy (out_of_range o) policy))) (λ r, ∀ x, r = Some x → Q x).
Proof.
  intros H. apply keeps_lift. intros r E x ->. destruct o as [y|].
  - injection E as <-. by apply H.
  - exfalso. unfold out_of_range, apply_policy, handle_error in E. cbn in E.
    by destruct (any_error policy) as [[]|], (rollback_errors policy) as [[]|].
Qed.

Lemma keeps_execute_roll_back policy u p :
  point_ok p → keeps (execute_roll_back n policy u p) (λ _, True).
Proof.
  intros Hp. unfold execute_roll_back.
  eapply keeps_bind; [apply keeps_modify; intros; by apply worker_ok_unit|]. intros _ _.
  eapply (keeps_bind _ _ (λ since, ∀ points, since = Some points → entries_ok points)).
  { apply keeps_gets. intros w Hok points E.
    destruct (points_since_Some w p points E) as (rest & Hsplit & _).
    pose proof (ok_buffer n w Hok) as Hb. rewrite Hsplit in Hb. by apply Forall_app in Hb as [Hb _]. }
  intros since Hsince. eapply keeps_bind; [by apply (keeps_policy since policy entries_ok)|].
  intros found Hfound. eapply (keeps_bind _ _ entries_ok).
  { apply keeps_lift. intros points E. destruct found; [|done]. injection E as <-. by apply Hfound. }
  intros points Hpoints. eapply keeps_bind; [by apply keeps_undo_points|]. intros _ _.
  eapply keeps_bind; [apply keeps_trim|]. intros _ _.
  eapply keeps_bind; [apply keeps_modify; intros; by apply worker_ok_unit|]. intros _ _.
  eapply keeps_bind; [apply keeps_modify; intros; by apply worker_ok_last|]. intros _ _.
  eapply (keeps_bind _ _ (λ back, ∀ x, back = Some x → entries_ok (blocks x.2))).
  { apply keeps_gets. intros w Hok [points' buf] E. unfold rollback_to_point in E.
    destruct (position _ p) as [i|]; [|done]. injection E as <- <-. apply Forall_drop, Hok. }
  intros back Hback.
  eapply keeps_bind; [by apply (keeps_policy back policy (λ x, entries_ok (blocks x.2)))|].
  intros [[points' buf]|] Hr; [|by apply keeps_ret].
  apply keeps_modify. intros w Hok. apply worker_ok_buffer; [done|]. by apply (Hr (points', buf)).
Qed.

(** C15: the state invariant of the storage stage.  Whatever the unit (a block in
    either mode, a rollback), whichever commit fails and however it ends, panics
    included, the worker is left well formed: every rollback record in the store
    can be decoded, the batch holds each action under its own key and never a
    record key, the buffer holds only sets and deletes of data keys, and the last
    point has a 32-byte hash. *)
Theorem execute_keeps_ok policy u : payload_ok u → keeps (execute n values policy u) (λ _, True).
Proof using values_perm.
  intros Hpay. destruct u as [p outputs m mempool|p m]; cbn [execute].
  - eapply keeps_bind; [apply keeps_modify; intros; by apply worker_ok_mutable|]. intros _ _.
    eapply (keeps_bind _ _ (data_actions n)); [apply keeps_lift; intros ops; apply outputs_data|].
    intros ops Hops. eapply (keeps_bind _ _ (λ _, True)); [by apply keeps_gets|]. intros mu _.
    destruct mu; [by apply keeps_execute_mutable|by apply keeps_execute_sync].
  - eapply keeps_bind; [apply keeps_modify; intros; by apply worker_ok_mutable|]. intros _ _.
    by apply keeps_execute_roll_back.
Qed.

(** How tracking starts.  The first mutable block after a synchronisation
    flushes what is left of the batch, then records two entries: the point the
    stage was at before, with the data of that moment, and its own.  From then on
    every rollback down to the former is possible. *)
Theorem tracking_starts policy p outputs m mempool w b w' b' :
  worker_ok n w → point_ok p → buffer_is_empty (rollback_buffer w) = true →
  (1 < buf_size (rollback_buffer w))%nat → mutable w || m = true →
  execute n values policy (RollForward p outputs m mempool) w b = (w', b', Ok tt) →
  ∃ ops merged d d', outputs_to_storage_ops n outputs = Ok ops
    ∧ push_actions (batcher_new 1 (umax 64)) ops = Ok merged
    ∧ block_effect (map_to_list (batch_actions merged)).*2 d d'
    ∧ (batcher_is_empty (sync_batcher w) = true → d = data (store w))
    ∧ tracks w' [(p, d'); (default zero_point (last_processed w), d)].
Proof using values_perm.
  intros Hok Hp Hempty Hsize Hmu E. rewrite execute_roll_forward in E. cbv zeta in E.
  change (mutable (set_mutable _ w)) with (mutable w || m) in E. rewrite Hmu in E.
  destruct (outputs_to_storage_ops n outputs) as [ops| |] eqn:Eops; [|done|done].
  apply execute_mutable_Ok in E
    as (s0 & s' & batcher & merged & inverses & -> & Hs0 & Hread & He & Hk & Hm & Heff & Hundo & Hpl & Hd);
    [|by apply worker_ok_mutable|by eapply outputs_data|done].
  exists ops, merged, (data s0), (data s'). split_and!; try done.
  split; cbn [sync_batcher rollback_buffer store mutable].
  - split; cbn [store sync_batcher rollback_buffer last_processed]; [done|done| |by intros ? [= <-]].
    apply (Forall_buffer_with (set_mutable true w)); [by apply worker_ok_mutable|done..].
  - done.
  - rewrite buf_size_buffer_with. cbn [rollback_buffer set_mutable]. lia.
  - done.
  - unfold buffer_with. cbn [rollback_buffer set_mutable last_processed]. rewrite Hempty.
    unfold buffer_is_empty in Hempty. unfold add_block. cbn [blocks buf_size].
    destruct (blocks (rollback_buffer w)); [|done].
    destruct (buf_size (rollback_buffer w)) as [|[|sz]]; [lia..|]. cbn [take].
    rewrite take_nil. constructor; [constructor|done].
  - done.
Qed.

(** C38: the block before the first mutable one is not kept.  A synchronised block
    [p] that is only added to the batch does not become the last processed point,
    so the first mutable block [q] records an older point in its place, and a
    rollback to [p] then stops the stage, whatever the policies are, with nothing
    undone. *)
Theorem unflushed_point_lost policy p q outputs outputs' m mempool w b w2 b2 b3 :
  worker_ok n w → point_ok p → point_ok q → mutable w = false →
  buffer_is_empty (rollback_buffer w) = true →
  (∀ ops, outputs_to_storage_ops n outputs = Ok ops → should_flush (sync_batcher w) ops = false) →
  default zero_point (last_processed w) ≠ p → p ≠ q →
  run policy [RollForward p outputs false mempool; RollForward q outputs' true mempool] w b
  = (w2, b2, Ok tt) →
  ∃ o, execute n values policy (RollBack p m) w2 b3 = (set_unit (Some (RollBack p m)) w2, b3, o)
    ∧ (o = Err WorkPanic ∨ o = Panic).
Proof using values_perm.
  intros Hok Hp Hq Hmu Hempty Hflush Hlast Hpq E. cbn [run] in E.
  apply bind_Ok in E as ([] & w1 & b1 & E1 & E). apply bind_Ok in E as ([] & ? & ? & E2 & [= -> ->]).
  rewrite execute_roll_forward in E1, E2. cbv zeta in E1, E2.
  assert (set_mutable (mutable w || false) w = w) as Hsame by (rewrite Hmu; destruct w; cbn in *; by subst).
  rewrite Hsame in E1.
  destruct (outputs_to_storage_ops n outputs) as [ops| |] eqn:Eops; [|done|done].
  rewrite Hmu in E1. destruct (keeps_execute_sync (RollForward p outputs false mempool) p ops
    (outputs_data n _ _ Eops) Hp _ _ _ _ _ Hok E1) as [Hok1 _].
  unfold execute_sync in E1. apply bind_Ok in E1 as (flush & ? & ? & [= <- <- <-] & E1).
  rewrite (Hflush ops eq_refl) in E1. apply bind_Ok in E1 as (batcher & ? & ? & [= <- <- <-] & E1).
  apply bind_Ok in E1 as (batcher & ? & ? & E1 & [= <- <-]). injection E1 as <- <- Ebatch.
  destruct (outputs_to_storage_ops n outputs') as [ops'| |] eqn:Eops'; [|done|done].
  change (mutable (set_batcher batcher w)) with (mutable w) in E2. rewrite Hmu in E2.
  cbn [orb mutable set_mutable] in E2.
  apply execute_mutable_Ok in E2 as (s0 & s' & batcher' & merged & inverses & -> & _);
    [|by apply worker_ok_mutable|by eapply outputs_data|done].
  cbn [execute]. unfold modify at 1, mbind, M_bind. cbn [mutable set_mutable orb store
    sync_batcher rollback_buffer work_unit_2pc last_processed buffer_size].
  apply roll_back_missing. cbn [rollback_buffer set_mutable].
  unfold points_since, position, buffer_with. cbn [rollback_buffer last_processed set_batcher set_mutable].
  rewrite Hempty. unfold add_block, buffer_is_empty in *. cbn [blocks buf_size].
  destruct (blocks (rollback_buffer w)); [|done].
  destruct (buf_size (rollback_buffer w)) as [|[|sz]]; cbn [take list_find];
    [done|by rewrite decide_False by (cbn; congruence)|].
  rewrite take_nil. cbn [list_find]. by rewrite !decide_False by (cbn; congruence).
Qed.

End worker.

(** ** Witnesses *)

Lemma data_empty n : data n ∅ = ∅.
Proof. apply map_eq. intros k. rewrite lookup_data, lookup_empty. by destruct (decide _). Qed.

Lemma sample_tracks : tracks sample_namespace sample_worker [(sample_point 1, ∅)].
Proof.
  split; [apply sample_worker_ok|done|cbn; lia|done|constructor|]. cbn. by rewrite data_empty.
Qed.

Definition sample_units : list StorageActionPayload :=
  [sample_forward 2; sample_forward 3; RollBack (sample_point 2) true].

Definition sample_final : Worker :=
  (run sample_namespace list_values no_policy sample_units sample_worker None).1.1.

Lemma run_refines_history_witness :
  ∃ h', history_run sample_namespace 3 sample_units [(sample_point 1, ∅)] h'
    ∧ tracks sample_namespace sample_final h'.
Proof.
  apply (run_refines_history sample_namespace list_values (λ m, reflexivity _) no_policy
           sample_units sample_worker [(sample_point 1, ∅)] None sample_final None).
  - apply sample_tracks.
  - repeat constructor.
  - vm_compute. reflexivity.
Defined.

Lemma roll_back_succeeds_witness :
  ∃ w', execute sample_namespace list_values no_policy (RollBack (sample_point 1) true) sample_worker
          None = (w', None, Ok tt)
    ∧ tracks sample_namespace w' [(sample_point 1, ∅)]
    ∧ data sample_namespace (store w') = ∅
    ∧ last_processed w' = Some (sample_point 1) ∧ work_unit_2pc w' = None.
Proof.
  apply (roll_back_succeeds sample_namespace list_values no_policy (sample_point 1) true sample_worker
           [] ∅ []).
  - apply sample_tracks.
  - apply not_elem_of_nil.
  - reflexivity.
Defined.

Lemma execute_keeps_ok_witness : worker_ok sample_namespace sample_interrupted.1.1.
Proof.
  apply (execute_keeps_ok sample_namespace list_values (λ m, reflexivity _) no_policy
           (sample_forward 2) eq_refl sample_worker (Some 0%nat) _ sample_interrupted.1.2
           sample_interrupted.2).
  - apply sample_worker_ok.
  - vm_compute. reflexivity.
Defined.

(** A worker that has synchronised up to block 1. *)
Definition sample_synced : Worker :=
  set_buffer (buffer_new 3) (set_mutable false sample_worker).

Definition sample_first : Worker :=
  (execute sample_namespace list_values no_policy (sample_forward 2) sample_synced None).1.1.

Lemma tracking_starts_witness :
  ∃ d d', tracks sample_namespace sample_first [(sample_point 2, d'); (sample_point 1, d)].
Proof.
  destruct (tracking_starts sample_namespace list_values (λ m, reflexivity _) no_policy
    (sample_point 2)
    [SatBalanceByScriptHash (mkBytes (replicate 20 7)) (Increment 20);
     Cursor (sample_point 2) false (mkUInt 9)] true false sample_synced None sample_first None)
    as (ops & merged & d & d' & _ & _ & _ & _ & H).
  - destruct sample_worker_ok. by split.
  - reflexivity.
  - reflexivity.
  - cbn. lia.
  - reflexivity.
  - vm_compute. reflexivity.
  - by exists d, d'.
Defined.

(** A new stage: block 1 is batched, block 2 is mutable. *)
Definition sample_outputs (i : Z) : list ReducerOutput :=
  [SatBalanceByScriptHash (mkBytes (replicate 20 7)) (Increment (10 * i));
   Cursor (sample_point i) false (mkUInt 9)].

Definition sample_spawned : Worker := spawn ∅ 10 4000000 None None 3.

Definition sample_started : Worker :=
  (run sample_namespace list_values no_policy
     [RollForward (sample_point 1) (sample_outputs 1) false false;
      RollForward (sample_point 2) (sample_outputs 2) true false] sample_spawned None).1.1.

Lemma unflushed_point_lost_witness :
  ∃ o, execute sample_namespace list_values no_policy (RollBack (sample_point 1) true)
         sample_started None
       = (set_unit (Some (RollBack (sample_point 1) true)) sample_started, None, o)
    ∧ (o = Err WorkPanic ∨ o = Panic).
Proof.
  apply (unflushed_point_lost sample_namespace list_values (λ m, reflexivity _) no_policy
           (sample_point 1) (sample_point 2) (sample_outputs 1) (sample_outputs 2) true false
           sample_spawned None sample_started None None).
  - split; [|intros k a Hk; cbn in Hk; by rewrite lookup_empty in Hk|by constructor|done].
    intros k _ [v Hv]. cbn in Hv. by rewrite lookup_empty in Hv.
  - reflexivity.
  - reflexivity.
  - reflexivity.
  - reflexivity.
  - intros ops [= <-]. vm_compute. reflexivity.
  - vm_compute. discriminate.
  - vm_compute. discriminate.
  - vm_compute. reflexivity.
Defined.

End TikvSnapshots.
