(* ===== verification/Reducers.v ===== *)
(** The reducers of polyphony ([polyphony-xdg/src/reducers]): what each of the
    twenty reports for a block, and the stage that runs them
    ([reducers/worker.rs]); the context a block comes with ([BlockContext] of
    [model.rs]).

    A function that pushes on [outputs] returns what it pushes; the code stops at
    the first error and then sends nothing.  The modules [dunes] and
    [inscriptions] of polyphony are copies of those of the compressor and the
    definitions of those are used.  Parameters stand for the [bitcoin] crate
    (script hashes, addresses, block decoding, script instructions), for
    [serde_json] and for [to_lowercase]; [iter] lists a hash map in some order. *)

From S2P Require Import Prelude Dunes Dunestone Types DunesUpdater Inscription Brc20 Timbre Crosscut StorageAction ReducerOutput TikvWorker.
Import Dunestone Types Timbre Crosscut ReducerOutput TikvWorker.

Module Reducers.

(** ** model.rs: BlockContext *)

Record ContextUtxo : Type := mkContextUtxo {
  cu_height : Z;
  cu_txo : TxOut;
  cu_ords : list (Z * Z);
}.

(** [BRC20Message] of [model.rs]; script hashes are 20 bytes. *)
Inductive CtxMessage : Type :=
| CtxDeploy (ticker : list Z)
| CtxMint (ticker : list Z) (amt : Z) (receiver : list Z)
| CtxTransfer (ticker : list Z) (amt : Z) (outpoint : TxoRef) (receiver : list Z)
| CtxTransferInit (ticker : list Z) (amt : Z) (receiver : list Z).

(** [RuneId] of the [ordinals] crate: block and transaction index. *)
Abbreviation RuneId := (Z * Z)%type.

Record BlockContext : Type := mkContext {
  input_resolver : gmap TxoRef ContextUtxo;
  runes_resolver : gmap TxoRef (list (RuneId * Z));
  rune_mint_idxs : list (Z * Z);
  rune_etch_idxs : list (Z * Z);
  inscriptions_resolver : gmap TxoRef (list (Z * InscriptionId));
  valid_reinscriptions : list (Z * Z);
  brc20_resolver : gmap InscriptionId (list CtxMessage);
  new_inscriptions_map : gmap Txid (InscriptionId * Z * list Z * list Z);
}.

Definition context_new : BlockContext := mkContext ∅ ∅ [] [] ∅ [] ∅ ∅.

(** [decode] is [TxOut::consensus_decode_from_finite_reader]. *)
Definition insert_txo (decode : list Z → option TxOut) (key : TxoRef) (height : Z) (raw : list Z)
    (ords : list (Z * Z)) (c : BlockContext) : outcome WorkError BlockContext :=
  txo ← unwrap (decode raw);
  Ok (mkContext (<[key := mkContextUtxo height txo ords]> (input_resolver c)) (runes_resolver c)
        (rune_mint_idxs c) (rune_etch_idxs c) (inscriptions_resolver c) (valid_reinscriptions c)
        (brc20_resolver c) (new_inscriptions_map c)).

Definition insert_runes (key : TxoRef) (runes : list (RuneId * Z)) (c : BlockContext)
  : BlockContext :=
  mkContext (input_resolver c) (<[key := runes]> (runes_resolver c)) (rune_mint_idxs c)
    (rune_etch_idxs c) (inscriptions_resolver c) (valid_reinscriptions c) (brc20_resolver c)
    (new_inscriptions_map c).

Definition insert_inscriptions (key : TxoRef) (inscriptions : list (Z * InscriptionId))
    (c : BlockContext) : BlockContext :=
  mkContext (input_resolver c) (runes_resolver c) (rune_mint_idxs c) (rune_etch_idxs c)
    (<[key := inscriptions]> (inscriptions_resolver c)) (valid_reinscriptions c)
    (brc20_resolver c) (new_inscriptions_map c).

Definition insert_brc20 (key : InscriptionId) (action : CtxMessage) (c : BlockContext)
  : BlockContext :=
  mkContext (input_resolver c) (runes_resolver c) (rune_mint_idxs c) (rune_etch_idxs c)
    (inscriptions_resolver c) (valid_reinscriptions c)
    (<[key := default [] (brc20_resolver c !! key) ++ [action]]> (brc20_resolver c))
    (new_inscriptions_map c).

Definition insert_new_inscription (key : Txid) (info : InscriptionId * Z * list Z * list Z)
    (c : BlockContext) : BlockContext :=
  mkContext (input_resolver c) (runes_resolver c) (rune_mint_idxs c) (rune_etch_idxs c)
    (inscriptions_resolver c) (valid_reinscriptions c) (brc20_resolver c)
    (<[key := info]> (new_inscriptions_map c)).

Definition find_utxo (c : BlockContext) (key : TxoRef) : outcome PolyError ContextUtxo :=
  ok_or MissingUtxo (input_resolver c !! key).

Definition utxo_runes (c : BlockContext) (key : TxoRef) : option (list (RuneId * Z)) :=
  runes_resolver c !! key.

Definition utxo_inscriptions (c : BlockContext) (key : TxoRef)
  : option (list (Z * InscriptionId)) :=
  inscriptions_resolver c !! key.

Definition inscription_brc20s (c : BlockContext) (key : InscriptionId)
  : option (list CtxMessage) :=
  brc20_resolver c !! key.

Definition new_inscriptions (c : BlockContext) (key : Txid)
  : option (InscriptionId * Z * list Z * list Z) :=
  new_inscriptions_map c !! key.

(** ** What the reducers share *)

Abbreviation Outs := (outcome WorkError (list ReducerOutput)).

(** Running a fallible loop body over a list, collecting what it pushes. *)
Fixpoint concatM {A} (f : A → Outs) (l : list A) : Outs :=
  match l with
  | [] => Ok []
  | a :: l => outs ← f a; rest ← concatM f l; Ok (outs ++ rest)
  end.

(** [Txid::to_byte_array]: a hash is the integer its bytes spell. *)
Definition hash32 (t : Txid) : Hash32 := mkBytes (be_bytes 32 t).
Definition rid (r : RuneId) : Rid := (mkUInt r.1, mkUInt r.2).
Definition ord_of (i : InscriptionId) : Ord := (hash32 (iid_txid i), mkUInt (iid_index i)).

(** [Transaction::is_coinbase]. *)
Definition tx_is_coinbase (tx : Transaction) : bool :=
  match input tx with [i] => is_null (previous_output i) | _ => false end.

Definition outpoint (tx : Transaction) (idx : nat) : TxoRef := (txid tx, wrap 32 (Z.of_nat idx)).

Definition outpoints (tx : Transaction) : list (TxoRef * TxOut) :=
  imap (λ idx txo, (outpoint tx idx, txo)) (output tx).

Definition previous_outputs (tx : Transaction) : list TxoRef :=
  map (λ i, txo_ref_of (previous_output i)) (input tx).

(** The inputs but for those of a coinbase transaction. *)
Definition spent (tx : Transaction) : list TxoRef :=
  if tx_is_coinbase tx then [] else previous_outputs tx.

(** The loop of most reducers over a transaction and a block. *)
Definition reduce_tx (consumed : TxoRef → Outs) (produced : TxoRef → TxOut → Outs)
    (tx : Transaction) : Outs :=
  ins ← concatM consumed (spent tx);
  outs ← concatM (λ o, produced o.1 o.2) (outpoints tx);
  Ok (ins ++ outs).

Definition reduce_txs (consumed : TxoRef → Outs) (produced : TxoRef → TxOut → Outs)
    (txs : list Transaction) : Outs :=
  concatM (reduce_tx consumed produced) txs.

(** The outputs of a block that the same block consumes. *)
Definition chained_txos (txs : list Transaction) : list Txid * list TxoRef :=
  let consumed := concat (map previous_outputs txs) in
  let produced := concat (map (λ tx, map fst (outpoints tx)) txs) in
  (map txid txs, filter (λ o, o ∈ consumed) produced).

(** [ctx.find_utxo(input).apply_policy(&self.policy).or_panic()?], and the early
    return when the policy skips it. *)
Definition with_utxo (policy : RuntimePolicy) (ctx : BlockContext) (input : TxoRef)
    (f : ContextUtxo → list ReducerOutput) : Outs :=
  utxo ← or_panic (apply_policy (find_utxo ctx input) policy);
  Ok (match utxo with Some u => f u | None => [] end).

Section reducers.
Context (script_hash_of : list Z → list Z).
Context (policy : RuntimePolicy).

Definition script_hash (txo : TxOut) : Hash20 := mkBytes (script_hash_of (script_pubkey txo)).

(** ** sat_balance_by_script_hash.rs *)

Definition sat_balance_consumed (ctx : BlockContext) (input : TxoRef) : Outs :=
  with_utxo policy ctx input (λ u,
    [SatBalanceByScriptHash (script_hash (cu_txo u)) (Decrement (value (cu_txo u)))]).

Definition sat_balance_produced (tx_output : TxOut) : Outs :=
  Ok [SatBalanceByScriptHash (script_hash tx_output) (Increment (value tx_output))].

Definition sat_balance_by_script_hash (block : Block) (ctx : BlockContext) : Outs :=
  reduce_txs (sat_balance_consumed ctx) (λ _, sat_balance_produced) (txdata block).

(** ** utxos_by_script_hash.rs *)

Definition utxos_consumed (ctx : BlockContext) (input : TxoRef) : Outs :=
  with_utxo policy ctx input (λ u,
    [UtxosByScriptHash (script_hash (cu_txo u)) (mkUInt (cu_height u)) (hash32 input.1)
       (mkUInt input.2) Consumed]).

Definition utxos_produced (height : Z) (outpoint : TxoRef) (tx_output : TxOut) : Outs :=
  Ok [UtxosByScriptHash (script_hash tx_output) (mkUInt height) (hash32 outpoint.1)
        (mkUInt outpoint.2) (Produced (mkUInt (value tx_output)))].

Definition utxos_by_script_hash (height : Z) (block : Block) (ctx : BlockContext) : Outs :=
  let '(_, chained) := chained_txos (txdata block) in
  reduce_txs
    (λ i, if decide (i ∈ chained) then Ok [] else utxos_consumed ctx i)
    (λ o txo, if decide (o ∈ chained) then Ok [] else utxos_produced height o txo)
    (txdata block).

(** ** txs_by_script_hash.rs *)

Inductive TxInvolvement : Type := InvolvedInput | InvolvedOutput.

#[export] Instance TxInvolvement_eq_dec : EqDecision TxInvolvement.
Proof. solve_decision. Defined.

Abbreviation Seen := (gmap (list Z) (list TxInvolvement)).

(** [seen.entry(script_hash).or_default().push(i)]. *)
Definition see (i : TxInvolvement) (txo : TxOut) (seen : Seen) : Seen :=
  let h := script_hash_of (script_pubkey txo) in
  <[h := default [] (seen !! h) ++ [i]]> seen.

Definition txs_consumed (ctx : BlockContext) (seen : Seen) (input : TxoRef)
  : outcome WorkError Seen :=
  utxo ← or_panic (apply_policy (find_utxo ctx input) policy);
  Ok (match utxo with Some u => see InvolvedInput (cu_txo u) seen | None => seen end).

Definition txs_produced (seen : Seen) (tx_output : TxOut) : Seen :=
  see InvolvedOutput tx_output seen.

Definition txs_seen (ctx : BlockContext) (tx : Transaction) : outcome WorkError Seen :=
  seen ← foldM (txs_consumed ctx) ∅ (spent tx);
  Ok (foldl txs_produced seen (output tx)).

Definition txs_by_script_hash (iter : Seen → list (list Z * list TxInvolvement)) (height : Z)
    (block : Block) (ctx : BlockContext) : Outs :=
  concatM (λ '(tx_idx, tx),
      seen ← txs_seen ctx tx;
      Ok (map (λ '(h, actions),
            TxsByScriptHash (mkBytes h) (mkUInt height) (hash32 (txid tx))
              (mkUInt (wrap 16 (Z.of_nat tx_idx)))
              (bool_decide (InvolvedInput ∈ actions)) (bool_decide (InvolvedOutput ∈ actions)))
          (iter seen)))
    (imap pair (txdata block)).

(** ** balances_by_rune_id.rs *)

Definition balances_rune_consumed (ctx : BlockContext) (input : TxoRef) : Outs :=
  match utxo_runes ctx input with
  | None => Ok []
  | Some runes =>
      with_utxo policy ctx input (λ u,
        map (λ r, BalancesByRuneId (rid r.1) (script_hash (cu_txo u)) (Decrement r.2)) runes)
  end.

Definition balances_rune_produced (ctx : BlockContext) (outpoint : TxoRef) (tx_output : TxOut)
  : Outs :=
  Ok (map (λ r, BalancesByRuneId (rid r.1) (script_hash tx_output) (Increment r.2))
        (default [] (utxo_runes ctx outpoint))).

Definition balances_by_rune_id (block : Block) (ctx : BlockContext) : Outs :=
  reduce_txs (balances_rune_consumed ctx) (balances_rune_produced ctx) (txdata block).

(** ** rune_balances_by_script_hash.rs *)

Definition rune_balances_consumed (ctx : BlockContext) (input : TxoRef) : Outs :=
  with_utxo policy ctx input (λ u,
    match utxo_runes ctx input with
    | Some runes =>
        map (λ r, RuneBalancesByScriptHash (script_hash (cu_txo u)) (rid r.1) (Decrement r.2)) runes
    | None => []
    end).

Definition rune_balances_produced (ctx : BlockContext) (outpoint : TxoRef) (tx_output : TxOut)
  : Outs :=
  Ok (match utxo_runes ctx outpoint with
      | Some runes =>
          map (λ r, RuneBalancesByScriptHash (script_hash tx_output) (rid r.1) (Increment r.2)) runes
      | None => []
      end).

Definition rune_balances_by_script_hash (block : Block) (ctx : BlockContext) : Outs :=
  reduce_txs (rune_balances_consumed ctx) (rune_balances_produced ctx) (txdata block).

(** ** runes_by_utxo.rs *)

Definition runes_utxo_consumed (ctx : BlockContext) (input : TxoRef) : Outs :=
  Ok (match utxo_runes ctx input with
      | Some _ => [RunesByUtxo (hash32 input.1) (mkUInt input.2) Consumed]
      | None => []
      end).

Definition runes_utxo_produced (ctx : BlockContext) (outpoint : TxoRef) : Outs :=
  Ok (match utxo_runes ctx outpoint with
      | Some runes =>
          [RunesByUtxo (hash32 outpoint.1) (mkUInt outpoint.2)
             (Produced (map (λ r, (rid r.1, mkUInt r.2)) runes))]
      | None => []
      end).

Definition runes_by_utxo (block : Block) (ctx : BlockContext) : Outs :=
  reduce_txs (runes_utxo_consumed ctx) (λ o _, runes_utxo_produced ctx o) (txdata block).

(** ** utxos_by_rune_id.rs *)

Definition utxos_rune_consumed (ctx : BlockContext) (input : TxoRef) : Outs :=
  match utxo_runes ctx input with
  | None => Ok []
  | Some runes =>
      with_utxo policy ctx input (λ u,
        map (λ r, UtxosByRuneId (rid r.1) (mkUInt (cu_height u)) (hash32 input.1)
                    (mkUInt input.2) Consumed) runes)
  end.

Definition utxos_rune_produced (ctx : BlockContext) (height : Z) (outpoint : TxoRef)
    (tx_output : TxOut) : Outs :=
  Ok (match utxo_runes ctx outpoint with
      | Some runes =>
          map (λ r, UtxosByRuneId (rid r.1) (mkUInt height) (hash32 outpoint.1) (mkUInt outpoint.2)
                      (Produced (script_hash tx_output, mkUInt r.2, mkUInt (value tx_output)))) runes
      | None => []
      end).

Definition utxos_by_rune_id (height : Z) (block : Block) (ctx : BlockContext) : Outs :=
  let '(_, chained) := chained_txos (txdata block) in
  reduce_txs
    (λ i, if decide (i ∈ chained) then Ok [] else utxos_rune_consumed ctx i)
    (λ o txo, if decide (o ∈ chained) then Ok [] else utxos_rune_produced ctx height o txo)
    (txdata block).

(** ** inscriptions_by_utxo.rs *)

Definition inscriptions_utxo_consumed (ctx : BlockContext) (input : TxoRef) : Outs :=
  Ok (match utxo_inscriptions ctx input with
      | Some _ => [InscriptionsByUtxo (hash32 input.1) (mkUInt input.2) Consumed]
      | None => []
      end).

(** At most 10000 inscriptions of an output are kept. *)
Definition kept_inscriptions (inscriptions : list (Z * InscriptionId)) : list (u32 * Ord) :=
  take (Z.to_nat 10000) (map (λ i, (mkUInt i.1, ord_of i.2)) inscriptions).

Definition inscriptions_utxo_produced (ctx : BlockContext) (outpoint : TxoRef) : Outs :=
  Ok (match utxo_inscriptions ctx outpoint with
      | Some inscriptions =>
          [InscriptionsByUtxo (hash32 outpoint.1) (mkUInt outpoint.2)
             (Produced (kept_inscriptions inscriptions))]
      | None => []
      end).

Definition inscriptions_by_utxo (block : Block) (ctx : BlockContext) : Outs :=
  reduce_txs (inscriptions_utxo_consumed ctx) (λ o _, inscriptions_utxo_produced ctx o)
    (txdata block).

(** ** inscriptions_by_script_hash.rs *)

Definition inscriptions_script_consumed (ctx : BlockContext) (input : TxoRef) : Outs :=
  with_utxo policy ctx input (λ u,
    map (λ i, InscriptionsByScriptHash (script_hash (cu_txo u)) (ord_of i.2) Consumed)
      (default [] (utxo_inscriptions ctx input))).

Definition inscriptions_script_produced (ctx : BlockContext) (height : Z) (output : TxoRef)
    (tx_output : TxOut) : Outs :=
  Ok (map (λ i, InscriptionsByScriptHash (script_hash tx_output) (ord_of i.2)
              (Produced (mkUInt height, (hash32 output.1, mkUInt output.2), mkUInt i.1)))
        (default [] (utxo_inscriptions ctx output))).

Definition inscriptions_by_script_hash (height : Z) (block : Block) (ctx : BlockContext) : Outs :=
  reduce_txs (inscriptions_script_consumed ctx) (inscriptions_script_produced ctx height)
    (txdata block).

(** ** inscription_utxos_by_script_hash.rs *)

Definition inscription_utxos_consumed (ctx : BlockContext) (input : TxoRef) : Outs :=
  with_utxo policy ctx input (λ u,
    match utxo_inscriptions ctx input with
    | Some _ =>
        [InscriptionUtxosByScriptHash (script_hash (cu_txo u)) (mkUInt (cu_height u))
           (hash32 input.1) (mkUInt input.2) Consumed]
    | None => []
    end).

Definition inscription_utxos_produced (ctx : BlockContext) (height : Z) (output : TxoRef)
    (tx_output : TxOut) : Outs :=
  Ok (match utxo_inscriptions ctx output with
      | Some inscriptions =>
          [InscriptionUtxosByScriptHash (script_hash tx_output) (mkUInt height) (hash32 output.1)
             (mkUInt output.2)
             (Produced (mkUInt (value tx_output), kept_inscriptions inscriptions))]
      | None => []
      end).

Definition inscription_utxos_by_script_hash (height : Z) (block : Block) (ctx : BlockContext)
  : Outs :=
  reduce_txs (inscription_utxos_consumed ctx) (inscription_utxos_produced ctx height)
    (txdata block).

(** ** content_by_inscription_id.rs *)

Definition content_by_inscription_id (block_height : Z) (block : Block) (ctx : BlockContext)
  : Outs :=
  concatM (λ tx,
    Ok (match new_inscriptions ctx (txid tx) with
        | Some (inscription_id, inscription_num, content_type, content_body) =>
            [ContentByInscriptionId (ord_of inscription_id) (mkUInt block_height)
               (mkUInt inscription_num) (map mkUInt content_type) (map mkUInt content_body)]
        | None => []
        end)) (txdata block).

(** ** script_by_script_hash.rs *)

Definition script_produced (tx_output : TxOut) : Outs :=
  Ok [ScriptByScriptHash (script_hash tx_output) (map mkUInt (script_pubkey tx_output))].

Definition script_by_script_hash (block : Block) : Outs :=
  concatM (λ tx, concatM script_produced (output tx)) (txdata block).

(** ** script_hash_by_address_payload_hash.rs *)

(** [address_script] is the script of [Address::from_script], when the script has
    an address. *)
Definition payload_produced (address_script : list Z → option (list Z)) (tx_output : TxOut) : Outs :=
  Ok (match address_script (script_pubkey tx_output) with
      | Some payload =>
          [ScriptHashByAddressPayloadHash (mkBytes (script_hash_of payload)) (script_hash tx_output)]
      | None => []
      end).

Definition script_hash_by_address_payload_hash (address_script : list Z → option (list Z))
    (block : Block) : Outs :=
  concatM (λ tx, concatM (payload_produced address_script) (output tx)) (txdata block).

(** ** balances_by_brc20.rs *)

(** [Inscription::from_transactions(vec![tx.clone()])]. *)
Definition own_inscription (tx : Transaction)
  : outcome WorkError Inscription.ParsedInscription :=
  match Inscription.from_transactions [tx] with Ok p => Ok p | _ => Panic end.

(** The token messages of the inscription a transaction reveals; the code does not
    look for those revealed over several transactions. *)
Definition own_messages (ctx : BlockContext) (tx : Transaction)
    (f : Inscription.Inscription → CtxMessage → Outs) : Outs :=
  parsed ← own_inscription tx;
  match parsed with
  | Inscription.Complete i =>
      match inscription_brc20s ctx (mkInscriptionId (txid tx) 0) with
      | Some actions => concatM (f i) actions
      | None => Ok []
      end
  | _ => Ok []
  end.

(** The transfers that the inscriptions of an input still stood for. *)
Definition transfers_of (ctx : BlockContext) (input : TxoRef)
    (inscriptions : list (Z * InscriptionId)) (f : list Z → Z → list Z → list ReducerOutput)
  : list ReducerOutput :=
  concat (map (λ i,
    concat (map (λ action,
      match action with
      | CtxTransfer tick amt op receiver => if decide (op = input) then f tick amt receiver else []
      | _ => []
      end) (default [] (inscription_brc20s ctx i.2)))) inscriptions).

Definition balances_brc20_consumed (ctx : BlockContext) (input : TxoRef) : Outs :=
  match utxo_inscriptions ctx input with
  | None => Ok []
  | Some inscriptions =>
      with_utxo policy ctx input (λ u,
        transfers_of ctx input inscriptions (λ tick amt receiver,
          [BalancesByBrc20 tick (script_hash (cu_txo u)) (Decrement amt);
           BalancesByBrc20 tick (mkBytes receiver) (Increment amt)]))
  end.

Definition balances_brc20_message (action : CtxMessage) : Outs :=
  Ok (match action with
      | CtxMint ticker amt receiver => [BalancesByBrc20 ticker (mkBytes receiver) (Increment amt)]
      | CtxDeploy _ | CtxTransferInit _ _ _ | CtxTransfer _ _ _ _ => []
      end).

Definition balances_by_brc20 (block : Block) (ctx : BlockContext) : Outs :=
  concatM (λ tx,
    ins ← concatM (balances_brc20_consumed ctx) (spent tx);
    outs ← own_messages ctx tx (λ _, balances_brc20_message);
    Ok (ins ++ outs)) (txdata block).

(** ** brc20_balances_by_script_hash.rs *)

Definition brc20_balances_consumed (ctx : BlockContext) (input : TxoRef) : Outs :=
  match utxo_inscriptions ctx input with
  | None => Ok []
  | Some inscriptions =>
      with_utxo policy ctx input (λ u,
        transfers_of ctx input inscriptions (λ tick amt receiver,
          [Brc20BalancesByScriptHash (script_hash (cu_txo u)) tick (Decrement amt) (Increment 0);
           Brc20BalancesByScriptHash (mkBytes receiver) tick (Increment amt) (Increment amt)]))
  end.

Definition brc20_balances_message (action : CtxMessage) : Outs :=
  Ok (match action with
      | CtxMint ticker amt receiver =>
          [Brc20BalancesByScriptHash (mkBytes receiver) ticker (Increment amt) (Increment amt)]
      | CtxTransferInit ticker amt receiver =>
          [Brc20BalancesByScriptHash (mkBytes receiver) ticker (Increment 0) (Decrement amt)]
      | CtxDeploy _ | CtxTransfer _ _ _ _ => []
      end).

Definition brc20_balances_by_script_hash (block : Block) (ctx : BlockContext) : Outs :=
  concatM (λ tx,
    ins ← concatM (brc20_balances_consumed ctx) (spent tx);
    outs ← own_messages ctx tx (λ _, brc20_balances_message);
    Ok (ins ++ outs)) (txdata block).

(** ** brc20_terms_by_ticker.rs *)

(** The reducer parses the deploy message again, and skips what it cannot parse. *)
Definition brc20_terms_message (to_lowercase : list Z → list Z)
    (json_message : list Z → option Brc20.RawProtocolMessage) (tx : Transaction)
    (i : Inscription.Inscription) (action : CtxMessage) : Outs :=
  match action with
  | CtxDeploy _ =>
      match Brc20.unparsed_message json_message i with
      | None => Ok []
      | Some raw =>
          match Brc20.DeployAction_parse to_lowercase raw with
          | Ok d =>
              Ok [Brc20TermsByTicker (Brc20.da_ticker d) (mkUInt (Brc20.da_max d))
                    (mkUInt (Brc20.da_limit d)) (mkUInt (Brc20.da_dec d)) (Brc20.da_self_mint d)
                    (hash32 (txid tx), mkUInt 0)]
          | Err _ => Ok []
          | Panic => Panic
          end
      end
  | _ => Ok []
  end.

Definition brc20_terms_by_ticker (to_lowercase : list Z → list Z)
    (json_message : list Z → option Brc20.RawProtocolMessage) (block : Block) (ctx : BlockContext)
  : Outs :=
  concatM (λ tx, own_messages ctx tx (brc20_terms_message to_lowercase json_message tx))
    (txdata block).

(** ** transfer_inscriptions_by_script_hash.rs *)

(** An action that is the first spending of the inscription resolves the input; a
    skipped missing output ends the whole input. *)
Fixpoint transfer_consumed (ctx : BlockContext) (input : TxoRef)
    (actions : list (InscriptionId * CtxMessage)) : Outs :=
  match actions with
  | [] => Ok []
  | (id, CtxTransfer ticker _ initial_utxo _) :: actions =>
      if decide (input = initial_utxo) then
        utxo ← or_panic (apply_policy (find_utxo ctx input) policy);
        match utxo with
        | None => Ok []
        | Some u =>
            rest ← transfer_consumed ctx input actions;
            Ok (TransferInscriptionsByScriptHash (script_hash (cu_txo u)) ticker (ord_of id) Consumed
                :: rest)
        end
      else transfer_consumed ctx input actions
  | _ :: actions => transfer_consumed ctx input actions
  end.

Definition transfer_inscriptions_consumed (ctx : BlockContext) (input : TxoRef) : Outs :=
  transfer_consumed ctx input
    (concat (map (λ i, map (pair i.2) (default [] (inscription_brc20s ctx i.2)))
               (default [] (utxo_inscriptions ctx input)))).

(** The output that holds the inscription, with its offset ([break 'find_output]). *)
Definition find_output (ctx : BlockContext) (tx : Transaction) (id : InscriptionId)
  : option (nat * TxOut * Z) :=
  head (concat (imap (λ idx txout,
    map (λ i, (idx, txout, i.1))
      (filter (λ i, i.2 = id) (default [] (utxo_inscriptions ctx (outpoint tx idx))))) (output tx))).

Definition transfer_inscriptions_message (ctx : BlockContext) (height : Z) (tx : Transaction)
    (action : CtxMessage) : Outs :=
  Ok (match action with
      | CtxTransferInit ticker amt receiver =>
          match find_output ctx tx (mkInscriptionId (txid tx) 0) with
          | Some (idx, txout, offset) =>
              [TransferInscriptionsByScriptHash (mkBytes receiver) ticker (hash32 (txid tx), mkUInt 0)
                 (Produced (mkUInt amt, mkUInt (value txout),
                            (hash32 (txid tx), mkUInt (wrap 32 (Z.of_nat idx))), mkUInt offset,
                            mkUInt height))]
          | None => []
          end
      | _ => []
      end).

Definition transfer_inscriptions_by_script_hash (height : Z) (block : Block) (ctx : BlockContext)
  : Outs :=
  concatM (λ tx,
    ins ← concatM (transfer_inscriptions_consumed ctx) (spent tx);
    outs ← concatM (transfer_inscriptions_message ctx height tx)
             (default [] (inscription_brc20s ctx (mkInscriptionId (txid tx) 0)));
    Ok (ins ++ outs)) (txdata block).

(** ** mints_by_rune_id.rs *)

(** [instructions] is [Script::instructions]. *)
Context (instructions : list Z → list (outcome script_error Instruction)).

Definition u32_idx (i : nat) : Z := wrap 32 (Z.of_nat i).

(** The claims whose index the context lists. *)
Definition reported_mints (ctx : BlockContext) (txidx : nat) (claims : list Z)
  : list ReducerOutput :=
  omap (λ '(edict_idx, id),
    match Dunes.DuneId_try_from id with
    | Some key =>
        if decide ((u32_idx txidx, u32_idx edict_idx) ∈ rune_mint_idxs ctx)
        then Some (MintsByRuneId (mkUInt (Dunes.height key), mkUInt (Dunes.index key)))
        else None
    | None => None
    end) (imap pair claims).

Definition mints_by_rune_id (block : Block) (ctx : BlockContext) : Outs :=
  let txs_with_mints := map fst (rune_mint_idxs ctx) in
  concatM (λ '(txidx, tx),
    Ok (match from_transaction instructions (output tx) with
        | Some dunestone =>
            if cenotaph dunestone then []
            else reported_mints ctx txidx (DunesUpdater.claims dunestone)
        | None => []
        end))
    (filter (λ p, u32_idx p.1 ∈ txs_with_mints) (imap pair (txdata block))).

(** ** rune_id_by_rune_name.rs *)

(** [rune_etch_idxs] collected in a hash map. *)
Definition name_map (ctx : BlockContext) : gmap Z Z :=
  foldl (λ m e, <[e.1 := e.2]> m) ∅ (rune_etch_idxs ctx).

Definition etching_txs (block : Block) (ctx : BlockContext) : list (nat * Transaction) :=
  filter (λ p, u32_idx p.1 ∈ map fst (rune_etch_idxs ctx)) (imap pair (txdata block)).

Definition rune_id_by_rune_name (height : Z) (block : Block) (ctx : BlockContext) : Outs :=
  concatM (λ '(idx, tx),
    Ok (match from_transaction instructions (output tx) with
        | Some d =>
            match etching d, name_map ctx !! u32_idx idx with
            | Some _, Some n => [RuneIdByRuneName (mkUInt n) (mkUInt height, mkUInt (u32_idx idx))]
            | _, _ => []
            end
        | None => []
        end)) (etching_txs block ctx).

(** ** etching_by_rune_id.rs *)

Definition uint {n} (x : option Z) : option (UInt n) := mkUInt <$> x.

Definition etching_info (name : option Z) (is_cenotaph : bool) (etch : Dunes.Etching) : EtchingInfo :=
  let terms := Dunes.e_terms etch in
  if is_cenotaph then
    mkEtchingInfo (uint name) (Some (mkUInt 0)) None (Some (mkUInt 0)) None None None None None None
      false
  else
    mkEtchingInfo (uint name) (uint (Dunes.e_spacers etch)) (uint (Dunes.e_symbol etch))
      (uint (Dunes.e_divisibility etch)) (uint (terms ≫= Dunes.t_cap))
      (uint (terms ≫= Dunes.t_limit)) (uint (terms ≫= λ t, (Dunes.t_height t).1))
      (uint (terms ≫= λ t, (Dunes.t_height t).2)) (uint (terms ≫= λ t, (Dunes.t_offset t).1))
      (uint (terms ≫= λ t, (Dunes.t_offset t).2)) (Dunes.e_turbo etch).

Definition etching_by_rune_id (height : Z) (block : Block) (ctx : BlockContext) : Outs :=
  concatM (λ '(idx, tx),
    Ok (match from_transaction instructions (output tx) with
        | Some d =>
            match etching d with
            | Some etch =>
                [EtchingByRuneId (mkUInt height, mkUInt (u32_idx idx)) (hash32 (txid tx))
                   (etching_info (name_map ctx !! u32_idx idx) (cenotaph d) etch) (cenotaph d)]
            | None => []
            end
        | None => []
        end)) (etching_txs block ctx).

(** ** mod.rs *)

(** [Config], and [Reducer], which [plugin] makes of it with the policy. *)
Inductive Config : Type :=
| CBalancesByBrc20 | CBalancesByRuneId | CBrc20BalancesByScriptHash | CBrc20TermsByTicker
| CEtchingByRuneId | CInscriptionUtxosByScriptHash | CContentByInscriptionId
| CInscriptionsByScriptHash | CInscriptionsByUtxo | CMintsByRuneId | CRuneBalancesByScriptHash
| CRuneIdByRuneName | CRunesByUtxo | CSatBalanceByScriptHash | CScriptByScriptHash
| CScriptHashByAddressPayloadHash | CTransferInscriptionsByScriptHash | CTxsByScriptHash
| CUtxosByRuneId | CUtxosByScriptHash.

Context (iter : Seen → list (list Z * list TxInvolvement)).
Context (address_script : list Z → option (list Z)).
Context (to_lowercase : list Z → list Z).
Context (json_message : list Z → option Brc20.RawProtocolMessage).

Definition reduce_block (reducer : Config) (height : Z) (block : Block) (ctx : BlockContext)
  : Outs :=
  match reducer with
  | CBalancesByBrc20 => balances_by_brc20 block ctx
  | CBalancesByRuneId => balances_by_rune_id block ctx
  | CBrc20BalancesByScriptHash => brc20_balances_by_script_hash block ctx
  | CBrc20TermsByTicker => brc20_terms_by_ticker to_lowercase json_message block ctx
  | CEtchingByRuneId => etching_by_rune_id height block ctx
  | CInscriptionUtxosByScriptHash => inscription_utxos_by_script_hash height block ctx
  | CContentByInscriptionId => content_by_inscription_id height block ctx
  | CInscriptionsByScriptHash => inscriptions_by_script_hash height block ctx
  | CInscriptionsByUtxo => inscriptions_by_utxo block ctx
  | CMintsByRuneId => mints_by_rune_id block ctx
  | CRuneBalancesByScriptHash => rune_balances_by_script_hash block ctx
  | CRuneIdByRuneName => rune_id_by_rune_name height block ctx
  | CRunesByUtxo => runes_by_utxo block ctx
  | CSatBalanceByScriptHash => sat_balance_by_script_hash block ctx
  | CScriptByScriptHash => script_by_script_hash block
  | CScriptHashByAddressPayloadHash => script_hash_by_address_payload_hash address_script block
  | CTransferInscriptionsByScriptHash => transfer_inscriptions_by_script_hash height block ctx
  | CTxsByScriptHash => txs_by_script_hash iter height block ctx
  | CUtxosByRuneId => utxos_by_rune_id height block ctx
  | CUtxosByScriptHash => utxos_by_script_hash height block ctx
  end.

(** ** worker.rs *)

Inductive EnrichedBlockPayload : Type :=
| EnrichedForward (point : Point) (block : list Z) (ctx : BlockContext) (mutable : bool)
| EnrichedBack (point : Point) (mutable : bool).

Record ReducersWorker : Type := mkReducersWorker {
  reducers : list Config;
  last_reduced : option (list Z);
}.

(** [decode] is [Block::consensus_decode], [now] the clock.  A previous hash that
    does not match is only logged. *)
Definition worker_reduce_block (decode : list Z → option Block) (now : Z) (w : ReducersWorker)
    (point : Point) (block : list Z) (ctx : BlockContext) (mutable : bool)
  : outcome WorkError (ReducersWorker * StorageActionPayload) :=
  block ← or_panic (ok_or Encoding (decode block));
  outputs ← concatM (λ r, reduce_block r (pt_height point) block ctx) (reducers w);
  Ok (mkReducersWorker (reducers w) (Some (pt_hash point)),
      RollForward point (outputs ++ [Cursor point false (mkUInt (wrap 64 now))]) mutable false).

Definition worker_execute (decode : list Z → option Block) (now : Z) (w : ReducersWorker)
    (unit_ : EnrichedBlockPayload) : outcome WorkError (ReducersWorker * StorageActionPayload) :=
  match unit_ with
  | EnrichedForward point block ctx mutable =>
      worker_reduce_block decode now w point block ctx mutable
  | EnrichedBack point mutable =>
      Ok (mkReducersWorker (reducers w) (Some (pt_hash point)), RollBack point mutable)
  end.

End reducers.

End Reducers.
