(* ===== verification/ReducerLaws.v ===== *)
(** What the reducers report is what the block does: balances and outputs by
    script follow the set of unspent outputs, the tables by holder and by token
    agree, the mints reported are those the compressor counted, and every batch
    the storage stage flushes has a cursor. *)

From S2P Require Import Prelude Dunes Dunestone Types DunesUpdater Brc20 Timbre Crosscut StorageAction ReducerOutput TikvWorker TikvRefinement Reducers.
Import Dunestone Types Timbre Crosscut StorageAction ReducerOutput TikvWorker TikvRefinement Reducers.

Module ReducerLaws.

Implicit Types (op : TxoRef) (tx : Transaction) (txs : list Transaction) (ctx : BlockContext).

(** ** Loops *)

Lemma elem_of_concat {A} (x : A) (ls : list (list A)) :
  x ∈ concat ls ↔ ∃ l, x ∈ l ∧ l ∈ ls.
Proof.
  induction ls as [|l0 ls IH]; cbn [concat].
  - split; [by intros ?%not_elem_of_nil|]. intros (l & _ & Hl). by apply not_elem_of_nil in Hl.
  - rewrite elem_of_app, IH. split.
    + intros [Hx|(l & Hx & Hl)]; [exists l0|exists l]; split; try done; [by left|by right].
    + intros (l & Hx & [->|Hl]%elem_of_cons); [by left|right; by exists l].
Qed.

Lemma concatM_Ok {A} (f : A → Outs) (g : A → list ReducerOutput) (l : list A) :
  (∀ a, a ∈ l → f a = Ok (g a)) → concatM f l = Ok (concat (map g l)).
Proof.
  induction l as [|a l IH]; intros H; [done|]. cbn [concatM map concat].
  rewrite H by (by left). cbn [mbind outcome_bind].
  rewrite IH by (intros; apply H; by right). done.
Qed.

Lemma reduce_txs_cons consumed produced tx txs ins outs rest :
  concatM consumed (spent tx) = Ok ins →
  concatM (λ o, produced o.1 o.2) (outpoints tx) = Ok outs →
  reduce_txs consumed produced txs = Ok rest →
  reduce_txs consumed produced (tx :: txs) = Ok ((ins ++ outs) ++ rest).
Proof.
  intros Hi Ho Hr. unfold reduce_txs in *. cbn [concatM]. rewrite Hr.
  unfold reduce_tx. by rewrite Hi, Ho.
Qed.

(** Two loops whose bodies agree, up to [R], agree. *)
Lemma concatM_related {A} (R : list ReducerOutput → list ReducerOutput → Prop) (f g : A → Outs) l outs :
  R [] [] → (∀ o1 o1' o2 o2', R o1 o1' → R o2 o2' → R (o1 ++ o2) (o1' ++ o2')) →
  (∀ a o, a ∈ l → f a = Ok o → ∃ o', g a = Ok o' ∧ R o o') →
  concatM f l = Ok outs → ∃ outs', concatM g l = Ok outs' ∧ R outs outs'.
Proof.
  intros Hnil Happ. revert outs. induction l as [|a l IH]; intros outs H E; cbn [concatM] in *.
  { injection E as <-. by exists []. }
  destruct (f a) as [o| |] eqn:Ef; [|done|done]. cbn [mbind outcome_bind] in E.
  destruct (concatM f l) as [rest| |] eqn:El; [|done|done]. injection E as <-.
  destruct (H a o) as (o' & Eg & Ho); [by left|done|].
  destruct (IH rest) as (rest' & Er & Hr); [|done|].
  { intros b o0 Hb. apply H. by right. }
  rewrite Eg. cbn [mbind outcome_bind]. rewrite Er. cbn [mbind outcome_bind]. eauto.
Qed.

(** ** Holders and tokens *)

Definition rune_change (o : ReducerOutput) : option (Rid * Hash20 * IncrOrDecr Z) :=
  match o with
  | BalancesByRuneId r h d => Some (r, h, d)
  | RuneBalancesByScriptHash h r d => Some (r, h, d)
  | _ => None
  end.

(** Increments by 0 change nothing. *)
Definition brc20_change (o : ReducerOutput) : option (list Z * Hash20 * IncrOrDecr Z) :=
  let change t h d := match d with Increment 0 => None | _ => Some (t, h, d) end in
  match o with
  | BalancesByBrc20 t h d => change t h d
  | Brc20BalancesByScriptHash h t d _ => change t h d
  | _ => None
  end.

(** The same changes, in the same order. *)
Definition same_changes {C} (change : ReducerOutput → option C) (o o' : list ReducerOutput) : Prop :=
  omap change o = omap change o'.

Section related.
Context {C : Type} (change : ReducerOutput → option C).

Lemma same_changes_app o1 o1' o2 o2' :
  same_changes change o1 o1' → same_changes change o2 o2' →
  same_changes change (o1 ++ o2) (o1' ++ o2').
Proof. unfold same_changes. intros H1 H2. by rewrite !omap_app, H1, H2. Qed.

Lemma concatM_same {A} (f g : A → Outs) l outs :
  (∀ a o, a ∈ l → f a = Ok o → ∃ o', g a = Ok o' ∧ same_changes change o o') →
  concatM f l = Ok outs → ∃ outs', concatM g l = Ok outs' ∧ same_changes change outs outs'.
Proof. apply concatM_related; [done|apply same_changes_app]. Qed.

Lemma bind_same (m m' k k' : Outs) outs :
  (∀ o, m = Ok o → ∃ o', m' = Ok o' ∧ same_changes change o o') →
  (∀ o, k = Ok o → ∃ o', k' = Ok o' ∧ same_changes change o o') →
  (ins ← m; outs ← k; Ok (ins ++ outs)) = Ok outs →
  ∃ outs', (ins ← m'; outs ← k'; Ok (ins ++ outs)) = Ok outs' ∧ same_changes change outs outs'.
Proof.
  intros Hm Hk E. destruct m as [o| |]; [|done|done]. destruct k as [o2| |]; [|done|done].
  injection E as <-. destruct (Hm o eq_refl) as (o' & -> & Ho).
  destruct (Hk o2 eq_refl) as (o2' & -> & Ho2). eexists. split; [done|]. by apply same_changes_app.
Qed.

Lemma reduce_txs_same consumed consumed' produced produced' txs outs :
  (∀ i o, consumed i = Ok o → ∃ o', consumed' i = Ok o' ∧ same_changes change o o') →
  (∀ i t o, produced i t = Ok o → ∃ o', produced' i t = Ok o' ∧ same_changes change o o') →
  reduce_txs consumed produced txs = Ok outs →
  ∃ outs', reduce_txs consumed' produced' txs = Ok outs' ∧ same_changes change outs outs'.
Proof.
  intros Hc Hp. apply concatM_same. intros tx o _. unfold reduce_tx.
  apply bind_same; intros o0; apply concatM_same; intros; [by apply Hc|by apply Hp].
Qed.

Lemma with_utxo_same policy ctx op (f g : ContextUtxo → list ReducerOutput) o :
  (∀ u, same_changes change (f u) (g u)) → with_utxo policy ctx op f = Ok o →
  ∃ o', with_utxo policy ctx op g = Ok o' ∧ same_changes change o o'.
Proof.
  intros H. unfold with_utxo.
  destruct (or_panic (apply_policy (find_utxo ctx op) policy)) as [[u|]| |]; cbn; try done;
    intros [= <-]; eexists; (split; [done|]); [apply H|done].
Qed.

End related.

Lemma omap_map {A B C} (f : B → option C) (g : A → B) (l : list A) :
  omap f (map g l) = omap (λ a, f (g a)) l.
Proof. induction l as [|a l IH]; [done|]. cbn. by rewrite IH. Qed.

(** Each unspent output with the height it was created at. *)
Abbreviation Utxos := (gmap TxoRef (Z * TxOut)).

Section laws.
Context (script_hash_of : list Z → list Z) (policy : RuntimePolicy).

Lemma transfers_same ctx op inscriptions (f g : list Z → Z → list Z → list ReducerOutput) :
  (∀ t a r, same_changes brc20_change (f t a r) (g t a r)) →
  same_changes brc20_change (transfers_of ctx op inscriptions f) (transfers_of ctx op inscriptions g).
Proof.
  intros H. unfold transfers_of. induction inscriptions as [|i l IH]; [done|]. cbn [map concat].
  apply same_changes_app; [|done]. induction (default [] _) as [|a as_ IHa]; [done|]. cbn [map concat].
  apply same_changes_app; [|done]. destruct a; try done. by destruct (decide _).
Qed.

(** C27: the tables by holder and the tables by token agree.  Whenever the reducer
    of rune balances by script succeeds on a block, the reducer of balances by
    rune succeeds too and reports the same changes, in the same order; and so do
    the two reducers of token balances, but for the increments by 0 that only one
    of them reports. *)
Theorem token_tables_agree (block : Block) (ctx : BlockContext) :
  (∀ outs, rune_balances_by_script_hash script_hash_of policy block ctx = Ok outs →
    ∃ outs', balances_by_rune_id script_hash_of policy block ctx = Ok outs'
      ∧ same_changes rune_change outs outs')
  ∧ (∀ outs, brc20_balances_by_script_hash script_hash_of policy block ctx = Ok outs →
    ∃ outs', balances_by_brc20 script_hash_of policy block ctx = Ok outs'
      ∧ same_changes brc20_change outs outs').
Proof.
  split; intros outs.
  - apply reduce_txs_same.
    + intros i o. unfold rune_balances_consumed, balances_rune_consumed.
      destruct (utxo_runes ctx i) as [runes|].
      * apply with_utxo_same. intros u. unfold same_changes. by rewrite !omap_map.
      * unfold with_utxo. destruct (or_panic _) as [[u|]| |]; cbn; try done; intros [= <-]; by exists [].
    + intros i t o [= <-]. unfold balances_rune_produced. eexists. split; [done|].
      destruct (utxo_runes ctx i); [|done]. unfold same_changes. cbn [default from_option id].
      by rewrite !omap_map.
  - unfold brc20_balances_by_script_hash, balances_by_brc20. apply concatM_same. intros tx o _.
    apply bind_same; intros o0.
    + apply concatM_same. intros i o1 _. unfold brc20_balances_consumed, balances_brc20_consumed.
      destruct (utxo_inscriptions ctx i) as [l|]; [|intros [= <-]; by exists []].
      apply with_utxo_same. intros u. apply transfers_same. done.
    + unfold own_messages. destruct (own_inscription tx) as [[| |]| |]; cbn; try done;
        try (intros [= <-]; by exists []).
      destruct (inscription_brc20s ctx _) as [l|]; [|intros [= <-]; by exists []].
      apply concatM_same. intros a o1 _ [= <-]. eexists. split; [done|]. by destruct a.
Qed.

(** ** The set of unspent outputs *)

Definition spend (ops : list TxoRef) (U : Utxos) : Utxos := foldl (λ U op, delete op U) U ops.

Definition create (height : Z) (outs : list (TxoRef * TxOut)) (U : Utxos) : Utxos :=
  foldl (λ U o, <[o.1 := (height, o.2)]> U) U outs.

Definition apply_tx (height : Z) (tx : Transaction) (U : Utxos) : Utxos :=
  create height (outpoints tx) (spend (spent tx) U).

(** The inputs of a transaction are distinct unspent outputs that the context
    resolves, its outputs are new. *)
Record tx_valid (ctx : BlockContext) (tx : Transaction) (U : Utxos) : Prop := {
  tv_inputs : ∀ op, op ∈ spent tx →
    ∃ u, find_utxo ctx op = Ok u ∧ U !! op = Some (cu_height u, cu_txo u);
  tv_distinct : NoDup (spent tx);
  tv_outputs : ∀ o, o ∈ outpoints tx → U !! o.1 = None;
  tv_new : NoDup (map fst (outpoints tx));
}.

Inductive applies (ctx : BlockContext) (height : Z) : list Transaction → Utxos → Utxos → Prop :=
| applies_nil U : applies ctx height [] U U
| applies_cons tx txs U U' :
    tx_valid ctx tx U → applies ctx height txs (apply_tx height tx U) U' →
    applies ctx height (tx :: txs) U U'.

Definition held (h : list Z) (e : Z * TxOut) : Z :=
  if decide (script_hash_of (script_pubkey e.2) = h) then value e.2 else 0.

(** What the unspent outputs of a script sum to. *)
Definition balance (h : list Z) (U : Utxos) : Z := map_fold (λ _ e acc, held h e + acc) 0 U.

Lemma balance_insert h U op e :
  U !! op = None → balance h (<[op := e]> U) = held h e + balance h U.
Proof. intros H. unfold balance. rewrite map_fold_insert_L; [done| |done]. intros. lia. Qed.

Lemma balance_delete h U op e :
  U !! op = Some e → balance h (delete op U) = balance h U - held h e.
Proof.
  intros H. rewrite <- (insert_delete_id U op e H) at 2.
  rewrite balance_insert by apply lookup_delete_eq. lia.
Qed.

(** What an output changes in the balance of a script. *)
Definition sat_change (h : list Z) (o : ReducerOutput) : Z :=
  match o with
  | SatBalanceByScriptHash s d =>
      if decide (bytes_of s = h) then match d with Increment x => x | Decrement x => - x end else 0
  | _ => 0
  end.

Definition net (f : ReducerOutput → Z) (outs : list ReducerOutput) : Z := foldr Z.add 0 (map f outs).

Lemma net_app f l l' : net f (l ++ l') = net f l + net f l'.
Proof. unfold net. rewrite map_app. induction (map f l) as [|x xs IH]; cbn; [done|]. lia. Qed.

Lemma with_utxo_found p ctx op u f : find_utxo ctx op = Ok u → with_utxo p ctx op f = Ok (f u).
Proof. unfold with_utxo. by intros ->. Qed.

Lemma spend_balance ctx ops U :
  NoDup ops → (∀ op, op ∈ ops → ∃ u, find_utxo ctx op = Ok u ∧ U !! op = Some (cu_height u, cu_txo u)) →
  ∃ outs, concatM (sat_balance_consumed script_hash_of policy ctx) ops = Ok outs
    ∧ ∀ h, net (sat_change h) outs = balance h (spend ops U) - balance h U.
Proof.
  intros Hnd. revert U. induction Hnd as [|op ops Hni _ IH]; intros U H.
  { exists []. split; [done|]. intros h. cbn. lia. }
  destruct (H op) as (u & Hu & HU); [by left|].
  destruct (IH (delete op U)) as (outs & E & Hnet).
  { intros op' Hop'. destruct (H op') as (u' & Hu' & HU'); [by right|]. exists u'. split; [done|].
    rewrite lookup_delete_ne; [done|]. by intros ->. }
  cbn [concatM].
  rewrite (with_utxo_found policy ctx op u _ Hu
    : sat_balance_consumed script_hash_of policy ctx op = _).
  cbn [mbind outcome_bind]. rewrite E. cbn [mbind outcome_bind]. eexists. split; [done|]. intros h. rewrite net_app, Hnet.
  change (spend (op :: ops) U) with (spend ops (delete op U)). rewrite (balance_delete h U op _ HU).
  unfold net, sat_change, held, script_hash. cbn. destruct (decide _); lia.
Qed.

Lemma create_balance height (outs : list (TxoRef * TxOut)) U :
  NoDup (map fst outs) → (∀ o, o ∈ outs → U !! o.1 = None) →
  ∃ l, concatM (λ o, sat_balance_produced script_hash_of o.2) outs = Ok l
    ∧ ∀ h, net (sat_change h) l = balance h (create height outs U) - balance h U.
Proof.
  revert U. induction outs as [|o outs IH]; intros U Hnd H.
  { exists []. split; [done|]. intros h. cbn. lia. }
  apply NoDup_cons in Hnd as [Hni Hnd].
  destruct (IH (<[o.1 := (height, o.2)]> U)) as (l & E & Hnet); [done| |].
  { intros o' Ho'. rewrite lookup_insert_ne; [apply H; by right|]. intros Heq. apply Hni.
    rewrite Heq. by apply list_elem_of_fmap_2. }
  cbn [concatM]. rewrite E.
  cbn [mbind outcome_bind]. eexists. split; [done|]. intros h. rewrite net_app, Hnet.
  change (create height (o :: outs) U) with (create height outs (<[o.1 := (height, o.2)]> U)).
  rewrite balance_insert by (apply H; by left).
  unfold net, sat_change, held, script_hash. cbn. destruct (decide _); lia.
Qed.

Lemma lookup_spend ops U op : spend ops U !! op = if decide (op ∈ ops) then None else U !! op.
Proof.
  unfold spend. revert U. induction ops as [|o ops IH]; intros U; cbn [foldl].
  { by rewrite decide_False by apply not_elem_of_nil. }
  rewrite IH. destruct (decide (op ∈ ops)) as [Hin|Hni].
  - by rewrite decide_True by (by right).
  - destruct (decide (op = o)) as [->|Hne].
    + rewrite lookup_delete_eq. by rewrite decide_True by (by left).
    + rewrite lookup_delete_ne by done. rewrite decide_False; [done|].
      by intros [?|?]%elem_of_cons.
Qed.

(** C14: balances follow unspent outputs.  On a block that spends existing outputs
    once each and creates new ones, the reducer of balances succeeds, and the
    changes it reports for a script add up to the difference between what the
    unspent outputs of that script sum to after the block and before it. *)
Theorem sat_balance_follows_utxos (block : Block) (ctx : BlockContext) (height : Z) (U U' : Utxos) :
  applies ctx height (txdata block) U U' →
  ∃ outs, sat_balance_by_script_hash script_hash_of policy block ctx = Ok outs
    ∧ ∀ h, net (sat_change h) outs = balance h U' - balance h U.
Proof.
  unfold sat_balance_by_script_hash.
  induction 1 as [U|tx txs U U' [Hin Hnd Hout Hnew] _ (outs & E & Hnet)].
  { exists []. split; [done|]. intros h. cbn. lia. }
  destruct (spend_balance ctx (spent tx) U Hnd Hin) as (ins & Ei & Hi).
  destruct (create_balance height (outpoints tx) (spend (spent tx) U) Hnew) as (crs & Ec & Hc).
  { intros o Ho. rewrite lookup_spend. destruct (decide _); [done|by apply Hout]. }
  eexists. split; [by apply reduce_txs_cons|]. intros h. rewrite !net_app, Hi, Hc, Hnet. unfold apply_tx. lia.
Qed.

(** ** The table of unspent outputs *)

Context (n : Namespace).
Hypothesis script_hash_len : ∀ s, length (script_hash_of s) = 20%nat.

Definition row_key (op : TxoRef) (e : Z * TxOut) : Key :=
  Prefix_data n Timbre.UtxosByScriptHash
    (mkUtxoKey (script_hash script_hash_of e.2) (mkUInt e.1) (hash32 op.1) (mkUInt op.2)).

Definition row_value (e : Z * TxOut) : Value := encode (mkUInt (value e.2) : UtxosByScriptHash_Value).

Definition op_ok (op : TxoRef) : Prop := in_range 256 op.1 ∧ in_range 32 op.2.

Definition utxos_ok (U : Utxos) : Prop :=
  ∀ op e, U !! op = Some e → op_ok op ∧ in_range 64 e.1.

(** The rows of the store are the unspent outputs but for those of [C]. *)
Definition stored_but (C : list TxoRef) (s : Store) (U : Utxos) : Prop :=
  ∀ (uk : UtxoKey) (v : Value),
    s !! (Prefix_data n Timbre.UtxosByScriptHash uk) = Some v ↔
    ∃ op e, (op ∉ C) ∧ U !! op = Some e ∧ v = row_value e
      ∧ Prefix_data n Timbre.UtxosByScriptHash uk = row_key op e.

Definition stored : Store → Utxos → Prop := stored_but [].

Lemma Prefix_data_inj `{Lawful A} kind (a b : A) :
  valid a → valid b → Prefix_data n kind a = Prefix_data n kind b → a = b.
Proof.
  intros Ha Hb E. unfold Prefix_data, append in E. apply app_inv_head in E.
  by destruct (encode_app_inj a b [] [] Ha Hb) as [-> _]; [rewrite !app_nil_r|].
Qed.

Lemma row_valid op e :
  op_ok op → in_range 64 e.1 →
  valid (mkUtxoKey (script_hash script_hash_of e.2) (mkUInt e.1) (hash32 op.1) (mkUInt op.2)).
Proof using script_hash_len.
  intros [_ H2] He. repeat split; cbn; first [apply script_hash_len|apply He|apply H2].
Qed.

Lemma row_key_inj op op' e e' :
  op_ok op → op_ok op' → in_range 64 e.1 → in_range 64 e'.1 →
  row_key op e = row_key op' e' → op = op'.
Proof using script_hash_len.
  intros Hop Hop' He He' E. apply Prefix_data_inj in E; [|by apply row_valid..].
  pose proof (f_equal (λ k, of_be_bytes (bytes_of (uk_utxo_hash k))) E) as Eh.
  pose proof (f_equal (λ k, uint_value (uk_utxo_index k)) E) as Ei.
  cbn [uk_utxo_hash uk_utxo_index uint_value bytes_of hash32] in Eh, Ei.
  rewrite !of_be_be_bytes_small in Eh by (apply Hop || apply Hop').
  destruct op, op'. cbn in *. by subst.
Qed.

Lemma ops_from acc l0 outs ops :
  let f := λ ops o, l ← reducer_output_to_storage_ops n o; Ok (ops ++ l) in
  foldM f l0 outs = Ok ops → foldM f (acc ++ l0) outs = Ok (acc ++ ops).
Proof.
  intros f. revert l0. induction outs as [|o outs IH]; intros l0; cbn [foldM].
  - by intros [= <-].
  - unfold f at 1 3. destruct (reducer_output_to_storage_ops n o) as [l| |]; [|done|done].
    cbn [mbind outcome_bind]. rewrite <- app_assoc. apply IH.
Qed.

Lemma ops_app outs outs' ops ops' :
  outputs_to_storage_ops n outs = Ok ops → outputs_to_storage_ops n outs' = Ok ops' →
  outputs_to_storage_ops n (outs ++ outs') = Ok (ops ++ ops').
Proof.
  intros E E'. unfold outputs_to_storage_ops at 1. rewrite foldM_app.
  fold (outputs_to_storage_ops n outs). rewrite E. cbn [mbind outcome_bind].
  rewrite <- (app_nil_r ops) at 1. by apply ops_from.
Qed.

Lemma utxos_ok_delete U op : utxos_ok U → utxos_ok (delete op U).
Proof. intros H op' e [_ He]%lookup_delete_Some. by apply H. Qed.

Lemma utxos_ok_insert U op e :
  utxos_ok U → op_ok op → in_range 64 e.1 → utxos_ok (<[op := e]> U).
Proof. intros H Hop He op' e' [[<- <-]|[_ ?]]%lookup_insert_Some; [done|by apply H]. Qed.

Lemma stored_spend C s U op e :
  utxos_ok U → stored_but C s U → U !! op = Some e →
  stored_but C (if decide (op ∈ C) then s else delete (row_key op e) s) (delete op U).
Proof using script_hash_len.
  intros Hok Hs HU uk v. destruct (Hok op e HU) as [Hop He].
  destruct (decide (op ∈ C)) as [HC|HC].
  - rewrite (Hs uk v). split; intros (op' & e' & Hni & HU' & Hrow); exists op', e'.
    + split; [done|]. rewrite lookup_delete_ne; [done|]. by intros <-.
    + apply lookup_delete_Some in HU' as [_ HU']. done.
  - rewrite lookup_delete_Some, (Hs uk v). split.
    + intros (Hne & op' & e' & Hni & HU' & -> & Hrow). exists op', e'. split; [done|].
      rewrite lookup_delete_ne; [done|]. intros <-. apply Hne. congruence.
    + intros (op' & e' & Hni & [Hne HU']%lookup_delete_Some & -> & Hrow).
      split; [|by exists op', e']. intros Heq. apply Hne.
      destruct (Hok op' e' HU') as [Hop' He']. eapply row_key_inj; [exact Hop|exact Hop'|exact He|exact He'|].
      congruence.
Qed.

Lemma stored_create C s U op e :
  utxos_ok U → op_ok op → in_range 64 e.1 → stored_but C s U → U !! op = None →
  stored_but C (if decide (op ∈ C) then s else <[row_key op e := row_value e]> s) (<[op := e]> U).
Proof using script_hash_len.
  intros Hok Hop He Hs HU uk v. destruct (decide (op ∈ C)) as [HC|HC].
  - rewrite (Hs uk v). split; intros (op' & e' & Hni & HU' & Hrow); exists op', e'.
    + split; [done|]. rewrite lookup_insert_ne; [done|]. by intros <-.
    + rewrite lookup_insert_ne in HU' by (by intros <-). done.
  - rewrite lookup_insert_Some, (Hs uk v). split.
    + intros [[Hk <-]|(Hne & op' & e' & Hni & HU' & -> & Hrow)].
      * exists op, e. by rewrite lookup_insert_eq.
      * exists op', e'. split; [done|]. rewrite lookup_insert_ne; [done|]. intros <-. congruence.
    + intros (op' & e' & Hni & [[<- <-]|[Hne HU']]%lookup_insert_Some & -> & Hrow); [by left|].
      right. split; [|by exists op', e']. intros Heq. apply Hne.
      destruct (Hok op' e' HU') as [Hop' He']. eapply row_key_inj; [exact Hop|exact Hop'|exact He|exact He'|].
      congruence.
Qed.

(** What a reducer reports, turned into actions and executed. *)
Definition reports (m : Outs) (s s' : Store) : Prop :=
  ∃ outs ops, m = Ok outs ∧ outputs_to_storage_ops n outs = Ok ops ∧ puts s ops = s'.

Lemma reports_nil s : reports (Ok []) s s.
Proof. by exists [], []. Qed.

Lemma reports_cons {A} (f : A → Outs) a l s1 s2 s3 :
  reports (f a) s1 s2 → reports (concatM f l) s2 s3 → reports (concatM f (a :: l)) s1 s3.
Proof.
  intros (o & p & Ef & Ep & <-) (o' & p' & Ef' & Ep' & <-). exists (o ++ o'), (p ++ p').
  cbn [concatM]. rewrite Ef. cbn [mbind outcome_bind]. rewrite Ef'. split; [done|].
  split; [by apply ops_app|apply puts_app].
Qed.

Lemma reports_tx consumed produced tx s1 s2 s3 :
  reports (concatM consumed (spent tx)) s1 s2 →
  reports (concatM (λ o, produced o.1 o.2) (outpoints tx)) s2 s3 →
  reports (reduce_tx consumed produced tx) s1 s3.
Proof.
  intros (o & p & Ef & Ep & <-) (o' & p' & Ef' & Ep' & <-). exists (o ++ o'), (p ++ p').
  unfold reduce_tx. rewrite Ef. cbn [mbind outcome_bind]. rewrite Ef'. split; [done|].
  split; [by apply ops_app|apply puts_app].
Qed.

Definition consumed_but (C : list TxoRef) (ctx : BlockContext) (i : TxoRef) : Outs :=
  if decide (i ∈ C) then Ok [] else utxos_consumed script_hash_of policy ctx i.
Definition produced_but (C : list TxoRef) (height : Z) (o : TxoRef) (txo : TxOut) : Outs :=
  if decide (o ∈ C) then Ok [] else utxos_produced script_hash_of height o txo.

Lemma reports_spend C ctx ops s U :
  NoDup ops → (∀ op, op ∈ ops → ∃ u, find_utxo ctx op = Ok u ∧ U !! op = Some (cu_height u, cu_txo u)) →
  utxos_ok U → stored_but C s U →
  ∃ s', reports (concatM (consumed_but C ctx) ops) s s' ∧ stored_but C s' (spend ops U)
    ∧ utxos_ok (spend ops U).
Proof using script_hash_len.
  intros Hnd. revert s U. induction Hnd as [|op ops Hni _ IH]; intros s U H Hok Hs.
  { exists s. split; [apply reports_nil|done]. }
  destruct (H op) as (u & Hu & HU); [by left|].
  pose (s1 := if decide (op ∈ C) then s else delete (row_key op (cu_height u, cu_txo u)) s).
  assert (stored_but C s1 (delete op U)) as Hs1 by (by apply stored_spend).
  destruct (IH s1 (delete op U)) as (s' & Hr & Hs' & Hok'); [|by apply utxos_ok_delete|exact Hs1|].
  { intros op' Hop'. destruct (H op') as (u' & Hu' & HU'); [by right|]. exists u'. split; [done|].
    rewrite lookup_delete_ne; [done|]. by intros ->. }
  exists s'. split; [|done]. apply (reports_cons _ _ _ s s1); [|exact Hr]. unfold consumed_but, s1.
  destruct (decide (op ∈ C)); [apply reports_nil|]. unfold utxos_consumed.
  rewrite (with_utxo_found policy ctx op u _ Hu). eexists _, _. split; [done|]. by split.
Qed.

Lemma reports_create C height (outs : list (TxoRef * TxOut)) s U :
  NoDup (map fst outs) → (∀ o, o ∈ outs → U !! o.1 = None ∧ op_ok o.1) → in_range 64 height →
  utxos_ok U → stored_but C s U →
  ∃ s', reports (concatM (λ o, produced_but C height o.1 o.2) outs) s s'
    ∧ stored_but C s' (create height outs U) ∧ utxos_ok (create height outs U).
Proof using script_hash_len.
  revert s U. induction outs as [|o outs IH]; intros s U Hnd H Hh Hok Hs.
  { exists s. split; [apply reports_nil|done]. }
  apply NoDup_cons in Hnd as [Hni Hnd]. destruct (H o) as [HU Hop]; [by left|].
  pose (s1 := if decide (o.1 ∈ C) then s
              else <[row_key o.1 (height, o.2) := row_value (height, o.2)]> s).
  assert (stored_but C s1 (<[o.1 := (height, o.2)]> U)) as Hs1 by (by apply stored_create).
  destruct (IH s1 (<[o.1 := (height, o.2)]> U) Hnd) as (s' & Hr & Hs' & Hok');
    [|exact Hh|by apply utxos_ok_insert|exact Hs1|].
  { intros o' Ho'. destruct (H o') as [HU' Hop']; [by right|]. split; [|done].
    rewrite lookup_insert_ne; [done|]. intros Heq. apply Hni. rewrite Heq. by apply list_elem_of_fmap_2. }
  exists s'. split; [|done]. apply (reports_cons _ _ _ s s1); [|exact Hr]. unfold produced_but, s1.
  destruct (decide (o.1 ∈ C)); [apply reports_nil|]. eexists _, _. split; [done|]. by split.
Qed.

Definition produced (txs : list Transaction) : list TxoRef :=
  concat (map (λ tx, map fst (outpoints tx)) txs).

Definition txid_ok (tx : Transaction) : Prop := in_range 256 (txid tx) ∧ txid tx ≠ 0.

Lemma outpoint_ok tx o : txid_ok tx → o ∈ outpoints tx → op_ok o.1 ∧ o.1.1 = txid tx.
Proof.
  intros [Ht _] Ho. unfold outpoints in Ho. apply elem_of_lookup_imap in Ho as (i & txo & -> & _).
  split; [split; [done|apply wrap_range; lia]|done].
Qed.

Lemma applies_reports C ctx height txs s U U' :
  applies ctx height txs U U' → Forall txid_ok txs → in_range 64 height → utxos_ok U →
  stored_but C s U →
  ∃ s', reports (reduce_txs (consumed_but C ctx) (produced_but C height) txs) s s' ∧ stored_but C s' U'.
Proof using script_hash_len.
  intros Happ. revert s. induction Happ as [U|tx txs U U' [Hin Hnd Hout Hnew] _ IH];
    intros s Htxs Hh Hok Hs.
  { exists s. split; [apply reports_nil|done]. }
  apply Forall_cons in Htxs as [Htx Htxs].
  destruct (reports_spend C ctx (spent tx) s U) as (s1 & Hr1 & Hs1 & Hok1); [done..|].
  destruct (reports_create C height (outpoints tx) s1 (spend (spent tx) U))
    as (s2 & Hr2 & Hs2 & Hok2); try done.
  { intros o Ho. split; [|by eapply outpoint_ok]. rewrite lookup_spend.
    destruct (decide _); [done|by apply Hout]. }
  destruct (IH s2) as (s3 & Hr3 & Hs3); [done..|]. exists s3. split; [|done].
  eapply reports_cons; [|exact Hr3]. by eapply reports_tx.
Qed.

Lemma lookup_create height outs U op :
  op ∉ map fst outs → create height outs U !! op = U !! op.
Proof.
  unfold create. revert U. induction outs as [|o outs IH]; intros U Hni; [done|].
  apply not_elem_of_cons in Hni as [Hne Hni]. cbn [foldl]. rewrite IH by done.
  by rewrite lookup_insert_ne.
Qed.

(** An output that is never created again stays spent. *)
Lemma applies_absent ctx height txs U U' op :
  applies ctx height txs U U' → op ∉ produced txs → U !! op = None → U' !! op = None.
Proof.
  induction 1 as [U|tx txs U U' _ _ IH]; intros Hni HU; [done|].
  cbn in Hni. apply not_elem_of_app in Hni as [Hni1 Hni2]. apply IH; [done|].
  unfold apply_tx. rewrite lookup_create by done. rewrite lookup_spend. by destruct (decide _).
Qed.

Lemma applies_spent ctx height txs U U' op :
  applies ctx height txs U U' → op ∉ produced txs → op ∈ concat (map spent txs) → U' !! op = None.
Proof.
  intros Happ. induction Happ as [U|tx txs U U' _ Happ IH]; intros Hni Hin.
  { by apply not_elem_of_nil in Hin. }
  cbn in Hni, Hin. apply not_elem_of_app in Hni as [Hni1 Hni2].
  apply elem_of_app in Hin as [Hin|Hin]; [|by apply IH].
  eapply applies_absent; [exact Happ|done|]. unfold apply_tx. rewrite lookup_create by done.
  rewrite lookup_spend. by rewrite decide_True.
Qed.

(** What a block creates and spends is not left. *)
Lemma applies_chained ctx height txs U U' op :
  applies ctx height txs U U' → NoDup (produced txs) → op ∈ concat (map spent txs) →
  U !! op = None → U' !! op = None.
Proof.
  intros Happ. induction Happ as [U|tx txs U U' [Hin _ _ _] Happ IH]; intros Hnd Hsp HU.
  { by apply not_elem_of_nil in Hsp. }
  cbn in Hnd, Hsp. apply NoDup_app in Hnd as (_ & Hdisj & Hnd).
  apply elem_of_app in Hsp as [Hsp|Hsp].
  { destruct (Hin op Hsp) as (u & _ & HU'). congruence. }
  destruct (decide (op ∈ map fst (outpoints tx))) as [Hout|Hout].
  - eapply applies_spent; [exact Happ| |done]. by apply Hdisj.
  - apply IH; [done..|]. unfold apply_tx. rewrite lookup_create by done. rewrite lookup_spend.
    by destruct (decide _).
Qed.

(** A block that the set of unspent outputs accepts: every transaction is valid
    where it stands, and the outputs of the block are new and distinct. *)
Record block_ok (ctx : BlockContext) (height : Z) (block : Block) (U U' : Utxos) : Prop := {
  bo_applies : applies ctx height (txdata block) U U';
  bo_txids : Forall txid_ok (txdata block);
  bo_new : ∀ op, op ∈ produced (txdata block) → U !! op = None;
  bo_distinct : NoDup (produced (txdata block));
}.

Lemma spent_of_consumed txs op :
  Forall txid_ok txs → op ∈ produced txs → op ∈ concat (map previous_outputs txs) →
  op ∈ concat (map spent txs).
Proof.
  intros Htx Hp Hin. apply elem_of_concat in Hin as (l & Hl & (tx & -> & Htx')%list_elem_of_fmap).
  apply elem_of_concat. exists (spent tx). split; [|by apply list_elem_of_fmap_2].
  unfold spent. destruct (tx_is_coinbase tx) eqn:Ecb; [|done]. exfalso.
  apply elem_of_concat in Hp as (l' & Hl' & (tx' & -> & Hin')%list_elem_of_fmap).
  apply list_elem_of_fmap in Hl' as (o & -> & Ho). rewrite Forall_forall in Htx.
  destruct (outpoint_ok tx' o (Htx tx' Hin') Ho) as [_ Et].
  unfold tx_is_coinbase, previous_outputs in *. destruct (input tx) as [|i [|]]; [done| |done].
  apply list_elem_of_singleton in Hl. unfold is_null in Ecb. destruct (Htx tx' Hin') as [_ Hne].
  apply Hne. rewrite <- Et, Hl. cbn. lia.
Qed.

(** C6: the table of outputs by script is the set of unspent outputs.  On a
    block that the set accepts, the reducer succeeds, and the actions that the
    storage stage makes of its outputs turn a store whose rows are the unspent
    outputs before the block into one whose rows are those after it: one row per
    output under its script, height and reference, holding its value.  Outputs
    that the block itself spends never get a row. *)
Theorem utxos_table_follows_utxos (block : Block) (ctx : BlockContext) (height : Z) (U U' : Utxos)
    (s : Store) :
  block_ok ctx height block U U' → in_range 64 height → utxos_ok U → stored s U →
  ∃ outs ops, utxos_by_script_hash script_hash_of policy height block ctx = Ok outs
    ∧ outputs_to_storage_ops n outs = Ok ops ∧ stored (puts s ops) U'.
Proof using script_hash_len.
  intros [Happ Htx Hnew Hnd] Hh Hok Hs. unfold utxos_by_script_hash, chained_txos.
  fold (produced (txdata block)).
  set (C := filter (λ o, o ∈ concat (map previous_outputs (txdata block))) (produced (txdata block))).
  assert (∀ op, op ∈ C → op ∈ produced (txdata block) ∧ op ∈ concat (map spent (txdata block))) as HC.
  { intros op [Hc Hp]%list_elem_of_filter. split; [done|]. by apply spent_of_consumed. }
  destruct (applies_reports C ctx height (txdata block) s U U') as (s' & (outs & ops & E & Eo & <-) & Hs');
    try done.
  { intros uk v. rewrite (Hs uk v). split; intros (op & e & _ & HU & Hr); exists op, e; split; try done.
    - intros [Hp _]%HC. rewrite Hnew in HU; done.
    - apply not_elem_of_nil. }
  exists outs, ops. split; [exact E|]. split; [done|]. intros uk v. rewrite (Hs' uk v).
  split; intros (op & e & _ & HU & Hr); exists op, e; split; try done; [apply not_elem_of_nil|].
  intros [Hp Hsp]%HC. rewrite (applies_chained _ _ _ _ _ _ Happ Hnd Hsp) in HU by (by apply Hnew). done.
Qed.

(** ** Mints *)

Context (instructions : list Z → list (outcome script_error Instruction)).

(** A claim that the compressor lets mint, as an identifier. *)
Definition mintable (db : DunesUpdater.DunesDB) (height c : Z) : option Dunes.DuneId :=
  match Dunes.DuneId_try_from c with
  | Some key => match DunesUpdater.mint db key height with Some _ => Some key | None => None end
  | None => None
  end.

(** The indexes the compressor records are those of the claims it may mint. *)
Lemma collect_mintable_idxs db height cs :
  (DunesUpdater.collect_mintable db height cs).2
  = omap (λ p, (λ _, wrap 16 (Z.of_nat p.1)) <$> mintable db height p.2) (imap pair cs).
Proof.
  unfold DunesUpdater.collect_mintable.
  match goal with |- (foldl ?step _ _).2 = omap ?f _ =>
    enough (∀ l m acc, (foldl step (m, acc) l).2 = acc ++ omap f l) as H by apply H end.
  induction l as [|[i c] l IH]; intros m acc; cbn [foldl omap list_omap].
  { by rewrite app_nil_r. }
  unfold mintable at 1. cbn [fst snd]. destruct (Dunes.DuneId_try_from c) as [key|]; [|apply IH].
  destruct (DunesUpdater.mint db key height) as [x|]; [|apply IH]. rewrite IH. cbn [fst snd fmap option_fmap option_map].
  by rewrite <- app_assoc.
Qed.

Definition minted (db : DunesUpdater.DunesDB) (height : Z) (tx : Transaction) : list ReducerOutput :=
  match from_transaction instructions (output tx) with
  | Some ds =>
      if cenotaph ds then []
      else omap (λ c, (λ key, MintsByRuneId (mkUInt (Dunes.height key), mkUInt (Dunes.index key)))
                        <$> mintable db height c) (DunesUpdater.claims ds)
  | None => []
  end.

(** What the compressor records for a transaction ([successful_mints]). *)
Definition recorded_mints (db : DunesUpdater.DunesDB) (height : Z) (tx : Transaction) : list Z :=
  match from_transaction instructions (output tx) with
  | Some ds =>
      if cenotaph ds then []
      else (DunesUpdater.collect_mintable db height (DunesUpdater.claims ds)).2
  | None => []
  end.

Lemma u32_idx_small i :
  Z.of_nat i < 65536 → u32_idx i = Z.of_nat i ∧ wrap 16 (Z.of_nat i) = Z.of_nat i.
Proof. intros H. unfold u32_idx. split; apply wrap_small; unfold in_range; lia. Qed.

Lemma omap_imap {A B C} (h : nat → A → B) (f : B → option C) (g : A → option C) (l : list A) :
  (∀ i a, l !! i = Some a → f (h i a) = g a) → omap f (imap h l) = omap g l.
Proof.
  revert h. induction l as [|a l IH]; intros h H; [done|]. rewrite imap_cons. cbn [omap list_omap].
  rewrite (H 0%nat a eq_refl). rewrite (IH (h ∘ S)); [done|]. intros i b Hi. by apply (H (S i)).
Qed.

Lemma reported_mints_spec ctx i db height cs :
  Z.of_nat (length cs) ≤ 65536 →
  (∀ k, (u32_idx i, k) ∈ rune_mint_idxs ctx ↔ k ∈ (DunesUpdater.collect_mintable db height cs).2) →
  reported_mints ctx i cs
  = omap (λ c, (λ key, MintsByRuneId (mkUInt (Dunes.height key), mkUInt (Dunes.index key)))
                 <$> mintable db height c) cs.
Proof.
  intros Hlen H. unfold reported_mints. apply omap_imap. intros j c Hj.
  assert (∀ j' c', cs !! j' = Some c' → Z.of_nat j' < 65536) as Hsmall.
  { intros j' c' Hj'. apply lookup_lt_Some in Hj'. lia. }
  assert ((u32_idx i, u32_idx j) ∈ rune_mint_idxs ctx ↔ is_Some (mintable db height c)) as Hiff.
  { rewrite H, collect_mintable_idxs, list_elem_of_omap.
    destruct (u32_idx_small j (Hsmall _ _ Hj)) as [-> Hw]. split.
    - intros ([j' c'] & (j2 & c2 & Ep & Hj2)%elem_of_lookup_imap & E). injection Ep as -> ->.
      cbn [fst snd] in E. destruct (mintable db height c2) as [key|] eqn:Em; [|done].
      injection E as E. destruct (u32_idx_small j2 (Hsmall _ _ Hj2)) as [_ Hw2].
      rewrite Hw2 in E. apply Nat2Z.inj in E as ->. rewrite Hj in Hj2. injection Hj2 as ->. by rewrite Em.
    - intros [key Hk]. exists (j, c). split; [by apply elem_of_lookup_imap; eauto|].
      cbn [fst snd]. rewrite Hk. cbn. by rewrite Hw. }
  unfold mintable in *. destruct (Dunes.DuneId_try_from c) as [key|]; [|done].
  destruct (decide _) as [Hin|Hni].
  - apply Hiff in Hin as [x Hx]. destruct (DunesUpdater.mint db key height); [|done]. done.
  - destruct (DunesUpdater.mint db key height); [|done]. exfalso. apply Hni, Hiff. eauto.
Qed.

Lemma concat_filter {A B} (g : A → list B) (P : A → Prop) `{∀ a, Decision (P a)} (l : list A) :
  (∀ a, ¬ P a → g a = []) → concat (map g (filter P l)) = concat (map g l).
Proof.
  intros H0. induction l as [|a l IH]; [done|]. rewrite filter_cons.
  destruct (decide (P a)) as [Ha|Ha]; cbn [map concat]; [by rewrite IH|]. by rewrite H0.
Qed.

Lemma reported_mints_unlisted ctx i cs :
  u32_idx i ∉ map fst (rune_mint_idxs ctx) → reported_mints ctx i cs = [].
Proof.
  intros Hni. unfold reported_mints. rewrite (omap_imap _ _ (λ _, None)); [by induction cs|].
  intros j c _. destruct (Dunes.DuneId_try_from c); [|done]. rewrite decide_False; [done|].
  intros Hin. apply Hni. change (u32_idx i) with (u32_idx i, u32_idx j).1. by apply list_elem_of_fmap_2.
Qed.

(** C26: the mints the reducer reports are those the compressor counted.  When the
    context of a block lists for each transaction the indexes that the dunes
    indexer of the compressor records for it (in the tables [dbs i] of that
    moment), the reducer reports exactly the claims that were allowed to mint:
    each once, in order, and none of a cenotaph or of a transaction without a
    message. *)
Theorem mints_match_indexer (block : Block) (ctx : BlockContext) (height : Z)
    (dbs : nat → DunesUpdater.DunesDB) :
  (∀ i tx ds, txdata block !! i = Some tx → from_transaction instructions (output tx) = Some ds →
    Z.of_nat (length (DunesUpdater.claims ds)) ≤ 65536) →
  (∀ i tx k, txdata block !! i = Some tx →
    (u32_idx i, k) ∈ rune_mint_idxs ctx ↔ k ∈ recorded_mints (dbs i) height tx) →
  mints_by_rune_id instructions block ctx
  = Ok (concat (imap (λ i tx, minted (dbs i) height tx) (txdata block))).
Proof.
  intros Hlen H. unfold mints_by_rune_id.
  pose (g := λ p : nat * Transaction,
    match from_transaction instructions (output p.2) with
    | Some ds => if cenotaph ds then [] else reported_mints ctx p.1 (DunesUpdater.claims ds)
    | None => []
    end).
  rewrite (concatM_Ok _ g) by (by intros [i tx] _). f_equal. rewrite concat_filter.
  - f_equal. change (map g) with (fmap (M := list) g). rewrite fmap_imap. apply imap_ext.
    intros i tx Hi. cbn. unfold g, minted. cbn [fst snd].
    destruct (from_transaction instructions (output tx)) as [ds|] eqn:Eds; [|done].
    destruct (cenotaph ds) eqn:Ec; [done|].
    apply reported_mints_spec; [by eapply Hlen|]. intros k. rewrite (H i tx k Hi).
    unfold recorded_mints. by rewrite Eds, Ec.
  - intros [i tx] Hni. unfold g. cbn [fst snd] in *.
    destruct (from_transaction instructions (output tx)) as [ds|]; [|done].
    destruct (cenotaph ds); [done|]. by apply reported_mints_unlisted.
Qed.
End laws.

(** ** Cursors *)

(** An action on the cursor sets it. *)
Definition cursor_sets (n : Namespace) (a : StorageAction) : Prop :=
  key a = Prefix_cursor n → ∃ v, a = SSet (Prefix_cursor n) v.

Lemma data_not_cursor `{Encode T} n r (data : T) : Prefix_data n r data ≠ Prefix_cursor n.
Proof.
  unfold Prefix_data, Prefix_cursor, append_with_break, append, break_, push, enc.
  intros E%(f_equal length). repeat rewrite length_app in E. cbn in E. lia.
Qed.

Lemma info_not_cursor n : Prefix_info n ≠ Prefix_cursor n.
Proof. unfold Prefix_info, Prefix_cursor. intros E%(f_equal length). cbn in E. lia. Qed.

Lemma output_cursor n o ops :
  reducer_output_to_storage_ops n o = Ok ops → Forall (cursor_sets n) ops.
Proof.
  destruct o; unfold_ops; intros E;
    repeat match type of E with
    | mbind _ (short_ticker ?t) = _ => destruct (short_ticker t); [cbn [mbind outcome_bind] in E|done|done]
    end; injection E as <-;
    repeat (apply Forall_cons; split; [|]); try apply Forall_nil_2.
  all: intros Hk.
  all: try (match type of Hk with context [incr_or_decr _ _ _ ?d] => destruct d end).
  all: try (match type of Hk with context [utxo_action _ _ ?d] => destruct d end).
  all: cbn [key incr_or_decr utxo_action] in Hk.
  all: first [by apply data_not_cursor in Hk | by apply info_not_cursor in Hk | by eexists].
Qed.

Lemma outputs_cursor n outputs ops :
  outputs_to_storage_ops n outputs = Ok ops → Forall (cursor_sets n) ops.
Proof.
  unfold outputs_to_storage_ops. intros E.
  eapply (foldM_inv (Forall (cursor_sets n))); [|apply Forall_nil_2|exact E].
  intros acc o acc' _ Hacc Ho. cbn beta in Ho.
  destruct (reducer_output_to_storage_ops n o) as [l| |] eqn:El; [|done|done].
  injection Ho as <-. apply Forall_app. split; [done|]. by eapply output_cursor.
Qed.

(** The action a batch holds for the cursor, if any, sets it. *)
Definition batch_cursor (n : Namespace) (m : gmap (list Z) StorageAction) : Prop :=
  ∀ a, m !! Prefix_cursor n = Some a → ∃ v, a = SSet (Prefix_cursor n) v.

Lemma push_action_cursor n m a m' :
  batch_cursor n m → cursor_sets n a → push_action m a = Ok m' →
  batch_cursor n m' ∧ (is_Some (m !! Prefix_cursor n) ∨ key a = Prefix_cursor n →
                       is_Some (m' !! Prefix_cursor n)).
Proof.
  intros Hm Ha E. destruct (decide (key a = Prefix_cursor n)) as [Hk|Hk].
  - destruct (Ha Hk) as [v ->]. cbn [key] in *. unfold push_action in E. cbn [key] in E.
    assert (m' = <[Prefix_cursor n := SSet (Prefix_cursor n) v]> m) as ->.
    { destruct (m !! Prefix_cursor n) as [prev|] eqn:Ep; [|by injection E as <-].
      destruct (Hm prev Ep) as [v' ->]. unfold merge in E. cbn [key] in E.
      rewrite decide_True in E by done. by injection E as <-. }
    split; [|by rewrite lookup_insert_eq]. intros b Hb. rewrite lookup_insert_eq in Hb.
    injection Hb as <-. by exists v.
  - assert (m' !! Prefix_cursor n = m !! Prefix_cursor n) as Hsame.
    { unfold push_action in E.
      destruct (m !! key a); [destruct (merge _ a) as [c| |]; [|done|done]|]; injection E as <-;
        by rewrite lookup_insert_ne. }
    unfold batch_cursor. rewrite Hsame. split; [done|]. by intros [?|?].
Qed.

Lemma push_actions_cursor n (b : SyncBatcher) l (b' : SyncBatcher) :
  batch_cursor n (batch_actions b) → Forall (cursor_sets n) l → push_actions b l = Ok b' →
  batch_cursor n (batch_actions b')
  ∧ (is_Some (batch_actions b !! Prefix_cursor n) ∨ Prefix_cursor n ∈ map key l →
     is_Some (batch_actions b' !! Prefix_cursor n)).
Proof.
  unfold push_actions. intros Hb Hl E.
  destruct (foldM push_action (batch_actions b) l) as [m| |] eqn:Em; [|done|done].
  injection E as <-. cbn [batch_actions]. revert Hb Em. generalize (batch_actions b).
  induction Hl as [|a l Ha _ IH]; intros m0 Hm0 E.
  { injection E as <-. split; [done|]. by intros [?|?%not_elem_of_nil]. }
  cbn [foldM] in E. destruct (push_action m0 a) as [m1| |] eqn:E1; [|done|done].
  destruct (push_action_cursor n m0 a m1 Hm0 Ha E1) as [Hm1 Hc1].
  destruct (IH m1 Hm1 E) as [Hm Hc]. split; [done|]. cbn [map].
  intros [Hs|[Hk|Hk]%elem_of_cons]; apply Hc; [left|left|by right]; apply Hc1; auto.
Qed.

Lemma push_blocks_cursor n opss (b0 b : SyncBatcher) :
  batch_cursor n (batch_actions b0) → Forall (Forall (cursor_sets n)) opss →
  foldM push_actions b0 opss = Ok b →
  batch_cursor n (batch_actions b)
  ∧ (is_Some (batch_actions b0 !! Prefix_cursor n) ∨ Exists (λ ops, Prefix_cursor n ∈ map key ops) opss →
     is_Some (batch_actions b !! Prefix_cursor n)).
Proof.
  intros H0 Hops. revert b0 H0. induction Hops as [|ops opss Ho _ IH]; intros b0 H0 E.
  { injection E as <-. split; [done|]. by intros [?|?%Exists_nil]. }
  cbn [foldM] in E. destruct (push_actions b0 ops) as [b1| |] eqn:E1; [|done|done].
  destruct (push_actions_cursor n b0 ops b1 H0 Ho E1) as [H1 Hc1].
  destruct (IH b1 H1 E) as [H2 Hc2]. split; [done|].
  intros [Hs|[Hk|Hk]%Exists_cons]; apply Hc2; [left|left|by right]; apply Hc1; auto.
Qed.

Section stage.
Context (script_hash_of : list Z → list Z) (policy : RuntimePolicy).
Context (instructions : list Z → list (outcome script_error Instruction)).
Context (iter : gmap (list Z) (list TxInvolvement) → list (list Z * list TxInvolvement)).
Context (address_script : list Z → option (list Z)) (to_lowercase : list Z → list Z).
Context (json_message : list Z → option Brc20.Brc20.RawProtocolMessage).
Context (decode_block : list Z → option Block).

(** The outputs of a block the reducers stage sent to the storage stage. *)
Definition sent (outputs : list ReducerOutput) : Prop :=
  ∃ now w unit_ w' point m mempool,
    worker_execute script_hash_of policy instructions iter address_script to_lowercase json_message
      decode_block now w unit_ = Ok (w', RollForward point outputs m mempool).

Lemma sent_cursor n outputs ops :
  sent outputs → outputs_to_storage_ops n outputs = Ok ops → Prefix_cursor n ∈ map key ops.
Proof.
  intros (now & w & u & w' & p & m & mp & E) Eops. destruct u as [point block ctx mu|point mu]; [|done].
  cbn [worker_execute] in E. unfold worker_reduce_block in E.
  destruct (or_panic _) as [blk| |]; [|done|done]. cbn [mbind outcome_bind] in E.
  destruct (concatM _ _) as [outs| |]; [|done|done]. injection E as _ _ <- _ _.
  unfold outputs_to_storage_ops in Eops. rewrite foldM_app in Eops.
  destruct (foldM _ [] outs) as [ops1| |]; [|done|done]. injection Eops as <-.
  rewrite map_app. apply elem_of_app. right. by left.
Qed.

(** C28: a batch of blocks can always be flushed in stages.  Whatever blocks the
    reducers stage sent and however the hash map lists their merged actions, the
    batch holds an action that sets the cursor, so the flush never stops for want
    of one, and the cursor is written in the last transaction, after all else. *)
Theorem batch_has_cursor (n : Namespace) (outss : list (list ReducerOutput))
    (opss : list (list StorageAction)) (max_len max_bytes : Z) (b : SyncBatcher)
    (values : list StorageAction) :
  Forall sent outss → outss ≠ [] →
  Forall2 (λ outs ops, outputs_to_storage_ops n outs = Ok ops) outss opss →
  foldM push_actions (batcher_new max_len max_bytes) opss = Ok b →
  values ≡ₚ (map_to_list (batch_actions b)).*2 →
  ∃ v, last (of_class n CursorClass values) = Some (SSet (Prefix_cursor n) v).
Proof.
  intros Hsent Hne Hops E Hp.
  destruct (push_blocks_cursor n opss (batcher_new max_len max_bytes) b) as [Hc Hs]; [|..|done|].
  { intros a Ha. cbn in Ha. by rewrite lookup_empty in Ha. }
  { clear - Hops. induction Hops; constructor; [by eapply outputs_cursor|done]. }
  destruct Hs as [a Ha].
  { right. destruct Hops as [|outs ops outss opss Ho _]; [done|]. constructor.
    apply Forall_cons in Hsent as [Hs _]. by eapply sent_cursor. }
  destruct (Hc a Ha) as [v ->].
  assert (SSet (Prefix_cursor n) v ∈ of_class n CursorClass values) as Hin.
  { apply list_elem_of_filter. split; [cbn; by rewrite decide_True|]. rewrite Hp.
    apply list_elem_of_fmap. exists (Prefix_cursor n, SSet (Prefix_cursor n) v). split; [done|].
    by apply elem_of_map_to_list. }
  destruct (last (of_class n CursorClass values)) as [x|] eqn:El.
  - apply last_Some_elem_of in El. apply list_elem_of_filter in El as [Hcl _].
    destruct x; cbn in Hcl; try done. destruct (decide _) as [->|]; [by exists v0|done].
  - apply last_None in El. rewrite El in Hin. by apply not_elem_of_nil in Hin.
Qed.

End stage.

(** ** Witnesses *)

#[local] Instance TxOut_eq_dec : EqDecision TxOut.
Proof. solve_decision. Defined.

Definition tx_valid_check (ctx : BlockContext) (tx : Transaction) (U : Utxos) : bool :=
  forallb (λ op, match find_utxo ctx op, U !! op with
                 | Ok u, Some e => bool_decide (e = (cu_height u, cu_txo u))
                 | _, _ => false
                 end) (spent tx)
  && bool_decide (NoDup (spent tx))
  && forallb (λ o, bool_decide (U !! o.1 = None)) (outpoints tx)
  && bool_decide (NoDup (map fst (outpoints tx))).

Lemma tx_valid_check_sound ctx tx U : tx_valid_check ctx tx U = true → tx_valid ctx tx U.
Proof.
  unfold tx_valid_check. rewrite !andb_true_iff, !forallb_forall, !bool_decide_eq_true.
  intros (((Hin & Hnd) & Hout) & Hnew). split; [|done| |done].
  - intros op Hop%list_elem_of_In. specialize (Hin op Hop).
    destruct (find_utxo ctx op) as [u| |]; [|done|done]. destruct (U !! op) as [e|]; [|done].
    apply bool_decide_eq_true in Hin as ->. by exists u.
  - intros o Ho%list_elem_of_In. eapply bool_decide_eq_true. by apply Hout.
Qed.

Fixpoint applies_check (ctx : BlockContext) (height : Z) (txs : list Transaction) (U : Utxos)
  : option Utxos :=
  match txs with
  | [] => Some U
  | tx :: txs =>
      if tx_valid_check ctx tx U then applies_check ctx height txs (apply_tx height tx U) else None
  end.

Lemma applies_check_sound ctx height txs U U' :
  applies_check ctx height txs U = Some U' → applies ctx height txs U U'.
Proof.
  revert U. induction txs as [|tx txs IH]; intros U; cbn [applies_check].
  { intros [= <-]. constructor. }
  destruct (tx_valid_check ctx tx U) eqn:E; [|done]. intros H.
  constructor; [by apply tx_valid_check_sound|by apply IH].
Qed.

Definition sample_hash (s : list Z) : list Z := replicate 20 (default 0 (head s)).

(** A coinbase; a transaction that spends an old output; one that spends its
    output. *)
Definition sample_block : Block :=
  mkBlock 1 0
    [mkTransaction 10 [mkTxIn (mkOutPoint 0 (umax 32)) []] [mkTxOut 50 [1]];
     mkTransaction 11 [mkTxIn (mkOutPoint 5 0) []] [mkTxOut 20 [1]; mkTxOut 9 [2]];
     mkTransaction 12 [mkTxIn (mkOutPoint 11 0) []] [mkTxOut 20 [3]]].

Definition sample_context : BlockContext :=
  mkContext {[ (5, 0) := mkContextUtxo 3 (mkTxOut 30 [2]) [];
               (11, 0) := mkContextUtxo 7 (mkTxOut 20 [1]) [] ]}
    {[ (5, 0) := [((2, 1), 100)]; (11, 0) := [((2, 1), 60)]; (11, 1) := [((2, 1), 40)];
       (12, 0) := [((2, 1), 60)] ]} [] [] ∅ [] ∅ ∅.

Definition sample_utxos : Utxos := {[ (5, 0) := (3, mkTxOut 30 [2]) ]}.
Definition sample_utxos' : Utxos :=
  default ∅ (applies_check sample_context 7 (txdata sample_block) sample_utxos).

Lemma token_tables_agree_witness :
  ∃ outs outs', rune_balances_by_script_hash sample_hash no_policy sample_block sample_context = Ok outs
    ∧ balances_by_rune_id sample_hash no_policy sample_block sample_context = Ok outs'
    ∧ same_changes rune_change outs outs'.
Proof.
  destruct (token_tables_agree sample_hash no_policy sample_block sample_context) as [H _].
  eexists. destruct (H _ ltac:(vm_compute; reflexivity)) as (outs' & E & Hs). exists outs'.
  split; [|split; [exact E|exact Hs]]. vm_compute. reflexivity.
Defined.

Lemma sat_balance_follows_utxos_witness :
  ∃ outs, sat_balance_by_script_hash sample_hash no_policy sample_block sample_context = Ok outs
    ∧ ∀ h, net (sat_change h) outs
           = balance sample_hash h sample_utxos' - balance sample_hash h sample_utxos.
Proof.
  apply (sat_balance_follows_utxos sample_hash no_policy sample_block sample_context 7).
  apply applies_check_sound. vm_compute. reflexivity.
Defined.

Lemma sample_block_ok :
  block_ok sample_context 7 sample_block sample_utxos sample_utxos'.
Proof.
  split.
  - apply applies_check_sound. vm_compute. reflexivity.
  - repeat constructor; vm_compute; done.
  - cut (Forall (λ op, sample_utxos !! op = None) (produced (txdata sample_block))).
    { rewrite Forall_forall. done. }
    by apply (bool_decide_unpack _); vm_compute.
  - by apply (bool_decide_unpack _); vm_compute.
Qed.

(** One row, for the output that is unspent before the sample block. *)
Definition sample_rows : Store :=
  map_fold (λ op e, <[row_key sample_hash sample_namespace op e := row_value e]>) ∅ sample_utxos.

Lemma sample_rows_stored : stored sample_hash sample_namespace sample_rows sample_utxos.
Proof.
  intros uk v. unfold sample_rows, sample_utxos. rewrite map_fold_singleton.
  rewrite lookup_insert_Some, lookup_empty. split.
  - intros [[<- <-]|[_ ?]]; [|done]. exists (5, 0), (3, mkTxOut 30 [2]).
    rewrite lookup_singleton_eq. repeat split; try done. apply not_elem_of_nil.
  - intros (op & e & _ & [<- <-]%lookup_singleton_Some & -> & ->). by left.
Qed.

Lemma utxos_table_follows_utxos_witness :
  ∃ outs ops, utxos_by_script_hash sample_hash no_policy 7 sample_block sample_context = Ok outs
    ∧ outputs_to_storage_ops sample_namespace outs = Ok ops
    ∧ stored sample_hash sample_namespace (puts sample_rows ops) sample_utxos'.
Proof.
  apply (utxos_table_follows_utxos sample_hash no_policy sample_namespace
           (λ s, length_replicate _ _) sample_block sample_context 7 sample_utxos sample_utxos').
  - apply sample_block_ok.
  - by vm_compute.
  - intros op e. unfold sample_utxos. intros [<- <-]%lookup_singleton_Some. by vm_compute.
  - apply sample_rows_stored.
Defined.

(** Dune [2:1] is claimed once; the compressor lets it mint. *)
Definition sample_mint_tx : Transaction :=
  mkTransaction 8 [mkTxIn (mkOutPoint 7 0) []]
    [mkTxOut 0 [106; 1; 68; 10; 0; 190; 254; 254; 255; 134; 255; 1; 40; 2];
     mkTxOut 1 [81]; mkTxOut 2 [82]].

Definition sample_mint_block : Block :=
  mkBlock 101 100
    [mkTransaction 20 [mkTxIn (mkOutPoint 0 (umax 32)) []] [mkTxOut 50 [83]]; sample_mint_tx].

Definition sample_mint_context : BlockContext := mkContext ∅ ∅ [(1, 0)] [] ∅ [] ∅ ∅.

Lemma mints_match_indexer_witness :
  mints_by_rune_id (simple_instructions 32) sample_mint_block sample_mint_context
  = Ok [MintsByRuneId (mkUInt 2, mkUInt 1)].
Proof.
  rewrite (mints_match_indexer (simple_instructions 32) sample_mint_block sample_mint_context
             6000000 (λ _, DunesUpdater.sample_db)).
  - by vm_compute.
  - intros [|[|i]] tx ds; cbn [lookup list_lookup txdata sample_mint_block]; [| |done];
      intros [= <-] E.
    + assert (from_transaction (simple_instructions 32) [mkTxOut 50 [83]] = None) as E'
        by (by vm_compute). cbn [output] in E. by rewrite E' in E.
    + assert (Z.of_nat ∘ length ∘ DunesUpdater.claims
                <$> from_transaction (simple_instructions 32) (output sample_mint_tx) = Some 1) as E'
        by (by vm_compute). rewrite E in E'. injection E' as E'. lia.
  - intros [|[|i]] tx k; cbn [lookup list_lookup txdata sample_mint_block]; [| |done];
      intros [= <-]; cbn [rune_mint_idxs sample_mint_context]; rewrite list_elem_of_singleton.
    + assert (recorded_mints (simple_instructions 32) DunesUpdater.sample_db 6000000
                (mkTransaction 20 [mkTxIn (mkOutPoint 0 (umax 32)) []] [mkTxOut 50 [83]]) = []) as E
        by (by vm_compute). rewrite E. split; [done|by intros ?%not_elem_of_nil].
    + assert (recorded_mints (simple_instructions 32) DunesUpdater.sample_db 6000000
                sample_mint_tx = [0]) as E by (by vm_compute).
      rewrite E, list_elem_of_singleton. split; [by intros [= ->]|by intros ->].
Defined.

Definition no_message (_ : list Z) : option Brc20.Brc20.RawProtocolMessage := None.

(** What the reducers stage sends for the sample block with two reducers. *)
Definition sample_sent : list ReducerOutput :=
  match worker_execute sample_hash no_policy (simple_instructions 32) map_to_list (λ _, None) id
          no_message (λ _, Some sample_block) 1
          (mkReducersWorker [CSatBalanceByScriptHash; CUtxosByScriptHash] None)
          (EnrichedForward (sample_point 7) [] sample_context true) with
  | Ok (_, RollForward _ outputs _ _) => outputs
  | _ => []
  end.

Definition sample_sent_ops : list StorageAction :=
  match outputs_to_storage_ops sample_namespace sample_sent with Ok ops => ops | _ => [] end.

Definition sample_batch : SyncBatcher :=
  match foldM push_actions (batcher_new 10 10) [sample_sent_ops; sample_sent_ops] with
  | Ok b => b
  | _ => batcher_new 10 10
  end.

Lemma batch_has_cursor_witness :
  ∃ v, last (of_class sample_namespace CursorClass (map_to_list (batch_actions sample_batch)).*2)
       = Some (SSet (Prefix_cursor sample_namespace) v).
Proof.
  apply (batch_has_cursor sample_hash no_policy (simple_instructions 32) map_to_list (λ _, None) id
           no_message (λ _, Some sample_block) sample_namespace [sample_sent; sample_sent]
           [sample_sent_ops; sample_sent_ops] 10 10 sample_batch).
  - assert (sent sample_hash no_policy (simple_instructions 32) map_to_list (λ _, None) id
              no_message (λ _, Some sample_block) sample_sent) as H; [|by repeat constructor].
    exists 1, (mkReducersWorker [CSatBalanceByScriptHash; CUtxosByScriptHash] None),
      (EnrichedForward (sample_point 7) [] sample_context true). do 4 eexists. vm_compute. reflexivity.
  - done.
  - assert (outputs_to_storage_ops sample_namespace sample_sent = Ok sample_sent_ops) as H
      by (by vm_compute). by repeat constructor.
  - by vm_compute.
  - done.
Defined.

End ReducerLaws.
