(* ===== verification/Mapi.v ===== *)
(** The query service [mapi-xdg]: what its handlers share.

    - [key_resolver.rs]: which instance of polyphony serves a reducer;
    - [polyphony.rs]: reads of a snapshot, and the [Scanner] that reads a range
      of keys page by page, asking for smaller pages when a message is too large;
    - [util.rs]: the parameters of a page and its cursor, identifiers, addresses,
      decimal amounts;
    - [types/mod.rs], [error.rs]: parameters, responses and status codes.

    What other crates provide (addresses, base64, hexadecimal, the text of a
    hash, names of runes, script hashes) and the Unicode tables of the standard
    library are the record [Lib] of operations; what
    the handlers rely on is its class of laws [LibLaws]. A snapshot is the store at
    its timestamp with the requests that fail. *)

From S2P Require Import Prelude Decimal Brc20 Timbre Crosscut StorageAction ReducerOutput TikvWorker.
Import Decimal Brc20 Timbre StorageAction ReducerOutput TikvWorker.

Module Mapi.

#[local] Open Scope fields_scope.

(** ** error.rs *)

Inductive MapiError : Type :=
| InvalidHex (s : rust_string)
| Internal (msg : string)
| NotFound
| MalformedRequest (msg : string)
| TiKV
| MissingData (k : Key)
| MalformedData (bytes : list Z)
| Json
| Http
| Rpc (e : rust_string)
| GenerateOpenApiIsUnexpected.

Abbreviation MapiResult A := (outcome MapiError A).

(** The status code of an error. *)
Definition into_response (e : MapiError) : Z :=
  match e with
  | NotFound => 404
  | InvalidHex _ => 400
  | MalformedRequest _ => 400
  | Rpc _ => 400
  | _ => 500
  end.

(** ** types/mod.rs, options.rs *)

Inductive Mode : Type := GenerateOpenApi | Dogecoin | DogecoinTestnet.

Inductive OrderParam : Type := Asc | Desc.

#[export] Instance OrderParam_eq_dec : EqDecision OrderParam.
Proof. solve_decision. Defined.

Record CursorPaginationParams : Type := mkCursorParams {
  cp_count : option Z;
  cp_order : option OrderParam;
  cp_cursor : option rust_string;
}.

Record HeightPaginationParams : Type := mkHeightParams {
  hp_count : option Z;
  hp_order : option OrderParam;
  hp_cursor : option rust_string;
  hp_from : option Z;
  hp_to : option Z;
}.

Record LastUpdated : Type := mkLastUpdated {
  lu_block_hash : rust_string;
  lu_block_height : Z;
}.

Record PaginatedResponse (T : Type) : Type := mkPaginated {
  pr_data : T;
  pr_last_updated : LastUpdated;
  pr_next_cursor : option rust_string;
}.
Arguments mkPaginated {T} _ _ _.
Arguments pr_data {T} _.
Arguments pr_last_updated {T} _.
Arguments pr_next_cursor {T} _.

Record TimestampedResponse (T : Type) : Type := mkTimestamped {
  tr_data : T;
  tr_last_updated : LastUpdated;
}.
Arguments mkTimestamped {T} _ _.
Arguments tr_data {T} _.
Arguments tr_last_updated {T} _.

(** ** What other crates provide *)

Record Lib : Type := mkLib {
  Address : Type;
  address_from_str : rust_string → option Address;
  address_payload_hash : Address → list Z;
  address_to_string : Address → rust_string;
  address_from_script : Mode → list Z → option Address;
  script_hash_of : list Z → list Z;
  b64_encode : list Z → rust_string;
  b64_decode : rust_string → option (list Z);
  hex_encode : list Z → rust_string;
  hex_decode : rust_string → option (list Z);
  hash_to_string : list Z → rust_string;
  rune_from_str : rust_string → option Z;
  rune_to_string : Z → rust_string;
  spaced_rune_to_string : Z → Z → rust_string;
  to_lowercase : list Z → list Z;
  from_utf8_lossy : list Z → rust_string;
}.

Class LibLaws (L : Lib) : Prop := {
  b64_roundtrip : ∀ bytes, b64_decode L (b64_encode L bytes) = Some bytes;
  script_hash_len : ∀ script, length (script_hash_of L script) = 20%nat;
}.

(** ** key_resolver.rs *)

Inductive Network : Type := Mainnet | Testnet.

Inductive InstanceType : Type :=
| IInscriptions | IInscriptionUtxosByScriptHash | IContentByInscriptionId | IDunes
| ISatBalanceByScriptHash | IScripts | ITransactions | IUtxos | IBalancesByRuneId.

Inductive ReducerType : Type :=
| TBalancesByBrc20 | TBrc20BalancesByScriptHash | TBrc20BalancesByTicker | TBrc20TermsByTicker
| TContentByInscriptionId | TInscriptionsByUtxo | TInscriptionUtxosByScriptHash | TEtchingByRuneId
| TMintsByRuneId | TRunesByUtxo | TRuneBalancesByScriptHash | TRuneIdByRuneName
| TSatBalanceByScriptHash | TScriptByScriptHash | TScriptHashByAddressPayloadHash
| TTransferInscriptionsByAddress | TTxsByScriptHash | TUtxosByRuneId | TUtxosByScriptHash
| TBalancesByRuneId.

Definition InstanceType_display (i : InstanceType) : string :=
  match i with
  | IInscriptions => "inscriptions"
  | IInscriptionUtxosByScriptHash => "inscription-utxos-by-script-hash"
  | IContentByInscriptionId => "content-by-inscription-id"
  | IDunes => "dunes"
  | ISatBalanceByScriptHash => "sat-balance-by-script-hash"
  | IScripts => "scripts"
  | ITransactions => "transactions"
  | IUtxos => "utxos"
  | IBalancesByRuneId => "balances-by-rune-id"
  end.

Definition Network_display (n : Network) : string :=
  match n with Mainnet => "mainnet" | Testnet => "testnet" end.

Definition get_instance_for_reducer (reducer : ReducerType) : InstanceType :=
  match reducer with
  | TInscriptionUtxosByScriptHash => IInscriptionUtxosByScriptHash
  | TInscriptionsByUtxo => IInscriptions
  | TContentByInscriptionId => IContentByInscriptionId
  | TBrc20BalancesByScriptHash => IInscriptions
  | TBrc20TermsByTicker => IInscriptions
  | TBalancesByBrc20 => IInscriptions
  | TBrc20BalancesByTicker => IInscriptions
  | TUtxosByRuneId => IDunes
  | TEtchingByRuneId => IDunes
  | TMintsByRuneId => IDunes
  | TRunesByUtxo => IDunes
  | TRuneIdByRuneName => IDunes
  | TRuneBalancesByScriptHash => IDunes
  | TSatBalanceByScriptHash => ISatBalanceByScriptHash
  | TScriptByScriptHash => IScripts
  | TScriptHashByAddressPayloadHash => IScripts
  | TTransferInscriptionsByAddress => IInscriptions
  | TTxsByScriptHash => ITransactions
  | TUtxosByScriptHash => IUtxos
  | TBalancesByRuneId => IBalancesByRuneId
  end.

Inductive ResolveKeyError : Type := RedisConnectionError | NoEntriesFound | EntryTooShort.

(** The registry: [zrange key 0 0] of Redis, which may fail. *)
Record Registry : Type := mkRegistry {
  network : Network;
  zrange_first : string → option (list (list Z));
}.

Definition registry_key (n : Network) (i : InstanceType) : string :=
  ("dogecoin:" +:+ Network_display n +:+ ":" +:+ InstanceType_display i +:+ ":scores")%string.

Definition resolve_key (r : Registry) (reducer : ReducerType) : outcome ResolveKeyError (Z * Z) :=
  match zrange_first r (registry_key (network r) (get_instance_for_reducer reducer)) with
  | None => Err RedisConnectionError
  | Some entries =>
      match entries with
      | [] => Err NoEntriesFound
      | entry :: _ =>
          match entry with
          | dataplane_id :: instance_id :: _ => Ok (dataplane_id, instance_id)
          | _ => Err EntryTooShort
          end
      end
  end.

(** The [*_encoder] methods of [PolyphonyWrapper]. *)
Definition encoder (r : Registry) (reducer : ReducerType) : MapiResult Namespace :=
  match resolve_key r reducer with
  | Ok (dataplane_id, instance_id) => Ok (mkNamespace dataplane_id instance_id)
  | Err _ => Err (Internal "instance resolution")
  | Panic => Panic
  end.

(** ** Snapshots *)

Inductive tikv_error : Type := TooLarge | OtherError.

Record Snapshot : Type := mkSnapshot {
  snap : Store;
  get_fails : Key → bool;
  scan_fails : OrderParam → Key * Key → Z → option tikv_error;
  scan_keys_fails : OrderParam → Key * Key → Z → option tikv_error;
}.

Definition snapshot_get (s : Snapshot) (k : Key) : MapiResult (option Value) :=
  if get_fails s k then Err TiKV else Ok (snap s !! k).

(** [B::decode(&v).map_err(|e| Error::MalformedData(v, Some(e)))?.0]. *)
Definition decode_or `{Decode B} (v : list Z) : MapiResult B :=
  match decode v with
  | Ok (b, _) => Ok b
  | Err _ => Err (MalformedData v)
  | Panic => Panic
  end.

Definition get_last_updated (L : Lib) (s : Snapshot) (n : Namespace) : MapiResult LastUpdated :=
  v ← snapshot_get s (Prefix_cursor n);
  cursor_bytes ← ok_or (MissingData (Prefix_cursor n)) v;
  p ← (decode_or cursor_bytes : MapiResult (u64 * Bytes 32));
  Ok (mkLastUpdated (hash_to_string L (bytes_of p.2)) (uint_value p.1)).

Definition get_reducer_key_maybe `{Encode A, Decode B} (s : Snapshot) (n : Namespace)
    (reducer : Reducer) (key : A) : MapiResult (option B) :=
  v ← snapshot_get s (Prefix_data n reducer key);
  match v with
  | Some v => b ← decode_or v; Ok (Some b)
  | None => Ok None
  end.

Definition get_reducer_key `{Encode A, Decode B} (s : Snapshot) (n : Namespace) (reducer : Reducer)
    (key : A) : MapiResult B :=
  v ← get_reducer_key_maybe s n reducer key;
  ok_or (MissingData (Prefix_data n reducer key)) v.
Arguments get_reducer_key_maybe {A _} B {_} s n reducer key.
Arguments get_reducer_key {A _} B {_} s n reducer key.

(** ** Scanner *)

Definition KV_SCAN_BATCH_SIZE : Z := 1000.

Record Scanner : Type := mkScanner {
  sc_range : Key * Key;
  sc_order : OrderParam;
  sc_count : option Z;
}.

Definition Scanner_new (range : Key * Key) : Scanner := mkScanner range Asc None.
Definition scanner_order (order : OrderParam) (s : Scanner) : Scanner :=
  mkScanner (sc_range s) order (sc_count s).
Definition scanner_count (count : Z) (s : Scanner) : Scanner :=
  mkScanner (sc_range s) (sc_order s) (Some count).

(** [scan] and [scan_reverse]: at most [limit] entries of the range. *)
Definition in_order {A} (order : OrderParam) (l : list A) : list A :=
  match order with Asc => l | Desc => rev l end.

Definition scan_page (s : Snapshot) (order : OrderParam) (range : Key * Key) (limit : Z)
  : outcome tikv_error (list (Key * Value)) :=
  match scan_fails s order range limit with
  | Some e => Err e
  | None => Ok (take (Z.to_nat limit) (in_order order (scan (snap s) range)))
  end.

Definition scan_keys_page (s : Snapshot) (order : OrderParam) (range : Key * Key) (limit : Z)
  : outcome tikv_error (list Key) :=
  match scan_keys_fails s order range limit with
  | Some e => Err e
  | None => Ok (take (Z.to_nat limit) (in_order order (scan_keys (snap s) range)))
  end.

(** What is left of a range after the last key fetched. *)
Definition remaining (order : OrderParam) (range : Key * Key) (last_key : Key) : Key * Key :=
  match order with
  | Asc => (last_key ++ [0], range.2)
  | Desc => (range.1, last_key)
  end.

(** The loop of the three scans.  [accept] is what a scan makes of an entry: an
    error, nothing, or a result.  [None] is a loop still running. *)
Section scan_loop.
Context {I A : Type} (order : OrderParam) (max : option Z).
Context (fetch : Key * Key → Z → outcome tikv_error (list I)) (key_of : I → Key).
Context (accept : I → MapiResult (option A)).

(** The entries of a page; [true] when [count] results have been found. *)
Fixpoint consume (found : list A) (items : list I) : MapiResult (list A * bool) :=
  match items with
  | [] => Ok (found, false)
  | i :: items =>
      r ← accept i;
      match r with
      | None => consume found items
      | Some a =>
          let found := found ++ [a] in
          if match max with Some m => m <=? Z.of_nat (length found) | None => false end
          then Ok (found, true)
          else consume found items
      end
  end.

Fixpoint scan_loop (fuel : nat) (range : Key * Key) (scan_size : Z) (found : list A)
  : option (MapiResult (list A)) :=
  match fuel with
  | O => None
  | S fuel =>
      match fetch range scan_size with
      | Ok items =>
          match last items with
          | None => Some (Ok found)
          | Some i =>
              match consume found items with
              | Ok (found, true) => Some (Ok found)
              | Ok (found, false) =>
                  if wrap 32 (Z.of_nat (length items)) <? scan_size then Some (Ok found)
                  else scan_loop fuel (remaining order range (key_of i)) scan_size found
              | Err e => Some (Err e)
              | Panic => Some Panic
              end
          end
      | Err TooLarge => scan_loop fuel range (Z.max (scan_size / 2) 1) found
      | Err OtherError => Some (Err TiKV)
      | Panic => Some Panic
      end
  end.

(** [truncate] after the loop. *)
Definition truncated (r : MapiResult (list A)) : MapiResult (list A) :=
  found ← r;
  Ok (match max with Some m => take (Z.to_nat m) found | None => found end).

Definition scan_all (fuel : nat) (range : Key * Key) (scan_size : Z)
  : option (MapiResult (list A)) :=
  truncated <$> scan_loop fuel range scan_size [].
End scan_loop.

(** A key without its namespace, prefix, reducer and break. *)
Definition data_of_key (k : Key) : MapiResult (list Z) :=
  if (length k <? 5)%nat then Err (MalformedData k) else Ok (drop 5 k).

Definition decode_key `{Decode K} (k : Key) : MapiResult (option K) :=
  k ← data_of_key k; key ← decode_or k; Ok (Some key).

Definition decode_kv `{Decode K, Decode V} (filter_fn : option (Key * Value → bool))
    (kv : Key * Value) : MapiResult (option (K * V)) :=
  if default (λ _, true) filter_fn kv then
    k ← data_of_key kv.1;
    key ← decode_or k;
    value ← decode_or kv.2;
    Ok (Some (key, value))
  else Ok None.

Definition execute_with_filter `{Decode K, Decode V} (fuel : nat) (sc : Scanner) (s : Snapshot)
    (filter_fn : option (Key * Value → bool)) : option (MapiResult (list (K * V))) :=
  let scan_size :=
    match filter_fn with
    | None => default KV_SCAN_BATCH_SIZE (wrap 32 <$> sc_count sc)
    | Some _ => KV_SCAN_BATCH_SIZE
    end in
  scan_all (sc_order sc) (sc_count sc) (scan_page s (sc_order sc)) fst (decode_kv filter_fn) fuel
    (sc_range sc) scan_size.

Definition scan_execute `{Decode K, Decode V} (fuel : nat) (sc : Scanner) (s : Snapshot)
  : option (MapiResult (list (K * V))) :=
  execute_with_filter fuel sc s None.

Definition execute_keys_only `{Decode K} (fuel : nat) (sc : Scanner) (s : Snapshot)
  : option (MapiResult (list K)) :=
  scan_all (sc_order sc) (sc_count sc) (scan_keys_page s (sc_order sc)) id decode_key fuel
    (sc_range sc) (wrap 32 (default 1000 (sc_count sc))).

(** An output without dunes and inscriptions. *)
Definition accept_non_metaprotocol (s : Snapshot) (runes_by_utxo inscriptions_by_utxo : Namespace)
    (filter_fn : option (Key * Value → bool)) (kv : Key * Value)
  : MapiResult (option (UtxoKey * UtxosByScriptHash_Value)) :=
  r ← decode_kv filter_fn kv;
  match r with
  | None => Ok None
  | Some (key, value) =>
      let utxo : UtxoRef_Key := uk_utxo_hash key &: uk_utxo_index key in
      dunes ← get_reducer_key_maybe RunesByUtxo_Value s runes_by_utxo Timbre.RunesByUtxo utxo;
      inscriptions ← get_reducer_key_maybe InscriptionsByUtxo_Value s inscriptions_by_utxo
                       Timbre.InscriptionsByUtxo utxo;
      Ok (match dunes, inscriptions with None, None => Some (key, value) | _, _ => None end)
  end.

Definition get_non_metaprotocol_utxos (fuel : nat) (sc : Scanner) (s : Snapshot)
    (filter_fn : option (Key * Value → bool)) (runes_by_utxo inscriptions_by_utxo : Namespace)
  : option (MapiResult (list (UtxoKey * UtxosByScriptHash_Value))) :=
  scan_all (sc_order sc) (sc_count sc) (scan_page s (sc_order sc)) fst
    (accept_non_metaprotocol s runes_by_utxo inscriptions_by_utxo filter_fn) fuel
    (sc_range sc) KV_SCAN_BATCH_SIZE.

(** ** util.rs *)

Definition MAX_PAGE_COUNT : Z := 100.

Record PageParams : Type := mkPageParams {
  pp_count : Z;
  pp_order : OrderParam;
  pp_range : Key * Key;
}.

(** [C::decode_base64]: what follows the value must be text. *)
Definition decode_base64 (L : Lib) `{Decode C} (s : rust_string) : outcome TimbreError C :=
  binding ← ok_or MalformedBase64 (b64_decode L s);
  '(decoded, rest) ← (decode binding : outcome TimbreError (C * list Z));
  if utf8_valid rest then Ok decoded else Err InvalidUtf8Str.

Definition encode_base64 (L : Lib) `{Encode C} (c : C) : rust_string := b64_encode L (encode c).

(** [(p, BREAK, cursor)] or the cursor alone. *)
Definition cursor_key `{Encode A, Encode C} (n : Namespace) (reducer : Reducer)
    (key_params : option A) (cursor : C) : Key :=
  match key_params with
  | Some p => Prefix_data n reducer ((p, mkUInt (n := 1) BREAK), cursor)
  | None => Prefix_data n reducer cursor
  end.

(** The range of a page: from the cursor on. *)
Definition page_range (L : Lib) {A} (C : Type) `{Encode A, Encode C, Decode C} (n : Namespace)
    (reducer : Reducer) (key_params : option A) (order : OrderParam) (cursor : option rust_string)
    (range : Key * Key) : MapiResult (Key * Key) :=
  match cursor with
  | None => Ok range
  | Some cursor =>
      match decode_base64 L cursor : outcome TimbreError C with
      | Ok cursor =>
          let k := cursor_key n reducer key_params cursor in
          if bool_decide (bytes_le range.1 k) && bool_decide (bytes_le k range.2) then
            Ok (match order with Asc => (k ++ [0], range.2) | Desc => (range.1, k) end)
          else Err (MalformedRequest "Malformed cursor: invalid for height range")
      | Err _ => Err (MalformedRequest "Malformed cursor: unable to decode")
      | Panic => Panic
      end
  end.

Definition page_params (L : Lib) {A} (C : Type) `{Encode A, Encode C, Decode C} (n : Namespace)
    (reducer : Reducer) (key_params : option A) (count : option Z) (order : option OrderParam)
    (cursor : option rust_string) (from to : option u64) : MapiResult PageParams :=
  let count := default MAX_PAGE_COUNT count in
  if (MAX_PAGE_COUNT <? count) || (count =? 0) then Err (MalformedRequest "Invalid page size")
  else
    let order := default Asc order in
    range ← page_range L C n reducer key_params order cursor
              (reducer_key_range n reducer key_params from to);
    Ok (mkPageParams count order range).

(** Keys at the height [to] itself are in the range up to [to + 1]. *)
Definition ParsedHeightPaginationParams_parse (L : Lib) {A} (C : Type)
    `{Encode A, Encode C, Decode C} (params : HeightPaginationParams) (n : Namespace)
    (reducer : Reducer) (key_params : option A) : MapiResult PageParams :=
  page_params L C n reducer key_params (hp_count params) (hp_order params) (hp_cursor params)
    (mkUInt <$> hp_from params) ((λ x, mkUInt (saturating_add 64 x 1)) <$> hp_to params).

Definition ParsedPaginationParams_parse (L : Lib) {A} (C : Type)
    `{Encode A, Encode C, Decode C} (params : HeightPaginationParams) (n : Namespace)
    (reducer : Reducer) (key_params : option A) : MapiResult PageParams :=
  page_params L C n reducer key_params (hp_count params) (hp_order params) (hp_cursor params)
    (mkUInt <$> hp_from params) ((λ x, mkUInt (saturating_add 64 x 1)) <$> hp_to params).

Definition parse_no_height (L : Lib) {A} (C : Type) `{Encode A, Encode C, Decode C}
    (params : CursorPaginationParams) (n : Namespace) (reducer : Reducer) (key_params : option A)
  : MapiResult PageParams :=
  page_params L C n reducer key_params (cp_count params) (cp_order params) (cp_cursor params)
    None None.

Inductive RuneIdentifier : Type :=
| RuneById (id : Z * Z)
| RuneByName (name : Z).

Definition malformed_id : MapiError :=
  MalformedRequest "Rune ID must be etching block and transaction index in form '2519999:31'".

Definition parse_number (w : Z) (e : MapiError) (s : rust_string) : MapiResult Z :=
  match parse_uint w s with Ok x => Ok x | Err _ => Err e | Panic => Panic end.

(** 58 is the colon, 8226 the bullet between the letters of a spaced name. *)
Definition RuneIdentifier_parse (L : Lib) (s : rust_string) : MapiResult RuneIdentifier :=
  if bool_decide (58 ∈ s) then
    match split_on 58 s with
    | [block; tx] =>
        block ← parse_number 64 malformed_id block;
        tx ← parse_number 32 malformed_id tx;
        Ok (RuneById (block, tx))
    | _ => Err malformed_id
    end
  else
    name ← ok_or (MalformedRequest "Unable to decode rune name")
             (rune_from_str L (filter (λ c, c ≠ 8226) s));
    Ok (RuneByName name).

(** 105 is the letter i. *)
Definition parse_inscription_id (L : Lib) (s : rust_string) : MapiResult (list Z * Z) :=
  match split_on 105 s with
  | [] => Err (MalformedRequest "Empty inscription ID")
  | [_] => Err (MalformedRequest "Missing inscription index")
  | hex_part :: int_part :: rest =>
      match rest with
      | _ :: _ => Err (MalformedRequest "Wrong inscription ID")
      | [] =>
          bytes ← ok_or (InvalidHex hex_part) (hex_decode L hex_part);
          if (length bytes =? 32)%nat then
            number ← parse_number 32 (MalformedRequest "Wrong index in inscription ID") int_part;
            Ok (rev bytes, number)
          else Err (MalformedRequest "Wrong tx hash in inscription ID")
      end
  end.

(** The message the error carries is left out. *)
Definition parse_varuint (w : Z) (v : VarUInt) : MapiResult Z :=
  match VarUInt_try_into w v with
  | Ok x => Ok x
  | Err _ => Err (MalformedData [])
  | Panic => Panic
  end.

(** The script an address stands for, or the script given. *)
Definition from_script (L : Lib) (mode : Mode) (script : list Z)
  : MapiResult (option (Address L) * list Z) :=
  match mode with
  | GenerateOpenApi => Panic
  | Dogecoin | DogecoinTestnet => Ok (address_from_script L mode script, script)
  end.

Definition script_bytes (l : list u8) : list Z := map uint_value l.

Definition parse_address_or_script_bytes (L : Lib) (r : Registry) (s : Snapshot)
    (input : rust_string) (mode : Mode) : MapiResult (option (Address L) * list Z) :=
  match address_from_str L input with
  | Some addr =>
      n ← encoder r TScriptHashByAddressPayloadHash;
      script_hash ← get_reducer_key_maybe ScriptHashByAddressPayloadHash_Value s n
        Timbre.ScriptHashByAddressPayloadHash
        (mkBytes (address_payload_hash L addr) : ScriptHashByAddressPayloadHash_Key);
      script_hash ← ok_or NotFound script_hash;
      n ← encoder r TScriptByScriptHash;
      script ← get_reducer_key_maybe ScriptByScriptHash_Value s n Timbre.ScriptByScriptHash
        (script_hash : ScriptByScriptHash_Key);
      script ← ok_or (Internal "missing script by sh") script;
      Ok (Some addr, script_bytes script)
  | None =>
      bytes ← ok_or (MalformedRequest "Could not decode as address or hex-encoded script pubkey")
                (hex_decode L input);
      from_script L mode bytes
  end.

(** An amount as text with [dec] decimals; 48 is the digit 0, 46 the dot. *)
Definition decimal (num : Z) (dec : nat) : rust_string :=
  let bal_string := to_string num in
  let len := length bal_string in
  if (0 <? dec)%nat then
    if (len =? dec)%nat then [48; 46] ++ bal_string
    else if (len <? dec)%nat then [48; 46] ++ replicate (dec - len) 48 ++ bal_string
    else take (len - dec) bal_string ++ [46] ++ drop (len - dec) bal_string
  else bal_string.

(** ** polyphony.rs: scripts and names *)

Definition resolve_script_hash (L : Lib) (s : Snapshot) (mode : Mode) (script_hash : Hash20)
    (script_by_script_hash : Namespace) : MapiResult (option (Address L) * list Z) :=
  bytes ← get_reducer_key ScriptByScriptHash_Value s script_by_script_hash Timbre.ScriptByScriptHash
            (script_hash : ScriptByScriptHash_Key);
  from_script L mode (script_bytes bytes).

Definition resolve_rune_name (r : Registry) (s : Snapshot) (rune_name : Z)
  : MapiResult (option Rid) :=
  n ← encoder r TRuneIdByRuneName;
  get_reducer_key_maybe RuneIdByRuneName_Value s n Timbre.RuneIdByRuneName
    (mkUInt rune_name : RuneIdByRuneName_Key).

(** ** Amounts shown *)

Lemma is_digit_zeros d : Forall (λ c, is_digit c = true) (replicate d 48).
Proof. apply Forall_replicate. done. Qed.

(** The digits before the dot and after it. *)
Lemma decimal_parts num dec :
  0 ≤ num → (0 < dec)%nat →
  ∃ i f, decimal num dec = i ++ 46 :: f ∧ i ≠ [] ∧ length f = dec
    ∧ Forall (λ c, is_digit c = true) i ∧ Forall (λ c, is_digit c = true) f
    ∧ dec_value i * 10 ^ Z.of_nat dec + dec_value f = num.
Proof.
  intros Hnum Hdec. pose proof (to_string_digits num Hnum) as Hd.
  pose proof (dec_value_to_string num Hnum) as Hv. unfold decimal.
  destruct (Nat.ltb_spec 0 dec) as [_|]; [|lia]. set (t := to_string num) in *.
  destruct (Nat.eqb_spec (length t) dec) as [El|El].
  { exists [48], t. split_and!; try done. by repeat constructor. }
  destruct (Nat.ltb_spec (length t) dec) as [Hl|Hl].
  - exists [48], (replicate (dec - length t) 48 ++ t). split_and!; try done.
    + rewrite length_app, length_replicate. lia.
    + by repeat constructor.
    + apply Forall_app. split; [apply is_digit_zeros|done].
    + rewrite dec_value_app, dec_value_zeros, Hv. done.
  - exists (take (length t - dec) t), (drop (length t - dec) t). split_and!.
    + done.
    + intros E%(f_equal length). rewrite length_take in E. cbn [length] in E. lia.
    + rewrite length_drop. lia.
    + by apply Forall_take.
    + by apply Forall_drop.
    + rewrite <- Hv. rewrite <- (take_drop (length t - dec) t) at 5.
      rewrite dec_value_app, length_drop. do 4 f_equal. lia.
Qed.

(** The amounts the service shows are the amounts the indexer reads.  A
    number of units printed with the decimals of its token, at most 18, is parsed
    back by the token rules to the same number of units, as long as its integer
    part fits the 64 bits the rules allow. *)
Theorem decimal_parse_roundtrip (num : Z) (dec : nat) :
  0 ≤ num → (dec ≤ 18)%nat → num / 10 ^ Z.of_nat dec < 2 ^ 64 →
  Brc20.parse_decimal (decimal num dec) (Z.of_nat dec) = Ok num.
Proof.
  intros Hnum Hdec Hq. destruct (decide (dec = 0%nat)) as [->|Hne].
  - unfold decimal. cbn [Nat.ltb Nat.leb]. rewrite Z.div_1_r in Hq.
    pose proof (to_string_parse_digits (Z.log2 num + 1) num) as Hs.
    rewrite Brc20.parse_decimal_integer; rewrite ?dec_value_to_string by done.
    + f_equal. cbn. lia.
    + lia.
    + by apply to_string_digits.
    + apply Hs. split; [done|]. destruct (Z.eq_dec num 0) as [->|]; [done|].
      apply Z.log2_lt_pow2; lia.
    + done.
  - destruct (decimal_parts num dec Hnum ltac:(lia)) as (i & f & -> & Hi & Hf & Di & Df & Ev).
    pose proof (dec_value_bound f Df) as Hfb. rewrite Hf in Hfb.
    rewrite Brc20.parse_decimal_fraction; try done; rewrite ?Hf, ?Z.sub_diag.
    + f_equal. lia.
    + lia.
    + intros ->. cbn in Hf. lia.
    + assert (num / 10 ^ Z.of_nat dec = dec_value i) as <-; [|done].
      symmetry. apply (Z.div_unique_pos _ _ _ (dec_value f)); lia.
    + lia.
Qed.

(** 5 units of a token with three decimals are 0.005. *)
Lemma decimal_parse_roundtrip_witness :
  decimal 5 3 = [48; 46; 48; 48; 53] ∧ Brc20.parse_decimal (decimal 5 3) 3 = Ok 5.
Proof. split; [done|]. apply (decimal_parse_roundtrip 5 3); by vm_compute || lia. Defined.

End Mapi.
