(* ===== verification/MapiApi.v ===== *)
(** The handlers of [mapi-xdg] that answer from the store,
    [src/services/mapi-xdg/src/api]: addresses, dunes, inscriptions and drc-20
    tokens.  A handler takes the registry, a snapshot and its parameters; the
    response is the record it serialises, with status 200, or an error.

    A handler may run a scan, a loop whose length is not bounded by its input:
    [Q] is the type of a computation given [fuel] iterations per scan, [None]
    when they were not enough. *)

From S2P Require Import Prelude Decimal Brc20 Timbre Crosscut StorageAction ReducerOutput TikvWorker Mapi.
Import Decimal Timbre StorageAction ReducerOutput TikvWorker Mapi.

Module MapiApi.

#[local] Open Scope fields_scope.

Definition Q (A : Type) : Type := option (MapiResult A).

#[export] Instance Q_ret : MRet Q := λ A a, Some (Ok a).
#[export] Instance Q_bind : MBind Q := λ A B f m,
  match m with
  | None => None
  | Some (Ok a) => f a
  | Some (Err e) => Some (Err e)
  | Some Panic => Some Panic
  end.

(** A computation that does not scan. *)
Definition lift {A} (m : MapiResult A) : Q A := Some m.

(** [match m { Err(Error::NotFound) => return ..., r => r? }]. *)
Definition catch_not_found {A B} (m : Q A) (none : B) (f : A → Q B) : Q B :=
  match m with
  | Some (Err NotFound) => mret none
  | m => m ≫= f
  end.

(** ** Pages *)

(** The loop over the entries of a page: one entry more than the page holds is
    fetched, and consumed when the last of the page is reached. *)
Fixpoint page_loop {K V T} (count : Z) (cursor : K → rust_string) (row : K * V → Q T)
    (i : nat) (kvs : list (K * V)) : Q (list T * option rust_string) :=
  match kvs with
  | [] => mret ([], None)
  | kv :: kvs =>
      let last := Z.of_nat i =? count - 1 in
      t ← row kv;
      match kvs with
      | _ :: rest =>
          if last then
            '(ts, next) ← page_loop count cursor row (S (S i)) rest;
            mret (t :: ts, Some (default (cursor kv.1) next))
          else
            '(ts, next) ← page_loop count cursor row (S i) kvs;
            mret (t :: ts, next)
      | [] => mret ([t], None)
      end
  end.

(** The scanner of one page and one entry more. *)
Definition page_scanner (page : PageParams) : Scanner :=
  scanner_order (pp_order page) (scanner_count (pp_count page + 1) (Scanner_new (pp_range page))).

Definition id_string (id : Rid) : rust_string :=
  to_string (uint_value id.1) ++ [58] ++ to_string (uint_value id.2).

Section api.
Context (L : Lib) (reg : Registry) (mode : Mode) (s : Snapshot) (fuel : nat).

(** 105 is the letter i. *)
Definition inscription_string (id : Ord) : rust_string :=
  hash_to_string L (bytes_of id.1) ++ [105] ++ to_string (uint_value id.2).

Definition txid_string (h : Hash32) : rust_string := hash_to_string L (bytes_of h).

Definition script_hash (script : list Z) : Hash20 := mkBytes (script_hash_of L script).

Definition etching (n : Namespace) (id : Rid) : MapiResult (option EtchingByRuneId_Value) :=
  get_reducer_key_maybe EtchingByRuneId_Value s n Timbre.EtchingByRuneId (id : EtchingByRuneId_Key).

(** Fields of an etching. *)
Definition et_tx_hash (v : EtchingByRuneId_Value) : Hash32 := first_fields v.
Definition et_name (v : EtchingByRuneId_Value) : option u128 := first_fields (last_fields v).
Definition et_spacers (v : EtchingByRuneId_Value) : option u32 :=
  first_fields (last_fields (last_fields v)).
Definition et_symbol (v : EtchingByRuneId_Value) : option u32 :=
  first_fields (last_fields (last_fields (last_fields v))).
Definition et_divisibility (v : EtchingByRuneId_Value) : option u8 :=
  first_fields (last_fields (last_fields (last_fields (last_fields v)))).

(** [etch.divisibility.unwrap_or(0) as usize]. *)
Definition dec_of (v : EtchingByRuneId_Value) : nat :=
  Z.to_nat (default 0 (uint_value <$> et_divisibility v)).

Definition terms_dec (v : Brc20TermsByTicker_Value) : nat :=
  Z.to_nat (uint_value (first_fields (last_fields (last_fields v)))).

(** ** addresses/utxos_by_address.rs *)

Record DuneAndAmount : Type := mkDuneAndAmount { da_dune_id : rust_string; da_amount : rust_string }.
Record InscriptionAndOffset : Type := mkInscriptionAndOffset {
  io_offset : Z; io_inscription_id : rust_string;
}.

Record Utxo : Type := mkUtxo {
  ut_txid : rust_string;
  ut_vout : Z;
  ut_address : option rust_string;
  ut_script_pubkey : rust_string;
  ut_satoshis : rust_string;
  ut_confirmations : Z;
  ut_height : Z;
  ut_dunes : list DuneAndAmount;
  ut_inscriptions : list InscriptionAndOffset;
}.

Record UtxoParams : Type := mkUtxoParams {
  filter_dust : option bool;
  filter_dust_threshold : option Z;
  exclude_metaprotocols : option bool;
}.

Definition UtxoCursor : Type := u64 &: Hash32 &: u32.

Definition utxo_cursor (k : UtxoKey) : UtxoCursor :=
  uk_height k &: uk_utxo_hash k &: uk_utxo_index k.

(** Values of at least the threshold, read from the first eight bytes. *)
Definition dust_filter (threshold : Z) : option (Key * Value → bool) :=
  if 0 <? threshold then
    Some (λ kv, (8 <=? Z.of_nat (length kv.2)) && (threshold <=? of_be_bytes (take 8 kv.2)))
  else None.

Definition dunes_of_utxo (runes_by_utxo etchings : Namespace) (utxo : UtxoRef_Key)
  : MapiResult (list DuneAndAmount) :=
  fetched ← get_reducer_key_maybe RunesByUtxo_Value s runes_by_utxo Timbre.RunesByUtxo utxo;
  foldM (λ out e,
    etch ← get_reducer_key EtchingByRuneId_Value s etchings Timbre.EtchingByRuneId
             (e.1 : EtchingByRuneId_Key);
    Ok (out ++ [mkDuneAndAmount (id_string e.1) (decimal (uint_value e.2) (dec_of etch))]))
    [] (default [] (entries_of <$> fetched)).

(** By offset, in the order they are stored for equal offsets. *)
Definition offset_le (a b : u32 * Ord) : Prop := uint_value a.1 ≤ uint_value b.1.
#[local] Instance offset_le_dec a b : Decision (offset_le a b).
Proof. unfold offset_le. apply _. Defined.

Definition inscriptions_of_utxo (inscriptions_by_utxo : Namespace) (utxo : UtxoRef_Key)
  : MapiResult (list InscriptionAndOffset) :=
  fetched ← get_reducer_key_maybe InscriptionsByUtxo_Value s inscriptions_by_utxo
              Timbre.InscriptionsByUtxo utxo;
  Ok (map (λ i, mkInscriptionAndOffset (uint_value i.1) (inscription_string i.2))
        (merge_sort offset_le (default [] fetched))).

Definition utxo_row (runes_by_utxo etchings inscriptions_by_utxo : Namespace) (excl : bool)
    (address : option (Address L)) (script : list Z) (last_updated : LastUpdated)
    (kv : UtxoKey * UtxosByScriptHash_Value) : Q Utxo :=
  let '(key, value) := kv in
  let utxo : UtxoRef_Key := uk_utxo_hash key &: uk_utxo_index key in
  dunes ← lift (if excl then Ok [] else dunes_of_utxo runes_by_utxo etchings utxo);
  inscriptions ← lift (if excl then Ok [] else inscriptions_of_utxo inscriptions_by_utxo utxo);
  mret (mkUtxo (txid_string (uk_utxo_hash key)) (uint_value (uk_utxo_index key))
          (address_to_string L <$> address) (hex_encode L script) (to_string (uint_value value))
          (saturating_sub (lu_block_height last_updated) (uint_value (uk_height key)))
          (uint_value (uk_height key)) dunes inscriptions).

Definition utxos_by_address (page : HeightPaginationParams) (addr_or_pk : rust_string)
    (params : UtxoParams) : Q (PaginatedResponse (list Utxo)) :=
  utxos ← lift (encoder reg TUtxosByScriptHash);
  runes_by_utxo ← lift (encoder reg TRunesByUtxo);
  etchings ← lift (encoder reg TEtchingByRuneId);
  inscriptions_by_utxo ← lift (encoder reg TInscriptionsByUtxo);
  last_updated ← lift (get_last_updated L s utxos);
  catch_not_found (lift (parse_address_or_script_bytes L reg s addr_or_pk mode))
    (mkPaginated [] last_updated None) (λ '(address, script),
  page ← lift (ParsedHeightPaginationParams_parse L UtxoCursor page utxos Timbre.UtxosByScriptHash
                 (Some (script_hash script)));
  let threshold :=
    default (if default false (filter_dust params) then 100000 else 0)
      (filter_dust_threshold params) in
  let filter := dust_filter threshold in
  let excl := default false (exclude_metaprotocols params) in
  let scanner := page_scanner page in
  kvs ← (if excl then
           get_non_metaprotocol_utxos fuel scanner s filter runes_by_utxo inscriptions_by_utxo
         else execute_with_filter fuel scanner s filter : Q _);
  '(data, next_cursor) ← page_loop (pp_count page) (λ k, encode_base64 L (utxo_cursor k))
     (utxo_row runes_by_utxo etchings inscriptions_by_utxo excl address script last_updated) 0 kvs;
  mret (mkPaginated data last_updated next_cursor)).

(** ** addresses/txs_by_address.rs *)

Record InvolvedTransaction : Type := mkInvolved {
  it_tx_hash : rust_string; it_height : Z; it_input : bool; it_output : bool;
}.

Definition TxCursor : Type := u64 &: u16 &: Hash32.

Definition tx_row (kv : TxsByScriptHash_Key * TxsByScriptHash_Value) : Q InvolvedTransaction :=
  let '(_ &: height &: _ &: tx_hash, input &: output) := kv in
  mret (mkInvolved (txid_string tx_hash) (uint_value height) input output).

Definition txs_by_address (page : HeightPaginationParams) (addr_or_pk : rust_string)
  : Q (PaginatedResponse (list InvolvedTransaction)) :=
  n ← lift (encoder reg TTxsByScriptHash);
  '(_, script) ← lift (parse_address_or_script_bytes L reg s addr_or_pk mode);
  page ← lift (ParsedHeightPaginationParams_parse L TxCursor page n Timbre.TxsByScriptHash
                 (Some (script_hash script)));
  last_updated ← lift (get_last_updated L s n);
  kvs ← (scan_execute fuel (page_scanner page) s : Q (list (TxsByScriptHash_Key * TxsByScriptHash_Value)));
  '(data, next_cursor) ← page_loop (pp_count page)
     (λ k : TxsByScriptHash_Key, encode_base64 L (last_fields k : TxCursor)) tx_row 0 kvs;
  mret (mkPaginated data last_updated next_cursor).

(** ** addresses/total_balance_by_address.rs *)

Definition total_balance_by_address (addr_or_pk : rust_string)
  : Q (TimestampedResponse rust_string) :=
  n ← lift (encoder reg TSatBalanceByScriptHash);
  last_updated ← lift (get_last_updated L s n);
  '(_, script) ← lift (parse_address_or_script_bytes L reg s addr_or_pk mode);
  satoshis ← lift (get_reducer_key_maybe u64 s n Timbre.SatBalanceByScriptHash
                     (script_hash script : SatBalanceByScriptHash_Key));
  mret (mkTimestamped (to_string (default 0 (uint_value <$> satoshis))) last_updated).

(** ** dunes/dune_utxos_by_address.rs *)

Record AddressDuneUtxo : Type := mkAddressDuneUtxo {
  au_txid : rust_string; au_vout : Z; au_satoshis : rust_string; au_confirmations : Z;
  au_height : Z; au_dune_amount : rust_string;
}.

(** [unwrap_or_default]: an unknown name is the dune 0:0. *)
Definition dune_or_default (id : rust_string) : MapiResult Rid :=
  id ← RuneIdentifier_parse L id;
  match id with
  | RuneById id => Ok (mkUInt id.1, mkUInt id.2)
  | RuneByName n => id ← resolve_rune_name reg s n; Ok (default (mkUInt 0, mkUInt 0) id)
  end.

Definition script_filter (script_hash : Hash20) (kv : Key * Value) : bool :=
  match decode kv.2 : decoded UtxosByRuneId_Value with
  | Ok (value, _) => bool_decide (bytes_of (first_fields value) = bytes_of script_hash)
  | _ => false
  end.

Definition address_dune_row (last_updated : LastUpdated) (dec : nat)
    (kv : UtxosByRuneId_Key * UtxosByRuneId_Value) : Q AddressDuneUtxo :=
  let '(_ &: height &: utxo_hash &: utxo_index, _ &: rune_quantity &: satoshis) := kv in
  mret (mkAddressDuneUtxo (txid_string utxo_hash) (uint_value utxo_index)
          (to_string (uint_value satoshis))
          (saturating_sub (lu_block_height last_updated) (uint_value height)) (uint_value height)
          (decimal (uint_value rune_quantity) dec)).

Definition dune_utxos_by_address (page : HeightPaginationParams) (addr_or_pk rune_id : rust_string)
  : Q (PaginatedResponse (list AddressDuneUtxo)) :=
  utxos ← lift (encoder reg TUtxosByRuneId);
  etchings ← lift (encoder reg TEtchingByRuneId);
  '(_, script) ← lift (parse_address_or_script_bytes L reg s addr_or_pk mode);
  rune_id ← lift (dune_or_default rune_id);
  page ← lift (ParsedPaginationParams_parse L UtxoCursor page utxos Timbre.UtxosByRuneId
                 (Some rune_id));
  last_updated ← lift (get_last_updated L s utxos);
  etch ← lift (etching etchings rune_id);
  match etch with
  | None => mret (mkPaginated [] last_updated None)
  | Some etch =>
      kvs ← (execute_with_filter fuel (page_scanner page) s (Some (script_filter (script_hash script)))
             : Q (list (UtxosByRuneId_Key * UtxosByRuneId_Value)));
      '(data, next_cursor) ← page_loop (pp_count page)
         (λ k : UtxosByRuneId_Key, encode_base64 L (last_fields k : UtxoCursor))
         (address_dune_row last_updated (dec_of etch)) 0 kvs;
      mret (mkPaginated data last_updated next_cursor)
  end.

(** ** dunes/dunes_by_address.rs *)

Definition dunes_by_address (addr_or_pk : rust_string)
  : Q (TimestampedResponse (gmap rust_string rust_string)) :=
  balances ← lift (encoder reg TRuneBalancesByScriptHash);
  etchings ← lift (encoder reg TEtchingByRuneId);
  '(_, script) ← lift (parse_address_or_script_bytes L reg s addr_or_pk mode);
  last_updated ← lift (get_last_updated L s balances);
  kvs ← (scan_execute fuel (Scanner_new (reducer_key_range balances Timbre.RuneBalancesByScriptHash
           (Some (script_hash script)) (None : option u64) (None : option u64))) s
         : Q (list (RuneBalancesByScriptHash_Key * u128)));
  rune_balances ← lift (foldM (λ m '(k, amount),
    let id := last_fields k in
    etch ← get_reducer_key EtchingByRuneId_Value s etchings Timbre.EtchingByRuneId
             (id : EtchingByRuneId_Key);
    Ok (<[id_string id := decimal (uint_value amount) (dec_of etch)]> m)) ∅ kvs);
  mret (mkTimestamped rune_balances last_updated).

(** ** dunes/holders_by_dune.rs *)

(** [DuneHolder] and [Drc20Holder]. *)
Record Holder : Type := mkHolder {
  ho_address : option rust_string; ho_script_pubkey : rust_string; ho_balance : rust_string;
}.

Definition holder (scripts : Namespace) (hash : Hash20) (balance : rust_string) : Q Holder :=
  '(address, script) ← lift (resolve_script_hash L s mode hash scripts);
  mret (mkHolder (address_to_string L <$> address) (hex_encode L script) balance).

Definition dune_maybe (id : rust_string) : MapiResult (option Rid) :=
  id ← RuneIdentifier_parse L id;
  match id with
  | RuneById id => Ok (Some (mkUInt id.1, mkUInt id.2))
  | RuneByName n => resolve_rune_name reg s n
  end.

Definition var_id (id : Rid) : VarUInt * VarUInt :=
  (mkVarUInt (uint_value id.1), mkVarUInt (uint_value id.2)).

Definition holders_by_dune (page : CursorPaginationParams) (dune_id : rust_string)
  : Q (PaginatedResponse (list Holder)) :=
  balances ← lift (encoder reg TBalancesByRuneId);
  etchings ← lift (encoder reg TEtchingByRuneId);
  scripts ← lift (encoder reg TScriptByScriptHash);
  last_updated ← lift (get_last_updated L s balances);
  rune_id ← lift (dune_maybe dune_id);
  match rune_id with
  | None => mret (mkPaginated [] last_updated None)
  | Some rune_id =>
      page ← lift (parse_no_height L Hash20 page balances Timbre.BalancesByRuneId
                     (Some (var_id rune_id)));
      kvs ← (scan_execute fuel (scanner_count (pp_count page + 1) (Scanner_new (pp_range page))) s
             : Q (list (BalancesByRuneId_Key * u128)));
      etch ← lift (etching etchings rune_id);
      '(data, next_cursor) ← page_loop (pp_count page)
         (λ k : BalancesByRuneId_Key, encode_base64 L (last_fields k))
         (λ kv, holder scripts (last_fields kv.1)
                  (decimal (uint_value kv.2) (default 0%nat (dec_of <$> etch)))) 0 kvs;
      mret (mkPaginated data last_updated next_cursor)
  end.

(** ** dunes/info_by_dune.rs *)

Record DuneTermsInfo : Type := mkDuneTermsInfo {
  dt_mint_txs_cap : option rust_string; dt_amount_per_mint : option rust_string;
  dt_start_height : option rust_string; dt_end_height : option rust_string;
  dt_start_offset : option rust_string; dt_end_offset : option rust_string;
}.

Record DuneInfo : Type := mkDuneInfo {
  di_id : rust_string;
  di_etching_cenotaph : bool;
  di_etching_tx : rust_string;
  di_etching_height : Z;
  di_name : rust_string;
  di_spaced_name : rust_string;
  di_symbol : option Z;
  di_divisibility : Z;
  di_terms : DuneTermsInfo;
  di_max_supply : option rust_string;
  di_circulating_supply : rust_string;
  di_mints : Z;
  di_unique_holders : Z;
}.

(** [char::from_u32(x).unwrap_or(' ')]. *)
Definition char_or_space (x : Z) : Z :=
  if (x <? 55296) || ((57344 <=? x) && (x <? 1114112)) then x else 32.

(** [iter.sum()] of [u128] values. *)
Definition sum_u128 (l : list u128) : Z := foldl (λ a x, wrap 128 (a + uint_value x)) 0 l.

Definition opt_val {n} (x : option (UInt n)) : option Z := uint_value <$> x.

Definition max_supply_of (premine max_mint_txs amount_per_mint : option Z) : option Z :=
  match max_mint_txs with
  | Some max =>
      Some (saturating_add 128 (default 0 premine)
              (saturating_mul 128 max (default 0 amount_per_mint)))
  | None =>
      match amount_per_mint with
      | Some 0 => Some (default 0 premine)
      | _ => None
      end
  end.

Definition info_by_dune (rune_id : rust_string) : Q (TimestampedResponse DuneInfo) :=
  etchings ← lift (encoder reg TEtchingByRuneId);
  mints ← lift (encoder reg TMintsByRuneId);
  balances ← lift (encoder reg TBalancesByRuneId);
  rune_id ← lift (dune_maybe rune_id);
  rune_id ← lift (ok_or NotFound rune_id);
  last_updated ← lift (get_last_updated L s etchings);
  info ← lift (etching etchings rune_id);
  info ← lift (ok_or NotFound info);
  total_mints ← lift (get_reducer_key_maybe u128 s mints Timbre.MintsByRuneId
                        (rune_id : MintsByRuneId_Key));
  kvs ← (scan_execute fuel (Scanner_new (reducer_key_range balances Timbre.BalancesByRuneId
           (Some (var_id rune_id)) (None : option u64) (None : option u64))) s
         : Q (list (BalancesByRuneId_Key * u128)));
  let circulating_supply := sum_u128 kvs.*2 in
  let '(tx_hash &: name &: spacers &: symbol &: divisibility &: premine &: max_mint_txs
        &: amount_per_mint &: start_height &: end_height &: start_offset &: end_offset
        &: _ &: cenotaph) := info in
  let max_supply := max_supply_of (opt_val premine) (opt_val max_mint_txs) (opt_val amount_per_mint) in
  name ← lift (ok_or (Internal "expected rune name in dogecoin") (opt_val name));
  let dec := dec_of info in
  mret (mkTimestamped
    (mkDuneInfo (id_string rune_id) cenotaph (txid_string tx_hash) (uint_value rune_id.1)
       (rune_to_string L name) (spaced_rune_to_string L name (default 0 (opt_val spacers)))
       (char_or_space <$> opt_val symbol) (default 0 (opt_val divisibility))
       (mkDuneTermsInfo (to_string <$> opt_val max_mint_txs)
          ((λ x, decimal x dec) <$> opt_val amount_per_mint) (to_string <$> opt_val start_height)
          (to_string <$> opt_val end_height) (to_string <$> opt_val start_offset)
          (to_string <$> opt_val end_offset))
       ((λ x, decimal x dec) <$> max_supply) (decimal circulating_supply dec)
       (wrap 64 (default 0 (opt_val total_mints))) (Z.of_nat (length kvs))) last_updated).

(** ** dunes/list_dunes.rs *)

Record DuneIdAndName : Type := mkDuneIdAndName { dn_id : rust_string; dn_spaced_name : rust_string }.

Definition dune_name_row (kv : EtchingByRuneId_Key * EtchingByRuneId_Value) : Q DuneIdAndName :=
  name ← lift (ok_or (Internal "expected rune name in dogecoin") (opt_val (et_name kv.2)));
  mret (mkDuneIdAndName (id_string kv.1)
          (spaced_rune_to_string L name (default 0 (opt_val (et_spacers kv.2))))).

Definition list_dunes (page : CursorPaginationParams) : Q (PaginatedResponse (list DuneIdAndName)) :=
  n ← lift (encoder reg TEtchingByRuneId);
  last_updated ← lift (get_last_updated L s n);
  page ← lift (parse_no_height L EtchingByRuneId_Key page n Timbre.EtchingByRuneId
                 (None : option u64));
  kvs ← (scan_execute fuel (scanner_count (pp_count page + 1) (Scanner_new (pp_range page))) s
         : Q (list (EtchingByRuneId_Key * EtchingByRuneId_Value)));
  '(data, next_cursor) ← page_loop (pp_count page)
     (λ k : EtchingByRuneId_Key, encode_base64 L k) dune_name_row 0 kvs;
  mret (mkPaginated data last_updated next_cursor).

(** ** dunes/utxos_by_dune.rs *)

Record DuneUtxo : Type := mkDuneUtxo {
  du_txid : rust_string; du_vout : Z; du_address : option rust_string;
  du_script_pubkey : rust_string; du_satoshis : rust_string; du_confirmations : Z; du_height : Z;
  du_dune_amount : rust_string;
}.

Definition dune_utxo_row (scripts : Namespace) (last_updated : LastUpdated) (dec : nat)
    (kv : UtxosByRuneId_Key * UtxosByRuneId_Value) : Q DuneUtxo :=
  let '(_ &: height &: utxo_hash &: utxo_index, script_hash &: rune_quantity &: satoshis) := kv in
  '(address, script) ← lift (resolve_script_hash L s mode script_hash scripts);
  mret (mkDuneUtxo (txid_string utxo_hash) (uint_value utxo_index)
          (address_to_string L <$> address) (hex_encode L script) (to_string (uint_value satoshis))
          (saturating_sub (lu_block_height last_updated) (uint_value height)) (uint_value height)
          (decimal (uint_value rune_quantity) dec)).

(** The etching is read through the encoder of the outputs; one instance serves
    both reducers. *)
Definition utxos_by_dune (page : HeightPaginationParams) (rune_id : rust_string)
  : Q (PaginatedResponse (list DuneUtxo)) :=
  utxos ← lift (encoder reg TUtxosByRuneId);
  etchings ← lift (encoder reg TUtxosByRuneId);
  scripts ← lift (encoder reg TScriptByScriptHash);
  dune_id ← lift (dune_or_default rune_id);
  page ← lift (ParsedHeightPaginationParams_parse L UtxoCursor page utxos Timbre.UtxosByRuneId
                 (Some dune_id));
  last_updated ← lift (get_last_updated L s utxos);
  kvs ← (scan_execute fuel (page_scanner page) s
         : Q (list (UtxosByRuneId_Key * UtxosByRuneId_Value)));
  etch ← lift (etching etchings dune_id);
  match etch with
  | None => mret (mkPaginated [] last_updated None)
  | Some etch =>
      '(data, next_cursor) ← page_loop (pp_count page)
         (λ k : UtxosByRuneId_Key, encode_base64 L (last_fields k : UtxoCursor))
         (dune_utxo_row scripts last_updated (dec_of etch)) 0 kvs;
      mret (mkPaginated data last_updated next_cursor)
  end.

(** ** inscriptions/content_by_inscription_id.rs *)

Definition DEFAULT_CONTENT_BODY_SIZE : Z := 100.
Definition MAX_CONTENT_BODY_SIZE : Z := 4096.

(** A page is kept as the bytes that are written in base 64. *)
Record ContentBody : Type := mkContentBody {
  cb_page : list Z; cb_total_length : Z; cb_remaining_bytes : Z;
}.

Definition content_info (n : Namespace) (inscription_id : rust_string)
  : MapiResult ContentByInscriptionId_Value :=
  id ← parse_inscription_id L inscription_id;
  info ← get_reducer_key_maybe ContentByInscriptionId_Value s n Timbre.ContentByInscriptionId
           ((mkBytes id.1, mkUInt id.2) : ContentByInscriptionId_Key);
  ok_or NotFound info.

Definition content_cursor (c : option rust_string) : MapiResult Z :=
  match c with
  | None => Ok 0
  | Some c =>
      match decode_base64 L c : outcome TimbreError u64 with
      | Ok offset => Ok (uint_value offset)
      | Err _ => Err (MalformedRequest "Error while decoding cursor")
      | Panic => Panic
      end
  end.

Definition content_page (body : list Z) (cursor : Z) (count : option Z)
  : MapiResult (ContentBody * option rust_string) :=
  let total_length := Z.of_nat (length body) in
  if total_length <? cursor then Err (MalformedRequest "Cursor exceeds content length")
  else
    let count := default DEFAULT_CONTENT_BODY_SIZE count in
    if count =? 0 then Err (MalformedRequest "count must be greater than 0")
    else if MAX_CONTENT_BODY_SIZE <? count then Err (MalformedRequest "Max response size exceeded")
    else
      let page_start := Z.to_nat cursor in
      let page_end := Z.to_nat (Z.min (wrap 64 (cursor + count)) total_length) in
      if (page_end <? page_start)%nat then Panic
      else
        let remaining_bytes := saturating_sub total_length (wrap 64 (cursor + count)) in
        Ok (mkContentBody (take (page_end - page_start) (drop page_start body)) total_length
              remaining_bytes,
            if negb (remaining_bytes =? 0)
            then Some (encode_base64 L (mkUInt (wrap 64 (cursor + count)) : u64)) else None).

Definition content_by_inscription_id (inscription_id : rust_string) (page : CursorPaginationParams)
  : Q (PaginatedResponse ContentBody) :=
  n ← lift (encoder reg TContentByInscriptionId);
  last_updated ← lift (get_last_updated L s n);
  info ← lift (content_info n inscription_id);
  cursor ← lift (content_cursor (cp_cursor page));
  let '(_ &: _ &: _ &: content_body) := info in
  '(data, next_cursor) ← lift (content_page (script_bytes content_body) cursor (cp_count page));
  mret (mkPaginated data last_updated next_cursor).

(** ** inscriptions/inscription_info.rs *)

Definition MAX_CONTENT_PREVIEW : nat := 100.

Record InscriptionInfo : Type := mkInscriptionInfo {
  ii_inscription_id : rust_string; ii_created_at : Z; ii_inscription_num : Z;
  ii_content_type : option (list Z); ii_content_body_preview : option rust_string;
  ii_content_length : Z;
}.

Definition inscription_info (inscription_id : rust_string) : Q (TimestampedResponse InscriptionInfo) :=
  n ← lift (encoder reg TContentByInscriptionId);
  last_updated ← lift (get_last_updated L s n);
  info ← lift (content_info n inscription_id);
  let '(created_at &: inscription_num &: content_type &: content_body) := info in
  let content_type := script_bytes content_type in
  let content_type := if Brc20.utf8_valid content_type then Some content_type else None in
  let preview :=
    if bool_decide (content_type = Some Brc20.text_plain)
    then Some (from_utf8_lossy L (take MAX_CONTENT_PREVIEW (script_bytes content_body))) else None in
  mret (mkTimestamped
    (mkInscriptionInfo inscription_id (uint_value created_at) (uint_value inscription_num)
       content_type preview (Z.of_nat (length content_body))) last_updated).

(** ** inscriptions/drc20_by_address.rs *)

Record Drc20Balances : Type := mkDrc20Balances { db_total : rust_string; db_available : rust_string }.

Definition balances_scan (n : Namespace) (reducer : Reducer) (hash : Hash20)
  : Q (list (Brc20BalancesByScriptHash_Key * u128)) :=
  scan_execute fuel
    (Scanner_new (reducer_key_range n reducer (Some hash) (None : option u64) (None : option u64))) s.

Definition drc20_row (terms : Namespace) (m : gmap rust_string Drc20Balances)
    (e : (Brc20BalancesByScriptHash_Key * u128) * (Brc20BalancesByScriptHash_Key * u128))
  : MapiResult (gmap rust_string Drc20Balances) :=
  let '((total_k, total_v), (available_k, available_v)) := e in
  let ticker := last_fields total_k in
  if bool_decide (short_of ticker ≠ short_of (last_fields available_k)) then
    Err (Internal "drc20 balance ticker mismatch")
  else if (uint_value total_v =? 0) && (uint_value available_v =? 0) then Ok m
  else
    t ← get_reducer_key Brc20TermsByTicker_Value s terms Timbre.Brc20TermsByTicker
          (ticker : Brc20TermsByTicker_Key);
    Ok (<[from_utf8_lossy L (short_of ticker)
          := mkDrc20Balances (decimal (uint_value total_v) (terms_dec t))
               (decimal (uint_value available_v) (terms_dec t))]> m).

Definition drc20_by_address (addr_or_pk : rust_string)
  : Q (TimestampedResponse (gmap rust_string Drc20Balances)) :=
  balances ← lift (encoder reg TBrc20BalancesByScriptHash);
  terms ← lift (encoder reg TBrc20TermsByTicker);
  '(_, script) ← lift (parse_address_or_script_bytes L reg s addr_or_pk mode);
  last_updated ← lift (get_last_updated L s balances);
  total_kvs ← balances_scan balances Timbre.Brc20TotalBalanceByScriptHash (script_hash script);
  available_kvs ← balances_scan balances Timbre.Brc20AvailableBalanceByScriptHash (script_hash script);
  if negb (length total_kvs =? length available_kvs)%nat then
    lift (Err (Internal "drc20 balance len mismatch"))
  else
    m ← lift (foldM (drc20_row terms) ∅ (zip total_kvs available_kvs));
    mret (mkTimestamped m last_updated).

(** ** inscriptions/drc20_holders_by_ticker.rs *)

Definition drc20_holder_row (terms scripts : Namespace) (kv : BalancesByBrc20_Key * u128) : Q Holder :=
  let '(ticker &: hash, value) := kv in
  t ← lift (get_reducer_key Brc20TermsByTicker_Value s terms Timbre.Brc20TermsByTicker
              (ticker : Brc20TermsByTicker_Key));
  holder scripts hash (decimal (uint_value value) (terms_dec t)).

(** [ticker] as the bytes of the string. *)
Definition drc20_holders_by_ticker (page : CursorPaginationParams) (ticker : list Z)
  : Q (PaginatedResponse (list Holder)) :=
  balances ← lift (encoder reg TBrc20BalancesByTicker);
  terms ← lift (encoder reg TBrc20TermsByTicker);
  scripts ← lift (encoder reg TScriptByScriptHash);
  let ticker := to_lowercase L ticker in
  last_updated ← lift (get_last_updated L s balances);
  page ← lift (parse_no_height L Hash20 page balances Timbre.BalancesByBrc20
                 (Some (mkShort ticker)));
  kvs ← (scan_execute fuel (scanner_count (pp_count page + 1) (Scanner_new (pp_range page))) s
         : Q (list (BalancesByBrc20_Key * u128)));
  '(data, next_cursor) ← page_loop (pp_count page)
     (λ k : BalancesByBrc20_Key, encode_base64 L (last_fields k))
     (drc20_holder_row terms scripts) 0 kvs;
  mret (mkPaginated data last_updated next_cursor).

(** ** inscriptions/drc20_info.rs *)

Record Drc20Terms : Type := mkDrc20Terms { dr_max : rust_string; dr_limit : rust_string; dr_dec : Z }.

Record Drc20Info : Type := mkDrc20Info {
  df_ticker : list Z; df_ticker_hex : rust_string; df_deploy_inscription : rust_string;
  df_holders : Z; df_minted_supply : rust_string; df_terms : Drc20Terms;
}.

Definition drc20_info (ticker : list Z) : Q (TimestampedResponse Drc20Info) :=
  balances ← lift (encoder reg TBrc20BalancesByTicker);
  terms_n ← lift (encoder reg TBrc20TermsByTicker);
  let ticker := to_lowercase L ticker in
  last_updated ← lift (get_last_updated L s balances);
  terms ← lift (get_reducer_key_maybe Brc20TermsByTicker_Value s terms_n Timbre.Brc20TermsByTicker
                  (mkShort ticker : Brc20TermsByTicker_Key));
  terms ← lift (ok_or NotFound terms);
  kvs ← (scan_execute fuel (Scanner_new (reducer_key_range balances Timbre.BalancesByBrc20
           (Some (mkShort ticker)) (None : option u64) (None : option u64))) s
         : Q (list (BalancesByBrc20_Key * u128)));
  let '(max &: limit &: dec8 &: _ &: deploy_id) := terms in
  let dec := terms_dec terms in
  mret (mkTimestamped
    (mkDrc20Info ticker (hex_encode L ticker) (inscription_string deploy_id)
       (Z.of_nat (length kvs)) (decimal (sum_u128 kvs.*2) dec)
       (mkDrc20Terms (decimal (uint_value max) dec) (decimal (uint_value limit) dec)
          (uint_value dec8))) last_updated).

(** ** inscriptions/inscriptions_by_address.rs *)

Record InscriptionByAddress : Type := mkInscriptionByAddress {
  ia_inscription_id : rust_string; ia_satoshis : rust_string; ia_utxo_sat_offset : Z;
  ia_utxo_txid : rust_string; ia_utxo_vout : Z; ia_utxo_block_height : Z;
  ia_utxo_confirmations : Z;
}.

Definition VarOrd : Type := Hash32 * VarUInt.

(** The order of inscription identifiers: the bytes of the transaction, then the
    index. *)
Definition VarOrd_cmp (a b : VarOrd) : comparison :=
  match bytes_cmp (bytes_of a.1) (bytes_of b.1) with
  | Eq => Z.compare (var_value a.2) (var_value b.2)
  | c => c
  end.

(** height, transaction, output; value, offset, inscription *)
Definition FoundInscription : Type := (Z * rust_string * Z) * (rust_string * (Z * VarOrd)).
Definition found_id (f : FoundInscription) : VarOrd := f.2.2.2.

Definition found_le (a b : FoundInscription) : Prop := VarOrd_cmp (found_id a) (found_id b) ≠ Gt.
#[local] Instance found_le_dec a b : Decision (found_le a b).
Proof. unfold found_le. apply _. Defined.

Definition find_inscriptions (cursor : VarOrd)
    (kv : InscriptionUtxosByScriptHash_Key * InscriptionUtxosByScriptHash_Value)
  : MapiResult (list FoundInscription) :=
  let '(_ &: height &: utxo_hash &: utxo_index, satoshis &: inscriptions) := kv in
  foldM (λ out '(offset, inscription_id),
    if bool_decide (VarOrd_cmp cursor inscription_id = Lt) then
      height ← parse_varuint 64 height;
      utxo_index ← parse_varuint 32 utxo_index;
      satoshis ← parse_varuint 64 satoshis;
      offset ← parse_varuint 32 offset;
      Ok (out ++ [((height, txid_string utxo_hash, utxo_index),
                   (to_string satoshis, (offset, inscription_id)))])
    else Ok out) [] (vec_of inscriptions).

Definition found_row (last_updated : LastUpdated) (f : FoundInscription)
  : MapiResult InscriptionByAddress :=
  let '((height, utxo_hash, utxo_index), (satoshis, (offset, inscription_id))) := f in
  index ← parse_varuint 32 inscription_id.2;
  Ok (mkInscriptionByAddress
        (txid_string inscription_id.1 ++ [105] ++ to_string index)
        satoshis offset utxo_hash utxo_index height
        (saturating_sub (wrap 64 (lu_block_height last_updated + 1)) height)).

Definition collectM {A B} (f : A → MapiResult (list B)) (l : list A) : MapiResult (list B) :=
  foldM (λ out a, r ← f a; Ok (out ++ r)) [] l.

(** What a page shows of the inscriptions found, and the cursor after it. *)
Definition cut_page (count : Z) (found : list FoundInscription)
  : list FoundInscription * option rust_string :=
  if count <? Z.of_nat (length found) then
    (take (Z.to_nat count) found,
     (λ f, encode_base64 L ((found_id f).1 &: (found_id f).2))
       <$> found !! (Z.to_nat count - 1)%nat)
  else (found, None).

Definition inscriptions_cursor (c : option rust_string) : MapiResult VarOrd :=
  match c with
  | None => Ok (mkBytes (replicate 32 0), mkVarUInt 0)
  | Some c =>
      match decode_base64 L c : outcome TimbreError (Hash32 &: VarUInt) with
      | Ok (tx_id &: index) => Ok (tx_id, index)
      | Err _ => Err (MalformedRequest "Error while decoding cursor")
      | Panic => Panic
      end
  end.

Definition inscriptions_by_address (page : CursorPaginationParams) (addr_or_pk : rust_string)
  : Q (PaginatedResponse (list InscriptionByAddress)) :=
  n ← lift (encoder reg TInscriptionUtxosByScriptHash);
  last_updated ← lift (get_last_updated L s n);
  catch_not_found (lift (parse_address_or_script_bytes L reg s addr_or_pk mode))
    (mkPaginated [] last_updated None) (λ '(_, script),
  let count := default MAX_PAGE_COUNT (cp_count page) in
  if (MAX_PAGE_COUNT <? count) || (count =? 0) then
    lift (Err (MalformedRequest "Invalid page size"))
  else
    cursor ← lift (inscriptions_cursor (cp_cursor page));
    kvs ← (scan_execute fuel (Scanner_new (reducer_key_range n Timbre.InscriptionUtxosByScriptHash
             (Some (script_hash script)) (None : option u64) (None : option u64))) s
           : Q (list (InscriptionUtxosByScriptHash_Key * InscriptionUtxosByScriptHash_Value)));
    found ← lift (collectM (find_inscriptions cursor) kvs);
    let '(shown, next_cursor) := cut_page count (merge_sort found_le found) in
    data ← lift (collectM (λ f, r ← found_row last_updated f; Ok [r]) shown);
    mret (mkPaginated data last_updated next_cursor)).

(** ** inscriptions/list_drc20s.rs *)

Definition list_drc20s (page : CursorPaginationParams) : Q (PaginatedResponse (list rust_string)) :=
  n ← lift (encoder reg TBrc20TermsByTicker);
  last_updated ← lift (get_last_updated L s n);
  page ← lift (parse_no_height L ShortByteString page n Timbre.Brc20TermsByTicker
                 (None : option u64));
  kvs ← (scan_execute fuel (scanner_count (pp_count page + 1) (Scanner_new (pp_range page))) s
         : Q (list (Brc20TermsByTicker_Key * Brc20TermsByTicker_Value)));
  '(data, next_cursor) ← page_loop (pp_count page)
     (λ k : Brc20TermsByTicker_Key, encode_base64 L k)
     (λ kv, mret (from_utf8_lossy L (short_of kv.1))) 0 kvs;
  mret (mkPaginated data last_updated next_cursor).

(** ** inscriptions/transfer_inscriptions_by_address.rs *)

Record TransferInscriptionByAddress : Type := mkTransferInscription {
  ti_ticker : rust_string; ti_inscription_id : rust_string; ti_token_amount : rust_string;
  ti_sat_amount : Z; ti_utxo_txid : rust_string; ti_utxo_vout : Z; ti_utxo_sat_offset : Z;
  ti_utxo_block_height : Z; ti_utxo_confirmations : Z;
}.

Definition transfer_row (terms : Namespace) (last_updated : LastUpdated)
    (kv : TransferInscriptionsByScriptHash_Key * TransferInscriptionsByScriptHash_Value)
  : Q TransferInscriptionByAddress :=
  let '(_ &: ticker &: inscription_id,
        token_amount &: sat_amount &: utxo_hash &: utxo_index &: offset &: block_height) := kv in
  t ← lift (get_reducer_key Brc20TermsByTicker_Value s terms Timbre.Brc20TermsByTicker
              (ticker : Brc20TermsByTicker_Key));
  mret (mkTransferInscription (from_utf8_lossy L (short_of ticker)) (inscription_string inscription_id)
          (decimal (uint_value token_amount) (terms_dec t)) (uint_value sat_amount)
          (txid_string utxo_hash) (uint_value utxo_index) (uint_value offset)
          (uint_value block_height)
          (saturating_sub (lu_block_height last_updated) (uint_value block_height))).

Definition TransferCursor : Type := ShortByteString &: Ord.

(** With a ticker the cursor is an inscription, without one a ticker and an
    inscription. *)
Definition transfer_page (page : CursorPaginationParams) (n : Namespace) (hash : Hash20)
    (ticker : option (list Z)) : MapiResult PageParams :=
  match ticker with
  | Some ticker =>
      parse_no_height L Ord page n Timbre.TransferInscriptionsByScriptHash
        (Some ((hash, mkUInt (n := 1) BREAK), mkShort ticker))
  | None =>
      parse_no_height L TransferCursor page n Timbre.TransferInscriptionsByScriptHash (Some hash)
  end.

Definition transfer_cursor (ticker : option (list Z)) (k : TransferInscriptionsByScriptHash_Key)
  : rust_string :=
  match ticker with
  | Some _ => encode_base64 L (last_fields (last_fields k))
  | None => encode_base64 L (last_fields k : TransferCursor)
  end.

Definition transfer_inscriptions_by_address (addr_or_pk : rust_string) (ticker : option (list Z))
    (page : CursorPaginationParams) : Q (PaginatedResponse (list TransferInscriptionByAddress)) :=
  n ← lift (encoder reg TTransferInscriptionsByAddress);
  terms ← lift (encoder reg TBrc20TermsByTicker);
  last_updated ← lift (get_last_updated L s n);
  catch_not_found (lift (parse_address_or_script_bytes L reg s addr_or_pk mode))
    (mkPaginated [] last_updated None) (λ '(_, script),
  page ← lift (transfer_page page n (script_hash script) ticker);
  kvs ← (scan_execute fuel (page_scanner page) s
         : Q (list (TransferInscriptionsByScriptHash_Key * TransferInscriptionsByScriptHash_Value)));
  '(data, next_cursor) ← page_loop (pp_count page) (transfer_cursor ticker)
     (transfer_row terms last_updated) 0 kvs;
  mret (mkPaginated data last_updated next_cursor)).

End api.

End MapiApi.
