(* ===== verification/MapiLaws.v ===== *)
(** What the queries answer: scans read the whole range whatever the pages, the
    pages of a query show every entry once and in order, and the outputs listed
    for an address are its unspent outputs. *)

From S2P Require Import Prelude Decimal Brc20 Types Timbre Crosscut StorageAction ReducerOutput TikvWorker TikvRefinement Reducers ReducerLaws Mapi MapiApi.
Import Decimal Types Timbre StorageAction ReducerOutput TikvWorker TikvRefinement Mapi MapiApi.

Module MapiLaws.

Implicit Types (s : Store) (k : Key) (r : Key * Key) (sn : Snapshot) (order : OrderParam).

(** ** Keys in order *)

Lemma bytes_lt_succ k x : bytes_ok x → bytes_le (k ++ [0]) x ↔ bytes_lt k x.
Proof.
  intros Hx. unfold bytes_le, bytes_lt. revert x Hx.
  induction k as [|b k IH]; intros [|y x] Hx; cbn [app bytes_cmp]; try done.
  - apply Forall_cons in Hx as [Hy _]. unfold in_range in Hy.
    destruct (Z.compare_spec 0 y); [by destruct x|done|lia].
  - apply Forall_cons in Hx as [_ Hx]. destruct (Z.compare b y); [by apply IH|done|done].
Qed.

Definition bytes_keys (s : Store) : Prop := ∀ k, is_Some (s !! k) → bytes_ok k.

Lemma filter_none {A} (P : A → Prop) `{∀ a, Decision (P a)} (l : list A) :
  (∀ a, a ∈ l → ¬ P a) → filter P l = [].
Proof.
  induction l as [|a l IH]; intros H0; [done|]. rewrite filter_cons_False by (apply H0; by left).
  apply IH. intros b Hb. apply H0. by right.
Qed.

Lemma filter_every {A} (P : A → Prop) `{∀ a, Decision (P a)} (l : list A) :
  (∀ a, a ∈ l → P a) → filter P l = l.
Proof.
  induction l as [|a l IH]; intros H0; [done|]. rewrite filter_cons_True by (apply H0; by left).
  f_equal. apply IH. intros b Hb. apply H0. by right.
Qed.

Lemma filter_iff_in {A} (P P' : A → Prop) `{∀ a, Decision (P a), ∀ a, Decision (P' a)} (l : list A) :
  (∀ a, a ∈ l → P a ↔ P' a) → filter P l = filter P' l.
Proof.
  induction l as [|a l IH]; intros Hiff; [done|]. rewrite !filter_cons.
  rewrite IH by (intros; apply Hiff; by right).
  pose proof (Hiff a ltac:(by left)). repeat destruct (decide _); tauto.
Qed.

Lemma sorted_keys_strict s : StronglySorted bytes_lt (sorted_keys s).
Proof.
  pose proof (Sorted_sorted_keys s) as Hs. pose proof (NoDup_sorted_keys s) as Hnd.
  induction Hs as [|k l Hs IH Hk]; [constructor|]. apply NoDup_cons in Hnd as [Hni Hnd].
  constructor; [by apply IH|]. apply Forall_forall. intros x Hx. rewrite Forall_forall in Hk.
  specialize (Hk x Hx). unfold bytes_lt, bytes_le in *.
  destruct (bytes_cmp k x) eqn:E; [|done|done]. by apply bytes_cmp_Eq in E as ->.
Qed.

Lemma scan_keys_strict s r : StronglySorted bytes_lt (scan_keys s r).
Proof.
  unfold scan_keys. induction (sorted_keys_strict s) as [|k l Hs IH Hk]; [constructor|].
  rewrite filter_cons. destruct (decide _); [|done]. constructor; [done|].
  apply Forall_forall. intros x [_ Hx]%list_elem_of_filter. by eapply Forall_forall in Hk.
Qed.

Lemma bytes_lt_asym a b : bytes_lt a b → ¬ bytes_lt b a.
Proof. intros H1 H2. apply (bytes_lt_irrefl a). by eapply bytes_lt_trans. Qed.

(** Around a key of a sorted list. *)
Lemma filter_after pre post k :
  StronglySorted bytes_lt (pre ++ k :: post) → filter (bytes_lt k) (pre ++ k :: post) = post.
Proof.
  intros (Hlt & _ & [_ Hk]%StronglySorted_inv)%StronglySorted_app. rewrite filter_app, filter_none.
  - cbn [app]. rewrite filter_cons_False by apply bytes_lt_irrefl. apply filter_every.
    intros a Ha. by eapply Forall_forall in Hk.
  - intros a Ha. apply bytes_lt_asym, Hlt; [done|by left].
Qed.

Lemma filter_before pre post k :
  StronglySorted bytes_lt (pre ++ k :: post) →
  filter (λ x, bytes_lt x k) (pre ++ k :: post) = pre.
Proof.
  intros (Hlt & _ & [_ Hk]%StronglySorted_inv)%StronglySorted_app. rewrite filter_app, filter_every.
  - rewrite filter_none; [apply app_nil_r|]. intros a [->|Ha]%elem_of_cons; [apply bytes_lt_irrefl|].
    apply bytes_lt_asym. by eapply Forall_forall in Hk.
  - intros a Ha. apply Hlt; [done|by left].
Qed.

(** ** Ranges after a page *)

Lemma scan_keys_after s r pre post k :
  bytes_keys s → scan_keys s r = pre ++ k :: post → scan_keys s (remaining Asc r k) = post.
Proof.
  intros Hok E. rewrite <- (filter_after pre post k) by (rewrite <- E; apply scan_keys_strict).
  assert (k ∈ scan_keys s r) as [[Hle _] _]%elem_of_scan_keys by (rewrite E; set_solver).
  rewrite <- E. unfold scan_keys. rewrite list_filter_filter. apply filter_iff_in.
  intros x Hx%elem_of_sorted_keys. unfold in_key_range. cbn [remaining fst snd].
  rewrite bytes_lt_succ by (by apply Hok). split; [|tauto]. intros [Hlt Hend].
  split; [done|]. split; [|done]. apply bytes_lt_le. by eapply bytes_le_lt_trans.
Qed.

Lemma scan_keys_before s r pre post k :
  r.1 ≠ [] → scan_keys s r = pre ++ k :: post → scan_keys s (remaining Desc r k) = pre.
Proof.
  intros Hr E. rewrite <- (filter_before pre post k) by (rewrite <- E; apply scan_keys_strict).
  assert (k ∈ scan_keys s r) as [[Hle Hk] _]%elem_of_scan_keys by (rewrite E; set_solver).
  assert (k ≠ []) as Hne. { intros ->. unfold bytes_le in Hle. by destruct r.1. }
  rewrite <- E. unfold scan_keys. rewrite list_filter_filter. apply filter_iff_in.
  intros x _. unfold in_key_range. cbn [remaining fst snd]. split.
  - intros [Hx [?|Hlt]]; [done|]. split; [done|]. split; [done|].
    destruct Hk as [?|Hk]; [by left|right]. by eapply bytes_lt_trans.
  - intros (Hlt & Hx & _). auto.
Qed.

Lemma scan_spec s r kv : kv ∈ scan s r ↔ in_key_range r kv.1 ∧ s !! kv.1 = Some kv.2.
Proof.
  unfold scan. rewrite list_elem_of_omap. destruct kv as [k v]. cbn [fst snd]. split.
  - intros (k' & [Hr _]%elem_of_scan_keys & E).
    destruct (s !! k') as [v'|] eqn:Hv; [|done]. injection E as -> ->. done.
  - intros [Hr Hv]. exists k. rewrite Hv. split; [|done]. apply elem_of_scan_keys. by rewrite Hv.
Qed.

Lemma scan_fst s r : (scan s r).*1 = scan_keys s r.
Proof.
  unfold scan. assert (∀ k, k ∈ scan_keys s r → is_Some (s !! k)) as H
    by (by intros k [_ ?]%elem_of_scan_keys).
  induction (scan_keys s r) as [|k l IH]; [done|]. cbn [omap list_omap].
  destruct (H k ltac:(by left)) as [v ->]. cbn. f_equal. apply IH. intros; apply H. by right.
Qed.

(** A scan is determined by its keys. *)
Lemma scan_of_keys s r (l : list (Key * Value)) :
  scan_keys s r = l.*1 → (∀ kv, kv ∈ l → s !! kv.1 = Some kv.2) → scan s r = l.
Proof.
  intros E H. unfold scan. rewrite E. clear E. induction l as [|[k v] l IH]; [done|].
  pose proof (H (k, v) ltac:(by left)) as Hk. cbn in *. rewrite Hk. cbn. f_equal. apply IH.
  intros kv Hkv. apply H. by right.
Qed.

(** The entries of a range in the order of a query. *)
Definition entries (s : Store) (order : OrderParam) (r : Key * Key) : list (Key * Value) :=
  in_order order (scan s r).

Lemma elem_of_entries s order r kv :
  kv ∈ entries s order r ↔ in_key_range r kv.1 ∧ s !! kv.1 = Some kv.2.
Proof.
  unfold entries. rewrite <- scan_spec. destruct order; cbn [in_order]; [done|].
  by rewrite !list_elem_of_In, <- in_rev.
Qed.

(** After a page that ends with the key [k]. *)
Lemma entries_remaining s order r pre kv post :
  bytes_keys s → r.1 ≠ [] → entries s order r = pre ++ kv :: post →
  entries s order (remaining order r kv.1) = post.
Proof.
  intros Hok Hr E. assert (∀ x, x ∈ post → s !! x.1 = Some x.2) as Hin.
  { intros x Hx. eapply elem_of_entries. rewrite E. set_solver. }
  unfold entries in *. destruct order; cbn [in_order] in *.
  - apply scan_of_keys; [|done]. eapply scan_keys_after; [done|].
    rewrite <- scan_fst, E, fmap_app. done.
  - rewrite <- (rev_involutive post). f_equal. apply scan_of_keys.
    + eapply (scan_keys_before _ _ _ (rev pre).*1); [done|].
      rewrite <- scan_fst, <- (rev_involutive (scan s r)), E, rev_app_distr. cbn [rev].
      by rewrite <- app_assoc, fmap_app.
    + intros x Hx. apply Hin. by rewrite list_elem_of_In, in_rev, <- list_elem_of_In.
Qed.

(** ** Scans *)

(** A snapshot whose scans fail only when the page asked for is too large, and
    never for a page of one entry. *)
Definition pages_fit sn : Prop :=
  ∀ order r size e, scan_fails sn order r size = Some e → e = TooLarge ∧ 1 < size.

Section scans.
Context {A : Type} (max : option Z) (accept : Key * Value → MapiResult (option A)).

Abbreviation consume := (consume max accept).

Lemma consume_app found l l' :
  consume found (l ++ l')
  = match consume found l with Ok (found, false) => consume found l' | x => x end.
Proof.
  revert found. induction l as [|i l IH]; intros found; [done|]. cbn [app Mapi.consume].
  destruct (accept i) as [[a|]| |]; cbn [mbind outcome_bind]; [|apply IH|done|done].
  destruct (match max with Some _ => _ | None => _ end); [done|apply IH].
Qed.

Lemma log2_half n : 1 < n → Z.to_nat (Z.log2 n) = S (Z.to_nat (Z.log2 (n / 2))).
Proof.
  intros Hn. assert (n / 2 = Z.shiftr n 1) as -> by (by rewrite Z.shiftr_div_pow2). rewrite Z.log2_shiftr by lia.
  pose proof (Z.log2_pos n Hn). lia.
Qed.

(** A page and what comes after it. *)
Lemma page_split s order r size i :
  bytes_keys s → r.1 ≠ [] → last (take size (entries s order r)) = Some i →
  entries s order r = take size (entries s order r) ++ entries s order (remaining order r i.1).
Proof.
  intros Hok Hr Hlast. apply last_Some in Hlast as [pre Hpre].
  pose proof (take_drop size (entries s order r)) as E. rewrite Hpre in *. rewrite <- app_assoc in E.
  rewrite (entries_remaining s order r pre i (drop size (entries s order r))) by done.
  by rewrite <- app_assoc.
Qed.

(** What the loop returns, whatever the pages it reads. *)
Lemma scan_loop_spec sn order size r found fuel :
  bytes_keys (snap sn) → pages_fit sn → r.1 ≠ [] → 1 ≤ size < 2 ^ 32 →
  (Z.to_nat (Z.log2 size) + length (entries (snap sn) order r) < fuel)%nat →
  scan_loop order max (scan_page sn order) fst accept fuel r size found
  = Some (fst <$> consume found (entries (snap sn) order r)).
Proof.
  intros Hok Hfit. revert size r found.
  induction fuel as [|fuel IH]; intros size r found Hr Hsize Hfuel; [lia|].
  cbn [scan_loop]. unfold scan_page at 1. destruct (scan_fails sn order r size) as [e|] eqn:Ef.
  { destruct (Hfit _ _ _ _ Ef) as [-> H1]. pose proof (log2_half size H1).
    assert (1 ≤ size / 2 < size) by (split; [apply Z.div_le_lower_bound|apply Z.div_lt]; lia).
    rewrite Z.max_l by lia. apply IH; [done|lia|lia]. }
  fold (entries (snap sn) order r). set (page := take (Z.to_nat size) (entries (snap sn) order r)).
  assert (length page ≤ Z.to_nat size)%nat as Hlen by (unfold page; rewrite length_take; lia).
  destruct (last page) as [i|] eqn:Hlast.
  - pose proof (page_split _ order r _ i Hok Hr Hlast) as E. fold page in E.
    rewrite E at 1. rewrite consume_app.
    destruct (consume found page) as [[found' [|]]|e|]; [done| |done|done].
    rewrite wrap_small by (unfold in_range; lia).
    destruct (Z.ltb_spec (Z.of_nat (length page)) size) as [Hlt|Hge].
    + assert (entries (snap sn) order (remaining order r i.1) = []) as ->; [|done].
      apply length_zero_iff_nil. pose proof (f_equal length E) as El.
      rewrite length_app in El. unfold page in *. rewrite length_take in *. lia.
    + apply IH; [|done|].
      * destruct order; cbn [remaining fst]; [by destruct i.1|done].
      * rewrite E, length_app in Hfuel. lia.
  - apply last_None in Hlast. assert (entries (snap sn) order r = []) as ->; [|done].
    destruct (entries (snap sn) order r); [done|]. unfold page in Hlast.
    by destruct (Z.to_nat size) eqn:?; [lia|].
Qed.

(** The entries that are accepted, up to the count. *)
Lemma consume_total (g : Key * Value → option A) found l :
  (∀ i, i ∈ l → accept i = Ok (g i)) → (∀ m, max = Some m → Z.of_nat (length found) < m) →
  truncated max (fst <$> consume found l)
  = Ok (match max with Some m => take (Z.to_nat m) | None => id end (found ++ omap g l)).
Proof.
  revert found. induction l as [|i l IH]; intros found Hg Hm; cbn [Mapi.consume omap list_omap].
  { rewrite app_nil_r. by destruct max. }
  rewrite (Hg i) by (by left). cbn [mbind outcome_bind]. destruct (g i) as [a|]; [|apply IH; [|done]].
  - assert (found ++ a :: omap g l = (found ++ [a]) ++ omap g l) as -> by (by rewrite <- app_assoc).
    destruct max as [m|] eqn:Em.
    + specialize (Hm m eq_refl). destruct (Z.leb_spec m (Z.of_nat (length (found ++ [a])))) as [Hle|Hgt].
      * rewrite length_app in Hle. cbn in Hle. cbn [truncated fmap outcome_fmap mbind outcome_bind fst].
        f_equal. rewrite (take_app_le (found ++ [a]) (omap g l)); [done|].
        rewrite length_app. cbn. lia.
      * apply IH; [intros; apply Hg; by right|]. intros ? [= <-]. done.
    + apply IH; [intros; apply Hg; by right|done].
  - intros; apply Hg; by right.
Qed.

(** The number of iterations that is always enough. *)
Definition scan_fuel sn order r : nat := (33 + length (entries (snap sn) order r))%nat.

Definition up_to (l : list A) : list A :=
  match max with Some m => take (Z.to_nat m) l | None => l end.

Lemma scan_all_spec sn order r size fuel (g : Key * Value → option A) :
  bytes_keys (snap sn) → pages_fit sn → r.1 ≠ [] → 1 ≤ size < 2 ^ 32 →
  (∀ m, max = Some m → 0 < m) → (scan_fuel sn order r ≤ fuel)%nat →
  (∀ i, i ∈ entries (snap sn) order r → accept i = Ok (g i)) →
  scan_all order max (scan_page sn order) fst accept fuel r size
  = Some (Ok (up_to (omap g (entries (snap sn) order r)))).
Proof.
  intros Hok Hfit Hr Hsize Hm Hfuel Hg. unfold scan_all, scan_fuel in *.
  assert (Z.log2 size < 32) by (apply Z.log2_lt_pow2; lia).
  rewrite scan_loop_spec by (done || lia). cbn [fmap option_fmap option_map]. f_equal.
  rewrite (consume_total g []) by done. unfold up_to. by destruct max.
Qed.

End scans.

(** Scanners that ask for a page of at least one entry. *)
Definition scanner_ok (sc : Scanner) : Prop :=
  (sc_range sc).1 ≠ [] ∧ ∀ m, sc_count sc = Some m → 0 < m < 2 ^ 32.

Lemma execute_reads `{Decode K, Decode V} (sn : Snapshot) (sc : Scanner) (fuel : nat)
    (f : option (Key * Value → bool)) (g : Key * Value → option (K * V)) :
  bytes_keys (snap sn) → pages_fit sn → scanner_ok sc →
  (scan_fuel sn (sc_order sc) (sc_range sc) ≤ fuel)%nat →
  (∀ i, i ∈ entries (snap sn) (sc_order sc) (sc_range sc) → decode_kv f i = Ok (g i)) →
  execute_with_filter fuel sc sn f
  = Some (Ok (up_to (sc_count sc) (omap g (entries (snap sn) (sc_order sc) (sc_range sc))))).
Proof.
  intros Hok Hfit [Hr Hc] Hfuel Hg. apply scan_all_spec; try done; [|intros m Hm; by apply Hc].
  destruct f; [done|]. destruct (sc_count sc) as [m|]; cbn; [|done].
  specialize (Hc m eq_refl). rewrite wrap_small by (unfold in_range; lia). lia.
Qed.

Lemma non_metaprotocol_reads (sn : Snapshot) (sc : Scanner) (fuel : nat) (f : option (Key * Value → bool))
    (runes inscriptions : Namespace) (g : Key * Value → option (UtxoKey * UtxosByScriptHash_Value)) :
  bytes_keys (snap sn) → pages_fit sn → scanner_ok sc →
  (scan_fuel sn (sc_order sc) (sc_range sc) ≤ fuel)%nat →
  (∀ i, i ∈ entries (snap sn) (sc_order sc) (sc_range sc) →
     accept_non_metaprotocol sn runes inscriptions f i = Ok (g i)) →
  get_non_metaprotocol_utxos fuel sc sn f runes inscriptions
  = Some (Ok (up_to (sc_count sc) (omap g (entries (snap sn) (sc_order sc) (sc_range sc))))).
Proof.
  intros Hok Hfit [Hr Hc] Hfuel Hg. apply scan_all_spec; try done. intros m Hm. by apply Hc.
Qed.

(** C24: a scan reads its range.  Whatever pages TiKV refuses as too large (short
    of a single entry), both scans end within 33 iterations more than the range
    has entries, and return what one request for the whole range would have
    given: the entries accepted, in the order of the query, decoded, up to the
    count.  [g] is what an entry decodes to, nothing when it is filtered out. *)
Theorem scans_read_range `{Decode K, Decode V} (sn : Snapshot) (sc : Scanner) (fuel : nat)
    (f : option (Key * Value → bool)) (runes inscriptions : Namespace)
    (g : Key * Value → option (K * V))
    (g' : Key * Value → option (UtxoKey * UtxosByScriptHash_Value)) :
  bytes_keys (snap sn) → pages_fit sn → scanner_ok sc →
  (scan_fuel sn (sc_order sc) (sc_range sc) ≤ fuel)%nat →
  let all := entries (snap sn) (sc_order sc) (sc_range sc) in
  ((∀ i, i ∈ all → decode_kv f i = Ok (g i)) →
    execute_with_filter fuel sc sn f = Some (Ok (up_to (sc_count sc) (omap g all))))
  ∧ ((∀ i, i ∈ all → accept_non_metaprotocol sn runes inscriptions f i = Ok (g' i)) →
    get_non_metaprotocol_utxos fuel sc sn f runes inscriptions
    = Some (Ok (up_to (sc_count sc) (omap g' all)))).
Proof.
  intros Hok Hfit Hsc Hfuel all. split; intros Hg; [by apply execute_reads|by apply non_metaprotocol_reads].
Qed.

(** Three heights under one reducer, a store that gives one entry at a time and a
    filter that leaves out the second. *)
Definition sample_heights : Store :=
  list_to_map (map (λ h, (Prefix_data (mkNamespace 1 2) HeightByBlockHash (mkUInt h : u64),
                          encode (mkUInt (h * 2) : u64))) [3; 4; 5]).

Definition sample_heights_snapshot : Snapshot :=
  mkSnapshot sample_heights (λ _, false) (λ _ _ size, if 1 <? size then Some TooLarge else None)
    (λ _ _ _, None).

Definition sample_scanner : Scanner :=
  scanner_order Desc (Scanner_new (reducer_key_range (mkNamespace 1 2) HeightByBlockHash
    (None : option u64) (None : option u64) (None : option u64))).

Definition sample_filter (kv : Key * Value) : bool :=
  negb (bool_decide (kv.2 = encode (mkUInt 8 : u64))).

Lemma scans_read_range_witness :
  (execute_with_filter 36 sample_scanner sample_heights_snapshot (Some sample_filter)
   : option (MapiResult (list (u64 * u64))))
  = Some (Ok [(mkUInt 5, mkUInt 10); (mkUInt 3, mkUInt 6)]).
Proof.
  etransitivity; [refine (proj1 (scans_read_range sample_heights_snapshot sample_scanner 36 (Some sample_filter)
    (mkNamespace 1 2) (mkNamespace 1 2)
    (λ i, match decode_kv (Some sample_filter) i with Ok r => r | _ => None end) (λ _, None)
    _ _ _ _) _)|by vm_compute].
  - intros k [v Hv]. apply elem_of_list_to_map_2, list_elem_of_In in Hv. cbn [map] in Hv.
    repeat destruct Hv as [[= <- <-]|Hv]; [..|done]; by apply (bool_decide_unpack _); vm_compute.
  - intros order r size e. cbn. destruct (Z.ltb_spec 1 size); [|done]. by intros [= <-].
  - by split.
  - by vm_compute.
  - intros i Hi. apply list_elem_of_In in Hi. vm_compute in Hi.
    repeat destruct Hi as [<-|Hi]; [..|done]; by vm_compute.
Defined.

(** ** Pages *)

Lemma page_loop_spec {K V T} (c : nat) (cursor : K → rust_string) (row : K * V → Q T)
    (f : K * V → T) (i : nat) (l : list (K * V)) :
  (i < c)%nat → (∀ kv, kv ∈ take (c - i) l → row kv = mret (f kv)) →
  page_loop (Z.of_nat c) cursor row i (take (S c - i) l)
  = mret (map f (take (c - i) l),
          if (c - i <? length l)%nat then cursor ∘ fst <$> l !! (c - i - 1)%nat else None).
Proof.
  revert i. induction l as [|kv l IH]; intros i Hi Hrow.
  { rewrite !take_nil. by destruct (Nat.ltb_spec (c - i) (length (@nil (K * V)))). }
  replace (S c - i)%nat with (S (c - i)) by lia. cbn [take page_loop].
  destruct (c - i)%nat as [|d] eqn:Ed; [lia|]. cbn [take map] in *.
  rewrite Hrow by (by left). cbn [mbind Q_bind mret Q_ret].
  destruct l as [|kv' l]; cbn [take]; [by destruct d|]. cbn [length Nat.sub].
  destruct (Z.eqb_spec (Z.of_nat i) (Z.of_nat c - 1)) as [E|E].
  - assert (d = 0)%nat as -> by lia. done.
  - destruct d as [|d]; [lia|]. specialize (IH (S i) ltac:(lia)).
    replace (S c - S i)%nat with (S (S d)) in IH by lia. replace (c - S i)%nat with (S d) in IH by lia.
    cbn [take] in *. rewrite IH by (intros; apply Hrow; by right). cbn [mbind Q_bind mret Q_ret].
    cbn [length]. destruct (Nat.ltb_spec (S d) (S (length l))), (Nat.ltb_spec (S (S d)) (S (S (length l))));
      try lia; [|done]. cbn [lookup list_lookup Nat.sub]. by rewrite Nat.sub_0_r.
Qed.

(** Keys made of the parameter of a query and the cursor of a page. *)
Class PagedKey (K P C : Type) `{Encode K, Encode P, Lawful C} : Type := {
  paged_params : K → P;
  paged_cursor : K → C;
  paged_encode : ∀ key, encode key = encode (paged_params key) ++ BREAK :: encode (paged_cursor key);
}.
Arguments paged_params {K} P C {_ _ _ _ _ _} key.
Arguments paged_cursor {K} P C {_ _ _ _ _ _} key.
Arguments paged_encode {K} P C {_ _ _ _ _ _} key.

Lemma encode_fields `{Encode A, Encode B} (a : A) (b : B) :
  encode (mkFields a b) = encode a ++ BREAK :: encode b.
Proof.
  unfold encode at 1, Fields_encode, append_with_break, append, break_, push, enc.
  cbn [first_fields last_fields app]. by rewrite <- !app_assoc.
Qed.

#[export, refine] Instance UtxoKey_paged : PagedKey UtxoKey Hash20 UtxoCursor :=
  {| paged_params := uk_script_hash; paged_cursor := utxo_cursor |}.
Proof.
  intros [h x t i]. unfold utxo_cursor, UtxoCursor. cbn [uk_script_hash uk_height uk_utxo_hash uk_utxo_index].
  rewrite !encode_fields. unfold encode at 1, UtxoKey_encode, append_with_break, append, break_, push, enc.
  cbn [uk_script_hash uk_height uk_utxo_hash uk_utxo_index app]. by rewrite <- !app_assoc.
Defined.

#[export, refine] Instance Fields_paged {P C} {EP : Encode P} {EC : Encode C} {DC : Decode C}
    {LC : Lawful C} : PagedKey (Fields P C) P C :=
  {| paged_params := first_fields; paged_cursor := last_fields |}.
Proof.
  intros [p c]. apply encode_fields.
Defined.

Lemma cursor_key_of `{PagedKey K P C} n reducer p (key : K) :
  paged_params P C key = p →
  cursor_key n reducer (Some p) (paged_cursor P C key) = Prefix_data n reducer key.
Proof.
  intros <-. unfold cursor_key, Prefix_data, append. f_equal. rewrite (paged_encode P C key).
  unfold encode at 1, prod_encode. cbn [fst snd]. unfold encode at 1, prod_encode. cbn [fst snd].
  by rewrite <- app_assoc.
Qed.

Lemma base64_roundtrip (L : Lib) `{!LibLaws L, Lawful C} (c : C) :
  valid c → decode_base64 L (encode_base64 L c) = Ok c.
Proof.
  intros Hc. unfold decode_base64, encode_base64. rewrite b64_roundtrip. cbn [ok_or mbind outcome_bind].
  rewrite <- (app_nil_r (encode c)), decode_encode_app by done. done.
Qed.

(** Following the cursors of a query from its first page. *)
Fixpoint follow {T} (pages : nat) (get : option rust_string → Q (list T * option rust_string))
    (cursor : option rust_string) : option (list T) :=
  match pages with
  | O => None
  | S pages =>
      match get cursor with
      | Some (Ok (data, None)) => Some data
      | Some (Ok (data, Some next)) => app data <$> follow pages get (Some next)
      | _ => None
      end
  end.

Lemma omap_split {A B} (q : A → option B) (l : list A) j b :
  omap q l !! j = Some b →
  ∃ pre a post, l = pre ++ a :: post ∧ q a = Some b ∧ omap q post = drop (S j) (omap q l).
Proof.
  revert j. induction l as [|a l IH]; intros j; [done|]. cbn [omap list_omap].
  destruct (q a) as [b'|] eqn:Ea.
  - destruct j as [|j]; cbn [lookup list_lookup drop].
    + intros [= <-]. by exists [], a, l.
    + intros (pre & a' & post & -> & Ea' & E)%IH. by exists (a :: pre), a', post.
  - intros (pre & a' & post & -> & Ea' & E)%IH. by exists (a :: pre), a', post.
Qed.

Lemma length_omap {A B} (q : A → option B) (l : list A) : (length (omap q l) ≤ length l)%nat.
Proof. induction l as [|a l IH]; [done|]. cbn. destruct (q a); cbn; lia. Qed.

Section pages.
Context (L : Lib) `{!LibLaws L} {K V P C T : Type}.
Context `{PagedKey K P C}.
Context (sn : Snapshot) (n : Namespace) (reducer : Reducer) (p : P) (c : nat) (order : OrderParam).
Context (from to : option u64) (read : nat → Scanner → Q (list (K * V))) (row : K * V → Q T).

(** The part of a handler that reads a page, with the scan it makes. *)
Definition read_page (fuel : nat) (cursor : option rust_string) : Q (list T * option rust_string) :=
  page ← lift (page_params L C n reducer (Some p) (Some (Z.of_nat c)) (Some order) cursor from to);
  kvs ← read fuel (page_scanner page);
  page_loop (pp_count page) (λ key, encode_base64 L (paged_cursor P C key)) row 0 kvs.

Abbreviation base := (reducer_key_range n reducer (Some p) from to).
Abbreviation all := (entries (snap sn) order base).

(** What the scan makes of the entries of the range; the keys are those of the query. *)
Context (g : Key * Value → option (K * V)) (h : K * V → T).
Hypothesis keys_ok : bytes_keys (snap sn).
Hypothesis count_ok : (1 ≤ c ≤ 100)%nat.
Hypothesis reads : ∀ fuel sc,
  scanner_ok sc → sc_order sc = order → (∀ i, i ∈ entries (snap sn) order (sc_range sc) → i ∈ all) →
  (scan_fuel sn order (sc_range sc) ≤ fuel)%nat →
  read fuel sc = Some (Ok (up_to (sc_count sc) (omap g (entries (snap sn) order (sc_range sc))))).
Hypothesis key_of_entry : ∀ i kv, i ∈ all → g i = Some kv →
  i.1 = Prefix_data n reducer kv.1 ∧ paged_params P C kv.1 = p ∧ valid (paged_cursor P C kv.1).
Hypothesis rows : ∀ i kv, i ∈ all → g i = Some kv → row kv = mret (h kv).

Lemma base_bounds : base.1 ≠ [] ∧ base.2 ≠ [].
Proof.
  assert (∀ l l' : list Z, l' ≠ [] → l ++ l' ≠ []) as Hne.
  { intros l l' Hl' [_ E]%app_eq_nil. done. }
  unfold reducer_key_range, reducer_maybe_key_range, append_with_break, break_, break1, push, append.
  cbn [fst snd]. split; [destruct from|destruct to]; cbn [fmap option_fmap option_map default];
    rewrite <- ?app_assoc; by apply Hne.
Qed.

(** The range of the page after an entry. *)
Lemma page_range_after pre i kv post :
  all = pre ++ i :: post → g i = Some kv →
  page_range L C n reducer (Some p) order (Some (encode_base64 L (paged_cursor P C kv.1))) base
  = Ok (remaining order base i.1).
Proof.
  intros E Hg. assert (i ∈ all) as Hi by (rewrite E; set_solver).
  destruct (key_of_entry i kv Hi Hg) as (Ek & Ep & Hv). apply elem_of_entries in Hi as [[Hlo Hhi] _].
  unfold page_range. rewrite (base64_roundtrip L) by done. rewrite cursor_key_of, <- Ek by done.
  rewrite bool_decide_true by done. destruct Hhi as [Hend|Hhi]; [by destruct base_bounds|].
  rewrite bool_decide_true by (by apply bytes_lt_le). by destruct order.
Qed.

(** The entries of the range that a cursor leaves to read. *)
Inductive left_to_read : option rust_string → list (Key * Value) → Prop :=
| left_all : left_to_read None all
| left_after pre i kv post :
    all = pre ++ i :: post → g i = Some kv →
    left_to_read (Some (encode_base64 L (paged_cursor P C kv.1))) post.

Lemma left_range cursor post :
  left_to_read cursor post → ∃ r, page_range L C n reducer (Some p) order cursor base = Ok r
    ∧ r.1 ≠ [] ∧ entries (snap sn) order r = post ∧ ∀ i, i ∈ post → i ∈ all.
Proof.
  intros [|pre i kv post' E Hg].
  - exists base. destruct base_bounds. done.
  - exists (remaining order base i.1). destruct base_bounds as [Hlo _].
    split; [by eapply page_range_after|]. split; [|split].
    + destruct order; [by destruct i.1|done].
    + by apply (entries_remaining _ _ _ pre).
    + intros j Hj. rewrite E. set_solver.
Qed.

Lemma length_left cursor post : left_to_read cursor post → (length post ≤ length all)%nat.
Proof. intros [|pre i kv post' E _]; [done|]. rewrite E, length_app. cbn. lia. Qed.

Lemma read_page_spec fuel cursor post :
  left_to_read cursor post → (33 + length all ≤ fuel)%nat →
  read_page fuel cursor
  = mret (map h (take c (omap g post)),
          if (c <? length (omap g post))%nat
          then (λ kv, encode_base64 L (paged_cursor P C kv.1)) <$> omap g post !! (c - 1)%nat
          else None).
Proof.
  intros Hleft Hfuel. destruct (left_range cursor post Hleft) as (r & Er & Hr & Epost & Hin).
  unfold read_page, page_params. cbn [default id].
  destruct (Z.ltb_spec MAX_PAGE_COUNT (Z.of_nat c)) as [?|_]; [unfold MAX_PAGE_COUNT in *; lia|].
  destruct (Z.eqb_spec (Z.of_nat c) 0) as [?|_]; [lia|]. cbn [orb].
  rewrite Er.
  cbn [mbind outcome_bind lift Q_bind pp_count].
  unfold page_scanner, scanner_order, scanner_count, Scanner_new. cbn [pp_order pp_range sc_range sc_order sc_count].
  rewrite reads; cbn [sc_range sc_order sc_count]; try done.
  - cbn [mbind Q_bind up_to pp_count]. rewrite Epost. replace (Z.to_nat (Z.of_nat c + 1)) with (S c - 0)%nat by lia.
    rewrite (page_loop_spec c _ row h 0); [by rewrite Nat.sub_0_r|lia|].
    rewrite Nat.sub_0_r. intros kv (j & Hj%list_elem_of_lookup_2 & _)%elem_of_take.
    apply list_elem_of_omap in Hj as (i & Hi & Hg).
    by apply (rows i); [apply Hin|].
  - split; [done|]. intros m [= <-]. lia.
  - by rewrite Epost.
  - unfold scan_fuel. rewrite Epost. apply length_left in Hleft. lia.
Qed.

(** Following the cursors shows what is left, once and in order. *)
Lemma follow_left fuel pages cursor post :
  left_to_read cursor post → (33 + length all ≤ fuel)%nat → (length (omap g post) < pages)%nat →
  follow pages (read_page fuel) cursor = Some (map h (omap g post)).
Proof.
  intros Hleft Hfuel. revert cursor post Hleft.
  induction pages as [|pages IH]; intros cursor post Hleft Hp; [lia|].
  cbn [follow]. rewrite (read_page_spec fuel cursor post) by done. cbn [mret Q_ret].
  destruct (Nat.ltb_spec c (length (omap g post))) as [Hlt|Hge]; [|by rewrite take_ge].
  destruct (lookup_lt_is_Some_2 (omap g post) (c - 1)%nat ltac:(lia)) as [kv Hkv].
  rewrite Hkv. cbn [fmap option_fmap option_map].
  destruct (omap_split g post (c - 1)%nat kv Hkv) as (pre & i & post' & E & Hg & Edrop).
  replace (S (c - 1)) with c in Edrop by lia.
  rewrite (IH (Some (encode_base64 L (paged_cursor P C kv.1))) post').
  - cbn [fmap option_fmap option_map]. rewrite Edrop, <- map_app, take_drop. done.
  - destruct Hleft as [|pre0 i0 kv0 post0 E0 Hg0].
    + by apply (left_after pre i kv post').
    + subst post0. apply (left_after (pre0 ++ i0 :: pre) i kv post'); [|done].
      by rewrite E0, <- app_assoc.
  - rewrite Edrop, length_drop. lia.
Qed.

End pages.

End MapiLaws.
