(* ===== verification/MapiContent.v ===== *)
(** The content of an inscription, from the output of the reducer to the pages of
    [content_by_inscription_id.rs]: the identifier the service shows names the
    inscription, and the pages put together are the content. *)

From S2P Require Import Prelude Decimal Brc20 Types Timbre StorageAction ReducerOutput TikvWorker Mapi MapiApi MapiLaws.
Import Decimal Types Timbre StorageAction ReducerOutput TikvWorker Mapi MapiApi MapiLaws.

Module MapiContent.

#[local] Open Scope fields_scope.

(** The text of a hash: the hexadecimal digits of its bytes, last one first. *)
Class HashText (L : Lib) : Prop := {
  hash_text_decode : ∀ h, bytes_ok h → hex_decode L (hash_to_string L h) = Some (rev h);
  hash_text_digits : ∀ h, bytes_ok h → Forall (λ c, c ≠ 105) (hash_to_string L h);
}.

Definition id_ok (id : Ord) : Prop := valid id ∧ bytes_ok (bytes_of id.1).

Lemma parse_inscription_string (L : Lib) `{!HashText L} (id : Ord) :
  id_ok id →
  parse_inscription_id L (inscription_string L id) = Ok (bytes_of id.1, uint_value id.2).
Proof.
  intros [[Hh Hi] Hb]. unfold parse_inscription_id, inscription_string. cbn [app].
  assert (Hn : 0 ≤ uint_value id.2) by apply Hi.
  rewrite Brc20.split_on_one; [|by apply hash_text_digits|].
  - rewrite hash_text_decode by done. cbn [ok_or mbind outcome_bind].
    rewrite length_rev, Hh. cbn [Nat.eqb]. unfold parse_number.
    rewrite parse_to_string by done. cbn. by rewrite rev_involutive.
  - apply digits_ne; [done|by apply to_string_digits].
Qed.

Section content.
Context (L : Lib) `{!LibLaws L} (body : list Z) (c : nat).
Hypothesis body_len : Z.of_nat (length body) < 2 ^ 63.
Hypothesis count_ok : (1 ≤ c)%nat ∧ Z.of_nat c ≤ MAX_CONTENT_BODY_SIZE.

(** The cursor of the page that starts at [k]. *)
Definition cursor_at (k : nat) : option rust_string :=
  match k with O => None | S _ => Some (encode_base64 L (mkUInt (Z.of_nat k) : u64)) end.

Lemma content_cursor_at k : (k ≤ length body)%nat → content_cursor L (cursor_at k) = Ok (Z.of_nat k).
Proof.
  intros Hk. destruct k as [|k]; [done|]. unfold content_cursor, cursor_at.
  rewrite (base64_roundtrip L); [done|]. cbn. unfold in_range. lia.
Qed.

Lemma content_page_at k :
  (k ≤ length body)%nat →
  content_page L body (Z.of_nat k) (Some (Z.of_nat c))
  = Ok (mkContentBody (take c (drop k body)) (Z.of_nat (length body))
          (Z.of_nat (length (drop (k + c) body))),
        if (k + c <? length body)%nat then cursor_at (k + c) else None).
Proof.
  intros Hk. unfold content_page. unfold MAX_CONTENT_BODY_SIZE in *. cbn [default id].
  destruct (Z.ltb_spec (Z.of_nat (length body)) (Z.of_nat k)); [lia|].
  destruct (Z.eqb_spec (Z.of_nat c) 0); [lia|].
  destruct (Z.ltb_spec 4096 (Z.of_nat c)); [lia|].
  rewrite wrap_small by (unfold in_range; lia).
  destruct (Nat.ltb_spec (Z.to_nat (Z.min (Z.of_nat k + Z.of_nat c) (Z.of_nat (length body))))
              (Z.to_nat (Z.of_nat k))); [lia|].
  rewrite length_drop, Nat2Z.id, <- Nat2Z.inj_add. unfold saturating_sub.
  assert (Z.max 0 (Z.of_nat (length body) - Z.of_nat (k + c)) = Z.of_nat (length body - (k + c)))
    as -> by lia.
  do 2 f_equal; [f_equal|].
  - rewrite <- Nat2Z.inj_min, Nat2Z.id. destruct (Nat.min_spec (k + c) (length body)) as [[? ->]|[? ->]].
    + f_equal. lia.
    + rewrite !take_ge; [done|rewrite length_drop; lia..].
  - destruct (Z.eqb_spec (Z.of_nat (length body - (k + c))) 0), (Nat.ltb_spec (k + c) (length body));
      try lia; [done|]. unfold cursor_at. by destruct (k + c)%nat eqn:?; [lia|].
Qed.

(** Following the cursors gives the rest of the body. *)
Lemma follow_content (get : option rust_string → Q (list Z * option rust_string)) pages k :
  (∀ cursor, get cursor
     = lift (k ← content_cursor L cursor;
             p ← content_page L body k (Some (Z.of_nat c));
             Ok (cb_page p.1, p.2))) →
  (k ≤ length body)%nat → (length body - k < pages)%nat →
  follow pages get (cursor_at k) = Some (drop k body).
Proof.
  intros Hget. revert k. induction pages as [|pages IH]; intros k Hk Hp; [lia|].
  cbn [follow]. rewrite Hget, content_cursor_at by done. cbn [mbind outcome_bind].
  rewrite content_page_at by done. cbn [mbind outcome_bind lift cb_page fst snd].
  destruct (Nat.ltb_spec (k + c) (length body)) as [Hlt|Hge].
  - assert (cursor_at (k + c) = Some (encode_base64 L (mkUInt (Z.of_nat (k + c)) : u64))) as E.
    { unfold cursor_at. by destruct (k + c)%nat eqn:?; [lia|]. }
    rewrite E, <- E, IH by lia. cbn. by rewrite <- drop_drop, take_drop.
  - by rewrite take_ge by (rewrite length_drop; lia).
Qed.

End content.

(** The bytes of a page of the handler and the next cursor. *)
Definition content_query (L : Lib) (reg : Registry) (s : Snapshot) (id : rust_string) (c : nat)
    (cursor : option rust_string) : Q (list Z * option rust_string) :=
  response ← content_by_inscription_id L reg s id (mkCursorParams (Some (Z.of_nat c)) None cursor);
  mret (cb_page (pr_data response), pr_next_cursor response).

(** What the handler reads when the store holds the output of the reducer. *)
Lemma content_info_stored (L : Lib) `{!HashText L} (s : Snapshot) (n : Namespace) (id : Ord)
    (created num : u64) (ct body : list u8) (k : Key) (v : Value) :
  reducer_output_to_storage_ops n (ContentByInscriptionId id created num ct body) = Ok [SSet k v] →
  snap s !! k = Some v → get_fails s k = false → id_ok id →
  valid (created &: num &: ct &: body : ContentByInscriptionId_Value) →
  content_info L s n (inscription_string L id) = Ok (created &: num &: ct &: body).
Proof.
  intros [= <- <-] Hv Hf Hid Hok. unfold content_info. rewrite parse_inscription_string by done.
  destruct id as [[h] [i]]. cbn [mbind outcome_bind fst snd bytes_of uint_value] in *.
  unfold get_reducer_key_maybe, snapshot_get. rewrite Hf, Hv. cbn [mbind outcome_bind].
  unfold decode_or. rewrite <- (app_nil_r (encode _)), decode_encode_app by done. done.
Qed.

(** C23: the content of an inscription can be read back.  When the store holds what
    the storage stage writes for the content the reducer reports, the service,
    asked for the inscription by the identifier it shows for it, gives pages of
    the size asked for; following their cursors ends, and the pages put together
    are the content, byte for byte. *)
Theorem content_pages_reassemble (L : Lib) `{!LibLaws L, !HashText L} (reg : Registry)
    (s : Snapshot) (n : Namespace) (lu : LastUpdated) (id : Ord) (created num : u64)
    (ct body : list u8) (k : Key) (v : Value) (c : nat) :
  encoder reg TContentByInscriptionId = Ok n → get_last_updated L s n = Ok lu →
  reducer_output_to_storage_ops n (ContentByInscriptionId id created num ct body) = Ok [SSet k v] →
  snap s !! k = Some v → get_fails s k = false → id_ok id →
  valid (created &: num &: ct &: body : ContentByInscriptionId_Value) →
  Z.of_nat (length body) < 2 ^ 63 → (1 ≤ c)%nat → Z.of_nat c ≤ MAX_CONTENT_BODY_SIZE →
  follow (S (length body)) (content_query L reg s (inscription_string L id) c) None
  = Some (script_bytes body).
Proof.
  intros Hn Hlu Hops Hv Hf Hid Hok Hlen Hc Hmax.
  apply (follow_content L (script_bytes body) c ltac:(by unfold script_bytes; rewrite length_map)
           (conj Hc Hmax) _ _ 0); unfold script_bytes; rewrite ?length_map; try done; try lia.
  intros cursor. unfold content_query, content_by_inscription_id. rewrite Hn.
  cbn [lift mbind Q_bind]. rewrite Hlu. cbn [lift mbind Q_bind]. rewrite (content_info_stored L s n id created num ct body k v) by done.
  cbn [lift mbind Q_bind cp_cursor cp_count]. destruct (content_cursor L cursor) as [j| |]; [|done|done].
  cbn [lift mbind Q_bind outcome_bind]. unfold script_bytes.
  by destruct (content_page L (map uint_value body) j (Some (Z.of_nat c))) as [[p next]| |].
Qed.

(** Text whose codes are the bytes shifted past the letters, so that no digit is
    an i. *)
Definition text_lib : Lib :=
  mkLib unit (λ _, None) (λ _, []) (λ _, []) (λ _ _, None) (λ _, replicate 20 0) id Some id
    (λ t, Some (map (λ c, c - 1000) t)) (λ h, map (λ b, b + 1000) (rev h))
    (λ _, None) (λ _, []) (λ _ _, []) id id.

#[export] Instance text_lib_laws : LibLaws text_lib.
Proof. split; [done|]. intros script. apply length_replicate. Qed.

#[export] Instance text_lib_hash : HashText text_lib.
Proof.
  split; intros h Hh; cbn.
  - f_equal. rewrite map_map. etransitivity; [|apply map_id]. apply map_ext. intros b. lia.
  - apply Forall_map. apply Forall_rev in Hh. eapply Forall_impl; [exact Hh|].
    intros b Hb. unfold in_range in Hb. cbn. lia.
Qed.

Definition content_id : Ord := (mkBytes (replicate 32 6), mkUInt 0).
Definition content_bytes : list u8 := map mkUInt [104; 101; 108; 108; 111].
Definition content_key : Key :=
  Prefix_data (mkNamespace 1 2) Timbre.ContentByInscriptionId (content_id : ContentByInscriptionId_Key).
Definition content_value : ContentByInscriptionId_Value :=
  (mkUInt 3 : u64) &: (mkUInt 4 : u64) &: ([] : list u8) &: content_bytes.

Definition content_snapshot : Snapshot :=
  mkSnapshot (<[content_key := encode content_value]>
                {[ Prefix_cursor (mkNamespace 1 2) := be_bytes 8 9 ++ replicate 32 1 ]})
    (λ _, false) (λ _ _ _, None) (λ _ _ _, None).

Lemma content_pages_reassemble_witness :
  follow 6 (content_query text_lib (mkRegistry Mainnet (λ _, Some [[1; 2]])) content_snapshot
              (inscription_string text_lib content_id) 2) None
  = Some [104; 101; 108; 108; 111].
Proof.
  apply (content_pages_reassemble text_lib (mkRegistry Mainnet (λ _, Some [[1; 2]]))
           content_snapshot (mkNamespace 1 2) (mkLastUpdated (replicate 32 1001) 9) content_id
           (mkUInt 3) (mkUInt 4) [] content_bytes content_key (encode content_value) 2);
    try (by vm_compute); try lia.
  - split; [done|]. by apply (bool_decide_unpack _); vm_compute.
  - split_and!; try done; by repeat constructor.
Defined.

End MapiContent.
