(* ===== verification/MapiAddress.v ===== *)
(** From the chain to the answer: the outputs that [utxos_by_address] lists over
    its pages are the unspent outputs of the script, between the heights asked
    for and in their order. *)

From S2P Require Import Prelude Decimal Dunestone Brc20 Types Timbre Crosscut StorageAction ReducerOutput TikvWorker TikvRefinement Reducers ReducerLaws Mapi MapiApi MapiLaws.
Import Decimal Dunestone Types Timbre StorageAction ReducerOutput TikvWorker TikvRefinement ReducerLaws Mapi MapiApi MapiLaws.

Module MapiAddress.

(** ** Ranges of heights *)

Definition data_prefix (n : Namespace) (kind : Reducer) : list Z :=
  append_with_break kind (push PREFIX_DATA (append n enc)).

Lemma Prefix_data_app `{Encode T} n kind (data : T) :
  Prefix_data n kind data = data_prefix n kind ++ encode data.
Proof. done. Qed.

(** An encoded height against a key that starts with a height. *)
Lemma height_cmp (a b : u64) rest :
  valid a → valid b →
  bytes_cmp (encode a) (encode b ++ rest)
  = match Z.compare (uint_value a) (uint_value b) with Eq => bytes_cmp [] rest | c => c end.
Proof.
  intros Ha Hb. rewrite <- (app_nil_r (encode a)). unfold encode, UInt_encode.
  rewrite bytes_cmp_app_len by (by rewrite !length_be_bytes). by rewrite bytes_cmp_be_bytes.
Qed.

Definition above (from : option u64) (h : u64) : Prop :=
  match from with Some a => uint_value a ≤ uint_value h | None => True end.
Definition below (to : option u64) (h : u64) : Prop :=
  match to with Some b => uint_value h < uint_value b | None => True end.

Lemma above_cmp from (h : u64) rest :
  match from with Some a => valid a | None => True end → valid h →
  bytes_le (default [] (encode <$> from)) (encode h ++ rest) ↔ above from h.
Proof.
  intros Ha Hh. destruct from as [a|]; cbn [default fmap option_fmap option_map id above].
  - unfold bytes_le. rewrite height_cmp by done.
    destruct (Z.compare_spec (uint_value a) (uint_value h)); [|naive_solver lia..].
    split; [lia|]. intros _. by destruct rest.
  - split; [done|]. intros _. by destruct (encode h ++ rest).
Qed.

Lemma below_cmp (b h : u64) rest :
  valid b → valid h → bytes_lt (encode h ++ rest) (encode b) ↔ uint_value h < uint_value b.
Proof.
  intros Hb Hh. unfold bytes_lt. rewrite (bytes_cmp_antisym (encode b)), height_cmp by done.
  destruct (Z.compare_spec (uint_value b) (uint_value h)); cbn [CompOpp]; [|naive_solver lia..].
  split; [|lia]. by destruct rest.
Qed.

(** The bounds of a range of heights. *)
Lemma range_bounds `{Encode P} n kind (p : P) (from to : option u64) :
  let q := data_prefix n kind ++ encode p in
  reducer_key_range n kind (Some p) from to
  = (q ++ BREAK :: default [] (encode <$> from),
     match to with Some b => q ++ BREAK :: encode b | None => q ++ [BREAK_1] end).
Proof.
  unfold reducer_key_range, reducer_maybe_key_range, data_prefix, append_with_break, append, break_,
    break1, push. f_equal; [destruct from|destruct to]; cbn [fmap option_fmap option_map default id];
    by rewrite <- ?app_assoc.
Qed.

(** A range holds the keys of its parameter whose height is between its bounds. *)
Lemma height_range `{Lawful P} n kind (p : P) (from to : option u64) k :
  match from with Some a => valid a | None => True end →
  in_key_range (reducer_key_range n kind (Some p) from to) k ↔
  ∃ r, k = data_prefix n kind ++ encode p ++ BREAK :: r
    ∧ bytes_le (default [] (encode <$> from)) r
    ∧ match to with Some b => bytes_lt r (encode b) | None => True end.
Proof.
  intros Hfrom. rewrite range_bounds. set (q := data_prefix n kind ++ encode p).
  assert (∀ r, q ++ BREAK :: r = data_prefix n kind ++ encode p ++ BREAK :: r) as Eq
    by (intros; unfold q; by rewrite <- app_assoc).
  assert (∀ t, in_key_range (q ++ BREAK :: t, q ++ [BREAK_1]) k ↔ ∃ r, k = q ++ BREAK :: r ∧ bytes_le t r) as Hsplit.
  { intros t. unfold in_key_range. cbn [fst snd]. split.
    - intros [Hle [E|Hlt]]; [by destruct q|]. by apply (interval_split q BREAK t k).
    - intros (r & -> & Hr). split; [|right; apply interval_join]. unfold bytes_le in *.
      rewrite bytes_cmp_app_same. cbn. done. }
  destruct to as [b|].
  - split.
    + intros [Hle [E|Hlt]]; [by destruct q|]. cbn [fst snd] in *.
      destruct (proj1 (Hsplit (default [] (encode <$> from)))) as (r & -> & Hr).
      { split; [done|]. right. eapply bytes_lt_trans; [exact Hlt|apply interval_join]. }
      exists r. rewrite Eq. split; [done|]. split; [done|]. unfold bytes_lt in *.
      rewrite bytes_cmp_app_same in Hlt. done.
    + intros (r & -> & Hr & Hlt). rewrite <- Eq. split; cbn [fst snd]; [|right].
      * unfold bytes_le in *. by rewrite bytes_cmp_app_same.
      * unfold bytes_lt in *. by rewrite bytes_cmp_app_same.
  - rewrite Hsplit. split; intros (r & -> & Hr); exists r.
    + by rewrite Eq.
    + rewrite <- Eq. split; [done|]. by destruct Hr.
Qed.

(** ** Rows *)

Section address.
Context (L : Lib) `{!LibLaws L} (sn : Snapshot) (n : Namespace) (U : Utxos).

(** The row of an output. *)
Definition utxo_kv (x : TxoRef * (Z * TxOut)) : UtxoKey * UtxosByScriptHash_Value :=
  (mkUtxoKey (script_hash L (script_pubkey x.2.2)) (mkUInt x.2.1) (Reducers.Reducers.hash32 x.1.1)
     (mkUInt x.1.2), mkUInt (value x.2.2)).

Definition utxo_entry (x : TxoRef * (Z * TxOut)) : Key * Value :=
  (Prefix_data n Timbre.UtxosByScriptHash (utxo_kv x).1, encode (utxo_kv x).2).

(** A snapshot in which the table of outputs by script is [U]. *)
Record utxo_table : Prop := {
  ut_stored : stored (script_hash_of L) n (snap sn) U;
  ut_ok : utxos_ok U;
  ut_amounts : ∀ op e, U !! op = Some e → in_range 64 (value e.2);
  ut_rows : ∀ k, is_Some (snap sn !! k) → (∃ rest, k = data_prefix n Timbre.UtxosByScriptHash ++ rest) →
    ∃ uk : UtxoKey, k = Prefix_data n Timbre.UtxosByScriptHash uk;
}.

Hypothesis table : utxo_table.

Lemma utxo_kv_valid op e : U !! op = Some e → valid (utxo_kv (op, e)).1 ∧ valid (utxo_kv (op, e)).2.
Proof using LibLaws0 table.
  intros He. destruct (ut_ok table op e He) as [[H1 H2] H3]. pose proof (ut_amounts table op e He) as H4.
  repeat split; cbn; first [apply script_hash_len|apply H2|apply H3|apply H4].
Qed.

Lemma utxo_entry_stored op e : U !! op = Some e → snap sn !! (utxo_entry (op, e)).1 = Some (utxo_entry (op, e)).2.
Proof using LibLaws0 table.
  intros He. apply (ut_stored table). exists op, e. split; [apply not_elem_of_nil|]. done.
Qed.

Lemma utxo_entry_inj op op' e e' :
  U !! op = Some e → U !! op' = Some e' → (utxo_entry (op, e)).1 = (utxo_entry (op', e')).1 → op = op'.
Proof using LibLaws0 table.
  intros He He' E. destruct (ut_ok table op e He), (ut_ok table op' e' He').
  eapply (row_key_inj (script_hash_of L) n script_hash_len); [..|exact E]; done.
Qed.

Context (script : list Z) (from to : option u64).
Hypothesis from_ok : match from with Some a => valid a | None => True end.
Hypothesis to_ok : match to with Some a => valid a | None => True end.

Abbreviation base := (reducer_key_range n Timbre.UtxosByScriptHash (Some (script_hash L script)) from to).

(** An output of the script between the heights. *)
Definition asked (x : TxoRef * (Z * TxOut)) : Prop :=
  script_hash_of L (script_pubkey x.2.2) = script_hash_of L script
  ∧ above from (mkUInt x.2.1) ∧ below to (mkUInt x.2.1).

Lemma entry_in_range op e :
  U !! op = Some e → in_key_range base (utxo_entry (op, e)).1 ↔ asked (op, e).
Proof using LibLaws0 table from_ok to_ok.
  intros He. destruct (utxo_kv_valid op e He) as [(Hs & Hh & Ht & Hi) _].
  cbn [utxo_kv fst uk_script_hash uk_height uk_utxo_hash uk_utxo_index snd] in *.
  rewrite height_range by done. unfold utxo_entry. cbn [fst]. rewrite Prefix_data_app.
  rewrite (paged_encode Hash20 UtxoCursor (utxo_kv (op, e)).1). cbn [UtxoKey_paged paged_params paged_cursor].
  cbn [utxo_kv fst uk_script_hash]. unfold utxo_cursor, UtxoCursor.
  cbn [fst snd uk_script_hash uk_height uk_utxo_hash uk_utxo_index]. rewrite encode_fields.
  match goal with |- context [BREAK :: encode ?h ++ ?t] => remember (encode h ++ t) as body eqn:Eb end.
  split.
  - intros (r & E & Hr & Hto). apply app_inv_head in E.
    apply (encode_app_inj (A := Hash20)) in E as [Es [= <-]]; [|done|by cbn; apply script_hash_len].
    subst body. split; [by injection Es|]. split; [by apply above_cmp in Hr|].
    destruct to; [|done]. by apply below_cmp in Hto.
  - intros (Es & Hr & Hto). cbn [fst snd] in *. eexists. split; [|split].
    + do 3 f_equal. unfold script_hash. by rewrite Es.
    + subst body. by apply above_cmp.
    + subst body. destruct to; [|done]. by apply below_cmp.
Qed.

(** The entries of the range are the rows of the outputs asked for. *)
Lemma entries_are_utxos order i :
  i ∈ entries (snap sn) order base ↔ ∃ op e, U !! op = Some e ∧ asked (op, e) ∧ i = utxo_entry (op, e).
Proof using LibLaws0 table from_ok to_ok.
  rewrite elem_of_entries. split.
  - intros [Hr Hv]. assert (∃ rest, i.1 = data_prefix n Timbre.UtxosByScriptHash ++ rest) as Hp.
    { apply height_range in Hr as (r & -> & _); [by eexists|done]. }
    destruct (ut_rows table i.1 ltac:(by eexists) Hp) as [uk Ek]. pose proof Hv as Hv'. rewrite Ek in Hv'.
    apply (ut_stored table) in Hv' as (op & e & _ & He & Ev & Er). exists op, e.
    assert (i = utxo_entry (op, e)) as ->.
    { destruct i as [k v]. cbn in *. subst k v. by rewrite Er. }
    split; [done|]. split; [|done]. by apply entry_in_range.
  - intros (op & e & He & Ha & ->). split; [by apply entry_in_range|by apply utxo_entry_stored].
Qed.

#[local] Instance asked_dec x : Decision (asked x).
Proof. unfold asked, above, below. destruct from, to; apply _. Defined.

(** ** Decoding and the dust filter *)

Lemma decode_utxo t op e :
  U !! op = Some e →
  decode_kv (dust_filter t) (utxo_entry (op, e))
  = Ok (if decide (t ≤ value e.2) then Some (utxo_kv (op, e)) else None).
Proof.
  intros He. destruct (utxo_kv_valid op e He) as [Hk Hv]. pose proof (ut_amounts table op e He) as Ha.
  assert (default (λ _, true) (dust_filter t) (utxo_entry (op, e)) = bool_decide (t ≤ value e.2)) as Ef.
  { unfold dust_filter, utxo_entry. destruct (Z.ltb_spec 0 t); cbn [default id snd].
    - unfold encode, UInt_encode. cbn [utxo_kv snd uint_value]. rewrite length_be_bytes.
      rewrite take_ge by (by rewrite length_be_bytes). rewrite of_be_be_bytes_small by apply Ha.
      destruct (Z.leb_spec t (value e.2)); [by rewrite bool_decide_true|by rewrite bool_decide_false by lia].
    - rewrite bool_decide_true; [done|]. unfold in_range in Ha. lia. }
  unfold decode_kv. rewrite Ef. case_bool_decide; [rewrite decide_True by done|by rewrite decide_False].
  unfold utxo_entry. cbn [fst snd]. rewrite Prefix_data_app. unfold data_of_key.
  destruct (Nat.ltb_spec (length (data_prefix n Timbre.UtxosByScriptHash ++ encode (utxo_kv (op, e)).1)) 5) as [Hl|_].
  { rewrite length_app in Hl. cbn in Hl. lia. }
  change (drop 5 (data_prefix n Timbre.UtxosByScriptHash ++ encode (utxo_kv (op, e)).1))
    with (encode (utxo_kv (op, e)).1). cbn [mbind outcome_bind]. unfold decode_or.
  rewrite <- (app_nil_r (encode (utxo_kv (op, e)).1)), <- (app_nil_r (encode (utxo_kv (op, e)).2)).
  rewrite !decode_encode_app by done. done.
Qed.

Definition decoded_utxo (t : Z) (i : Key * Value) : option (UtxoKey * UtxosByScriptHash_Value) :=
  match decode_kv (dust_filter t) i with Ok o => o | _ => None end.

Lemma decoded_utxo_spec t order i :
  i ∈ entries (snap sn) order base → decode_kv (dust_filter t) i = Ok (decoded_utxo t i).
Proof.
  intros (op & e & He & _ & ->)%entries_are_utxos. unfold decoded_utxo. by rewrite decode_utxo.
Qed.

(** ** What is listed *)

Lemma utxo_entry_NoDup l : l ⊆ map_to_list U → NoDup l → NoDup (map utxo_entry l).
Proof.
  intros Hsub Hnd. induction Hnd as [|[op e] l Hni Hnd IH]; [constructor|]. constructor; [|apply IH; set_solver].
  intros ([op' e'] & E & Hin)%list_elem_of_fmap. apply Hni.
  assert ((op, e) ∈ map_to_list U) as He%elem_of_map_to_list by (apply Hsub; by left).
  assert ((op', e') ∈ map_to_list U) as He'%elem_of_map_to_list by (apply Hsub; by right).
  assert (op = op') as -> by (eapply utxo_entry_inj; [done|done|by rewrite E]).
  assert (e = e') as -> by congruence. done.
Qed.

Lemma entries_permutation order :
  entries (snap sn) order base ≡ₚ map utxo_entry (filter asked (map_to_list U)).
Proof.
  apply NoDup_Permutation.
  - apply (NoDup_fmap_1 fst). unfold entries. destruct order; cbn [in_order].
    + rewrite scan_fst. apply NoDup_scan_keys.
    + rewrite <- Permutation_rev, scan_fst. apply NoDup_scan_keys.
  - apply utxo_entry_NoDup; [by intros x [_ ?]%list_elem_of_filter|]. apply NoDup_filter, NoDup_map_to_list.
  - intros i. rewrite entries_are_utxos, list_elem_of_fmap. split.
    + intros (op & e & He & Ha & ->). exists (op, e). split; [done|]. apply list_elem_of_filter.
      split; [done|]. by apply elem_of_map_to_list.
    + intros ([op e] & -> & [Ha He%elem_of_map_to_list]%list_elem_of_filter). by exists op, e.
Qed.

Lemma decoded_permutation t order :
  omap (decoded_utxo t) (entries (snap sn) order base)
  ≡ₚ map utxo_kv (filter (λ x, asked x ∧ t ≤ value x.2.2) (map_to_list U)).
Proof.
  rewrite (entries_permutation order).
  assert (∀ x, x ∈ map_to_list U → U !! x.1 = Some x.2) as Hin
    by (by intros [op e] ?%elem_of_map_to_list).
  induction (map_to_list U) as [|[op e] l IH]; [done|]. specialize (IH ltac:(set_solver)).
  pose proof (Hin (op, e) ltac:(by left)) as He. rewrite !filter_cons.
  destruct (decide (asked (op, e))) as [Ha|Ha].
  - cbn [map omap list_omap]. unfold decoded_utxo at 1. rewrite decode_utxo by done. cbn [snd].
    destruct (decide (t ≤ value e.2)).
    + rewrite decide_True by done. cbn [map]. by rewrite IH.
    + rewrite decide_False by tauto. done.
  - rewrite decide_False by tauto. done.
Qed.

(** ** Their order *)

Definition height_order (order : OrderParam) (a b : Z) : Prop :=
  match order with Asc => a ≤ b | Desc => b ≤ a end.

Lemma entry_heights op op' e e' :
  U !! op = Some e → U !! op' = Some e' → asked (op, e) → asked (op', e') →
  bytes_lt (utxo_entry (op, e)).1 (utxo_entry (op', e')).1 → e.1 ≤ e'.1.
Proof.
  intros He He' (Es & _) (Es' & _) Hlt. apply Z.nlt_ge. intros Hgt. cbn [fst snd] in *.
  apply (bytes_lt_asym _ _ Hlt). unfold utxo_entry. cbn [fst].
  destruct (utxo_kv_valid op e He) as [(_ & Hh & _) _], (utxo_kv_valid op' e' He') as [(_ & Hh' & _) _].
  rewrite !Prefix_data_app, (paged_encode Hash20 UtxoCursor (utxo_kv (op, e)).1),
    (paged_encode Hash20 UtxoCursor (utxo_kv (op', e')).1). cbn [UtxoKey_paged paged_params paged_cursor].
  cbn [utxo_kv fst snd uk_script_hash uk_height uk_utxo_hash uk_utxo_index] in *.
  unfold script_hash. rewrite Es, Es'. unfold utxo_cursor, UtxoCursor.
  cbn [uk_script_hash uk_height uk_utxo_hash uk_utxo_index]. rewrite !encode_fields.
  rewrite !(app_assoc (data_prefix _ _)). unfold bytes_lt. rewrite bytes_cmp_app_same.
  cbn [bytes_cmp]. rewrite Z.compare_refl. by apply (encode_lt (A := u64)).
Qed.

Lemma StronglySorted_omap {A B} (R : relation A) (S : relation B) (q : A → option B) l :
  StronglySorted R l →
  (∀ a a' b b', a ∈ l → a' ∈ l → R a a' → q a = Some b → q a' = Some b' → S b b') →
  StronglySorted S (omap q l).
Proof.
  induction 1 as [|a l Hs IH Ha]; intros H; [constructor|]. cbn [omap list_omap].
  assert (StronglySorted S (omap q l)) as Hl by (apply IH; intros a1 a2 b1 b2 H1 H2; apply H; by right).
  destruct (q a) as [b|] eqn:Eb; [|done]. constructor; [done|]. apply Forall_forall.
  intros b' (a' & Ha' & Eb')%list_elem_of_omap. rewrite Forall_forall in Ha.
  apply (H a a'); [by left|by right|by apply Ha|done..].
Qed.

Lemma StronglySorted_rev {A} (R : relation A) l :
  StronglySorted R l → StronglySorted (flip R) (rev l).
Proof.
  induction 1 as [|a l Hs IH Ha]; [constructor|]. cbn [rev]. apply StronglySorted_app.
  split; [|split; [done|by repeat constructor]].
  intros x y Hx ->%list_elem_of_singleton. rewrite Forall_forall in Ha. apply Ha.
  by rewrite list_elem_of_In, in_rev, <- list_elem_of_In.
Qed.

Lemma scan_sorted s r : StronglySorted (λ i j, bytes_lt i.1 j.1) (scan s r).
Proof.
  pose proof (scan_keys_strict s r) as H. rewrite <- scan_fst in H.
  induction (scan s r) as [|i l IH]; [constructor|]. apply StronglySorted_inv in H as [Hs Hi].
  constructor; [by apply IH|]. apply Forall_forall. intros j Hj.
  eapply Forall_forall in Hi; [exact Hi|]. by apply list_elem_of_fmap_2.
Qed.

Lemma listed_order t order :
  StronglySorted (λ a b, height_order order (uint_value (uk_height a.1)) (uint_value (uk_height b.1)))
    (omap (decoded_utxo t) (entries (snap sn) order base)).
Proof.
  eapply (StronglySorted_omap (λ i j, match order with Asc => bytes_lt i.1 j.1 | Desc => bytes_lt j.1 i.1 end)).
  { unfold entries. destruct order; cbn [in_order]; [apply scan_sorted|].
    apply (StronglySorted_rev _ _ (scan_sorted (snap sn) base)). }
  intros i i' [k v] [k' v'] (op & e & He & Ha & ->)%entries_are_utxos (op' & e' & He' & Ha' & ->)%entries_are_utxos.
  unfold decoded_utxo. rewrite !decode_utxo by done. intros Hlt.
  destruct (decide _); [|done]. intros [= <- <-]. destruct (decide _); [|done]. intros [= <- <-].
  destruct order; cbn [height_order fst uk_height uint_value snd]; eapply entry_heights; done.
Qed.

End address.

(** ** The handler *)

Lemma follow_ext {T} pages (get get' : option rust_string → Q (list T * option rust_string)) cursor :
  (∀ x, get x = get' x) → follow pages get cursor = follow pages get' cursor.
Proof.
  intros E. revert cursor. induction pages as [|pages IH]; intros cursor; [done|]. cbn [follow].
  rewrite E. destruct (get' cursor) as [[[data [next|]]| |]|]; try done. by rewrite IH.
Qed.

(** A page of the outputs of an address. *)
Definition utxo_page (L : Lib) (reg : Registry) (mode : Mode) (sn : Snapshot) (fuel : nat)
    (input : rust_string) (params : UtxoParams) (c : nat) (order : OrderParam) (from to : option Z)
    (cursor : option rust_string) : Q (list Utxo * option rust_string) :=
  resp ← utxos_by_address L reg mode sn fuel
           (mkHeightParams (Some (Z.of_nat c)) (Some order) cursor from to) input params;
  mret (pr_data resp, pr_next_cursor resp).

Definition threshold (params : UtxoParams) : Z :=
  default (if default false (filter_dust params) then 100000 else 0) (filter_dust_threshold params).

(** The namespaces and the script of a request, in a snapshot that can answer it. *)
Record request (L : Lib) (reg : Registry) (mode : Mode) (sn : Snapshot) (input : rust_string)
    (n runes etchings inscriptions : Namespace) (last_updated : LastUpdated)
    (address : option (Address L)) (script : list Z) : Prop := {
  rq_utxos : encoder reg TUtxosByScriptHash = Ok n;
  rq_runes : encoder reg TRunesByUtxo = Ok runes;
  rq_etchings : encoder reg TEtchingByRuneId = Ok etchings;
  rq_inscriptions : encoder reg TInscriptionsByUtxo = Ok inscriptions;
  rq_last_updated : get_last_updated L sn n = Ok last_updated;
  rq_script : parse_address_or_script_bytes L reg sn input mode = Ok (address, script);
}.

Section handler.
Context (L : Lib) `{!LibLaws L} (reg : Registry) (mode : Mode) (sn : Snapshot) (input : rust_string).
Context (n runes etchings inscriptions : Namespace) (last_updated : LastUpdated).
Context (address : option (Address L)) (script : list Z) (params : UtxoParams).
Hypothesis answerable :
  request L reg mode sn input n runes etchings inscriptions last_updated address script.

(** Whether outputs with dunes or inscriptions are left out. *)
Abbreviation excl := (default false (exclude_metaprotocols params)).
Abbreviation row := (utxo_row L sn runes etchings inscriptions excl address script last_updated).

Definition read_utxos (fuel : nat) (sc : Scanner) : Q (list (UtxoKey * UtxosByScriptHash_Value)) :=
  if excl then get_non_metaprotocol_utxos fuel sc sn (dust_filter (threshold params)) runes inscriptions
  else execute_with_filter fuel sc sn (dust_filter (threshold params)).

Lemma utxo_page_reads fuel c order from to cursor :
  utxo_page L reg mode sn fuel input params c order from to cursor
  = read_page L (P := Hash20) (C := UtxoCursor) n Timbre.UtxosByScriptHash (script_hash L script) c
      order (mkUInt <$> from) ((λ x, mkUInt (saturating_add 64 x 1)) <$> to)
      read_utxos row fuel cursor.
Proof using answerable.
  destruct answerable as [E1 E2 E3 E4 E5 E6]. unfold utxo_page, utxos_by_address, read_page.
  rewrite E1, E2, E3, E4. cbn [lift mbind Q_bind]. rewrite E5. cbn [mbind Q_bind]. rewrite E6.
  unfold catch_not_found, lift. cbn [mbind Q_bind]. unfold ParsedHeightPaginationParams_parse.
  cbn [hp_count hp_order hp_cursor hp_from hp_to].
  destruct (page_params _ _ _ _ _ _ _ _ _ _) as [page| |]; [|done|done].
  cbn [mbind Q_bind]. fold (threshold params). fold (read_utxos fuel (page_scanner page)).
  destruct (read_utxos fuel (page_scanner page)) as [[kvs| |]|]; [|done..]. cbn [mbind Q_bind].
  match goal with |- (?l ≫= _) ≫= _ = ?r => change r with l; destruct l as [[[data next]| |]|] end; done.
Qed.

(** What a row shows of an output: transaction, index, height and value. *)
Definition shown (u : Utxo) : rust_string * Z * Z * rust_string :=
  (ut_txid u, ut_vout u, ut_height u, ut_satoshis u).

Definition shown_output (x : TxoRef * (Z * TxOut)) : rust_string * Z * Z * rust_string :=
  (txid_string L (Reducers.Reducers.hash32 x.1.1), x.1.2, x.2.1, to_string (value x.2.2)).

Definition utxo_ref (x : TxoRef) : UtxoRef_Key :=
  mkFields (Reducers.Reducers.hash32 x.1) (mkUInt x.2).

Definition row_or (kv : UtxoKey * UtxosByScriptHash_Value) : Utxo :=
  match row kv with Some (Ok u) => u | _ => mkUtxo [] 0 None [] [] 0 0 [] [] end.

Lemma row_ok x :
  is_ok (dunes_of_utxo sn runes etchings (utxo_ref x.1)) = true →
  is_ok (inscriptions_of_utxo L sn inscriptions (utxo_ref x.1)) = true →
  row (utxo_kv L x) = mret (row_or (utxo_kv L x)) ∧ shown (row_or (utxo_kv L x)) = shown_output x.
Proof.
  intros Hd Hi. unfold row_or, utxo_row. cbn [utxo_kv fst snd uk_script_hash uk_height uk_utxo_hash uk_utxo_index].
  fold (utxo_ref x.1). destruct excl; [done|].
  destruct (dunes_of_utxo sn runes etchings (utxo_ref x.1)) as [dunes| |]; [|done|done].
  destruct (inscriptions_of_utxo L sn inscriptions (utxo_ref x.1)) as [insc| |]; [|done|done]. done.
Qed.

(** An output for which the tables have neither dunes nor inscriptions. *)
Definition plain_utxo (utxo : UtxoRef_Key) : bool :=
  match get_reducer_key_maybe RunesByUtxo_Value sn runes Timbre.RunesByUtxo utxo,
        get_reducer_key_maybe InscriptionsByUtxo_Value sn inscriptions Timbre.InscriptionsByUtxo utxo with
  | Ok None, Ok None => true
  | _, _ => false
  end.

(** The outputs a request asks for. *)
Definition wanted (from to : option Z) (x : TxoRef * (Z * TxOut)) : Prop :=
  script_hash_of L (script_pubkey x.2.2) = script_hash_of L script
  ∧ (match from with Some a => a ≤ x.2.1 | None => True end)
  ∧ (match to with Some b => x.2.1 ≤ b | None => True end)
  ∧ threshold params ≤ value x.2.2
  ∧ (excl = true → plain_utxo (utxo_ref x.1) = true).

#[local] Instance wanted_dec from to x : Decision (wanted from to x).
Proof. unfold wanted. destruct from, to; apply _. Defined.

Definition heights_ok (from to : option Z) : Prop :=
  (match from with Some a => in_range 64 a | None => True end)
  ∧ (match to with Some b => 0 ≤ b < umax 64 | None => True end).

(** Those are the outputs between the bounds of the range. *)
Lemma wanted_asked from to x :
  heights_ok from to →
  wanted from to x ↔
  (excl = true → plain_utxo (utxo_ref x.1) = true)
  ∧ asked L script (mkUInt <$> from) ((λ y, mkUInt (saturating_add 64 y 1)) <$> to) x
  ∧ threshold params ≤ value x.2.2.
Proof.
  intros [_ Hto]. unfold wanted, asked, above, below. destruct from, to as [b|];
    cbn [fmap option_fmap option_map uint_value]; try tauto; unfold saturating_add;
    rewrite Z.min_l by lia; intuition lia.
Qed.

Section listing.
Context (U : Utxos) (fuel c : nat) (order : OrderParam) (from to : option Z).
Hypothesis table : utxo_table L sn n U.
Hypothesis keys : bytes_keys (snap sn).
Hypothesis fits : pages_fit sn.
Hypothesis meta : ∀ op e, U !! op = Some e →
  is_ok (dunes_of_utxo sn runes etchings (utxo_ref op)) = true
  ∧ is_ok (inscriptions_of_utxo L sn inscriptions (utxo_ref op)) = true.
Hypothesis count : (1 ≤ c ≤ 100)%nat.
Hypothesis heights : heights_ok from to.

Abbreviation lower := (mkUInt (n := 8) <$> from).
Abbreviation upper := ((λ y, mkUInt (n := 8) (saturating_add 64 y 1)) <$> to).

Lemma lower_ok : match lower with Some a => valid a | None => True end.
Proof. destruct from; [apply heights|done]. Qed.

Lemma upper_ok : match upper with Some a => valid a | None => True end.
Proof.
  destruct to as [b|]; [|done]. destruct heights as [_ Hb]. cbn in *.
  unfold saturating_add, umax in *. lia.
Qed.

Abbreviation all := (entries (snap sn) order (reducer_key_range n Timbre.UtxosByScriptHash
                       (Some (script_hash L script)) lower upper)).

(** What the request keeps of an entry. *)
Definition keep (kv : UtxoKey * UtxosByScriptHash_Value) : option (UtxoKey * UtxosByScriptHash_Value) :=
  if excl && negb (plain_utxo (mkFields (uk_utxo_hash kv.1) (uk_utxo_index kv.1))) then None else Some kv.
Definition listed (i : Key * Value) : option (UtxoKey * UtxosByScriptHash_Value) :=
  decoded_utxo (threshold params) i ≫= keep.
Abbreviation decoded := (omap listed all).

Lemma keep_Some kv kv' : keep kv = Some kv' → kv' = kv.
Proof. unfold keep. destruct (excl && _); [done|]. by intros [= <-]. Qed.

Lemma decoded_keep : decoded = omap keep (omap (decoded_utxo (threshold params)) all).
Proof.
  induction all as [|i l IH]; [done|]. cbn [omap list_omap]. unfold listed at 1.
  destruct (decoded_utxo (threshold params) i) as [kv|]; cbn [mbind option_bind]; [|done].
  cbn [omap list_omap]. by rewrite IH.
Qed.

(** The reads that show the dunes and inscriptions are those that exclude an output. *)
Lemma accept_listed i :
  i ∈ all → excl = true →
  accept_non_metaprotocol sn runes inscriptions (dust_filter (threshold params)) i = Ok (listed i).
Proof.
  intros Hi Hx. unfold accept_non_metaprotocol, listed.
  rewrite (decoded_utxo_spec L sn n U table script _ _ lower_ok upper_ok _ order i Hi). cbn [mbind outcome_bind].
  destruct (decoded_utxo (threshold params) i) as [[key v]|] eqn:Ed; [|done].
  apply (entries_are_utxos L sn n U table script _ _ lower_ok upper_ok) in Hi as (op & e & He & _ & ->).
  unfold decoded_utxo in Ed. rewrite (decode_utxo L sn n U table) in Ed by done. destruct (decide _); [|done].
  injection Ed as <- <-. cbn [mbind option_bind]. unfold keep, plain_utxo. rewrite Hx.
  cbn [utxo_kv fst uk_utxo_hash uk_utxo_index]. fold (utxo_ref op). destruct (meta op e He) as [Hd Hin].
  unfold dunes_of_utxo in Hd. unfold inscriptions_of_utxo in Hin.
  destruct (get_reducer_key_maybe RunesByUtxo_Value _ _ _ _) as [[d|]| |]; [| |done|done];
    destruct (get_reducer_key_maybe InscriptionsByUtxo_Value _ _ _ _) as [[d'|]| |]; try done.
Qed.

Lemma utxos_read fuel' sc :
  scanner_ok sc → sc_order sc = order → (∀ i, i ∈ entries (snap sn) order (sc_range sc) → i ∈ all) →
  (scan_fuel sn order (sc_range sc) ≤ fuel')%nat →
  read_utxos fuel' sc = Some (Ok (up_to (sc_count sc) (omap listed (entries (snap sn) order (sc_range sc))))).
Proof.
  intros Hsc Ho Hin Hf. rewrite <- Ho in Hf |- *. unfold read_utxos. destruct excl eqn:Ex.
  - apply non_metaprotocol_reads; try done. intros i Hi. rewrite Ho in Hi. by apply accept_listed; [apply Hin|].
  - apply execute_reads; try done. intros i Hi. rewrite Ho in Hi. apply Hin in Hi.
    rewrite (decoded_utxo_spec L sn n U table script _ _ lower_ok upper_ok _ _ i Hi). unfold listed, keep.
    rewrite Ex. by destruct (decoded_utxo (threshold params) i).
Qed.

Lemma length_listed : (length all ≤ base.size U)%nat.
Proof.
  rewrite (entries_permutation L sn n U table script _ _ lower_ok upper_ok order), length_map,
    length_filter. by rewrite length_map_to_list.
Qed.

Lemma listed_output i kv :
  i ∈ all → listed i = Some kv →
  ∃ op e, U !! op = Some e ∧ i = utxo_entry L n (op, e) ∧ kv = utxo_kv L (op, e).
Proof.
  intros (op & e & He & _ & ->)%(entries_are_utxos L sn n U table script _ _ lower_ok upper_ok).
  unfold listed, decoded_utxo. rewrite (decode_utxo L sn n U table) by done. destruct (decide _); [|done].
  intros ->%keep_Some. by exists op, e.
Qed.

Lemma listed_follow :
  (33 + base.size U ≤ fuel)%nat →
  follow (S (base.size U)) (utxo_page L reg mode sn fuel input params c order from to) None
  = Some (map row_or decoded).
Proof.
  intros Hfuel. pose proof length_listed as Hlen.
  rewrite (follow_ext _ _ _ _ (utxo_page_reads fuel c order from to)).
  apply (follow_left (K := UtxoKey) L sn n Timbre.UtxosByScriptHash (script_hash L script) c order lower upper
           read_utxos row listed row_or); try done.
  - exact utxos_read.
  - intros i kv Hi Hg. destruct (listed_output i kv Hi Hg) as (op & e & He & -> & ->).
    split; [done|].
    apply (entries_are_utxos L sn n U table script _ _ lower_ok upper_ok) in Hi as (op' & e' & He' & Ha & E).
    destruct (utxo_kv_valid L sn n U table op e He) as [(Hs & Hh & Ht & Hi) _].
    assert (op = op') as <- by (eapply (utxo_entry_inj L sn n U table); [done..|by rewrite E]).
    assert (e = e') as <- by congruence. destruct Ha as (Es & _). split; [|done].
    cbn [UtxoKey_paged paged_params utxo_kv fst uk_script_hash snd]. unfold script_hash. cbn in Es. by rewrite Es.
  - intros i kv Hi Hg. destruct (listed_output i kv Hi Hg) as (op & e & He & -> & ->).
    destruct (meta op e He). by apply row_ok.
  - constructor.
  - lia.
  - pose proof (length_omap listed all). lia.
Qed.

Lemma keep_rows l :
  omap keep (map (utxo_kv L) l) = map (utxo_kv L) (filter (λ x, excl = true → plain_utxo (utxo_ref x.1) = true) l).
Proof.
  induction l as [|x l IH]; [done|]. cbn [map omap list_omap]. rewrite filter_cons, IH. unfold keep.
  cbn [utxo_kv fst uk_utxo_hash uk_utxo_index]. fold (utxo_ref x.1). destruct (decide _) as [H|H].
  - destruct excl; [|done]. by rewrite H.
  - destruct excl; [|by destruct H]. by destruct (plain_utxo (utxo_ref x.1)); [destruct H|].
Qed.

Lemma listed_permutation :
  map shown (map row_or decoded) ≡ₚ map shown_output (filter (wanted from to) (map_to_list U)).
Proof.
  rewrite decoded_keep, (decoded_permutation L sn n U table script _ _ lower_ok upper_ok), keep_rows, list_filter_filter.
  assert (∀ x, x ∈ map_to_list U → U !! x.1 = Some x.2) as Hin by (by intros [op e] ?%elem_of_map_to_list).
  rewrite !map_map. assert (∀ x, x ∈ map_to_list U → shown (row_or (utxo_kv L x)) = shown_output x) as Hshown.
  { intros [op e] He%Hin. destruct (meta op e He). by apply row_ok. }
  rewrite (filter_iff_in _ (wanted from to)) by (intros; symmetry; by apply wanted_asked).
  match goal with |- ?a ≡ₚ ?b => assert (a = b) as ->; [|done] end. apply map_ext_in.
  intros x [_ Hx]%list_elem_of_In%list_elem_of_filter. by apply Hshown.
Qed.

Lemma listed_sorted : StronglySorted (height_order order) (map ut_height (map row_or decoded)).
Proof.
  pose proof (listed_order L sn n U table script _ _ lower_ok upper_ok (threshold params) order) as Hs.
  eapply (StronglySorted_omap _ _ keep) in Hs; [|by intros ? ? ? ? _ _ HR ->%keep_Some ->%keep_Some; exact HR].
  rewrite <- decoded_keep in Hs. rewrite map_map. assert (∀ kv, kv ∈ decoded → ut_height (row_or kv) = uint_value (uk_height kv.1)) as Hrow.
  { intros kv (i & Hi & Hg)%list_elem_of_omap. destruct (listed_output i kv Hi Hg) as (op & e & He & _ & ->).
    destruct (meta op e He). destruct (row_ok (op, e)) as [_ E]; [done|done|]. by injection E. }
  induction Hs as [|kv l Hs IH Hkv]; [constructor|]. cbn [map]. constructor.
  - apply IH. intros kv' Hkv'. apply Hrow. by right.
  - apply Forall_fmap, Forall_forall. intros kv' Hkv'. cbn. rewrite !Hrow by (by left || by right).
    by eapply Forall_forall in Hkv.
Qed.

End listing.

(** C7: The outputs of an address are its unspent outputs.  In a snapshot where the table of
    outputs by script is the set [U] and the dunes and inscriptions of its outputs can be
    read, following the cursors of [utxos_by_address] from the first page ends, whatever the
    page size, the order and the pages TiKV refuses as too large, and lists each unspent
    output of the script between the heights [from] and [to], both included, and of at least
    the dust threshold, exactly once, in the order of heights asked for; when outputs with
    metaprotocols are excluded, those among them for which the tables have neither dunes nor
    inscriptions. *)
Theorem utxos_by_address_lists (U : Utxos) (fuel c : nat) (order : OrderParam) (from to : option Z) :
  utxo_table L sn n U → bytes_keys (snap sn) → pages_fit sn →
  (∀ op e, U !! op = Some e → is_ok (dunes_of_utxo sn runes etchings (utxo_ref op)) = true
                              ∧ is_ok (inscriptions_of_utxo L sn inscriptions (utxo_ref op)) = true) →
  (1 ≤ c ≤ 100)%nat → heights_ok from to → (33 + base.size U ≤ fuel)%nat →
  ∃ rows,
    follow (S (base.size U)) (utxo_page L reg mode sn fuel input params c order from to) None
    = Some rows
    ∧ map shown rows ≡ₚ map shown_output (filter (wanted from to) (map_to_list U))
    ∧ StronglySorted (height_order order) (map ut_height rows).
Proof using LibLaws0 answerable.
  intros. eexists. split; [by apply listed_follow|].
  split; [by eapply listed_permutation|by eapply listed_sorted].
Qed.

End handler.

#[export] Existing Instance wanted_dec.

(** ** A sample

    A service whose operations are as plain as can be, two outputs of one script, the
    second with an inscription, and a store that refuses pages of more than one entry. *)

Definition sample_lib : Lib :=
  mkLib unit (λ _, None) (λ _, []) (λ _, []) (λ _ _, None) sample_hash id Some id Some id
    (λ _, None) (λ _, []) (λ _ _, []) id id.

#[export] Instance sample_lib_laws : LibLaws sample_lib.
Proof. split; [done|]. intros script. apply length_replicate. Qed.

Definition sample_registry : Registry := mkRegistry Mainnet (λ _, Some [[1; 2]]).

Definition sample_set : Utxos :=
  <[(5, 0) := (3, mkTxOut 30 [2])]> {[ (6, 1) := (4, mkTxOut 7 [2]) ]}.

Definition sample_row (op : TxoRef) (e : Z * TxOut) : Key := row_key sample_hash sample_namespace op e.

Definition sample_cursor_value : Value := be_bytes 8 9 ++ replicate 32 1.

Definition sample_inscribed : Key :=
  Prefix_data sample_namespace Timbre.InscriptionsByUtxo (utxo_ref (6, 1)).

Definition sample_table : Store :=
  <[sample_inscribed := encode ([(mkUInt 0, (mkBytes (replicate 32 5), mkUInt 0))] : InscriptionsByUtxo_Value)]>
  (
  <[sample_row (5, 0) (3, mkTxOut 30 [2]) := be_bytes 8 30]>
    (<[sample_row (6, 1) (4, mkTxOut 7 [2]) := be_bytes 8 7]>
       {[ Prefix_cursor sample_namespace := sample_cursor_value ]})).

Definition sample_snapshot : Snapshot :=
  mkSnapshot sample_table (λ _, false) (λ _ _ size, if 1 <? size then Some TooLarge else None)
    (λ _ _ _, None).

Lemma sample_set_inv op e :
  sample_set !! op = Some e →
  (op = (5, 0) ∧ e = (3, mkTxOut 30 [2])) ∨ (op = (6, 1) ∧ e = (4, mkTxOut 7 [2])).
Proof.
  unfold sample_set. intros [[<- <-]|[_ [<- <-]%lookup_singleton_Some]]%lookup_insert_Some; auto.
Qed.

Lemma sample_table_inv k v :
  sample_table !! k = Some v →
  (∃ op e, sample_set !! op = Some e ∧ k = sample_row op e ∧ v = row_value e)
  ∨ k = Prefix_cursor sample_namespace ∨ k = sample_inscribed.
Proof.
  unfold sample_table. intros [[<- _]|[_ H]]%lookup_insert_Some; [by right; right|]. revert H.
  intros [[<- <-]|[_ [[<- <-]|[_ [<- _]%lookup_singleton_Some]]%lookup_insert_Some]]%lookup_insert_Some.
  - left. by eexists (5, 0), _.
  - left. by eexists (6, 1), _.
  - by right; left.
Qed.

Lemma sample_utxo_table : utxo_table sample_lib sample_snapshot sample_namespace sample_set.
Proof.
  split.
  - intros uk v. split.
    + intros [(op & e & He & Ek & ->)|[E|E]]%sample_table_inv.
      * exists op, e. split; [apply not_elem_of_nil|]. done.
      * by apply data_not_cursor in E.
      * done.
    + intros (op & e & _ & He & -> & Ek). cbn [snap sample_snapshot]. rewrite Ek.
      by destruct (sample_set_inv op e He) as [[-> ->]|[-> ->]]; vm_compute.
  - intros op e He. by destruct (sample_set_inv op e He) as [[-> ->]|[-> ->]]; vm_compute.
  - intros op e He. by destruct (sample_set_inv op e He) as [[-> ->]|[-> ->]]; vm_compute.
  - intros k [v Hv] [rest E].
    by apply sample_table_inv in Hv as [(op & e & _ & -> & _) | [-> | ->]]; [eexists|..].
Qed.

Lemma sample_bytes_keys : bytes_keys (snap sample_snapshot).
Proof.
  intros k [v Hv]. apply sample_table_inv in Hv as [(op & e & He & -> & _) | [-> | ->]].
  - destruct (sample_set_inv op e He) as [[-> ->]|[-> ->]]; by apply (bool_decide_unpack _); vm_compute.
  - by apply (bool_decide_unpack _); vm_compute.
  - by apply (bool_decide_unpack _); vm_compute.
Qed.

(** Outputs without metaprotocols. *)
Definition sample_params : UtxoParams := mkUtxoParams None None (Some true).

Lemma utxos_by_address_lists_witness :
  map fst (filter (wanted sample_lib sample_snapshot sample_namespace sample_namespace [2] sample_params (Some 3) None)
    (map_to_list sample_set)) = [(5, 0)]
  ∧ ∃ rows,
    follow (S (base.size sample_set)) (utxo_page sample_lib sample_registry Dogecoin sample_snapshot 50 [2]
                sample_params 1 Desc (Some 3) None) None = Some rows
    ∧ map shown rows
      ≡ₚ map (shown_output sample_lib)
           (filter (wanted sample_lib sample_snapshot sample_namespace sample_namespace [2] sample_params (Some 3) None)
              (map_to_list sample_set))
    ∧ StronglySorted (height_order Desc) (map ut_height rows).
Proof.
  split; [by vm_compute|].
  apply (utxos_by_address_lists sample_lib sample_registry Dogecoin sample_snapshot [2]
           sample_namespace sample_namespace sample_namespace sample_namespace
           (mkLastUpdated (replicate 32 1) 9) None [2] sample_params); try done.
  - apply sample_utxo_table.
  - apply sample_bytes_keys.
  - intros order r size e. cbn. destruct (Z.ltb_spec 1 size); [|done]. by intros [= <-].
  - intros op e He. by destruct (sample_set_inv op e He) as [[-> ->]|[-> ->]]; vm_compute.
  - lia.
  - vm_compute. lia.
Defined.

End MapiAddress.
