(* ===== verification/MapiDrc20.v ===== *)
(** The token balances of an address, from the messages of the blocks to the
    answer of the service: the reducer, the storage stage and the handler of
    [drc20_by_address.rs] together, on the two ways the storage stage applies a
    block. *)

From S2P Require Import Prelude Decimal Types Timbre Crosscut StorageAction ReducerOutput TikvWorker TikvRefinement Reducers ReducerLaws Mapi MapiApi MapiLaws MapiAddress.
Import Decimal Types Timbre Crosscut StorageAction ReducerOutput TikvWorker TikvRefinement Reducers Mapi MapiApi MapiLaws MapiAddress.

Module MapiDrc20.

(** The ticker "dogi", with no decimals; the script is [2]. *)
Definition ticker : list Z := [100; 111; 103; 105].

Definition receiver : list Z := ReducerLaws.sample_hash [2].

(** The terms of the token, as its deployment stores them. *)
Definition terms_output : ReducerOutput :=
  Brc20TermsByTicker ticker (mkUInt 1000) (mkUInt 1000) (mkUInt 0) false
    (mkBytes (replicate 32 4), mkUInt 0).

(** The outputs of a block with these messages. *)
Definition block_outputs (height : Z) (messages : list CtxMessage) : list ReducerOutput :=
  terms_output
  :: match concatM brc20_balances_message messages with Ok outs => outs | _ => [] end
  ++ [Cursor (sample_point height) false (mkUInt 9)].

(** A worker on an empty store, whose batches hold ten blocks, takes a block per
    list of messages; [mutable] tells whether the chain was mutable when the first
    one came. The last block is mutable in any case and without messages. *)
Definition payloads (mutable : bool) (blocks : list (list CtxMessage)) : list StorageActionPayload :=
  imap (λ i messages, RollForward (sample_point (Z.of_nat i + 1))
          (block_outputs (Z.of_nat i + 1) messages) mutable false) blocks
  ++ [RollForward (sample_point (Z.of_nat (length blocks) + 1))
        (block_outputs (Z.of_nat (length blocks) + 1) []) true false].

Definition start : Worker := spawn ∅ 10 4000000 None None 3.

Fixpoint run (units : list StorageActionPayload) : M unit :=
  match units with
  | [] => mret tt
  | u :: units => execute sample_namespace list_values no_policy u;; run units
  end.

(** The balances the service then shows for the script. *)
Definition balances_shown (mutable : bool) (blocks : list (list CtxMessage))
  : Q (TimestampedResponse (gmap rust_string Drc20Balances)) :=
  let '(w, _, _) := run (payloads mutable blocks) start None in
  drc20_by_address sample_lib sample_registry Dogecoin
    (mkSnapshot (store w) (λ _, false) (λ _ _ _, None) (λ _ _ _, None)) 50 [2].

(** Seven units minted, then all of them inscribed for a transfer. *)
Definition minted_then_locked : list (list CtxMessage) :=
  [[CtxMint ticker 7 receiver]; [CtxTransferInit ticker 7 receiver]].

(** The two runs of the worker, and the answers of the service. *)
Example minted_then_locked_shown :
  balances_shown false minted_then_locked = Some (Err (Internal "drc20 balance len mismatch"))
  ∧ balances_shown true minted_then_locked
    = Some (Ok (mkTimestamped {[ ticker := mkDrc20Balances [55] [48] ]}
                  (mkLastUpdated (replicate 32 3) 3))).
Proof. split; by vm_compute. Qed.

(** ** Any account *)

(** A key that is added to a range, and one that is added elsewhere. *)
Lemma scan_length_insert (s : Store) r (k : Key) v :
  s !! k = None → length (scan (<[k := v]> s) r)
  = if decide (in_key_range r k) then S (length (scan s r)) else length (scan s r).
Proof.
  intros Hk. rewrite <- !(length_fmap fst), !scan_fst. destruct (decide (in_key_range r k)) as [Hr|Hr].
  - change (S (length (scan_keys s r))) with (length (k :: scan_keys s r)). apply Permutation_length, NoDup_Permutation.
    + apply NoDup_scan_keys.
    + constructor; [|apply NoDup_scan_keys]. rewrite elem_of_scan_keys, Hk. by intros [_ [? ?]].
    + intros x. rewrite elem_of_cons, !elem_of_scan_keys. rewrite lookup_insert_is_Some'. naive_solver.
  - apply Permutation_length, NoDup_Permutation; [apply NoDup_scan_keys..|].
    intros x. rewrite !elem_of_scan_keys, lookup_insert_is_Some'. naive_solver.
Qed.

Section account.
Context (n : Namespace) (holder tick : list Z) (amount : Z).
Hypothesis holder_ok : length holder = 20%nat.
Hypothesis tick_ok : Z.of_nat (length tick) ≤ 255.
Hypothesis amount_ok : 0 < amount < 2 ^ 128.

Definition account : Brc20BalancesByScriptHash_Key := mkFields (mkBytes holder) (mkShort tick).
Definition total_key : Key := Prefix_data n Timbre.Brc20TotalBalanceByScriptHash account.
Definition available_key : Key := Prefix_data n Timbre.Brc20AvailableBalanceByScriptHash account.

Definition balance_range (kind : Reducer) : Key * Key :=
  reducer_key_range n kind (Some (mkBytes holder : Hash20)) (None : option u64) (None : option u64).

(** The number of tokens for which the holder has a balance. *)
Definition held (s : Store) (kind : Reducer) : nat := length (scan s (balance_range kind)).

(** The actions of a message. *)
Definition message_ops (m : CtxMessage) : outcome WorkError (list StorageAction) :=
  match brc20_balances_message m with Ok outs => outputs_to_storage_ops n outs | _ => Panic end.

Definition mint_ops : list StorageAction := [IncrementU128 total_key amount; IncrementU128 available_key amount].
Definition lock_ops : list StorageAction := [IncrementU128 total_key 0; DecrementU128NoDelete available_key amount].

Lemma tick_short : short_ticker tick = Ok (mkShort tick).
Proof.
  unfold short_ticker, ShortByteString_try_from. destruct (Z.ltb_spec (umax 8) (Z.of_nat (length tick))); [|done].
  change (umax 8) with 255 in *. lia.
Qed.

Lemma message_ops_ok :
  message_ops (CtxMint tick amount holder) = Ok mint_ops ∧ message_ops (CtxTransferInit tick amount holder) = Ok lock_ops.
Proof.
  unfold message_ops, brc20_balances_message, outputs_to_storage_ops. cbn [foldM]. unfold_ops.
  cbn [reducer_output_to_storage_ops]. unfold Brc20BalancesByScriptHash_ops. by rewrite tick_short.
Qed.

Lemma key_in_range kind kind' : in_key_range (balance_range kind) (Prefix_data n kind' account) ↔ kind = kind'.
Proof.
  unfold balance_range. rewrite height_range by done. rewrite Prefix_data_app.
  unfold account, Brc20BalancesByScriptHash_Key. rewrite encode_fields.
  split.
  - intros (x & E & _). apply reducer_discriminant_inj. unfold data_prefix, append_with_break, append, break_, push in E.
    rewrite <- !app_assoc in E. apply app_inv_head in E. cbn in E. by injection E.
  - intros <-. exists (encode (mkShort tick)). split_and!; [done|by destruct (encode (mkShort tick))|done].
Qed.

Lemma keys_differ : total_key ≠ available_key.
Proof. unfold total_key, available_key, Prefix_data, append_with_break, append, break_, push, enc. cbn. by intros [= ]. Qed.

(** The changes of one batch: those of the available balance cancel. *)
Lemma merged max_len max_bytes :
  ∃ b, foldM push_actions (batcher_new max_len max_bytes) [mint_ops; lock_ops] = Ok b
    ∧ batch_actions b = <[available_key := IncrementU128 available_key 0]> {[ total_key := IncrementU128 total_key amount ]}.
Proof.
  assert (Hm : foldM push_action ∅ (mint_ops ++ lock_ops)
    = Ok (<[available_key := IncrementU128 available_key 0]> {[ total_key := IncrementU128 total_key amount ]})).
  { pose proof keys_differ as Hd. unfold mint_ops, lock_ops. cbn [app foldM]. unfold push_action. cbn [key].
    rewrite lookup_empty. cbn [mbind outcome_bind]. rewrite lookup_insert_ne, lookup_empty by done. cbn [mbind outcome_bind].
    rewrite lookup_insert_ne, lookup_insert_eq by done. unfold merge. cbn [key]. rewrite decide_True by done.
    cbn [mbind outcome_bind]. rewrite Z.add_0_r, wrap_small by (unfold in_range; lia).
    rewrite lookup_insert_ne, lookup_insert_eq by done. unfold merge. cbn [key]. rewrite decide_True by done.
    rewrite Z.leb_refl, Z.sub_diag. cbn [mbind outcome_bind]. f_equal. apply map_eq. intros k.
    destruct (decide (k = available_key)) as [->|H1]; [by rewrite !lookup_insert_eq|].
    rewrite !(lookup_insert_ne _ available_key k) by done.
    destruct (decide (k = total_key)) as [->|H2]; [by rewrite lookup_singleton_eq, lookup_insert_eq|].
    repeat rewrite lookup_insert_ne by done. by rewrite lookup_empty, lookup_singleton_ne. }
  destruct (push_blocks [mint_ops; lock_ops] (batcher_new max_len max_bytes) _ Hm) as (b & E & Hb). eauto.
Qed.

(** Applied at once, in either order, they write the total only. *)
Lemma applied_at_once s max_len max_bytes b batch :
  s !! total_key = None → s !! available_key = None →
  foldM push_actions (batcher_new max_len max_bytes) [mint_ops; lock_ops] = Ok b →
  batch ≡ₚ (map_to_list (batch_actions b)).*2 →
  apply_actions s batch = Ok (<[total_key := be_bytes 16 amount]> s).
Proof.
  intros Ht Ha Hb Hp. destruct (merged max_len max_bytes) as (b' & Hb' & Em). rewrite Hb in Hb'. injection Hb' as <-.
  rewrite Em, map_to_list_insert in Hp by (by apply lookup_singleton_ne, keys_differ).
  rewrite map_to_list_singleton in Hp. cbn [fmap list_fmap snd] in Hp.
  assert (Hz : (amount =? 0) = false) by (apply Z.eqb_neq; lia).
  assert (Hadd : ∀ st : Store, execute_storage_op_in_txn (st, ∅) (IncrementU128 total_key amount)
    = Ok (<[total_key := be_bytes 16 amount]> st, ∅)).
  { intros st. cbn [execute_storage_op_in_txn]. unfold increment. by rewrite Hz, lookup_empty. }
  assert (Hskip : ∀ st : Store, execute_storage_op_in_txn (st, ∅) (IncrementU128 available_key 0) = Ok (st, ∅)) by done.
  symmetry in Hp. apply Permutation_length_2_inv in Hp as [-> | ->]; unfold apply_actions, batch_get_required_kvs_for_batch, batch_get;
    cbn [filter list_filter requires_previous_value]; repeat rewrite decide_True by done; cbn [map key omap list_omap];
    rewrite Ht, Ha; cbn [fmap option_fmap option_map list_to_map foldr]; unfold run_actions; cbn [foldM];
    rewrite ?Hadd, ?Hskip; cbn [mbind outcome_bind]; by rewrite ?Hadd, ?Hskip.
Qed.

Lemma increment_new (st kvs : Store) k d :
  kvs !! k = None →
  execute_storage_op_in_txn_with_inverse (st, kvs) (IncrementU128 k d)
  = Ok ((<[k := be_bytes 16 d]> st, kvs), Some (Delete k)).
Proof. intros H. cbn [execute_storage_op_in_txn_with_inverse]. unfold increment_with_inverse. by rewrite H. Qed.

Lemma read_stored x : 0 ≤ x < 2 ^ 128 → read_amount 16 (be_bytes 16 x) = Ok x.
Proof.
  intros Hx. unfold read_amount. rewrite length_be_bytes. cbn [Nat.ltb Nat.leb].
  rewrite take_ge by (by rewrite length_be_bytes).
  by rewrite of_be_be_bytes_small by (change (256 ^ Z.of_nat 16) with (2 ^ 128); lia).
Qed.

Lemma increment_stored (st kvs : Store) k x d :
  kvs !! k = Some (be_bytes 16 x) → 0 ≤ x → 0 ≤ d → x + d < 2 ^ 128 →
  execute_storage_op_in_txn_with_inverse (st, kvs) (IncrementU128 k d)
  = Ok ((<[k := be_bytes 16 (x + d)]> st, delete k kvs), Some (SSet k (be_bytes 16 x))).
Proof.
  intros H Hx Hd Hs. cbn [execute_storage_op_in_txn_with_inverse]. unfold increment_with_inverse.
  rewrite H, read_stored by lia. cbn [mbind outcome_bind]. change (bits 16) with 128.
  by rewrite wrap_small by (unfold in_range; lia).
Qed.

Lemma decrement_stored (st kvs : Store) k x :
  kvs !! k = Some (be_bytes 16 x) → 0 ≤ x < 2 ^ 128 →
  execute_storage_op_in_txn_with_inverse (st, kvs) (DecrementU128NoDelete k x)
  = Ok ((<[k := be_bytes 16 0]> st, delete k kvs), Some (SSet k (be_bytes 16 x))).
Proof.
  intros H Hx. cbn [execute_storage_op_in_txn_with_inverse]. unfold decrement_no_delete_with_inverse.
  rewrite H, read_stored by lia. cbn [mbind outcome_bind]. unfold decremented_no_delete, checked_sub.
  by rewrite Z.sub_diag.
Qed.

(** Applied one after the other, as for blocks of the mutable part of the chain, they write
    both. *)
Lemma applied_in_turn s :
  s !! total_key = None → s !! available_key = None →
  ∃ s1 s2 i1 i2, apply_actions_inverses s mint_ops = Ok (s1, i1) ∧ apply_actions_inverses s1 lock_ops = Ok (s2, i2)
    ∧ s2 = <[available_key := be_bytes 16 0]> (<[total_key := be_bytes 16 amount]> s).
Proof.
  intros Ht Ha. pose proof keys_differ as Hd.
  eexists (<[available_key := be_bytes 16 amount]> (<[total_key := be_bytes 16 amount]> s)), _, _, _. split_and!.
  - unfold apply_actions_inverses, batch_get_required_kvs_for_batch, batch_get, mint_ops.
    cbn [map key omap list_omap]. rewrite Ht, Ha. cbn [fmap option_fmap option_map list_to_map foldr].
    unfold run_actions_with_inverses. cbn [foldM]. rewrite increment_new by apply lookup_empty. cbn [mbind outcome_bind].
    rewrite increment_new by apply lookup_empty. done.
  - unfold apply_actions_inverses, batch_get_required_kvs_for_batch, batch_get, lock_ops.
    cbn [map key omap list_omap]. rewrite lookup_insert_eq, (lookup_insert_ne _ available_key total_key), lookup_insert_eq by done.
    cbn [fmap option_fmap option_map list_to_map foldr uncurry]. unfold run_actions_with_inverses. cbn [foldM].
    rewrite (increment_stored _ _ _ amount) by (lia || by rewrite lookup_insert_eq). cbn [mbind outcome_bind].
    rewrite decrement_stored; [done| |lia].
    by rewrite lookup_delete_ne, lookup_insert_ne, lookup_insert_eq by done.
  - rewrite Z.add_0_r. apply map_eq. intros k.
    destruct (decide (k = available_key)) as [->|H1]; [by rewrite !lookup_insert_eq|].
    rewrite !(lookup_insert_ne _ available_key k) by done.
    destruct (decide (k = total_key)) as [->|H2]; [by rewrite !lookup_insert_eq|].
    by repeat rewrite lookup_insert_ne by done.
Qed.

(** The rows of the holder are rows of balances. *)
Definition readable (sn : Snapshot) (kind : Reducer) : Prop :=
  ∀ i, i ∈ scan (snap sn) (balance_range kind) →
    ∃ kv, (decode_kv None i : MapiResult (option (Brc20BalancesByScriptHash_Key * u128))) = Ok (Some kv).

Lemma length_omap_all {A B} (q : A → option B) l : (∀ i, i ∈ l → is_Some (q i)) → length (omap q l) = length l.
Proof.
  induction l as [|i l IH]; intros H; [done|]. cbn [omap list_omap]. destruct (H i ltac:(by left)) as [x ->].
  cbn [length]. f_equal. apply IH. intros; apply H; by right.
Qed.

Lemma scan_held sn fuel kind :
  bytes_keys (snap sn) → pages_fit sn → readable sn kind → (33 + held (snap sn) kind ≤ fuel)%nat →
  ∃ kvs, balances_scan sn fuel n kind (mkBytes holder) = Some (Ok kvs) ∧ length kvs = held (snap sn) kind.
Proof.
  intros Hk Hf Hr Hfuel.
  set (q := λ i, match (decode_kv None i : MapiResult (option (Brc20BalancesByScriptHash_Key * u128)))
    with Ok o => o | _ => None end).
  exists (omap q (scan (snap sn) (balance_range kind))). split.
  - apply (execute_reads sn (Scanner_new (balance_range kind)) fuel None q); [done..| |done|].
    + split; [|done]. unfold balance_range. cbn [Scanner_new sc_range]. rewrite range_bounds. cbn [fst]. by intros [_ ?]%app_eq_nil.
    + intros i Hi. destruct (Hr i Hi) as [kv E]. unfold q. by rewrite E.
  - apply length_omap_all. intros i Hi. destruct (Hr i Hi) as [kv E]. unfold q. rewrite E. by eexists.
Qed.

(** A request for the balances of the holder, in a snapshot that can answer it. *)
Record balances_asked (L : Lib) (reg : Registry) (mode : Mode) (sn : Snapshot) (fuel : nat) (input : rust_string) : Prop := {
  ba_balances : encoder reg TBrc20BalancesByScriptHash = Ok n;
  ba_terms : is_ok (encoder reg TBrc20TermsByTicker) = true;
  ba_script : ∃ address script, parse_address_or_script_bytes L reg sn input mode = Ok (address, script)
    ∧ script_hash L script = mkBytes holder;
  ba_updated : is_ok (get_last_updated L sn n) = true;
  ba_keys : bytes_keys (snap sn);
  ba_fits : pages_fit sn;
  ba_rows : readable sn Timbre.Brc20TotalBalanceByScriptHash ∧ readable sn Timbre.Brc20AvailableBalanceByScriptHash;
  ba_fuel : (33 + base.size (snap sn) ≤ fuel)%nat;
}.

Lemma held_bound s kind : (held s kind ≤ base.size s)%nat.
Proof. unfold held. rewrite <- (length_fmap fst), scan_fst. apply length_scan_keys. Qed.

Lemma mismatch_answered L reg mode sn fuel input :
  balances_asked L reg mode sn fuel input →
  held (snap sn) Timbre.Brc20TotalBalanceByScriptHash ≠ held (snap sn) Timbre.Brc20AvailableBalanceByScriptHash →
  drc20_by_address L reg mode sn fuel input = Some (Err (Internal "drc20 balance len mismatch")).
Proof.
  intros [Hb Ht (address & script & Hs & Hh) Hu Hk Hf [Hr1 Hr2] Hfuel] Hne. unfold drc20_by_address. rewrite Hb.
  destruct (encoder reg TBrc20TermsByTicker) as [terms| |]; [|done..]. cbn [lift mbind Q_bind]. rewrite Hs.
  cbn [mbind Q_bind]. destruct (get_last_updated L sn n) as [lu| |]; [|done..]. cbn [mbind Q_bind]. rewrite Hh.
  pose proof (held_bound (snap sn)) as Hbound.
  destruct (scan_held sn fuel Timbre.Brc20TotalBalanceByScriptHash) as (kvs & -> & E1); [done..|specialize (Hbound Timbre.Brc20TotalBalanceByScriptHash); lia|].
  cbn [mbind Q_bind].
  destruct (scan_held sn fuel Timbre.Brc20AvailableBalanceByScriptHash) as (kvs' & -> & E2); [done..|specialize (Hbound Timbre.Brc20AvailableBalanceByScriptHash); lia|].
  cbn [mbind Q_bind]. rewrite E1, E2. by rewrite (proj2 (Nat.eqb_neq _ _) Hne).
Qed.

Lemma held_total s v :
  s !! total_key = None →
  held (<[total_key := v]> s) Timbre.Brc20TotalBalanceByScriptHash = S (held s Timbre.Brc20TotalBalanceByScriptHash)
  ∧ held (<[total_key := v]> s) Timbre.Brc20AvailableBalanceByScriptHash = held s Timbre.Brc20AvailableBalanceByScriptHash.
Proof.
  intros Hk. unfold held. rewrite !scan_length_insert by done.
  rewrite decide_True by by apply key_in_range. by rewrite decide_False by by intros ?%key_in_range.
Qed.

Lemma held_available s v :
  s !! available_key = None →
  held (<[available_key := v]> s) Timbre.Brc20AvailableBalanceByScriptHash = S (held s Timbre.Brc20AvailableBalanceByScriptHash)
  ∧ held (<[available_key := v]> s) Timbre.Brc20TotalBalanceByScriptHash = held s Timbre.Brc20TotalBalanceByScriptHash.
Proof.
  intros Hk. unfold held. rewrite !scan_length_insert by done.
  rewrite decide_True by by apply key_in_range. by rewrite decide_False by by intros ?%key_in_range.
Qed.


End account.

(** The holder of the sample, whose store has nothing but a cursor. *)
Definition cursor_only : Store := {[ Prefix_cursor sample_namespace := sample_cursor_value ]}.

Definition sample_mint : list StorageAction := mint_ops sample_namespace receiver ticker 7.
Definition sample_lock : list StorageAction := lock_ops sample_namespace receiver ticker 7.
Definition sample_batch : SyncBatcher :=
  match foldM push_actions (batcher_new 10 4000000) [sample_mint; sample_lock] with
  | Ok b => b
  | _ => batcher_new 0 0
  end.

Definition batched_store : Store := <[total_key sample_namespace receiver ticker := be_bytes 16 7]> cursor_only.
Definition batched_snapshot : Snapshot := mkSnapshot batched_store (λ _, false) (λ _ _ _, None) (λ _ _ _, None).

Lemma batched_asked : balances_asked sample_namespace receiver sample_lib sample_registry Dogecoin batched_snapshot 50 [2].
Proof.
  split; try by vm_compute.
  - exists None, [2]. by vm_compute.
  - assert (H : map_Forall (λ k _, bytes_ok k) batched_store) by (apply (bool_decide_unpack _); by vm_compute).
    intros k [v Hv]. exact (H k v Hv).
  - split; intros i Hi%list_elem_of_In; vm_compute in Hi; [|done]. destruct Hi as [<-|[]].
    eexists. by vm_compute.
  - apply Nat.leb_le. by vm_compute.
Qed.


End MapiDrc20.
