(* ===== verification/Registry.v ===== *)
(** The registry in Redis that the services share.

    - Redis, as the sorted sets and texts it holds;
    - the entries polyphony leaves there for the collector of old versions
      ([polyphony-xdg/src/storage/mod.rs]) and the methods of its storage worker
      that write them and advertise the instance ([storage/tikv.rs]);
    - what [mapi-xdg] resolves from it (the model of [key_resolver.rs] is [Mapi]).

    Texts are kept as their bytes.  The crates [hex] and [tikv_client] and
    [str::to_lowercase] are the record [Ext] of operations, the class [ExtLaws]
    what is relied upon.  A request that fails ends the call with [Restart]; the
    monad [R] counts the requests that still succeed ([None]: all do). *)

From stdpp Require Import strings.
From S2P Require Import Prelude Decimal Brc20 Timbre Crosscut StorageAction Reducers Mapi.
Import Decimal Brc20 Timbre Crosscut Reducers.

Module Registry.

(** The bytes of a text literal. *)
Definition str (s : string) : list Z :=
  map (λ a, Z.of_N (Ascii.N_of_ascii a)) (String.list_ascii_of_string s).

(** ** Redis *)

Abbreviation ZSet := (gmap (list Z) Z).

Record Redis : Type := mkRedis {
  zsets : gmap (list Z) ZSet;
  texts : gmap (list Z) (list Z);
}.

Definition zset (r : Redis) (key : list Z) : ZSet := default ∅ (zsets r !! key).

Definition put_zset (key : list Z) (z : ZSet) (r : Redis) : Redis :=
  mkRedis (<[key := z]> (zsets r)) (texts r).

Definition zadd (key member : list Z) (score : Z) (r : Redis) : Redis :=
  put_zset key (<[member := score]> (zset r key)) r.

(** Members are ordered by their score, then by their bytes. *)
Definition member_le (a b : list Z * Z) : Prop := a.2 < b.2 ∨ (a.2 = b.2 ∧ bytes_le a.1 b.1).
#[export] Instance member_le_dec a b : Decision (member_le a b).
Proof. unfold member_le. apply _. Defined.

Definition zrange (r : Redis) (key : list Z) : list (list Z) :=
  map fst (merge_sort member_le (map_to_list (zset r key))).

(** The members whose score is at most [upper] are removed. *)
Definition zrembyscore (key : list Z) (upper : Z) (r : Redis) : Redis :=
  put_zset key (filter (λ kv, upper < kv.2) (zset r key)) r.

(** ** What other crates provide *)

Record TiKVTimestamp : Type := mkTimestamp { physical : Z; logical : Z; suffix_bits : Z }.

#[export] Instance TiKVTimestamp_eq_dec : EqDecision TiKVTimestamp.
Proof. solve_decision. Defined.

Record Ext : Type := mkExt {
  hex_encode : list Z → list Z;
  hex_decode : list Z → option (list Z);
  to_lowercase : list Z → list Z;
  version : TiKVTimestamp → Z;
  from_version : Z → TiKVTimestamp;
}.

(** Timestamps as the oracle of TiKV gives them: milliseconds, and a counter of 18
    bits. *)
Definition timestamp_ok (t : TiKVTimestamp) : Prop :=
  0 ≤ physical t < 2 ^ 46 ∧ 0 ≤ logical t < 2 ^ 18 ∧ suffix_bits t = 0.

(** 44 is the comma. *)
Class ExtLaws (X : Ext) : Prop := {
  hex_roundtrip : ∀ b, bytes_ok b → hex_decode X (hex_encode X b) = Some b;
  hex_no_comma : ∀ b, bytes_ok b → Forall (λ c, c ≠ 44) (hex_encode X b);
  version_range : ∀ t, timestamp_ok t → in_range 64 (version X t);
  version_roundtrip : ∀ t, timestamp_ok t → from_version X (version X t) = t;
}.

(** ** storage/mod.rs: the entry of a commit *)

Record RedisEntry : Type := mkRedisEntry {
  height : Z;
  block_hash : list Z;
  was_mempool : bool;
  commit_ts : TiKVTimestamp;
  network : list Z;
}.

#[export] Instance RedisEntry_eq_dec : EqDecision RedisEntry.
Proof. solve_decision. Defined.

Inductive RedisValue : Type :=
| SimpleString (s : list Z)
| BulkString (s : list Z)
| OtherValue.

(** [parts.join(",")]. *)
Fixpoint join (parts : list (list Z)) : list Z :=
  match parts with
  | [] => []
  | [p] => p
  | p :: parts => p ++ 44 :: join parts
  end.

(** [x.parse().ok()]. *)
Definition parse_int (w : Z) (x : list Z) : option Z :=
  match parse_uint w x with Ok v => Some v | _ => None end.

Definition bool_text (b : bool) : list Z := if b then str "true" else str "false".
Definition parse_bool (x : list Z) : option bool :=
  if decide (x = str "true") then Some true
  else if decide (x = str "false") then Some false else None.

Section entries.
Context (X : Ext).

(** [hex::decode(x).ok()] as an array of 32 bytes. *)
Definition parse_hash (x : list Z) : option (list Z) :=
  bytes ← hex_decode X x;
  if (length bytes =? 32)%nat then Some bytes else None.

(** The error is what is malformed. *)
Definition parse_entry (s : list Z) : outcome string RedisEntry :=
  let parts := split_on 44 s in
  height ← ok_or "height" (parts !! 0%nat ≫= parse_int 64);
  block_hash ← ok_or "block hash" (parts !! 1%nat ≫= parse_hash);
  was_mempool ← ok_or "was_mempool" (parts !! 2%nat ≫= parse_bool);
  commit_ts ← ok_or "commit timestamp" (from_version X <$> (parts !! 3%nat ≫= parse_int 64));
  let network := to_lowercase X (default [] (parts !! 4%nat)) in
  Ok (mkRedisEntry height block_hash was_mempool commit_ts network).

Definition of_redis_value {A} (parse : list Z → outcome string A) (v : RedisValue) : outcome string A :=
  match v with
  | SimpleString s => parse s
  | BulkString s => if utf8_valid s then parse s else Err "utf-8 entry"%string
  | OtherValue => Err "unexpected redis value type"%string
  end.

Definition from_redis_value : RedisValue → outcome string RedisEntry := of_redis_value parse_entry.

(** The collector reads eight fields: a block is its own chain tip. *)
Definition entry_text (e : RedisEntry) : list Z :=
  join [to_string (height e); hex_encode X (block_hash e); bool_text (was_mempool e);
        to_string (version X (commit_ts e)); to_lowercase X (network e);
        to_string (height e); hex_encode X (block_hash e); to_string 0].

End entries.

(** ** storage/tikv.rs: the worker *)

Record StorageConfig : Type := mkStorageConfig {
  dataplane_id : Z;
  instance_id : Z;
  config_network : list Z;
  advertise_immediately : option bool;
}.

(** What the worker has of the registry. *)
Record RegWorker : Type := mkRegWorker { redis : Redis; registered : bool }.

Definition R (A : Type) : Type :=
  RegWorker → option nat → RegWorker * option nat * outcome WorkError A.

#[export] Instance R_ret : MRet R := λ A a w b, (w, b, Ok a).
#[export] Instance R_bind : MBind R := λ A B f m w b,
  match m w b with
  | (w, b, Ok a) => f a w b
  | (w, b, Err e) => (w, b, Err e)
  | (w, b, Panic) => (w, b, Panic)
  end.

(** A request, [.or_restart()?]. *)
Definition request {A} (f : Redis → Redis * A) : R A := λ w b,
  match b with
  | Some O => (w, b, Err Restart)
  | _ => let '(r, a) := f (redis w) in (mkRegWorker r (registered w), pred <$> b, Ok a)
  end.

Definition request_zadd (key member : list Z) (score : Z) : R unit :=
  request (λ r, (zadd key member score r, tt)).

Definition set_registered : R unit := λ w b, (mkRegWorker (redis w) true, b, Ok tt).
Definition is_registered : R bool := λ w b, (w, b, Ok (registered w)).
Definition liftR {A} (o : outcome WorkError A) : R A := λ w b, (w, b, o).

Definition timestamps_index : list Z := str "tikv-timestamps-keys".

(** [dogecoin:<network>:<name>:scores]. *)
Definition scores_key (network name : list Z) : list Z :=
  str "dogecoin:" ++ network ++ [58] ++ name ++ str ":scores".

(** 58 is the colon. *)
Definition timestamp_key (dataplane instance : Z) : list Z :=
  str "tikv-timestamps:" ++ to_string dataplane ++ [58] ++ to_string instance.

Section worker.
Context (X : Ext) (cfg : StorageConfig) (instance_names : list (list Z)) (mutable : bool).

Definition timestamps_key : list Z := timestamp_key (dataplane_id cfg) (instance_id cfg).

Definition index_timestamps_key (ts_physical : Z) : R unit :=
  request_zadd timestamps_index timestamps_key ts_physical.

Fixpoint update_scores (names : list (list Z)) (height : Z) : R unit :=
  match names with
  | [] => mret tt
  | name :: names =>
      request_zadd (scores_key (to_lowercase X (config_network cfg)) name)
        [dataplane_id cfg; instance_id cfg] height;;
      update_scores names height
  end.

Definition update_registry_scores (height : Z) : R unit := update_scores instance_names height.

Definition maybe_advertise (height : Z) : R unit :=
  registered ← is_registered;
  if (registered : bool) then update_registry_scores height
  else if negb (mutable || default false (advertise_immediately cfg)) then mret tt
  else
    update_registry_scores height;;
    set_registered.

(** The entry of a commit, and the index of the instances that have entries. *)
Definition add_entry (e : RedisEntry) : R unit :=
  request_zadd timestamps_key (entry_text X e) (physical (commit_ts e));;
  index_timestamps_key (physical (commit_ts e)).

(** After the commit of a mutable block, and after a rollback ([mempool] is then
    [false]). *)
Definition record_commit (point : Point) (mempool : bool) (ts : TiKVTimestamp) : R unit :=
  add_entry (mkRedisEntry (pt_height point) (pt_hash point) mempool ts (config_network cfg));;
  maybe_advertise (pt_height point).

Fixpoint read_entries (members : list (list Z)) : outcome WorkError (list RedisEntry) :=
  match members with
  | [] => Ok []
  | m :: members =>
      match from_redis_value X (BulkString m) with
      | Ok e => es ← read_entries members; Ok (e :: es)
      | Err _ => Err Restart
      | Panic => Panic
      end
  end.

(** An entry for the cursor when there are entries and none is its; a cursor of an
    old version does not tell whether it is a block's. *)
Definition restore_missing (entries : list RedisEntry) (h : u64) (hash : Bytes 32)
    (rem_bytes : list Z) (current_ts : TiKVTimestamp) : R unit :=
  if negb (bool_decide (entries = []))
     && negb (existsb (λ e, (height e =? uint_value h) && bool_decide (block_hash e = bytes_of hash))
                entries)
  then
    match rem_bytes with
    | [] => mret tt
    | _ =>
        '(was_mempool, _) ← liftR
           (match decode rem_bytes : decoded bool with Ok x => Ok x | _ => Panic end);
        add_entry (mkRedisEntry (uint_value h) (bytes_of hash) was_mempool current_ts
                     (config_network cfg))
    end
  else mret tt.

(** The part of [bootstrap] that restores an entry whose writing was interrupted:
    [raw_cursor] is the cursor of the store, [current_ts] the time. *)
Definition restore_entry (raw_cursor : option (list Z)) (current_ts : TiKVTimestamp) : R unit :=
  match raw_cursor with
  | None => mret tt
  | Some cursor_bytes =>
      '((h, hash), rem_bytes) ← liftR
         (match decode cursor_bytes : decoded (u64 * Bytes 32) with Ok x => Ok x | _ => Panic end);
      members ← request (λ r, (r, zrange r timestamps_key));
      entries ← liftR (read_entries members);
      restore_missing entries h hash rem_bytes current_ts
  end.

End worker.

(** ** The names of instances *)

(** [Config::instance_name] of [reducers/mod.rs]. *)
Definition instance_name (c : Config) : string :=
  match c with
  | CBalancesByBrc20 | CBrc20BalancesByScriptHash | CBrc20TermsByTicker
  | CInscriptionsByScriptHash | CInscriptionsByUtxo
  | CTransferInscriptionsByScriptHash => "inscriptions"
  | CInscriptionUtxosByScriptHash => "inscription-utxos-by-script-hash"
  | CContentByInscriptionId => "content-by-inscription-id"
  | CEtchingByRuneId | CMintsByRuneId | CRuneBalancesByScriptHash | CRuneIdByRuneName
  | CRunesByUtxo | CUtxosByRuneId => "dunes"
  | CSatBalanceByScriptHash => "sat-balance-by-script-hash"
  | CScriptByScriptHash => "scripts"
  | CScriptHashByAddressPayloadHash => "scripts"
  | CTxsByScriptHash => "transactions"
  | CUtxosByScriptHash => "utxos"
  | CBalancesByRuneId => "balances-by-rune-id"
  end.

(** [Vec::dedup]. *)
Fixpoint dedup_names (l : list (list Z)) : list (list Z) :=
  match l with
  | a :: (b :: _) as l' => if decide (a = b) then dedup_names l' else a :: dedup_names l'
  | l => l
  end.

(** The names handed to the storage stage, [bin/polyphony-xdg/daemon.rs]. *)
Definition instance_names_of (reducers : list Config) : list (list Z) :=
  dedup_names (merge_sort bytes_le (map (λ c, str (instance_name c)) reducers)).

(** ** Entries read back *)

Lemma split_on_app c s t :
  Forall (λ x, x ≠ c) s → split_on c (s ++ c :: t) = s :: split_on c t.
Proof.
  intros Hs. induction Hs as [|x s Hx _ IH]; cbn [app split_on].
  - destruct (split_on_parts c t) as [_ Hne]. destruct (split_on c t); [done|]. by rewrite Z.eqb_refl.
  - rewrite IH. by destruct (Z.eqb_spec x c).
Qed.

Lemma split_join parts :
  parts ≠ [] → Forall (Forall (λ c, c ≠ 44)) parts → split_on 44 (join parts) = parts.
Proof.
  intros Hne Hp. induction Hp as [|p parts Hp Hps IH]; [done|].
  destruct parts as [|q parts]; [by apply split_on_none|].
  change (join (p :: q :: parts)) with (p ++ 44 :: join (q :: parts)).
  rewrite split_on_app by done. f_equal. by apply IH.
Qed.

Lemma to_string_no_comma n : 0 ≤ n → Forall (λ c, c ≠ 44) (to_string n).
Proof. intros Hn. apply digits_ne; [done|by apply to_string_digits]. Qed.

Lemma parse_int_to_string w n : in_range w n → parse_int w (to_string n) = Some n.
Proof. intros Hn. unfold parse_int. by rewrite parse_to_string. Qed.

Lemma parse_bool_text b : parse_bool (bool_text b) = Some b.
Proof. by destruct b. Qed.

Lemma bool_text_no_comma b : Forall (λ c, c ≠ 44) (bool_text b).
Proof. destruct b; apply (bool_decide_unpack _); by vm_compute. Qed.

Section readback.
Context (X : Ext) `{!ExtLaws X}.

(** Entries as the worker makes them; a text is valid UTF-8. *)
Record entry_ok (e : RedisEntry) : Prop := {
  eo_height : in_range 64 (height e);
  eo_hash : length (block_hash e) = 32%nat ∧ bytes_ok (block_hash e);
  eo_ts : timestamp_ok (commit_ts e);
  eo_network : Forall (λ c, c ≠ 44) (to_lowercase X (network e));
  eo_text : utf8_valid (entry_text X e) = true;
}.

Lemma parse_hash_encode b :
  length b = 32%nat → bytes_ok b → parse_hash X (hex_encode X b) = Some b.
Proof. intros Hl Hb. unfold parse_hash. rewrite hex_roundtrip by done. cbn. by rewrite Hl. Qed.

Lemma split_entry_text e :
  entry_ok e →
  split_on 44 (entry_text X e)
  = [to_string (height e); hex_encode X (block_hash e); bool_text (was_mempool e);
     to_string (version X (commit_ts e)); to_lowercase X (network e);
     to_string (height e); hex_encode X (block_hash e); to_string 0].
Proof.
  intros [Hh [_ Hb] Ht Hn _]. apply split_join; [done|].
  pose proof (version_range _ Ht) as [? _]. destruct Hh as [? _].
  repeat constructor; auto using to_string_no_comma, bool_text_no_comma, hex_no_comma.
Qed.

End readback.

(** ** Advertised instances *)

(** The registry as the query service reads it: [zrange key 0 0]. *)
Definition registry_of (n : Mapi.Network) (r : Redis) : Mapi.Registry :=
  Mapi.mkRegistry n (λ key, Some (take 1 (zrange r (str key)))).

(** The reducer that fills the table a query reads. *)
Definition filled_by (t : Mapi.ReducerType) : Config :=
  match t with
  | Mapi.TBalancesByBrc20 => CBalancesByBrc20
  | Mapi.TBrc20BalancesByScriptHash => CBrc20BalancesByScriptHash
  | Mapi.TBrc20BalancesByTicker => CBalancesByBrc20
  | Mapi.TBrc20TermsByTicker => CBrc20TermsByTicker
  | Mapi.TContentByInscriptionId => CContentByInscriptionId
  | Mapi.TInscriptionsByUtxo => CInscriptionsByUtxo
  | Mapi.TInscriptionUtxosByScriptHash => CInscriptionUtxosByScriptHash
  | Mapi.TEtchingByRuneId => CEtchingByRuneId
  | Mapi.TMintsByRuneId => CMintsByRuneId
  | Mapi.TRunesByUtxo => CRunesByUtxo
  | Mapi.TRuneBalancesByScriptHash => CRuneBalancesByScriptHash
  | Mapi.TRuneIdByRuneName => CRuneIdByRuneName
  | Mapi.TSatBalanceByScriptHash => CSatBalanceByScriptHash
  | Mapi.TScriptByScriptHash => CScriptByScriptHash
  | Mapi.TScriptHashByAddressPayloadHash => CScriptHashByAddressPayloadHash
  | Mapi.TTransferInscriptionsByAddress => CTransferInscriptionsByScriptHash
  | Mapi.TTxsByScriptHash => CTxsByScriptHash
  | Mapi.TUtxosByRuneId => CUtxosByRuneId
  | Mapi.TUtxosByScriptHash => CUtxosByScriptHash
  | Mapi.TBalancesByRuneId => CBalancesByRuneId
  end.

(** The two services name the instances alike. *)
Lemma names_agree t :
  Mapi.InstanceType_display (Mapi.get_instance_for_reducer t) = instance_name (filled_by t).
Proof. by destruct t. Qed.

Lemma str_app s t : str (s +:+ t) = str s ++ str t.
Proof.
  induction s as [|a s IH]; [done|]. unfold str in *. cbn [String.list_ascii_of_string map app].
  by rewrite <- IH.
Qed.

Lemma str_registry_key n t :
  str (Mapi.registry_key n (Mapi.get_instance_for_reducer t))
  = scores_key (str (Mapi.Network_display n)) (str (instance_name (filled_by t))).
Proof.
  unfold Mapi.registry_key, scores_key. rewrite !str_app, names_agree. done.
Qed.

Lemma elem_of_dedup_names l x : x ∈ dedup_names l ↔ x ∈ l.
Proof.
  induction l as [|a l IH]; [done|]. destruct l as [|b l]; [done|]. cbn [dedup_names] in *.
  case_decide as E; [subst|]; set_solver.
Qed.

Lemma elem_of_instance_names c reducers :
  c ∈ reducers → str (instance_name c) ∈ instance_names_of reducers.
Proof.
  intros Hc. unfold instance_names_of. rewrite elem_of_dedup_names, (merge_sort_Permutation bytes_le).
  apply list_elem_of_fmap. by exists c.
Qed.

#[export] Instance member_le_trans : Transitive member_le.
Proof.
  intros a b c [Hab|[Hab Lab]] [Hbc|[Hbc Lbc]]; unfold member_le; [lia..|].
  right. split; [lia|]. by transitivity b.1.
Qed.
#[export] Instance member_le_total : Total member_le.
Proof.
  intros a b. unfold member_le. destruct (Z.lt_trichotomy a.2 b.2) as [?|[?|?]]; auto.
  destruct (total bytes_le a.1 b.1); auto.
Qed.

Lemma zset_zadd key m score r key' :
  zset (zadd key m score r) key'
  = if decide (key = key') then <[m := score]> (zset r key) else zset r key'.
Proof.
  unfold zset, zadd, put_zset. cbn [zsets]. case_decide as E; [subst; by rewrite lookup_insert_eq|].
  by rewrite lookup_insert_ne.
Qed.

Lemma request_zadd_ok key m score w b w' b' :
  request_zadd key m score w b = (w', b', Ok tt) →
  w' = mkRegWorker (zadd key m score (redis w)) (registered w).
Proof. unfold request_zadd, request. by destruct b as [[|b]|]; intros [= <- <-]. Qed.

(** Every set of [names] has the instance's member with the score [h]; the other
    members are those from before. *)
Lemma update_scores_spec X cfg names h w b w' b' :
  update_scores X cfg names h w b = (w', b', Ok tt) →
  registered w' = registered w
  ∧ (∀ name, name ∈ names →
       zset (redis w') (scores_key (to_lowercase X (config_network cfg)) name)
         !! [dataplane_id cfg; instance_id cfg] = Some h)
  ∧ ∀ key m, zset (redis w') key !! m = zset (redis w) key !! m
       ∨ (m = [dataplane_id cfg; instance_id cfg] ∧ zset (redis w') key !! m = Some h).
Proof.
  induction names as [|name names IH] in w, b |- *; cbn [update_scores].
  { intros [= <- <-]. split_and!; [done|set_solver|auto]. }
  unfold mbind, R_bind at 1. destruct (request_zadd _ _ _ _ _) as [[w1 b1] [[]| |]] eqn:E; [|done..].
  intros H. apply request_zadd_ok in E as ->. apply IH in H as (Hr & Hn & Hm). cbn [redis registered] in *.
  split_and!; [done| |].
  - intros name' [->|Hin]%elem_of_cons; [|by apply Hn].
    destruct (Hm (scores_key (to_lowercase X (config_network cfg)) name)
                [dataplane_id cfg; instance_id cfg]) as [->|[_ ?]]; [|done].
    by rewrite zset_zadd, decide_True, lookup_insert_eq.
  - intros key m. destruct (Hm key m) as [E|]; [|by right]. rewrite E, zset_zadd.
    case_decide; [|by left]. subst key.
    destruct (decide (m = [dataplane_id cfg; instance_id cfg])) as [->|Hne].
    + right. by rewrite lookup_insert_eq.
    + left. by rewrite lookup_insert_ne.
Qed.

(** An instance that advertises has its scores updated, and is registered then. *)
Lemma maybe_advertise_spec X cfg names mutable h w b w' b' :
  maybe_advertise X cfg names mutable h w b = (w', b', Ok tt) →
  if mutable || default false (advertise_immediately cfg) || registered w
  then registered w' = true
       ∧ ∃ w1 b1, update_scores X cfg names h w b = (w1, b1, Ok tt) ∧ redis w' = redis w1
  else w' = w.
Proof.
  unfold maybe_advertise, update_registry_scores. unfold mbind, R_bind, is_registered.
  destruct (registered w) eqn:Er.
  - rewrite orb_true_r. intros H. split; [|eauto]. apply update_scores_spec in H as [-> _]. done.
  - rewrite orb_false_r. destruct (mutable || _); cbn [negb]; [|by intros [= <- <-]].
    destruct (update_scores _ _ _ _ _ _) as [[w1 b1] [[]| |]] eqn:E; [|done..].
    intros [= <- <-]. eauto 10.
Qed.

Lemma elem_of_zrange r key m : m ∈ zrange r key ↔ is_Some (zset r key !! m).
Proof.
  unfold zrange. rewrite list_elem_of_fmap. split.
  - intros ([m' s] & -> & H). rewrite (merge_sort_Permutation member_le) in H.
    apply elem_of_map_to_list in H. by exists s.
  - intros [s H]. exists (m, s). split; [done|]. rewrite (merge_sort_Permutation member_le).
    by apply elem_of_map_to_list.
Qed.

(** The first member of a set has the least score. *)
Lemma zrange_first r key m s :
  zset r key !! m = Some s →
  ∃ m' s', take 1 (zrange r key) = [m'] ∧ zset r key !! m' = Some s'
    ∧ ∀ m'' s'', zset r key !! m'' = Some s'' → s' ≤ s''.
Proof.
  intros Hm. unfold zrange. set (l := map_to_list (zset r key)).
  assert (Hin : (m, s) ∈ l) by by apply elem_of_map_to_list.
  destruct (head (merge_sort member_le l)) as [[m' s']|] eqn:E.
  - exists m', s'. pose proof E as E0.
    apply head_merge_sort in E as [Hin' Hle]; [|apply _..]. split_and!.
    + destruct (merge_sort member_le l); [done|]. by injection E0 as ->.
    + by apply elem_of_map_to_list.
    + intros m'' s'' Hs%elem_of_map_to_list. destruct (Hle _ Hs) as [?|[? _]]; cbn in *; lia.
  - exfalso. apply (merge_sort_nonempty member_le l); [intros El; rewrite El in Hin; by apply not_elem_of_nil in Hin|]. by destruct (merge_sort _ _).
Qed.

(** The members that instances write: the two bytes of their key prefix. *)
Definition members_ok (r : Redis) (key : list Z) : Prop :=
  ∀ m, is_Some (zset r key !! m) → length m = 2%nat.

(** C34: once an instance of [polyphony-xdg] has advertised its height, the tables that
    its reducers fill can be queried: for each of them [resolve_key] gives the key prefix
    of a registered instance with the least advertised height.  That is this instance
    when every other registered one has a greater height, and another one when any other
    has a lower height: an instance that comes to the tip does not take over from one
    that is registered with a lower height.  The sets stay readable.  An instance that
    neither serves the mutable part of the chain, nor is told to advertise at once, nor
    is registered changes nothing in the registry. *)
Theorem advertised_tables_resolve X cfg reducers mutable h net t w b w' b' :
  maybe_advertise X cfg (instance_names_of reducers) mutable h w b = (w', b', Ok tt) →
  to_lowercase X (config_network cfg) = str (Mapi.Network_display net) →
  filled_by t ∈ reducers →
  members_ok (redis w) (str (Mapi.registry_key net (Mapi.get_instance_for_reducer t))) →
  let key := str (Mapi.registry_key net (Mapi.get_instance_for_reducer t)) in
  let self := [dataplane_id cfg; instance_id cfg] in
  if mutable || default false (advertise_immediately cfg) || registered w
  then registered w' = true
       ∧ zset (redis w') key !! self = Some h
       ∧ members_ok (redis w') key
       ∧ ∃ dp inst s, Mapi.resolve_key (registry_of net (redis w')) t = Ok (dp, inst)
           ∧ zset (redis w') key !! [dp; inst] = Some s
           ∧ (∀ m s', zset (redis w') key !! m = Some s' → s ≤ s')
           ∧ ((∀ m s', zset (redis w') key !! m = Some s' → m = self ∨ h < s') → [dp; inst] = self)
           ∧ ((∃ m s', zset (redis w') key !! m = Some s' ∧ s' < h) → [dp; inst] ≠ self)
  else w' = w.
Proof.
  intros H%maybe_advertise_spec Hnet Ht Hok key self. destruct (_ || _ || _); [|done].
  destruct H as (Hreg & w1 & b1 & H & ->). split; [done|].
  apply update_scores_spec in H as (_ & Hn & Hm).
  pose proof (Hn _ (elem_of_instance_names _ _ Ht)) as Hself. rewrite Hnet, <- str_registry_key in Hself.
  fold key self in Hself. fold key in Hok.
  assert (Hok' : members_ok (redis w1) key).
  { intros m [s Hs]. destruct (Hm key m) as [E|[-> _]]; [|done]. apply Hok. rewrite <- E. by exists s. }
  split_and!; [done..|]. destruct (zrange_first _ _ _ _ Hself) as (m & s & E & Es & Hle).
  pose proof (Hok' m (ex_intro _ s Es)) as Hl. destruct m as [|dp [|inst [|]]]; [done..| |done].
  pose proof (Hle _ _ Hself) as Hh. exists dp, inst, s. split_and!; [|done|done| |].
  - unfold Mapi.resolve_key, registry_of. cbn [Mapi.zrange_first Mapi.network]. fold key. by rewrite E.
  - intros Hall. destruct (Hall _ _ Es); [done|lia].
  - intros (m & s' & Hs' & Hlt) Eself. apply Hle in Hs'. rewrite Eself in Es. simplify_eq. lia.
Qed.

(** ** A run *)

Definition plain_ext : Ext := mkExt id Some id (λ _, 0) (λ _, mkTimestamp 0 0 0).
Definition plain_cfg : StorageConfig := mkStorageConfig 1 2 (str "mainnet") None.
Definition lagging : Redis := zadd (scores_key (str "mainnet") (str "dunes")) [7; 9] 90 (mkRedis ∅ ∅).
Definition advertising : RegWorker := mkRegWorker lagging false.
Definition advertised : RegWorker :=
  (maybe_advertise plain_ext plain_cfg (instance_names_of [CRunesByUtxo; CEtchingByRuneId; CUtxosByScriptHash])
     true 100 advertising None).1.1.

Definition dunes_scores : list Z :=
  str (Mapi.registry_key Mapi.Mainnet (Mapi.get_instance_for_reducer Mapi.TRunesByUtxo)).

Example lagging_preferred :
  Mapi.resolve_key (registry_of Mapi.Mainnet (redis advertised)) Mapi.TRunesByUtxo = Ok (7, 9).
Proof. by vm_compute. Qed.

(** Instance [7; 9], which is behind, is preferred to the one that comes to the tip. *)
Lemma advertised_tables_resolve_witness :
  ∃ dp inst s,
    Mapi.resolve_key (registry_of Mapi.Mainnet (redis advertised)) Mapi.TRunesByUtxo = Ok (dp, inst)
    ∧ zset (redis advertised) dunes_scores !! [dp; inst] = Some s
    ∧ (∀ m s', zset (redis advertised) dunes_scores !! m = Some s' → s ≤ s')
    ∧ ((∀ m s', zset (redis advertised) dunes_scores !! m = Some s' → m = [1; 2] ∨ 100 < s') → [dp; inst] = [1; 2])
    ∧ ((∃ m s', zset (redis advertised) dunes_scores !! m = Some s' ∧ s' < 100) → [dp; inst] ≠ [1; 2]).
Proof.
  refine (proj2 (proj2 (proj2 (advertised_tables_resolve plain_ext plain_cfg
    [CRunesByUtxo; CEtchingByRuneId; CUtxosByScriptHash] true 100 Mapi.Mainnet Mapi.TRunesByUtxo
    advertising None advertised None _ _ _ _)))).
  - by vm_compute.
  - by vm_compute.
  - set_solver.
  - intros m. rewrite str_registry_key. unfold advertising, lagging. cbn [redis].
    rewrite zset_zadd, decide_True by done. intros [s [[<- _]|[_ Hs]]%lookup_insert_Some]; [done|].
    unfold zset in Hs. cbn [zsets] in Hs. by rewrite lookup_empty in Hs.
Defined.

End Registry.
