(* ===== verification/TikvGc.v ===== *)
(** The collector of old versions, [src/services/tikv-gc/src]: the safepoint it
    asks TiKV to move to, from the entries the instances of polyphony leave in
    Redis ([entry.rs], [invariants/earliest_chaintip.rs], [worker.rs],
    [types.rs]).

    A failed request and a malformed entry are panics.  [HashMap]s are [gmap]s; the
    order in which one is listed is the argument [iter].  What is only logged (the
    age of the earliest tip, the number of entries deleted) is left out. *)

From S2P Require Import Prelude Decimal Brc20 Timbre Crosscut Registry.
Import Decimal Brc20 Timbre Crosscut Registry.

Module TikvGc.

(** ** types.rs *)

(** [Timestamp]: ordered by the milliseconds, then by the counter. *)
Definition ts_le (a b : TiKVTimestamp) : Prop :=
  physical a < physical b ∨ (physical a = physical b ∧ logical a ≤ logical b).
#[export] Instance ts_le_dec a b : Decision (ts_le a b).
Proof. unfold ts_le. apply _. Defined.

Inductive Invariant : Type := EarliestChaintip | SafeZone.

(** ** entry.rs *)

Record RedisKey : Type := mkRedisKey { dataplane : Z; instance : Z }.

#[export] Instance RedisKey_eq_dec : EqDecision RedisKey.
Proof. solve_decision. Defined.
#[export] Instance RedisKey_countable : Countable RedisKey.
Proof.
  apply (inj_countable' (λ k, (dataplane k, instance k)) (λ p, mkRedisKey p.1 p.2)). by intros [].
Defined.

(** The first five fields are those of the entry that polyphony keeps. *)
Record GcEntry : Type := mkGcEntry {
  entry : RedisEntry;
  chain_tip_height : Z;
  chain_tip_hash : list Z;
  mempool_view_ts : Z;
}.

Section gc.
Context (X : Ext).

Definition parse_gc_entry (s : list Z) : outcome string GcEntry :=
  let parts := split_on 44 s in
  e ← parse_entry X s;
  Ok (mkGcEntry e
        (default 0 (parts !! 5%nat ≫= parse_int 64))
        (default (replicate 32 0) (parts !! 6%nat ≫= parse_hash X))
        (default 0 (parts !! 7%nat ≫= parse_int 64))).

Definition gc_from_redis_value : RedisValue → outcome string GcEntry := of_redis_value parse_gc_entry.

Definition gc_entry_text (e : GcEntry) : list Z :=
  join [to_string (height (entry e)); hex_encode X (block_hash (entry e));
        bool_text (was_mempool (entry e)); to_string (version X (commit_ts (entry e)));
        to_lowercase X (network (entry e)); to_string (chain_tip_height e);
        hex_encode X (chain_tip_hash e); to_string (mempool_view_ts e)].

(** ** worker.rs: fetch_entry_map *)

Abbreviation EntryMap := (gmap RedisKey (list GcEntry)).

Definition expect_ok {A} (o : outcome string A) : outcome unit A :=
  match o with Ok a => Ok a | _ => Panic end.

Definition read_gc_entries (members : list (list Z)) : outcome unit (list GcEntry) :=
  foldM (λ es m, e ← expect_ok (gc_from_redis_value (BulkString m)); Ok (es ++ [e])) [] members.

(** 58 is the colon. *)
Definition parse_key (key : list Z) : outcome unit RedisKey :=
  let parts := split_on 58 key in
  dataplane ← unwrap (parts !! 1%nat ≫= parse_int 8);
  instance ← unwrap (parts !! 2%nat ≫= parse_int 16);
  Ok (mkRedisKey dataplane instance).

Definition fetch_entry_map (r : Redis) : outcome unit EntryMap :=
  foldM (λ m key,
    if utf8_valid key then
      k ← parse_key key;
      block_options ← read_gc_entries (zrange r key);
      Ok (match block_options with [] => m | _ => <[k := block_options]> m end)
    else Panic) ∅ (zrange r timestamps_index).

(** ** invariants/earliest_chaintip.rs *)

Definition tip_le (a b : GcEntry) : Prop :=
  height (entry a) < height (entry b)
  ∨ (height (entry a) = height (entry b) ∧ ts_le (commit_ts (entry a)) (commit_ts (entry b))).
#[export] Instance tip_le_dec a b : Decision (tip_le a b).
Proof. unfold tip_le. apply _. Defined.

(** The highest entry of a block, the most recent one of its height. *)
Definition instance_chaintip (block_options : list GcEntry) : outcome unit GcEntry :=
  unwrap (last (merge_sort tip_le (filter (λ e, was_mempool (entry e) = false) block_options))).

Definition get_instance_chaintips (m : EntryMap) : outcome unit (gmap RedisKey GcEntry) :=
  foldM (λ tips '(k, block_options),
    tip ← instance_chaintip block_options;
    Ok (<[k := tip]> tips)) ∅ (map_to_list m).

Context (iter : gmap RedisKey GcEntry → list (RedisKey * GcEntry)).

Definition entry_ts_le (a b : RedisKey * GcEntry) : Prop :=
  ts_le (commit_ts (entry a.2)) (commit_ts (entry b.2)).
#[export] Instance entry_ts_le_dec a b : Decision (entry_ts_le a b).
Proof. unfold entry_ts_le. apply _. Defined.

Definition get_earliest_chaintip_ts (m : EntryMap) : outcome unit TiKVTimestamp :=
  tips ← get_instance_chaintips m;
  '(_, earliest) ← unwrap (head (merge_sort entry_ts_le (iter tips)));
  Ok (commit_ts (entry earliest)).

(** ** worker.rs: get_new_safepoint *)

(** [i64::saturating_sub] and the wrapping subtraction. *)
Definition i64_saturating_sub (a b : Z) : Z := Z.max (- 2 ^ 63) (Z.min (a - b) (2 ^ 63 - 1)).
Definition i64_wrap (x : Z) : Z := (x + 2 ^ 63) mod 2 ^ 64 - 2 ^ 63.

Definition candidate_le (a b : Invariant * TiKVTimestamp) : Prop := ts_le a.2 b.2.
#[export] Instance candidate_le_dec a b : Decision (candidate_le a b).
Proof. unfold candidate_le. apply _. Defined.

Definition prune (upper : Z) (r : Redis) (k : RedisKey) : Redis :=
  zrembyscore (timestamp_key (dataplane k) (instance k)) upper r.

Definition put_text (key value : list Z) (r : Redis) : Redis :=
  mkRedis (zsets r) (<[key := value]> (texts r)).

Definition get_new_safepoint (safe_zone_millis current_ts : Z) (r : Redis)
  : outcome unit (Redis * TiKVTimestamp) :=
  entry_map ← fetch_entry_map r;
  earliest_chaintip_ts ← get_earliest_chaintip_ts entry_map;
  let safe_zone_ts := mkTimestamp (i64_saturating_sub current_ts safe_zone_millis) 0 0 in
  '(_, new_safepoint) ← unwrap (head (merge_sort candidate_le
     [(EarliestChaintip, earliest_chaintip_ts); (SafeZone, safe_zone_ts)]));
  let r := put_text (str "tikv-gc-safepoint") (to_string (version X new_safepoint)) r in
  let upper := i64_wrap (physical new_safepoint - 1) in
  Ok (foldl (prune upper) r (map fst (map_to_list entry_map)), new_safepoint).

End gc.

(** ** Keys and members *)

Lemma utf8_valid_ascii s : Forall (λ c, 0 ≤ c < 128) s → utf8_valid s = true.
Proof.
  induction 1 as [|c s Hc _ IH]; [done|]. cbn [utf8_valid].
  destruct (Z.ltb_spec c 128); [done|lia].
Qed.

Definition key_ok (k : RedisKey) : Prop := in_range 8 (dataplane k) ∧ in_range 16 (instance k).

Definition key_of (k : RedisKey) : list Z := timestamp_key (dataplane k) (instance k).

Lemma to_string_ascii n : 0 ≤ n → Forall (λ c, 0 ≤ c < 128) (to_string n).
Proof.
  intros Hn. eapply Forall_impl; [by apply to_string_digits|]. intros c Hc. unfold is_digit in Hc. lia.
Qed.

Lemma key_of_utf8 k : key_ok k → utf8_valid (key_of k) = true.
Proof.
  intros [[? _] [? _]]. apply utf8_valid_ascii. unfold key_of, timestamp_key.
  repeat (apply Forall_app; split); auto using to_string_ascii; apply (bool_decide_unpack _); by vm_compute.
Qed.

Lemma key_parts k : key_ok k →
  split_on 58 (key_of k) = [str "tikv-timestamps"; to_string (dataplane k); to_string (instance k)].
Proof.
  intros [[? _] [? _]]. unfold key_of, timestamp_key.
  change (str "tikv-timestamps:") with (str "tikv-timestamps" ++ [58]). rewrite <- app_assoc.
  cbn [app]. rewrite split_on_app by (apply (bool_decide_unpack _); by vm_compute).
  rewrite split_on_app by (apply digits_ne; [done|by apply to_string_digits]).
  by rewrite split_on_none by (apply digits_ne; [done|by apply to_string_digits]).
Qed.

Lemma parse_key_of k : key_ok k → parse_key (key_of k) = Ok k.
Proof.
  intros Hk. unfold parse_key. rewrite key_parts by done. destruct Hk as [Hd Hi].
  cbn [lookup list_lookup mbind option_bind]. rewrite !parse_int_to_string by done. by destruct k.
Qed.

Lemma key_of_inj k k' : key_ok k → key_ok k' → key_of k = key_of k' → k = k'.
Proof.
  intros Hk Hk' E. pose proof (parse_key_of k Hk) as H. rewrite E, parse_key_of in H by done. by injection H.
Qed.

Lemma key_of_not_index k : key_of k ≠ timestamps_index.
Proof. intros E%(f_equal (lookup 15%nat)). by vm_compute in E. Qed.

(** ** Orders *)

#[export] Instance ts_le_trans : Transitive ts_le.
Proof. intros a b c. unfold ts_le. lia. Qed.
#[export] Instance ts_le_total : Total ts_le.
Proof. intros a b. unfold ts_le. lia. Qed.
#[export] Instance tip_le_trans : Transitive tip_le.
Proof. intros a b c. unfold tip_le, ts_le. lia. Qed.
#[export] Instance tip_le_total : Total tip_le.
Proof. intros a b. unfold tip_le, ts_le. lia. Qed.
#[export] Instance entry_ts_le_trans : Transitive entry_ts_le.
Proof. intros a b c. apply ts_le_trans. Qed.
#[export] Instance entry_ts_le_total : Total entry_ts_le.
Proof. intros a b. apply ts_le_total. Qed.
#[export] Instance candidate_le_trans : Transitive candidate_le.
Proof. intros a b c. apply ts_le_trans. Qed.
#[export] Instance candidate_le_total : Total candidate_le.
Proof. intros a b. apply ts_le_total. Qed.

(** ** Tips *)

Lemma instance_chaintip_ok es :
  (∃ e, e ∈ es ∧ was_mempool (entry e) = false) →
  ∃ t, instance_chaintip es = Ok t ∧ (t ∈ es ∧ was_mempool (entry t) = false)
    ∧ ∀ e, e ∈ es → was_mempool (entry e) = false → tip_le e t.
Proof.
  intros (e & He & Hm). unfold instance_chaintip.
  set (l := filter (λ e, was_mempool (entry e) = false) es).
  assert (e ∈ l) as Hel by (by apply list_elem_of_filter).
  destruct (last (merge_sort tip_le l)) as [t|] eqn:E.
  - apply last_merge_sort in E as [[? ?]%list_elem_of_filter Ht]; [|apply _..].
    exists t. split; [done|]. split; [done|]. intros e' ? ?. apply Ht. by apply list_elem_of_filter.
  - apply last_None in E. by apply merge_sort_nonempty in E; [|intros El; rewrite El in Hel; set_solver].
Qed.

Lemma get_instance_chaintips_ok (m : gmap RedisKey (list GcEntry)) :
  (∀ k es, m !! k = Some es → ∃ t, instance_chaintip es = Ok t) →
  ∃ tips, get_instance_chaintips m = Ok tips
    ∧ ∀ k t, tips !! k = Some t ↔ ∃ es, m !! k = Some es ∧ instance_chaintip es = Ok t.
Proof.
  intros H. unfold get_instance_chaintips.
  assert (∀ l, NoDup l.*1 → (∀ k es, (k, es) ∈ l → ∃ t, instance_chaintip es = Ok t) →
    ∃ tips, foldM (λ tips '(k, block_options), tip ← instance_chaintip block_options; Ok (<[k := tip]> tips))
              (∅ : gmap RedisKey GcEntry) l = Ok tips
    ∧ ∀ k t, tips !! k = Some t ↔ ∃ es, (k, es) ∈ l ∧ instance_chaintip es = Ok t) as Hl.
  { clear. intros l. induction l as [|[k es] l IH] using rev_ind; intros Hnd Hl.
    { exists ∅. split; [done|]. intros k t. rewrite lookup_empty. split; [done|].
      by intros (es & ?%elem_of_nil & _). }
    rewrite fmap_app in Hnd. apply NoDup_app in Hnd as (Hnd & Hni & _).
    destruct IH as (tips & E & Ht); [done|intros k' es' ?; apply (Hl k'); set_solver|].
    destruct (Hl k es ltac:(set_solver)) as [t0 Et]. rewrite foldM_app, E. cbn [mbind outcome_bind foldM].
    rewrite Et. cbn [mbind outcome_bind]. eexists. split; [done|]. intros k' t. rewrite lookup_insert_Some, Ht.
    split.
    - intros [[<- <-]|[Hne (es' & ? & ?)]]; [exists es|exists es']; set_solver.
    - intros (es' & [Hin|[= <- <-]%list_elem_of_singleton]%elem_of_app & He').
      + right. split; [|by exists es']. intros <-. eapply Hni; [|by left].
        apply list_elem_of_fmap. by exists (k, es').
      + left. rewrite Et in He'. by injection He' as <-. }
  destruct (Hl (map_to_list m)) as (tips & E & Ht).
  - apply NoDup_fst_map_to_list.
  - intros k es ?%elem_of_map_to_list. by eapply H.
  - exists tips. split; [done|]. intros k t. rewrite Ht. by setoid_rewrite elem_of_map_to_list.
Qed.

(** ** What the collector reads *)

Section collector.
Context (X : Ext).

Definition has_entry (r : Redis) (k : RedisKey) (e : GcEntry) : Prop :=
  ∃ m, is_Some (zset r (key_of k) !! m) ∧ gc_from_redis_value X (BulkString m) = Ok e.

Definition indexed (r : Redis) (k : RedisKey) : Prop :=
  key_ok k ∧ is_Some (zset r timestamps_index !! key_of k).

(** What the instances of polyphony leave: keys of instances, entries with their
    commit as score, an entry of a block wherever there are entries. *)
Record registry_wf (r : Redis) : Prop := {
  ro_keys : ∀ key, is_Some (zset r timestamps_index !! key) → ∃ k, key_ok k ∧ key = key_of k;
  ro_members : ∀ k m score, key_ok k → zset r (key_of k) !! m = Some score →
    ∃ e, gc_from_redis_value X (BulkString m) = Ok e ∧ score = physical (commit_ts (entry e))
      ∧ 0 ≤ score;
  ro_tips : ∀ k, key_ok k → zset r (key_of k) ≠ ∅ →
    ∃ e, has_entry r k e ∧ was_mempool (entry e) = false;
}.

(** And some instance with entries. *)
Definition registry_ok (r : Redis) : Prop :=
  registry_wf r ∧ ∃ k, indexed r k ∧ zset r (key_of k) ≠ ∅.

(** The tip of an instance: the highest block with an entry, and of its entries
    the most recent one. *)
Definition is_tip (r : Redis) (k : RedisKey) (e : GcEntry) : Prop :=
  has_entry r k e ∧ was_mempool (entry e) = false
  ∧ ∀ e', has_entry r k e' → was_mempool (entry e') = false → tip_le e' e.

Lemma read_gc_entries_ok members :
  (∀ m, m ∈ members → ∃ e, gc_from_redis_value X (BulkString m) = Ok e) →
  ∃ es, read_gc_entries X members = Ok es ∧ length es = length members
    ∧ ∀ e, e ∈ es ↔ ∃ m, m ∈ members ∧ gc_from_redis_value X (BulkString m) = Ok e.
Proof.
  unfold read_gc_entries. induction members as [|m members IH] using rev_ind; intros H.
  { exists []. split; [done|]. split; [done|]. intros e. split; [by intros ?%elem_of_nil|].
    by intros (m & ?%elem_of_nil & _). }
  destruct IH as (es & E & El & Hes). { intros m' Hm'. apply H. set_solver. }
  destruct (H m ltac:(set_solver)) as [e He]. rewrite foldM_app, E. cbn [mbind outcome_bind foldM].
  rewrite He. cbn [expect_ok mbind outcome_bind]. exists (es ++ [e]). split; [done|].
  rewrite !length_app, El. split; [done|]. intros e'. rewrite elem_of_app, Hes. split.
  - intros [(m' & Hm' & He')|E'%list_elem_of_singleton]; [exists m'|subst e'; exists m]; set_solver.
  - intros (m' & [Hm'|E'%list_elem_of_singleton]%elem_of_app & He').
    + left. eauto.
    + right. subst m'. rewrite He in He'. injection He' as <-. set_solver.
Qed.

(** The entries of one instance. *)
Lemma read_instance r k :
  registry_wf r → indexed r k →
  ∃ es, read_gc_entries X (zrange r (key_of k)) = Ok es ∧ (es = [] ↔ zset r (key_of k) = ∅)
    ∧ ∀ e, e ∈ es ↔ has_entry r k e.
Proof.
  intros Hr Hk. destruct (read_gc_entries_ok (zrange r (key_of k))) as (es & E & El & Hes).
  { intros m [score Hm]%elem_of_zrange. destruct (ro_members r Hr k m score (proj1 Hk) Hm) as (e & He & _). by exists e. }
  exists es. split; [done|]. split.
  - rewrite <- !length_zero_iff_nil, El. unfold zrange. rewrite length_map.
    rewrite (Permutation_length (merge_sort_Permutation member_le _)), length_zero_iff_nil.
    by rewrite map_to_list_empty_iff.
  - intros e. rewrite Hes. unfold has_entry. by setoid_rewrite elem_of_zrange.
Qed.

Definition entries_fetched (r : Redis) (keys : list (list Z)) (m : gmap RedisKey (list GcEntry)) : Prop :=
  (∀ k es, m !! k = Some es → indexed r k ∧ es ≠ [] ∧ ∀ e, e ∈ es ↔ has_entry r k e)
  ∧ ∀ k, indexed r k → key_of k ∈ keys → zset r (key_of k) ≠ ∅ → is_Some (m !! k).

Lemma fetch_entry_map_ok r :
  registry_wf r → ∃ m, fetch_entry_map X r = Ok m ∧ entries_fetched r (zrange r timestamps_index) m.
Proof.
  intros Hr. unfold fetch_entry_map.
  assert (∀ key, key ∈ zrange r timestamps_index → is_Some (zset r timestamps_index !! key)) as Hin
    by (intros key; apply elem_of_zrange). revert Hin.
  induction (zrange r timestamps_index) as [|key keys IH] using rev_ind; intros Hin.
  { exists ∅. split; [done|]. split; [intros k es; by rewrite lookup_empty|]. by intros k _ ?%elem_of_nil. }
  destruct IH as (m & E & Hm1 & Hm2). { intros key' ?. apply Hin. set_solver. }
  pose proof (Hin key ltac:(set_solver)) as Hkey. destruct (ro_keys r Hr key Hkey) as (k & Hk & ->).
  assert (indexed r k) as Hik by done.
  destruct (read_instance r k Hr Hik) as (es & Ees & Hemp & Hes).
  rewrite foldM_app, E. cbn [mbind outcome_bind foldM].
  rewrite key_of_utf8, parse_key_of by done. cbn [mbind outcome_bind]. rewrite Ees. cbn [mbind outcome_bind].
  eexists. split; [done|]. split.
  - intros k' es'. destruct es as [|e0 es0]; [apply Hm1|].
    intros [[<- <-]|[_ ?]]%lookup_insert_Some; [done|by apply Hm1].
  - intros k' Hk' [Hin'|E'%list_elem_of_singleton]%elem_of_app Hne.
    + destruct es; [by apply Hm2|]. apply lookup_insert_is_Some. destruct (decide (k = k')); [by left|].
      right. split; [done|by apply Hm2].
    + apply key_of_inj in E' as ->; [|apply Hk'|done]. destruct es; [by destruct Hne; apply Hemp|].
      rewrite lookup_insert_eq. by eexists.
Qed.

(** ** What the collector leaves *)

Lemma zset_put key z r key' :
  zset (put_zset key z r) key' = if decide (key = key') then z else zset r key'.
Proof.
  unfold zset, put_zset. cbn [zsets]. case_decide as E; [subst; by rewrite lookup_insert_eq|].
  by rewrite lookup_insert_ne.
Qed.

Lemma zset_prune_all upper ks r key :
  zset (foldl (prune upper) r ks) key
  = if decide (key ∈ map key_of ks) then filter (λ kv, upper < kv.2) (zset r key) else zset r key.
Proof.
  revert r. induction ks as [|k ks IH]; intros r; cbn [foldl map]; [done|]. rewrite IH.
  unfold prune at 1 2, zrembyscore. rewrite zset_put. fold (key_of k).
  destruct (decide (key_of k = key)) as [->|Hne],
    (decide (key ∈ map key_of ks)) as [Hin|Hni], (decide (key ∈ _ :: map key_of ks)) as [Hin'|Hni'];
    try done; try set_solver.
  rewrite map_filter_filter. apply map_filter_ext. naive_solver.
Qed.

Lemma has_entry_nonempty r k e : has_entry r k e → zset r (key_of k) ≠ ∅.
Proof. intros (m & [? Hm] & _) E. by rewrite E, lookup_empty in Hm. Qed.

(** Every instance that has entries has one of a block. *)
Lemma fetched_has_block r keys m k es :
  registry_wf r → entries_fetched r keys m → m !! k = Some es →
  ∃ e, e ∈ es ∧ was_mempool (entry e) = false.
Proof.
  intros Hr [Hm _] Hk. destruct (Hm k es Hk) as (Hik & Hne & Hes).
  destruct es as [|e0 es0] eqn:E; [done|].
  destruct (ro_tips r Hr k (proj1 Hik)) as (e & He & Hw).
  - apply (has_entry_nonempty r k e0), Hes. by left.
  - exists e. split; [by apply Hes|done].
Qed.

Context (iter : gmap RedisKey GcEntry → list (RedisKey * GcEntry)).
Hypothesis iter_perm : ∀ m, iter m ≡ₚ map_to_list m.

Lemma earliest_ok r m keys :
  registry_ok r → entries_fetched r keys m →
  (∀ key, is_Some (zset r timestamps_index !! key) → key ∈ keys) →
  ∃ ts, get_earliest_chaintip_ts iter m = Ok ts
    ∧ (∃ k e, indexed r k ∧ has_entry r k e ∧ ts = commit_ts (entry e))
    ∧ ∀ k e, indexed r k → is_tip r k e → ts_le ts (commit_ts (entry e)).
Proof.
  intros [Hr Hsome] Hm Hkeys. pose proof (λ k es, fetched_has_block r keys m k es Hr Hm) as Hnm. destruct Hm as [Hm1 Hm2].
  destruct (get_instance_chaintips_ok m) as (tips & E & Ht).
  { intros k es Hk. destruct (instance_chaintip_ok es (Hnm k es Hk)) as (t & ? & _). by exists t. }
  destruct Hsome as (k0 & Hk0 & Hne0).
  destruct (Hm2 k0 Hk0 (Hkeys _ (proj2 Hk0)) Hne0) as [es0 Hes0].
  destruct (instance_chaintip_ok es0 (Hnm k0 es0 Hes0)) as (t0 & Et0 & _).
  assert (∀ k t, (k, t) ∈ iter tips ↔ tips !! k = Some t) as Hit.
  { intros k t. rewrite iter_perm. apply elem_of_map_to_list. }
  unfold get_earliest_chaintip_ts. rewrite E. cbn [mbind outcome_bind].
  destruct (head (merge_sort entry_ts_le (iter tips))) as [[ke te]|] eqn:Eh.
  - apply head_merge_sort in Eh as [Hin Hle]; [|apply _..]. exists (commit_ts (entry te)). split; [done|].
    apply Hit, Ht in Hin as (es & Hes & Hte). destruct (Hm1 ke es Hes) as (Hik & _ & Hmem). split.
    + exists ke, te. split; [done|]. split; [|done].
      destruct (instance_chaintip_ok es (Hnm ke es Hes)) as (t & Et & [Htin _] & _).
      rewrite Hte in Et. injection Et as <-. by apply Hmem.
    + intros k e Hk (He & Hw & Hmax).
      destruct (Hm2 k Hk (Hkeys _ (proj2 Hk)) (has_entry_nonempty r k e He)) as [es' Hes'].
      destruct (Hm1 k es' Hes') as (_ & _ & Hmem').
      destruct (instance_chaintip_ok es' (Hnm k es' Hes')) as (t & Et & [Htin Htw] & Htmax).
      transitivity (commit_ts (entry t)).
      * apply (Hle (k, t)). apply Hit, Ht. by exists es'.
      * pose proof (Hmax t (proj1 (Hmem' t) Htin) Htw) as H1.
        pose proof (Htmax e (proj2 (Hmem' e) He) Hw) as H2. unfold tip_le in *. unfold ts_le in *. lia.
  - exfalso. assert (merge_sort entry_ts_le (iter tips) = []) as E0 by (by destruct (merge_sort _ _)).
    apply merge_sort_nonempty in E0; [done|]. intros En.
    assert ((k0, t0) ∈ iter tips) as Hin by (apply Hit, Ht; by exists es0). rewrite En in Hin. set_solver.
Qed.

(** The entries that remain are those from the safepoint on. *)
Lemma pruned_entries r r' upper k :
  registry_wf r → indexed r k →
  zset r' (key_of k) = filter (λ kv, upper < kv.2) (zset r (key_of k)) →
  ∀ e, has_entry r' k e ↔ has_entry r k e ∧ upper < physical (commit_ts (entry e)).
Proof.
  intros Hr Hk E e. unfold has_entry. rewrite E. split.
  - intros (m & [score [Hm Hs]%map_lookup_filter_Some] & He).
    destruct (ro_members r Hr k m score (proj1 Hk) Hm) as (e' & He' & -> & _).
    rewrite He in He'. injection He' as <-. split; [|done]. exists m. by split; [eexists|].
  - intros [(m & [score Hm] & He) Hs]. exists m. split; [|done].
    destruct (ro_members r Hr k m score (proj1 Hk) Hm) as (e' & He' & -> & _).
    rewrite He in He'. injection He' as <-. eexists. apply map_lookup_filter_Some. by split.
Qed.

(** Pruning the indexed instances up to a bound that spares the tips. *)
Definition pruned_to (r r' : Redis) (upper : Z) : Prop :=
  zset r' timestamps_index = zset r timestamps_index
  ∧ (∀ k, indexed r k → zset r' (key_of k) = filter (λ kv, upper < kv.2) (zset r (key_of k)))
  ∧ ∀ k, key_ok k → ¬ indexed r k → zset r' (key_of k) = zset r (key_of k).

#[local] Instance indexed_dec r k : Decision (indexed r k).
Proof. unfold indexed, key_ok, in_range. apply _. Defined.

Lemma pruned_ok r r' upper :
  registry_ok r → pruned_to r r' upper →
  (∀ k, indexed r k → zset r (key_of k) ≠ ∅ →
    ∃ e, has_entry r k e ∧ was_mempool (entry e) = false ∧ upper < physical (commit_ts (entry e))) →
  registry_ok r'.
Proof.
  intros [Hr Hsome] (Hidx & Hz & Hz') Htip.
  assert (∀ k, indexed r k → zset r (key_of k) ≠ ∅ →
    ∃ e, has_entry r' k e ∧ was_mempool (entry e) = false) as Htip'.
  { intros k Hk Hne. destruct (Htip k Hk Hne) as (e & He & Hw & Hp). exists e. split; [|done].
    by apply (pruned_entries r r' upper k Hr Hk (Hz k Hk)). }
  split; [split|].
  - rewrite Hidx. apply (ro_keys r Hr).
  - intros k m score Hk Hm. apply (ro_members r Hr k); [done|].
    destruct (decide (indexed r k)) as [Hi|Hi]; [|by rewrite <- Hz'].
    rewrite (Hz k Hi) in Hm. by apply map_lookup_filter_Some in Hm as [? _].
  - intros k Hk Hne. destruct (decide (indexed r k)) as [Hi|Hi].
    + apply Htip'; [done|]. intros E. apply Hne. by rewrite (Hz k Hi), E.
    + unfold has_entry. rewrite (Hz' k Hk Hi) in *. by apply (ro_tips r Hr k Hk).
  - destruct Hsome as (k & Hk & Hne). exists k. destruct (Htip' k Hk Hne) as (e & He & _).
    split; [|by eapply has_entry_nonempty]. by split; [apply Hk|rewrite Hidx; apply Hk].
Qed.

Lemma tip_exists r k :
  registry_wf r → indexed r k → zset r (key_of k) ≠ ∅ → ∃ e, is_tip r k e.
Proof.
  intros Hr Hk Hne. destruct (ro_tips r Hr k (proj1 Hk) Hne) as (e & He & Hw).
  destruct (read_instance r k Hr Hk) as (es & _ & _ & Hes).
  destruct (instance_chaintip_ok es) as (t & _ & [Ht Htw] & Hmax).
  - exists e. split; [by apply Hes|done].
  - exists t. split; [by apply Hes|]. split; [done|]. intros e' He'. apply Hmax. by apply Hes.
Qed.

(** The sets after the pruning, for the keys of the entries fetched. *)
Lemma pruned_zsets r r0 m keys upper :
  registry_wf r → entries_fetched r keys m →
  (∀ key, is_Some (zset r timestamps_index !! key) → key ∈ keys) → zsets r0 = zsets r →
  pruned_to r (foldl (prune upper) r0 (map fst (map_to_list m))) upper.
Proof.
  intros Hr [Hm1 Hm] Hkeys Er.
  assert (∀ key, zset r0 key = zset r key) as E0 by (intros; unfold zset; by rewrite Er). split_and!.
  - rewrite zset_prune_all, decide_False, E0; [done|]. intros (k & E & _)%list_elem_of_fmap.
    by apply (key_of_not_index k).
  - intros k Hk. rewrite zset_prune_all, E0. case_decide as Hd; [done|].
    destruct (decide (zset r (key_of k) = ∅)) as [->|Hne]; [by rewrite map_filter_empty|].
    destruct Hd. destruct (Hm k Hk (Hkeys _ (proj2 Hk)) Hne) as [es Hes].
    apply list_elem_of_fmap. exists k. split; [done|]. apply list_elem_of_fmap. exists (k, es).
    split; [done|by apply elem_of_map_to_list].
  - intros k Hk Hi. rewrite zset_prune_all, decide_False, E0; [done|].
    intros (k' & E & ([? es] & -> & Hes%elem_of_map_to_list)%list_elem_of_fmap)%list_elem_of_fmap.
    apply Hm1 in Hes as (Hi' & _). cbn [fst] in *.
    apply key_of_inj in E as ->; [done|done|apply Hi'].
Qed.

(** The safepoint is the earlier of the two candidates. *)
Lemma safepoint_of (a b : TiKVTimestamp) :
  ∃ i sp, head (merge_sort candidate_le [(EarliestChaintip, a); (SafeZone, b)]) = Some (i, sp)
    ∧ (sp = a ∨ sp = b) ∧ ts_le sp a ∧ ts_le sp b.
Proof.
  set (l := [(EarliestChaintip, a); (SafeZone, b)]).
  destruct (head (merge_sort candidate_le l)) as [[i sp]|] eqn:E.
  - apply head_merge_sort in E as [Hin Hle]; [|apply _..]. exists i, sp. split; [done|].
    pose proof (Hle (EarliestChaintip, a) ltac:(set_solver)).
    pose proof (Hle (SafeZone, b) ltac:(set_solver)). split; [|done].
    unfold l in Hin. apply elem_of_cons in Hin as [[= -> ->]|[[= -> ->]|[]%elem_of_nil]%elem_of_cons]; auto.
  - exfalso. by apply (merge_sort_nonempty candidate_le l); [|destruct (merge_sort candidate_le l)].
Qed.

(** C18: the collector never takes away what an instance still needs, and can always
    be run again.  On entries as the instances of polyphony leave them it answers
    with a safepoint that is not within the safe zone and not later than the tip of
    any instance; the entries it keeps are those from the safepoint on, all the
    tips among them, and what it leaves is again as the instances leave it, so that
    the next run finds a tip for every instance. *)
Theorem collector_keeps_tips (r : Redis) (safe_zone_millis current_ts : Z) :
  registry_ok r → 0 ≤ safe_zone_millis ≤ current_ts → current_ts < 2 ^ 46 →
  ∃ r' safepoint,
    get_new_safepoint X iter safe_zone_millis current_ts r = Ok (r', safepoint)
    ∧ physical safepoint ≤ current_ts - safe_zone_millis
    ∧ (∀ k e, indexed r k → is_tip r k e →
         ts_le safepoint (commit_ts (entry e)) ∧ has_entry r' k e)
    ∧ (∀ k e, indexed r k →
         has_entry r' k e ↔ has_entry r k e ∧ physical safepoint ≤ physical (commit_ts (entry e)))
    ∧ registry_ok r'.
Proof.
  intros Hok Hz Hc. pose proof Hok as [Hr _]. destruct (fetch_entry_map_ok r Hr) as (m & Em & Hm).
  assert (∀ key, is_Some (zset r timestamps_index !! key) → key ∈ zrange r timestamps_index) as Hkeys
    by (intros key; apply elem_of_zrange).
  destruct (earliest_ok r m _ Hok Hm Hkeys) as (ts & Ets & (k0 & e0 & Hk0 & (m0 & [s0 Hm0] & He0) & Ets0) & Htips).
  destruct (ro_members r Hr k0 m0 s0 (proj1 Hk0) Hm0) as (e0' & He0' & Es0 & Hs0).
  rewrite He0 in He0'. injection He0' as <-.
  set (safe := mkTimestamp (i64_saturating_sub current_ts safe_zone_millis) 0 0).
  assert (physical safe = current_ts - safe_zone_millis) as Esafe
    by (unfold safe, i64_saturating_sub; cbn; lia).
  destruct (safepoint_of ts safe) as (i & sp & Esp & Hsp & Hle1 & Hle2).
  assert (0 ≤ physical sp ≤ current_ts - safe_zone_millis) as Hb.
  { unfold ts_le in *. destruct Hsp; subst sp; subst ts; lia. }
  assert (i64_wrap (physical sp - 1) = physical sp - 1) as Ew
    by (unfold i64_wrap; rewrite Z.mod_small by lia; lia).
  pose proof (pruned_zsets r (put_text (str "tikv-gc-safepoint") (to_string (version X sp)) r) m _
              (physical sp - 1) Hr Hm Hkeys eq_refl) as Hpruned.
  assert (∀ k e, indexed r k → is_tip r k e → ts_le sp (commit_ts (entry e))) as Hsptips.
  { intros k e Hk He. transitivity ts; [done|by eapply Htips]. }
  eexists _, sp. unfold get_new_safepoint. rewrite Em. cbn [mbind outcome_bind]. rewrite Ets.
  cbn [mbind outcome_bind]. fold safe. rewrite Esp. cbn [unwrap mbind outcome_bind]. rewrite Ew.
  split; [done|]. split; [lia|].
  assert (∀ k e, indexed r k → has_entry (foldl (prune (physical sp - 1))
    (put_text (str "tikv-gc-safepoint") (to_string (version X sp)) r) (map fst (map_to_list m))) k e
    ↔ has_entry r k e ∧ physical sp ≤ physical (commit_ts (entry e))) as Hkept.
  { intros k e Hk. rewrite (pruned_entries r _ _ k Hr Hk (proj1 (proj2 Hpruned) k Hk)). intuition lia. }
  split; [|split; [done|]].
  - intros k e Hk He. pose proof (Hsptips k e Hk He) as Hle. split; [done|]. apply Hkept; [done|].
    split; [apply He|]. unfold ts_le in Hle. lia.
  - eapply pruned_ok; [done..|]. intros k Hk Hne. destruct (tip_exists r k Hr Hk Hne) as (e & He).
    exists e. split; [apply He|]. split; [apply He|]. pose proof (Hsptips k e Hk He). unfold ts_le in *. lia.
Qed.

End collector.

(** ** What polyphony writes *)

Section writes.
Context (X : Ext) `{!ExtLaws X} (cfg : StorageConfig).

Abbreviation own := (mkRedisKey (dataplane_id cfg) (instance_id cfg)).

(** The entry as it is read: the network is lowered again. *)
Definition read_back (e : RedisEntry) : GcEntry :=
  mkGcEntry
    (mkRedisEntry (height e) (block_hash e) (was_mempool e) (commit_ts e)
       (to_lowercase X (to_lowercase X (network e))))
    (height e) (block_hash e) 0.

Lemma gc_reads_entry e :
  entry_ok X e → gc_from_redis_value X (BulkString (entry_text X e)) = Ok (read_back e).
Proof.
  intros He. pose proof (split_entry_text X e He) as Es. destruct He as [Hh [Hl Hb] Ht Hn Hu].
  unfold gc_from_redis_value, of_redis_value, parse_gc_entry, parse_entry. rewrite Hu, Es.
  cbn [lookup list_lookup mbind option_bind].
  rewrite parse_int_to_string, parse_hash_encode, parse_bool_text by done.
  rewrite (parse_int_to_string 64 (version X (commit_ts e))) by (by apply version_range).
  cbn [ok_or mbind outcome_bind fmap option_fmap option_map default].
  by rewrite version_roundtrip.
Qed.

(** A set that is neither an instance's nor the index. *)
Lemma wf_zadd_other key m score r :
  (∀ k, key_of k ≠ key) → key ≠ timestamps_index → registry_wf X r → registry_wf X (zadd key m score r).
Proof.
  intros Hk Hi Hr. assert (∀ key', key' = timestamps_index ∨ (∃ k, key' = key_of k) →
    zset (zadd key m score r) key' = zset r key') as E.
  { intros key' H. rewrite zset_zadd, decide_False; [done|].
    intros <-. destruct H as [?|[k ?]]; [done|by apply (Hk k)]. }
  split.
  - rewrite E by (by left). apply (ro_keys X r Hr).
  - intros k. rewrite E by (right; by exists k). apply (ro_members X r Hr).
  - intros k. unfold has_entry. rewrite E by (right; by exists k). apply (ro_tips X r Hr).
Qed.

(** The first request of [add_entry]. *)
Lemma wf_zadd_entry e r :
  key_ok own → entry_ok X e → was_mempool e = false ∨ zset r (key_of own) ≠ ∅ → registry_wf X r →
  registry_wf X (zadd (key_of own) (entry_text X e) (physical (commit_ts e)) r).
Proof.
  intros Hown He Hm Hr. pose proof (gc_reads_entry e He) as Hg. split.
  - rewrite zset_zadd, decide_False by apply key_of_not_index. apply (ro_keys X r Hr).
  - intros k m score Hk. rewrite zset_zadd.
    case_decide as E; [|by apply (ro_members X r Hr k m score)]. apply key_of_inj in E as <-; [|done..].
    intros [[<- <-]|[_ Hm']]%lookup_insert_Some; [|by apply (ro_members X r Hr own)].
    exists (read_back e). split; [done|]. split; [done|]. apply (eo_ts X e He).
  - intros k Hk. unfold has_entry. rewrite zset_zadd.
    case_decide as E; [|by apply (ro_tips X r Hr k)]. intros _. destruct Hm as [Hm|Hm].
    + exists (read_back e). split; [|done].
      exists (entry_text X e). rewrite lookup_insert_eq. by split; [eexists|].
    + destruct (ro_tips X r Hr own Hown Hm) as (e0 & (m0 & Hm0 & He0) & Hw0). exists e0. split; [|done].
      exists m0. split; [|done]. apply lookup_insert_is_Some'. by right.
Qed.

(** The second one. *)
Lemma wf_index score r :
  key_ok own → registry_wf X r → registry_wf X (zadd timestamps_index (key_of own) score r).
Proof.
  intros Hown Hr. assert (∀ k, zset (zadd timestamps_index (key_of own) score r) (key_of k)
    = zset r (key_of k)) as E.
  { intros k. rewrite zset_zadd, decide_False; [done|]. intros E. by apply (key_of_not_index k). }
  split.
  - intros key. rewrite zset_zadd, decide_True by done.
    intros [<-|H]%lookup_insert_is_Some'; [by exists own|by apply (ro_keys X r Hr)].
  - intros k. rewrite E. apply (ro_members X r Hr).
  - intros k. unfold has_entry. rewrite E. apply (ro_tips X r Hr).
Qed.

(** What holds of Redis whatever requests of a computation fail. *)
Definition keeps (P : Redis → Prop) {A} (m : R A) : Prop :=
  ∀ w b, P (redis w) → P (redis (m w b).1.1).

Lemma keeps_bindR P {A B} (m : R A) (f : A → R B) : keeps P m → (∀ a, keeps P (f a)) → keeps P (m ≫= f).
Proof.
  intros Hm Hf w b Hw. specialize (Hm w b Hw). unfold mbind, R_bind.
  destruct (m w b) as [[w' b'] [a|e|]]; [|done|done]. by apply Hf.
Qed.

Lemma keeps_zadd (P : Redis → Prop) key m score :
  (∀ r, P r → P (zadd key m score r)) → keeps P (request_zadd key m score).
Proof.
  intros H w b Hw. unfold request_zadd, request. destruct b as [[|b]|]; cbn; auto.
Qed.

Lemma keeps_pure (P : Redis → Prop) {A} (m : R A) : (∀ w b, redis (m w b).1.1 = redis w) → keeps P m.
Proof. intros H w b. by rewrite H. Qed.

(** Predicates that do not depend on the registries of the query service. *)
Definition blind (P : Redis → Prop) : Prop :=
  ∀ key m score r, (∀ k, key_of k ≠ key) → key ≠ timestamps_index → P r → P (zadd key m score r).

Lemma update_scores_keeps P names h : blind P → keeps P (update_scores X cfg names h).
Proof.
  intros HP. induction names as [|name names IH]; [by apply keeps_pure|]. cbn [update_scores].
  apply keeps_bindR; [|done]. apply keeps_zadd. intros r. apply HP.
  - intros k E%(f_equal head). by vm_compute in E.
  - intros E%(f_equal head). by vm_compute in E.
Qed.

Lemma maybe_advertise_keeps P names mutable h :
  blind P → keeps P (maybe_advertise X cfg names mutable h).
Proof.
  intros HP. apply keeps_bindR; [by apply keeps_pure|]. intros registered.
  destruct registered; [by apply update_scores_keeps|]. destruct (negb _); [by apply keeps_pure|].
  apply keeps_bindR; [by apply update_scores_keeps|]. intros []. by apply keeps_pure.
Qed.

Lemma wf_blind : blind (registry_wf X).
Proof. intros key m score r. apply wf_zadd_other. Qed.

Lemma ok_blind : blind (registry_ok X).
Proof.
  intros key m score r Hk Hi [Hwf (k & [Hok Hidx] & Hne)]. split; [by apply wf_zadd_other|].
  exists k. unfold indexed. rewrite !zset_zadd, !decide_False; [done|..].
  - intros E. by apply (Hk k).
  - done.
Qed.

Lemma add_entry_wf e w b :
  key_ok own → entry_ok X e → was_mempool e = false ∨ zset (redis w) (key_of own) ≠ ∅ →
  registry_wf X (redis w) → registry_wf X (redis (add_entry X cfg e w b).1.1).
Proof.
  intros Hown He Hm Hr. unfold add_entry, index_timestamps_key, timestamps_key, request_zadd, request.
  unfold mbind, R_bind. destruct b as [[|[|b]]|]; [done|by apply wf_zadd_entry|..];
    apply wf_index; try done; by apply wf_zadd_entry.
Qed.

Lemma add_entry_wfR e w b w' b' :
  key_ok own → entry_ok X e → was_mempool e = false → registry_wf X (redis w) →
  add_entry X cfg e w b = (w', b', Ok tt) → registry_ok X (redis w').
Proof.
  intros Hown He Hm Hr E. pose proof (add_entry_wf e w b Hown He (or_introl Hm) Hr) as Hwf.
  rewrite E in Hwf. split; [done|]. exists own. unfold indexed.
  assert (redis w' = zadd timestamps_index (key_of own) (physical (commit_ts e))
    (zadd (key_of own) (entry_text X e) (physical (commit_ts e)) (redis w))) as ->.
  { unfold add_entry, index_timestamps_key, timestamps_key, request_zadd, request, mbind, R_bind in E.
    by destruct b as [[|[|b]]|]; [done|done|injection E as <- _..]. }
  rewrite !zset_zadd, decide_True by done. split.
  - split; [done|]. rewrite lookup_insert_eq. by eexists.
  - rewrite decide_False by (intros E'; by apply (key_of_not_index own)). rewrite decide_True by done.
    intros E'%(f_equal (lookup (entry_text X e))). by rewrite lookup_insert_eq, lookup_empty in E'.
Qed.

(** At start-up an entry is added only where there are entries. *)
Lemma restore_missing_wf entries h hash rem ts w b :
  key_ok own → registry_wf X (redis w) → (entries ≠ [] → zset (redis w) (key_of own) ≠ ∅) →
  (∀ mempool, entry_ok X (mkRedisEntry (uint_value h) (bytes_of hash) mempool ts (config_network cfg))) →
  registry_wf X (redis (restore_missing X cfg entries h hash rem ts w b).1.1).
Proof.
  intros Hown Hr Hne He. unfold restore_missing. case_bool_decide as Hes; [done|].
  destruct (negb (existsb _ _)); [|done]. destruct rem as [|x rem]; [done|]. apply add_entry_wf; auto.
Qed.

Lemma restore_entry_wf ts cursor w b :
  key_ok own → registry_wf X (redis w) →
  (∀ h hash rem mempool, cursor ≫= (λ c, match decode c : decoded (u64 * Bytes 32) with
                                          | Ok x => Some x | _ => None end)
     = Some ((h, hash), rem) →
     entry_ok X (mkRedisEntry (uint_value h) (bytes_of hash) mempool ts (config_network cfg))) →
  registry_wf X (redis (restore_entry X cfg cursor ts w b).1.1).
Proof.
  intros Hown Hr He. unfold restore_entry. destruct cursor as [c|]; [|done].
  cbn [mbind option_bind] in He. unfold mbind, R_bind, liftR.
  destruct (decode c : decoded (u64 * Bytes 32)) as [[[h hash] rem]|e|]; [|done|done].
  assert (∀ members es, read_entries X members = Ok es → es ≠ [] → members ≠ []) as Hread
    by (intros [|m members] es; [by intros [= <-]|done]).
  unfold request.
  assert (∀ r b', registry_wf X (redis (match
     (mkRegWorker (redis w) r, b', read_entries X (zrange (redis w) (timestamps_key cfg))) with
    | (w', b', Ok es) => restore_missing X cfg es h hash rem ts w' b'
    | (w', b', Err e) => (w', b', Err e) | (w', b', Panic) => (w', b', Panic) end).1.1)) as Hgo;
    [|by destruct b as [[|b]|]; [done|apply Hgo..]].
  intros r b'. destruct (read_entries X _) as [es|e|] eqn:Ees; [|done|done].
  apply restore_missing_wf; [done|done| |by intros; eapply He].
  intros Hne E0. apply (Hread _ es Ees Hne). cbn [redis] in E0. unfold zrange.
  change (timestamps_key cfg) with (key_of own). rewrite E0. by rewrite map_to_list_empty.
Qed.

Lemma record_commit_wf instance_names mutable point ts w b :
  key_ok own → registry_wf X (redis w) →
  entry_ok X (mkRedisEntry (pt_height point) (pt_hash point) false ts (config_network cfg)) →
  let '(w', _, o) := record_commit X cfg instance_names mutable point false ts w b in
  registry_wf X (redis w') ∧ (o = Ok tt → registry_ok X (redis w')).
Proof.
  intros Hown Hr He. unfold record_commit, mbind at 1, R_bind at 1.
  pose proof (add_entry_wf _ w b Hown He (or_introl eq_refl) Hr) as Hwf.
  destruct (add_entry X cfg _ w b) as [[w1 b1] [[]|e|]] eqn:E; [|by split..].
  apply add_entry_wfR in E; [|done..].
  pose proof (maybe_advertise_keeps _ instance_names mutable (pt_height point) ok_blind w1 b1 E) as Hok.
  destruct (maybe_advertise X cfg instance_names mutable (pt_height point) w1 b1) as [[w2 b2] o].
  split; [apply Hok|done].
Qed.

(** C35: what polyphony writes is what the collector expects.  Whatever requests to
    Redis fail, recording a commit or a rollback, and restoring the entry of a
    commit at start-up, keep the registry as the collector needs it: every entry
    parses, has its commit as score, and every instance with entries has one of a
    block. Once a commit is recorded, the collector has an instance to work on. *)
Theorem recorded_entries_wf (instance_names : list (list Z)) (mutable : bool) (point : Point)
    (ts : TiKVTimestamp) (cursor : option (list Z)) (w : RegWorker) (b : option nat) :
  key_ok own → registry_wf X (redis w) →
  (entry_ok X (mkRedisEntry (pt_height point) (pt_hash point) false ts (config_network cfg)) →
   let '(w', _, o) := record_commit X cfg instance_names mutable point false ts w b in
   registry_wf X (redis w') ∧ (o = Ok tt → registry_ok X (redis w')))
  ∧ ((∀ h hash rem mempool, cursor ≫= (λ c, match decode c : decoded (u64 * Bytes 32) with
                                             | Ok x => Some x | _ => None end)
        = Some ((h, hash), rem) →
        entry_ok X (mkRedisEntry (uint_value h) (bytes_of hash) mempool ts (config_network cfg))) →
     registry_wf X (redis (restore_entry X cfg cursor ts w b).1.1)).
Proof.
  intros Hown Hr. split; intros He; [by apply record_commit_wf|by apply restore_entry_wf].
Qed.

End writes.

(** ** A sample *)

(** Hexadecimal digits. *)
Definition hex_digit (d : Z) : Z := if d <? 10 then 48 + d else 87 + d.
Definition digit_value (c : Z) : Z := if c <? 58 then c - 48 else c - 87.
Fixpoint hex_pairs (s : list Z) : list Z :=
  match s with
  | a :: b :: s => 16 * digit_value a + digit_value b :: hex_pairs s
  | _ => []
  end.

Definition sample_ext : Ext :=
  mkExt (flat_map (λ x, [hex_digit (x / 16); hex_digit (x mod 16)])) (λ s, Some (hex_pairs s)) id
    (λ t, physical t * 2 ^ 18 + logical t) (λ v, mkTimestamp (v / 2 ^ 18) (v mod 2 ^ 18) 0).

Lemma hex_digit_value d : 0 ≤ d < 16 → digit_value (hex_digit d) = d ∧ hex_digit d ≠ 44.
Proof.
  intros Hd. unfold digit_value, hex_digit. destruct (Z.ltb_spec d 10) as [H|H].
  - destruct (Z.ltb_spec (48 + d) 58); lia.
  - destruct (Z.ltb_spec (87 + d) 58); lia.
Qed.

#[export] Instance sample_ext_laws : ExtLaws sample_ext.
Proof.
  assert (∀ x, in_range 8 x → 0 ≤ x / 16 < 16 ∧ 0 ≤ x mod 16 < 16) as Hx.
  { intros x [? ?]. split; [|by apply Z.mod_pos_bound].
    split; [by apply Z.div_pos|]. apply Z.div_lt_upper_bound; lia. }
  split.
  - intros b Hb. cbn. f_equal. induction Hb as [|x b Hxb _ IH]; [done|]. cbn [flat_map app hex_pairs].
    destruct (Hx x Hxb) as [H1 H2]. rewrite IH, (proj1 (hex_digit_value _ H1)), (proj1 (hex_digit_value _ H2)).
    f_equal. pose proof (Z.div_mod x 16). lia.
  - intros b Hb. induction Hb as [|x b Hxb _ IH]; [constructor|]. cbn [hex_encode sample_ext flat_map app].
    destruct (Hx x Hxb) as [H1 H2]. constructor; [by apply hex_digit_value|].
    constructor; [by apply hex_digit_value|done].
  - intros t (? & ? & _). cbn. unfold in_range. lia.
  - intros [p l s] (Hp & Hl & Hs). cbn in *. subst s. f_equal.
    + rewrite Z.div_add_l by done. rewrite (Z.div_small l) by done. lia.
    + rewrite Z.add_comm, Z.mod_add by done. by apply Z.mod_small.
Qed.

Definition sample_config (instance : Z) : StorageConfig :=
  mkStorageConfig 1 instance (str "mainnet") None.

(** Two commits of instance 2 and one of instance 3. *)
Definition sample_record (instance height ms : Z) (w : RegWorker)
  : RegWorker * option nat * outcome WorkError unit :=
  record_commit sample_ext (sample_config instance) [str "utxos"] true
    (mkPoint height (replicate 32 height)) false (mkTimestamp ms 5 0) w None.

Definition sample_one : RegWorker := (sample_record 2 7 3000 (mkRegWorker (mkRedis ∅ ∅) false)).1.1.
Definition sample_two : RegWorker := (sample_record 2 8 9000 sample_one).1.1.
Definition sample_registry : RegWorker := (sample_record 3 8 8000 sample_two).1.1.

Lemma sample_entry_ok h ms :
  0 ≤ h < 10 → 0 ≤ ms < 2 ^ 46 → utf8_valid (entry_text sample_ext
    (mkRedisEntry h (replicate 32 h) false (mkTimestamp ms 5 0) (str "mainnet"))) = true →
  entry_ok sample_ext (mkRedisEntry h (replicate 32 h) false (mkTimestamp ms 5 0) (str "mainnet")).
Proof.
  intros Hh Hms Hu. split; cbn.
  - unfold in_range. lia.
  - split; [done|]. change (bytes_ok (replicate 32 h)). apply Forall_replicate. unfold u8_ok, in_range. lia.
  - done.
  - apply (bool_decide_unpack _). by vm_compute.
  - done.
Qed.

Lemma empty_registry_wf : registry_wf sample_ext (mkRedis ∅ ∅).
Proof.
  split.
  - intros key [? H]. unfold zset in H. cbn [zsets] in H. by rewrite !lookup_empty in H.
  - intros k m score _ H. unfold zset in H. cbn [zsets] in H. by rewrite !lookup_empty in H.
  - intros k _ H. unfold zset in H. cbn [zsets] in H. by rewrite lookup_empty in H.
Qed.

Lemma sample_record_wf i h ms w :
  0 ≤ i < 10 → 0 ≤ h < 10 → 0 ≤ ms < 2 ^ 46 → utf8_valid (entry_text sample_ext
    (mkRedisEntry h (replicate 32 h) false (mkTimestamp ms 5 0) (str "mainnet"))) = true →
  registry_wf sample_ext (redis w) →
  let '(w', _, o) := sample_record i h ms w in
  registry_wf sample_ext (redis w') ∧ (o = Ok tt → registry_ok sample_ext (redis w')).
Proof.
  intros Hi Hh Hms Hu Hw. apply record_commit_wf; [apply _| |done|by apply sample_entry_ok].
  split; cbn; unfold in_range; lia.
Qed.

Lemma sample_two_wf : registry_wf sample_ext (redis sample_two).
Proof.
  unfold sample_two. pose proof (sample_record_wf 2 8 9000 sample_one) as H.
  destruct (sample_record 2 8 9000 sample_one) as [[w b] o].
  refine (proj1 (H _ _ _ _ _)); [lia..|by vm_compute|].
  unfold sample_one. clear H. set (w0 := mkRegWorker _ _).
  pose proof (sample_record_wf 2 7 3000 w0) as H.
  destruct (sample_record 2 7 3000 w0) as [[w' b'] o'].
  refine (proj1 (H _ _ _ _ _)); [lia..|by vm_compute|].
  apply empty_registry_wf.
Qed.

Lemma sample_registry_ok : registry_ok sample_ext (redis sample_registry).
Proof.
  unfold sample_registry. pose proof (sample_record_wf 3 8 8000 sample_two) as H.
  assert ((sample_record 3 8 8000 sample_two).2 = Ok tt) as E by (by vm_compute).
  destruct (sample_record 3 8 8000 sample_two) as [[w b] o].
  apply H; [lia..|by vm_compute|apply sample_two_wf|done].
Qed.

(** The clock is at 10000 and the safe zone 600: the safepoint is the tip of
    instance 3, and the first entry of instance 2 goes. *)
Lemma collector_keeps_tips_witness :
  ∃ r' safepoint,
    get_new_safepoint sample_ext map_to_list 600 10000 (redis sample_registry) = Ok (r', safepoint)
    ∧ physical safepoint ≤ 10000 - 600 ∧ registry_ok sample_ext r'.
Proof.
  destruct (collector_keeps_tips sample_ext map_to_list ltac:(done) (redis sample_registry) 600 10000)
    as (r' & sp & E & Hp & _ & _ & Hok).
  - apply sample_registry_ok.
  - lia.
  - lia.
  - exists r', sp. exact (conj E (conj Hp Hok)).
Defined.

Lemma recorded_entries_wf_witness :
  registry_ok sample_ext (redis sample_registry)
  ∧ registry_wf sample_ext (redis (restore_entry sample_ext (sample_config 3) None
                                     (mkTimestamp 9900 0 0) sample_two None).1.1).
Proof.
  assert ((sample_record 3 8 8000 sample_two).2 = Ok tt) as E by (by vm_compute).
  destruct (recorded_entries_wf sample_ext (sample_config 3) [str "utxos"] true
    (mkPoint 8 (replicate 32 8)) (mkTimestamp 8000 5 0) None sample_two None) as [H1 H2].
  - split; by vm_compute.
  - apply sample_two_wf.
  - split; [|].
    + unfold sample_registry, sample_record in *.
      destruct (record_commit _ _ _ _ _ _ _ _ _) as [[w b] o]. refine (proj2 (H1 _) E).
      by apply (sample_entry_ok 8 8000); vm_compute.
    + destruct (recorded_entries_wf sample_ext (sample_config 3) [str "utxos"] true
        (mkPoint 8 (replicate 32 8)) (mkTimestamp 9900 0 0) None sample_two None) as [_ H3];
        [split; by vm_compute|apply sample_two_wf|]. by apply H3.
Defined.


End TikvGc.
