(* ===== verification/Server.v ===== *)
(** The chain server of the compressor, [serve/grpc.rs]: pages of blocks with
    their context, and the stream of updates that follows the log
    ([MutableKV::stream_mutable] of [storage/mutable/mod.rs]).

    The messages are those of [proto/sync/v1/sync.proto], as the values the
    transport carries; a message field is an [option].  A request is answered from
    one snapshot of the tables.  The consensus encodings of the [bitcoin] crate are
    parameters; [shuffle] lists a hash map in some order. *)

From S2P Require Import Prelude Dunes Dunestone Types DunesUpdater Inscription Brc20 InscriptionsUpdater ChainDB.
Import Dunestone Types Brc20 InscriptionsUpdater ChainDB.

Module Server.

(** ** sync.proto *)

Record BlockRef : Type := mkBlockRef { br_height : Z; br_hash : list Z }.
#[export] Instance BlockRef_eq_dec : EqDecision BlockRef.
Proof. solve_decision. Defined.
Record TxoRefMsg : Type := mkTxoRefMsg { tr_tx_hash : list Z; tr_txo_index : Z }.
Record ResolvedTxo : Type := mkResolvedTxo {
  rt_ref : option TxoRefMsg; rt_height : Z; rt_raw : list Z; rt_ord_ranges : list (Z * Z);
}.
Record RuneIdMsg : Type := mkRuneIdMsg { ri_block : Z; ri_tx : Z }.
Record RuneMsg : Type := mkRuneMsg { rm_id : option RuneIdMsg; rm_amount : list Z }.
Record RunesResolvedTxo : Type := mkRunesTxo { rr_ref : option TxoRefMsg; rr_runes : list RuneMsg }.
Record ValidEtch : Type := mkValidEtch { ve_tx_index : Z; ve_name : list Z }.
Record ValidMint : Type := mkValidMint { vm_tx_index : Z; vm_edict_index : Z }.
Record RunesInfo : Type := mkRunesInfo {
  ru_txo_resolver : list RunesResolvedTxo;
  successful_etchs : list ValidEtch;
  successful_mints : list ValidMint;
}.

Inductive Kind : Type :=
| KDeploy (ticker : list Z)
| KMint (ticker amt script_hash : list Z)
| KTransfer (ticker amt : list Z) (first_output : option TxoRefMsg) (script_hash : list Z)
| KTransferInit (ticker amt script_hash : list Z).

Record InscriptionIdMsg : Type := mkInscriptionIdMsg { im_tx_hash : list Z; im_index : Z }.
Record Brc20Resolver : Type := mkBrc20Resolver {
  b2_id : option InscriptionIdMsg; b2_action : option (option Kind);
}.
Record InscriptionAtOffset : Type := mkAtOffset { ao_id : option InscriptionIdMsg; ao_offset : Z }.
Record InscriptionOrigin : Type := mkOrigin {
  io_tx_hash : list Z; io_id : option InscriptionIdMsg; io_num : Z; io_content : list Z;
  io_type : list Z;
}.
Record InscriptionResolvedTxo : Type := mkInscriptionTxo {
  ir_ref : option TxoRefMsg; ir_inscriptions : list InscriptionAtOffset;
}.
Record ValidReinscription : Type := mkReinscription { vr_tx_index : Z; vr_inscription_index : Z }.
Record InscriptionsInfo : Type := mkInscriptionsInfo {
  in_txo_resolver : list InscriptionResolvedTxo;
  in_valid_reinscriptions : list ValidReinscription;
  in_brc20_resolver : list Brc20Resolver;
  in_new_inscriptions : list InscriptionOrigin;
}.

Record BlockWithContext : Type := mkBlockWithContext {
  bc_ref : option BlockRef;
  bc_raw : list Z;
  bc_txo_resolver : list ResolvedTxo;
  bc_runes : option RunesInfo;
  bc_inscriptions : option InscriptionsInfo;
}.

Record PageRequest : Type := mkPageRequest { pq_cursor : option BlockRef; max_items : Z }.
Record PageResponse : Type := mkPageResponse {
  ps_blocks : list BlockWithContext; next_cursor : option BlockRef; chain_tip : option BlockRef;
}.

Inductive Action : Type :=
| ActApply (block : BlockWithContext)
| ActUndo (block : BlockRef)
| ActReset (point : BlockRef).

(** The codes of [tonic::Status] that are given or looked at. *)
Inductive Status : Type := InvalidArgument | NotFound | OtherStatus.

(** ** From stored values to messages *)

Definition hash_bytes (h : Z) : list Z := be_bytes 32 h.
Definition block_ref (height : Z) (hash : BlockHash) : BlockRef := mkBlockRef height (hash_bytes hash).
Definition txo_ref_msg (r : TxoRef) : TxoRefMsg := mkTxoRefMsg (hash_bytes r.1) (wrap 32 r.2).
Definition inscription_id_msg (i : InscriptionId) : InscriptionIdMsg :=
  mkInscriptionIdMsg (hash_bytes (iid_txid i)) (iid_index i).

Definition rune_msg (x : KDuneId * Z) : RuneMsg :=
  mkRuneMsg (Some (mkRuneIdMsg (kd_block x.1) (wrap 32 (kd_tx x.1)))) (be_bytes 16 x.2).

Definition runes_txo (e : TxoRef * list (KDuneId * Z)) : RunesResolvedTxo :=
  mkRunesTxo (Some (txo_ref_msg e.1)) (map rune_msg e.2).

(** [offset as u32]. *)
Definition at_offset (x : Z * InscriptionId) : InscriptionAtOffset :=
  mkAtOffset (Some (inscription_id_msg x.2)) (wrap 32 x.1).

(** A map from outputs to what is at their offsets, filled entry by entry. *)
Definition push_at (m : gmap TxoRef (list InscriptionAtOffset)) (r : TxoRef) (x : Z * InscriptionId)
  : gmap TxoRef (list InscriptionAtOffset) :=
  <[r := default [] (m !! r) ++ [at_offset x]]> m.

Definition group_inscriptions (l : list (TxoRef * list (Z * InscriptionId)))
  : gmap TxoRef (list InscriptionAtOffset) :=
  foldl (λ m e, foldl (λ m x, push_at m e.1 x) m e.2) ∅ l.

Definition inscription_txo (e : TxoRef * list InscriptionAtOffset) : InscriptionResolvedTxo :=
  mkInscriptionTxo (Some (txo_ref_msg e.1)) e.2.

(** Script hashes are 20 bytes. *)
Definition brc20_kind (m : BRC20Message) : Kind :=
  match m with
  | Deploy ticker => KDeploy ticker
  | Mint ticker amt sh => KMint ticker (be_bytes 16 amt) (be_bytes 20 sh)
  | Transfer ticker amt op sh =>
      KTransfer ticker (be_bytes 16 amt) (Some (mkTxoRefMsg (hash_bytes (op_txid op)) (op_vout op)))
        (be_bytes 20 sh)
  | TransferInit ticker amt sh => KTransferInit ticker (be_bytes 16 amt) (be_bytes 20 sh)
  end.

Definition brc20_msg (x : InscriptionId * BRC20Message) : Brc20Resolver :=
  mkBrc20Resolver (Some (inscription_id_msg x.1)) (Some (Some (brc20_kind x.2))).

Definition origin_msg (i : NewInscriptionInfo) : InscriptionOrigin :=
  mkOrigin (hash_bytes (ni_tx_hash i)) (Some (inscription_id_msg (ni_id i))) (ni_number i)
    (ni_body i) (ni_body_type i).

(** ** Tables *)

(** [iter_entries_from_snapshot] and [iter_entries_from_no_tx]. *)
Definition entries_from {A} (m : gmap Z A) (from : Z) : list (Z * A) :=
  filter (λ e, from ≤ e.1) (sorted_entries m).

Section server.
Context (encode_txout : TxOut → list Z) (encode_block : Block → list Z).
Context (shuffle : ∀ A, list A → list A).

Definition runes_info (e : ResolverEntry) : RunesInfo :=
  mkRunesInfo
    (map (λ x, runes_txo (x.1, tb_dunes x.2)) (shuffle _ (map_to_list (re_resolver e)))
     ++ map runes_txo (re_output_runes e))
    (map (λ x, mkValidEtch x.1 (be_bytes 16 x.2)) (re_etches e))
    (map (λ x, mkValidMint x.1 x.2) (re_mints e)).

Definition inscriptions_info (e : ResolverEntry) : InscriptionsInfo :=
  let inputs := group_inscriptions
    (map (λ x, (x.1, tb_inscriptions x.2)) (shuffle _ (map_to_list (re_resolver e)))) in
  let outs := group_inscriptions (re_output_inscriptions e) in
  mkInscriptionsInfo
    (map inscription_txo (shuffle _ (map_to_list inputs))
     ++ map inscription_txo (shuffle _ (map_to_list outs)))
    (map (λ x, mkReinscription x.1 x.2) (re_valid_reinscriptions e))
    (map brc20_msg (re_brc20 e))
    (map origin_msg (re_new_inscriptions e)).

Definition resolved_txo (x : TxoRef * TxoBody) : ResolvedTxo :=
  mkResolvedTxo (Some (txo_ref_msg x.1)) (tb_height x.2) (encode_txout (tb_raw x.2))
    (tb_ord_ranges x.2).

Definition block_with_context (height : Z) (hash : BlockHash) (block : Block) (e : ResolverEntry)
  : BlockWithContext :=
  mkBlockWithContext (Some (block_ref height hash)) (encode_block block)
    (map resolved_txo (shuffle _ (map_to_list (re_resolver e))))
    (Some (runes_info e)) (Some (inscriptions_info e)).

(** ** Pages *)

(** The entries after the cursor, which must be on the chain. *)
Definition after_cursor (iter : list (Z * (BlockHash * Block))) (cursor : option BlockRef)
  : outcome Status (list (Z * (BlockHash * Block))) :=
  match cursor with
  | None => Ok iter
  | Some c =>
      match iter with
      | [] => Err NotFound
      | (found_height, (found_hash, _)) :: rest =>
          if negb (found_height =? br_height c) then Err NotFound
          else if bool_decide (hash_bytes found_hash ≠ br_hash c) then Err NotFound
          else Ok rest
      end
  end.

(** A page, and the cursor of the next one when there is more. *)
Definition cut (n : nat) (l : list (Z * (BlockHash * Block)))
  : list (Z * (BlockHash * Block)) * option BlockRef :=
  let page := take (S n) l in
  if (length page =? S n)%nat then
    let page := take n page in
    (page, (λ e, block_ref e.1 e.2.1) <$> last page)
  else (page, None).

Definition page_entry (x : (Z * (BlockHash * Block)) * (Z * ResolverEntry))
  : outcome Status BlockWithContext :=
  let '((height, (hash, block)), (_, e)) := x in
  if negb (hash =? re_hash e) then Err OtherStatus
  else Ok (block_with_context height hash block e).

Definition page_blocks_with_context (t : Tables) (request : PageRequest) : outcome Status PageResponse :=
  if max_items request <? 1 then Err InvalidArgument
  else
    let n := Z.to_nat (max_items request) in
    let intersect_height := default 0 (br_height <$> pq_cursor request) in
    iter ← after_cursor (entries_from (BlockByHeightKV t) intersect_height) (pq_cursor request);
    let '(page_blocks, next_cursor) := cut n iter in
    let resolvers := entries_from (ResolverByHeightKV t) intersect_height in
    let resolvers := match pq_cursor request with Some _ => tail resolvers | None => resolvers end in
    let page_resolvers := take n resolvers in
    if negb (length page_blocks =? length page_resolvers)%nat then Err OtherStatus
    else
      page ← foldM (λ page x, b ← page_entry x; Ok (page ++ [b])) [] (zip page_blocks page_resolvers);
      let chain_tip := (λ e, block_ref e.1 e.2.1) <$> last (sorted_entries (BlockByHeightKV t)) in
      Ok (mkPageResponse page next_cursor chain_tip).

(** ** The stream of updates *)

Definition log_to_response_with_ctx (log : Log) : option Action :=
  Some match log with
       | Apply height hash body entry => ActApply (block_with_context height hash body entry)
       | Undo height hash _ => ActUndo (block_ref height hash)
       | Mark height hash _ => ActReset (block_ref height hash)
       end.

(** The position in the log the stream starts after. *)
Fixpoint stream_updates_with_context (t : Tables) (intersects : list BlockRef) : outcome Status Z :=
  match intersects with
  | [] => Err NotFound
  | i :: intersects =>
      if negb (length (br_hash i) =? 32)%nat then Err InvalidArgument
      else
        match find_wal_seq (MutableKV t) (br_height i) (of_be_bytes (br_hash i)) with
        | Some wal_seq => Ok wal_seq
        | None => stream_updates_with_context t intersects
        end
  end.

End server.

(** ** stream_mutable *)

(** What is yielded of the entries an iterator gives, and the position after; [None]
    when the stream is closed at an entry that is not the next one. *)
Fixpoint stream_walk (last_seq : Z) (entries : list (Z * Log)) : list Log * option Z :=
  match entries with
  | [] => ([], Some last_seq)
  | (wal_seq, log) :: rest =>
      if negb (wal_seq =? wrap 64 (last_seq + 1)) then ([], None)
      else let '(logs, last) := stream_walk wal_seq rest in (log :: logs, last)
  end.

(** One iterator, from the last position on: at first, and after each notification.
    Its first entry, the intersect, is skipped. *)
Definition stream_poll (m : gmap Z Log) (last_seq : Z) : list Log * option Z :=
  stream_walk last_seq (tail (entries_from m last_seq)).

End Server.
