(* ===== verification/Source.v ===== *)
(** The source of polyphony, the client of the chain server:
    [polyphony-xdg/src/sources/compressor/compressor.rs] and
    [sources/utils.rs].

    The methods of the worker are computations over its state, the messages it has
    sent downstream, and the answers of the server still to come: one snapshot of
    the server's tables for each request, [None] for a request that fails in
    transport.  What the open stream gives next is an argument of [schedule]. *)

From S2P Require Import Prelude Dunes Dunestone Types DunesUpdater Inscription Brc20 InscriptionsUpdater ChainDB Timbre Crosscut StorageAction ReducerOutput TikvWorker Reducers Server.
Import Dunestone Types ChainDB Timbre Crosscut StorageAction ReducerOutput TikvWorker Reducers Server.

Module Source.

(** ** From messages to a context *)

(** [try_into] of bytes to an array. *)
Definition to_array (n : nat) (b : list Z) : option (list Z) :=
  if (length b =? n)%nat then Some b else None.

(** [Txid::from_byte_array(b.try_into().unwrap())] and the like. *)
Definition unwrap_int (n : nat) (b : list Z) : outcome WorkError Z :=
  b ← unwrap (to_array n b); Ok (of_be_bytes b).

Definition point_to_block_ref (p : Point) : BlockRef := mkBlockRef (pt_height p) (pt_hash p).

Definition block_ref_to_point (r : BlockRef) : outcome WorkError Point :=
  hash ← unwrap (to_array 32 (br_hash r)); Ok (mkPoint (br_height r) hash).

(** The reference of an output; errors are raised with [or_panic]. *)
Definition output_ref (r : option TxoRefMsg) : outcome WorkError TxoRef :=
  txo_ref ← ok_or WorkPanic r;
  hash ← ok_or WorkPanic (to_array 32 (tr_tx_hash txo_ref));
  Ok (of_be_bytes hash, tr_txo_index txo_ref).

Definition inscription_id (i : option InscriptionIdMsg) : outcome WorkError InscriptionId :=
  i ← unwrap i;
  txid ← unwrap_int 32 (im_tx_hash i);
  Ok (mkInscriptionId txid (im_index i)).

(** [.into_iter().map(..).collect()] with a body that may panic. *)
Definition collect {A B} (f : A → outcome WorkError B) (l : list A) : outcome WorkError (list B) :=
  foldM (λ bs a, b ← f a; Ok (bs ++ [b])) [] l.

Definition rune_of (x : RuneMsg) : outcome WorkError (RuneId * Z) :=
  id ← unwrap (rm_id x);
  amount ← unwrap_int 16 (rm_amount x);
  Ok ((ri_block id, ri_tx id), amount).

Definition at_offset_of (x : InscriptionAtOffset) : outcome WorkError (Z * InscriptionId) :=
  id ← inscription_id (ao_id x);
  Ok (ao_offset x, id).

Definition message_of (k : Kind) : outcome WorkError CtxMessage :=
  match k with
  | KDeploy ticker => Ok (CtxDeploy ticker)
  | KMint ticker amt sh =>
      amt ← unwrap_int 16 amt; sh ← unwrap (to_array 20 sh);
      Ok (CtxMint ticker amt sh)
  | KTransferInit ticker amt sh =>
      amt ← unwrap_int 16 amt; sh ← unwrap (to_array 20 sh);
      Ok (CtxTransferInit ticker amt sh)
  | KTransfer ticker amt first_output sh =>
      first_output ← unwrap first_output;
      txid ← unwrap_int 32 (tr_tx_hash first_output);
      amt ← unwrap_int 16 amt; sh ← unwrap (to_array 20 sh);
      Ok (CtxTransfer ticker amt (txid, tr_txo_index first_output) sh)
  end.

Section context.
Context (decode_txout : list Z → option TxOut).

Definition add_txo (ctx : BlockContext) (txo : ResolvedTxo) : outcome WorkError BlockContext :=
  r ← output_ref (rt_ref txo);
  insert_txo decode_txout r (rt_height txo) (rt_raw txo) (rt_ord_ranges txo) ctx.

Definition add_runes (ctx : BlockContext) (txo : RunesResolvedTxo) : outcome WorkError BlockContext :=
  r ← output_ref (rr_ref txo);
  runes ← collect rune_of (rr_runes txo);
  Ok (match runes with [] => ctx | _ => insert_runes r runes ctx end).

Definition add_runes_info (ctx : BlockContext) (info : RunesInfo) : outcome WorkError BlockContext :=
  ctx ← foldM add_runes ctx (ru_txo_resolver info);
  etchs ← collect (λ e, name ← unwrap_int 16 (ve_name e); Ok (ve_tx_index e, name))
            (successful_etchs info);
  let mints := map (λ m, (vm_tx_index m, vm_edict_index m)) (successful_mints info) in
  Ok (mkContext (input_resolver ctx) (runes_resolver ctx) mints etchs (inscriptions_resolver ctx)
        (valid_reinscriptions ctx) (brc20_resolver ctx) (new_inscriptions_map ctx)).

Definition add_inscriptions (ctx : BlockContext) (txo : InscriptionResolvedTxo)
  : outcome WorkError BlockContext :=
  r ← output_ref (ir_ref txo);
  inscriptions ← collect at_offset_of (ir_inscriptions txo);
  Ok (match inscriptions with [] => ctx | _ => insert_inscriptions r inscriptions ctx end).

Definition add_brc20 (ctx : BlockContext) (x : Brc20Resolver) : outcome WorkError BlockContext :=
  id ← inscription_id (b2_id x);
  action ← unwrap (b2_action x);
  kind ← unwrap action;
  message ← message_of kind;
  Ok (insert_brc20 id message ctx).

Definition add_origin (ctx : BlockContext) (x : InscriptionOrigin) : outcome WorkError BlockContext :=
  tx_hash ← unwrap_int 32 (io_tx_hash x);
  id ← inscription_id (io_id x);
  Ok (insert_new_inscription tx_hash (id, io_num x, io_type x, io_content x) ctx).

Definition add_inscriptions_info (ctx : BlockContext) (info : InscriptionsInfo)
  : outcome WorkError BlockContext :=
  ctx ← foldM add_inscriptions ctx (in_txo_resolver info);
  let reinscriptions :=
    map (λ x, (vr_tx_index x, vr_inscription_index x)) (in_valid_reinscriptions info) in
  let ctx := mkContext (input_resolver ctx) (runes_resolver ctx) (rune_mint_idxs ctx)
               (rune_etch_idxs ctx) (inscriptions_resolver ctx) reinscriptions
               (brc20_resolver ctx) (new_inscriptions_map ctx) in
  ctx ← foldM add_brc20 ctx (in_brc20_resolver info);
  foldM add_origin ctx (in_new_inscriptions info).

Definition context_of (block : BlockWithContext) : outcome WorkError BlockContext :=
  ctx ← foldM add_txo context_new (bc_txo_resolver block);
  ctx ← match bc_runes block with Some info => add_runes_info ctx info | None => Ok ctx end;
  match bc_inscriptions block with Some info => add_inscriptions_info ctx info | None => Ok ctx end.

(** What [process_action] sends. *)
Definition action_payload (action : Action) (mutable : bool)
  : outcome WorkError (option EnrichedBlockPayload) :=
  match action with
  | ActApply block =>
      block_ref ← ok_or WorkPanic (bc_ref block);
      ctx ← context_of block;
      point ← block_ref_to_point block_ref;
      Ok (Some (EnrichedForward point (bc_raw block) ctx mutable))
  | ActReset reset =>
      point ← block_ref_to_point reset;
      Ok (Some (EnrichedBack point false))
  | ActUndo _ => Ok None
  end.

End context.

(** ** The worker *)

Inductive Mode : Type := Init | Dumping (cursor : option BlockRef) | Streaming.

Record SourceWorker : Type := mkSourceWorker { mode : Mode; upstream_height : option Z }.

Record SourceWorkUnit : Type := mkUnit { actions : list Action; unit_mutable : bool }.

Inductive IntersectConfig : Type :=
| IntersectTip | IntersectOrigin | IntersectPoint (height : Z) (hash : list Z).

Record World : Type := mkWorld {
  worker : SourceWorker;
  answers : list (option Tables);
  sent : list EnrichedBlockPayload;
}.

Definition Net (A : Type) : Type := World → World * outcome WorkError A.

#[export] Instance Net_ret : MRet Net := λ A a w, (w, Ok a).
#[export] Instance Net_bind : MBind Net := λ A B f m w,
  match m w with
  | (w, Ok a) => f a w
  | (w, Err e) => (w, Err e)
  | (w, Panic) => (w, Panic)
  end.

Definition lift {A} (o : outcome WorkError A) : Net A := λ w, (w, o).
Definition send (p : EnrichedBlockPayload) : Net unit := λ w,
  (mkWorld (worker w) (answers w) (sent w ++ [p]), Ok tt).
Definition get_worker : Net SourceWorker := λ w, (w, Ok (worker w)).
Definition set_mode (m : Mode) : Net unit := λ w,
  (mkWorld (mkSourceWorker m (upstream_height (worker w))) (answers w) (sent w), Ok tt).
Definition set_upstream (h : option Z) : Net unit := λ w,
  (mkWorld (mkSourceWorker (mode (worker w)) h) (answers w) (sent w), Ok tt).

(** A request. *)
Definition call {A} (f : Tables → outcome Status A) : Net (outcome Status A) := λ w,
  (mkWorld (worker w) (tail (answers w)) (sent w),
   Ok (match answers w with Some t :: _ => f t | _ => Err OtherStatus end)).

(** [.or_restart()?] and [.or_panic()?] of an answer. *)
Definition or_restart {A} (o : outcome Status A) : Net A :=
  lift (match o with Ok a => Ok a | Err _ => Err Restart | Panic => Panic end).
Definition or_panic {A} (o : outcome Status A) : Net A :=
  lift (match o with Ok a => Ok a | Err _ => Err WorkPanic | Panic => Panic end).

(** [sources/utils.rs]. *)
Definition IMMUTABLE_AFTER_BLOCKS : Z := 1000.

Section worker.
Context (encode_txout : TxOut → list Z) (encode_block : Block → list Z).
Context (shuffle : ∀ A, list A → list A) (decode_txout : list Z → option TxOut).
(** [BlockHash::from_str]. *)
Context (parse_hash : list Z → option (list Z)).
Context (n : Namespace) (intersect : IntersectConfig) (max_items_per_page : option Z).

Definition page_request (request : PageRequest) : Net (outcome Status PageResponse) :=
  call (λ t, page_blocks_with_context encode_txout encode_block shuffle t request).

(** Whether the point is on the server's chain: one page from it. *)
Definition page_from (p : Point) : Net (outcome Status PageResponse) :=
  page_request (mkPageRequest (Some (point_to_block_ref p)) 1).

(** The first of the points that is on the chain. *)
Fixpoint intersect_points (points : list Point) : Net (option Point) :=
  match points with
  | [] => lift (Err WorkPanic)
  | point :: points =>
      res ← page_from point;
      match res with
      | Ok _ => mret (Some point)
      | Err NotFound => intersect_points points
      | _ => lift (Err WorkPanic)
      end
  end.

Definition try_intersect_with_rollback_buf (s : Store) : Net (option Point) :=
  buf ← lift (fetch_persistent_buffer n s);
  match buf with
  | Some buf => intersect_points (rev (map pb_point buf))
  | None => mret None
  end.

Definition expect_intersect (point : Point) : Net (option Point) :=
  res ← page_from point;
  match res with Ok _ => mret (Some point) | _ => lift (Err WorkPanic) end.

Definition try_intersect_with_last_point_or_config (s : Store) : Net (option Point) :=
  last ← lift (last_point n s);
  match last with
  | Some point => expect_intersect point
  | None =>
      match intersect with
      | IntersectOrigin => mret None
      | IntersectTip =>
          res ← page_request (mkPageRequest None 1);
          res ← or_panic res;
          match chain_tip res with
          | Some tip => point ← lift (block_ref_to_point tip); mret (Some point)
          | None => mret None
          end
      | IntersectPoint height hash =>
          hash ← lift (unwrap (parse_hash hash));
          expect_intersect (mkPoint height hash)
      end
  end.

(** [s] and [s'] are the store when the buffer and when the cursor are read. *)
Definition bootstrap (s s' : Store) : Net unit :=
  found ← try_intersect_with_rollback_buf s;
  intersect ← match found with
    | Some point => send (EnrichedBack point true);; mret (Some point)
    | None => try_intersect_with_last_point_or_config s'
    end;
  res ← page_request (mkPageRequest None 1);
  res ← or_panic res;
  set_upstream (br_height <$> chain_tip res);;
  set_mode (Dumping (point_to_block_ref <$> intersect)).

(** Within the mutable part of the chain, the stream from the last block is tried. *)
Definition try_stream : Net unit :=
  w ← get_worker;
  match upstream_height w, mode w with
  | Some upstream_height, Dumping (Some cursor) =>
      if upstream_height <=? wrap 64 (br_height cursor + IMMUTABLE_AFTER_BLOCKS) then
        res ← call (λ t, stream_updates_with_context t [cursor]);
        match res with
        | Ok _ => set_mode Streaming
        | Err NotFound => mret tt
        | Err _ => lift (Err Restart)
        | Panic => lift Panic
        end
      else mret tt
  | _, _ => mret tt
  end.

(** What is to be done next, [None] when there is nothing.  [next] is what the stream
    gives, nothing when it has ended. *)
Definition fetch (next : option (outcome Status (option Action))) : Net (option SourceWorkUnit) :=
  w ← get_worker;
  match mode w with
  | Init => lift Panic
  | Streaming =>
      next ← lift (ok_or Restart next);
      action ← or_restart next;
      mret (match action with Some action => Some (mkUnit [action] true) | None => None end)
  | Dumping cursor =>
      res ← page_request (mkPageRequest cursor (default 20 max_items_per_page));
      result ← or_restart res;
      match last (ps_blocks result) with
      | Some last_block => set_mode (Dumping (bc_ref last_block))
      | None => mret tt
      end;;
      set_upstream (br_height <$> chain_tip result);;
      mret (match map ActApply (ps_blocks result) with
            | [] => None
            | actions => Some (mkUnit actions false)
            end)
  end.

Definition schedule (next : option (outcome Status (option Action))) : Net (option SourceWorkUnit) :=
  try_stream;; fetch next.

Definition process_action (action : Action) (mutable : bool) : Net unit :=
  payload ← lift (action_payload decode_txout action mutable);
  match payload with Some p => send p | None => mret tt end.

Fixpoint process_actions (actions : list Action) (mutable : bool) : Net unit :=
  match actions with
  | [] => mret tt
  | action :: actions => process_action action mutable;; process_actions actions mutable
  end.

Definition execute (u : SourceWorkUnit) : Net unit := process_actions (actions u) (unit_mutable u).

End worker.

End Source.
