(* ===== verification/SourceContext.v ===== *)
(** The context of a block, from the compressor's tables to polyphony's reducers:
    what [Source.context_of] makes of the message [Server.block_with_context]. *)

From S2P Require Import Prelude Dunes Dunestone Types DunesUpdater Inscription Brc20 InscriptionsUpdater ChainDB Timbre Crosscut StorageAction ReducerOutput TikvWorker Reducers Server Source.
Import Dunestone Types Brc20 InscriptionsUpdater ChainDB Crosscut Reducers Server Source.

Module SourceContext.

(** ** Folds *)

Lemma foldM_map_ok {E A B S} (step : S → B → outcome E S) (g : A → B) (h : S → A → S) l s :
  (∀ s x, x ∈ l → step s (g x) = Ok (h s x)) → foldM step s (map g l) = Ok (foldl h s l).
Proof.
  induction l as [|x l IH] in s |- *; intros H; [done|]. cbn. rewrite H by set_solver.
  apply IH. set_solver.
Qed.

Lemma collect_map_ok {A B C} (f : B → outcome WorkError C) (g : A → B) (h : A → C) l :
  (∀ x, x ∈ l → f (g x) = Ok (h x)) → collect f (map g l) = Ok (map h l).
Proof.
  intros H. unfold collect.
  rewrite (foldM_map_ok _ _ (λ cs x, cs ++ [h x])) by (intros cs x Hx; by rewrite H).
  f_equal. enough (Hacc : ∀ acc, foldl (λ cs x, cs ++ [h x]) acc l = acc ++ map h l) by apply Hacc.
  clear H. induction l as [|x l IH]; intros acc; cbn; [by rewrite app_nil_r|].
  by rewrite IH, <- app_assoc.
Qed.

(** A list that is not empty. *)
Definition nonempty {A} (l : list A) : option (list A) :=
  match l with [] => None | _ => Some l end.

(** Inserting a value unless it is left out. *)
Definition put_some {A B} (g : A → option B) (m : gmap TxoRef B) (x : TxoRef * A) : gmap TxoRef B :=
  match g x.2 with Some v => <[x.1 := v]> m | None => m end.

Lemma foldl_insert_omap {A B} (g : A → option B) (l : list (TxoRef * A)) (m : gmap TxoRef B) :
  NoDup l.*1 →
  foldl (put_some g) m l
  = omap g (list_to_map l : gmap TxoRef A) ∪ m.
Proof.
  induction l as [|[k a] l IH] in m |- *; intros Hnd; cbn.
  { by rewrite omap_empty, (left_id_L ∅ (∪)). }
  apply NoDup_cons in Hnd as [Hk Hnd]. rewrite IH by done. unfold put_some. cbn [fst snd].
  assert (Hn : (list_to_map l : gmap TxoRef A) !! k = None) by by apply not_elem_of_list_to_map_1.
  destruct (g a) as [v|] eqn:E.
  - rewrite (omap_insert_Some _ _ _ _ _ E), <- insert_union_l, insert_union_r; [done|].
    rewrite lookup_omap, Hn. done.
  - rewrite (omap_insert_None _ _ _ _ E), delete_id; [done|]. by rewrite lookup_omap, Hn.
Qed.

Lemma shuffled_map {A} (shuffle : ∀ A, list A → list A) (m : gmap TxoRef A) :
  (∀ A l, shuffle A l ≡ₚ l) →
  NoDup (shuffle _ (map_to_list m)).*1 ∧ list_to_map (shuffle _ (map_to_list m)) = m.
Proof.
  intros Hs. assert (Hnd : NoDup (shuffle _ (map_to_list m)).*1).
  { rewrite (Hs _ _). apply NoDup_fst_map_to_list. }
  split; [done|]. rewrite (list_to_map_proper _ (map_to_list m)); [apply list_to_map_to_list|done|by apply Hs].
Qed.

(** ** Values there and back *)

Lemma unwrap_int_be k z : 0 ≤ z < 256 ^ Z.of_nat k → unwrap_int k (be_bytes k z) = Ok z.
Proof.
  intros Hz. unfold unwrap_int, to_array. rewrite length_be_bytes, Nat.eqb_refl. cbn.
  by rewrite of_be_be_bytes_small.
Qed.

Definition txid_ok (t : Z) : Prop := in_range 256 t.
Definition ref_ok (r : TxoRef) : Prop := txid_ok r.1 ∧ in_range 32 r.2.

Lemma in_range_bytes (k : nat) w z : w = 8 * Z.of_nat k → in_range w z → 0 ≤ z < 256 ^ Z.of_nat k.
Proof.
  intros -> Hz. unfold in_range in Hz. rewrite Z.pow_mul_r in Hz by lia. exact Hz.
Qed.

Lemma unwrap_hash t : txid_ok t → unwrap_int 32 (hash_bytes t) = Ok t.
Proof. intros Ht. apply unwrap_int_be. by apply (in_range_bytes 32 256). Qed.
Lemma unwrap_u128 z : in_range 128 z → unwrap_int 16 (be_bytes 16 z) = Ok z.
Proof. intros Hz. apply unwrap_int_be. by apply (in_range_bytes 16 128). Qed.
Lemma of_hash_bytes t : txid_ok t → of_be_bytes (hash_bytes t) = t.
Proof. intros Ht. apply of_be_be_bytes_small. by apply (in_range_bytes 32 256). Qed.
Lemma to_array_be k z : to_array k (be_bytes k z) = Some (be_bytes k z).
Proof. unfold to_array. by rewrite length_be_bytes, Nat.eqb_refl. Qed.
Lemma hash_bytes_ok t : bytes_ok (hash_bytes t).
Proof. apply be_bytes_ok. Qed.
Lemma be_bytes_shift k a z : be_bytes k (a * 256 ^ Z.of_nat k + z) = be_bytes k z.
Proof.
  induction k as [|k IH] in a |- *; [done|]. cbn [be_bytes].
  replace (256 ^ Z.of_nat (S k)) with (256 * 256 ^ Z.of_nat k)
    by (rewrite Nat2Z.inj_succ, Z.pow_succ_r by lia; lia).
  replace (a * (256 * 256 ^ Z.of_nat k)) with (a * 256 * 256 ^ Z.of_nat k) by lia.
  rewrite IH, Z.div_add_l by (apply Z.pow_nonzero; lia). f_equal.
  rewrite Z.add_comm. apply Z.mod_add. lia.
Qed.
Lemma be_bytes_of l : bytes_ok l → be_bytes (length l) (of_be_bytes l) = l.
Proof.
  induction 1 as [|b l Hb Hl IH]; [done|]. cbn [length be_bytes]. rewrite of_be_bytes_cons.
  rewrite be_bytes_shift, IH. f_equal. pose proof (of_be_bytes_bound l Hl) as Hr.
  rewrite Z.div_add_l, Z.div_small, Z.add_0_r by lia. by apply Z.mod_small.
Qed.
Lemma hash_bytes_of b : length b = 32%nat → bytes_ok b → hash_bytes (of_be_bytes b) = b.
Proof. intros Hl Hb. unfold hash_bytes. rewrite <- Hl. by apply be_bytes_of. Qed.
Lemma to_array_hash t : to_array 32 (hash_bytes t) = Some (hash_bytes t).
Proof. apply to_array_be. Qed.
#[local] Opaque be_bytes hash_bytes unwrap_int to_array.

Lemma output_ref_msg r : ref_ok r → output_ref (Some (txo_ref_msg r)) = Ok r.
Proof.
  intros [Ht Hi]. unfold output_ref, txo_ref_msg. cbn [ok_or mbind outcome_bind tr_tx_hash tr_txo_index].
  rewrite to_array_hash. cbn [ok_or mbind outcome_bind]. rewrite of_hash_bytes, wrap_small by done. by destruct r.
Qed.

Lemma inscription_id_msg_ok i :
  txid_ok (iid_txid i) → inscription_id (Some (inscription_id_msg i)) = Ok i.
Proof.
  intros Ht. assert (E : ∀ m, inscription_id (Some m)
    = (t ← unwrap_int 32 (im_tx_hash m); Ok (mkInscriptionId t (im_index m)))) by done.
  rewrite E. cbn [im_tx_hash im_index inscription_id_msg]. rewrite unwrap_hash by done. by destruct i.
Qed.

Definition rune_of_dune (x : KDuneId * Z) : RuneId * Z := ((kd_block x.1, kd_tx x.1), x.2).
Definition dune_ok (x : KDuneId * Z) : Prop := in_range 32 (kd_tx x.1) ∧ in_range 128 x.2.

Lemma rune_of_msg x : dune_ok x → rune_of (rune_msg x) = Ok (rune_of_dune x).
Proof.
  intros [Ht Ha]. assert (E : ∀ id amount, rune_of (mkRuneMsg (Some id) amount)
    = (a ← unwrap_int 16 amount; Ok ((ri_block id, ri_tx id), a))) by done.
  unfold rune_msg. rewrite E, unwrap_u128, wrap_small by done. done.
Qed.

(** The offset has 32 bits on the wire. *)
Definition item_ok (x : Z * InscriptionId) : Prop := txid_ok (iid_txid x.2) ∧ in_range 32 x.1.

Lemma at_offset_of_msg x : item_ok x → at_offset_of (at_offset x) = Ok x.
Proof.
  intros [Hx Ho]. unfold at_offset_of. cbn [at_offset ao_id ao_offset].
  rewrite inscription_id_msg_ok, wrap_small by done. by destruct x.
Qed.

Definition ctx_message (m : BRC20Message) : CtxMessage :=
  match m with
  | Deploy ticker => CtxDeploy ticker
  | Mint ticker amt sh => CtxMint ticker amt (be_bytes 20 sh)
  | Transfer ticker amt op sh => CtxTransfer ticker amt (txo_ref_of op) (be_bytes 20 sh)
  | TransferInit ticker amt sh => CtxTransferInit ticker amt (be_bytes 20 sh)
  end.

Definition message_ok (m : BRC20Message) : Prop :=
  match m with
  | Deploy _ => True
  | Mint _ amt _ | TransferInit _ amt _ => in_range 128 amt
  | Transfer _ amt op _ => in_range 128 amt ∧ txid_ok (op_txid op)
  end.

Lemma message_of_parts ticker a s o amt sh txid :
  unwrap_int 16 a = Ok amt → to_array 20 s = Some sh → unwrap_int 32 (tr_tx_hash o) = Ok txid →
  message_of (KMint ticker a s) = Ok (CtxMint ticker amt sh)
  ∧ message_of (KTransferInit ticker a s) = Ok (CtxTransferInit ticker amt sh)
  ∧ message_of (KTransfer ticker a (Some o) s)
    = Ok (CtxTransfer ticker amt (txid, tr_txo_index o) sh).
Proof.
  intros Ha Hs Ho. cbn [message_of unwrap mbind outcome_bind]. by rewrite Ha, Ho, Hs.
Qed.

Lemma message_of_kind m : message_ok m → message_of (brc20_kind m) = Ok (ctx_message m).
Proof.
  assert (H0 : txid_ok 0) by by unfold txid_ok, in_range.
  destruct m as [|ticker amt sh|ticker amt op sh|ticker amt sh]; cbn [message_ok brc20_kind ctx_message]; [done|..].
  - intros Ha. by apply (message_of_parts _ _ _ (mkTxoRefMsg (hash_bytes 0) 0) _ _ 0);
      [apply unwrap_u128|apply to_array_be|apply unwrap_hash].
  - intros [Ha Ht]. by apply (message_of_parts _ _ _ (mkTxoRefMsg (hash_bytes (op_txid op)) (op_vout op)));
      [apply unwrap_u128|apply to_array_be|apply unwrap_hash].
  - intros Ha. by apply (message_of_parts _ _ _ (mkTxoRefMsg (hash_bytes 0) 0) _ _ 0);
      [apply unwrap_u128|apply to_array_be|apply unwrap_hash].
Qed.

(** ** The fields of a context *)

(** A fold that changes one field. *)
Lemma foldl_field {S M A} (get : S → M) (set : M → S → S) (step : M → A → M) l c :
  (∀ c, set (get c) c = c) → (∀ m c, get (set m c) = m) →
  (∀ m m' c, set m (set m' c) = set m c) →
  foldl (λ c x, set (step (get c) x) c) c l = set (foldl step (get c) l) c.
Proof.
  intros H1 H2 H3. induction l as [|x l IH] in c |- *; cbn; [by rewrite H1|].
  by rewrite IH, H2, H3.
Qed.

Definition set_inputs m (c : BlockContext) : BlockContext :=
  mkContext m (runes_resolver c) (rune_mint_idxs c) (rune_etch_idxs c) (inscriptions_resolver c)
    (valid_reinscriptions c) (brc20_resolver c) (new_inscriptions_map c).
Definition set_runes m (c : BlockContext) : BlockContext :=
  mkContext (input_resolver c) m (rune_mint_idxs c) (rune_etch_idxs c) (inscriptions_resolver c)
    (valid_reinscriptions c) (brc20_resolver c) (new_inscriptions_map c).
Definition set_inscriptions m (c : BlockContext) : BlockContext :=
  mkContext (input_resolver c) (runes_resolver c) (rune_mint_idxs c) (rune_etch_idxs c) m
    (valid_reinscriptions c) (brc20_resolver c) (new_inscriptions_map c).
Definition set_brc20 m (c : BlockContext) : BlockContext :=
  mkContext (input_resolver c) (runes_resolver c) (rune_mint_idxs c) (rune_etch_idxs c)
    (inscriptions_resolver c) (valid_reinscriptions c) m (new_inscriptions_map c).
Definition set_new m (c : BlockContext) : BlockContext :=
  mkContext (input_resolver c) (runes_resolver c) (rune_mint_idxs c) (rune_etch_idxs c)
    (inscriptions_resolver c) (valid_reinscriptions c) (brc20_resolver c) m.

(** ** Inscriptions by output *)

Lemma push_all r xs m :
  foldl (λ m x, push_at m r x) m xs
  = match nonempty (map at_offset xs) with
    | Some v => <[r := default [] (m !! r) ++ v]> m
    | None => m
    end.
Proof.
  induction xs as [|x xs IH] in m |- *; [done|]. cbn [foldl]. rewrite IH. unfold push_at.
  rewrite lookup_insert_eq. cbn [map nonempty default]. destruct xs as [|y xs]; [done|]. cbn [map nonempty].
  rewrite insert_insert_eq. unfold id. by rewrite <- (assoc_L (++)).
Qed.

Lemma group_spec l :
  NoDup l.*1 →
  group_inscriptions l
  = omap (λ xs, nonempty (map at_offset xs)) (list_to_map l : gmap TxoRef (list (Z * InscriptionId))).
Proof.
  intros Hnd. transitivity (foldl (put_some (λ xs, nonempty (map at_offset xs))) ∅ l).
  2: { rewrite foldl_insert_omap by done. by rewrite (right_id_L ∅ (∪)). }
  unfold group_inscriptions.
  assert (Hm : ∀ k, k ∈ l.*1 → (∅ : gmap TxoRef (list InscriptionAtOffset)) !! k = None)
    by (intros; apply lookup_empty).
  revert Hm. generalize (∅ : gmap TxoRef (list InscriptionAtOffset)) as m.
  induction l as [|[k xs] l IH]; intros m Hm; [done|]. cbn [foldl fst snd]. rewrite push_all.
  apply NoDup_cons in Hnd as [Hk Hnd]. cbn [fst] in Hk. unfold put_some at 2. cbn [fst snd].
  destruct (nonempty _) as [v|] eqn:E; (rewrite IH; [|done|]).
  - rewrite (Hm k) by (cbn; set_solver). done.
  - intros k' Hk'. rewrite lookup_insert_ne by (intros ->; done). apply Hm. cbn. set_solver.
  - done.
  - intros k' Hk'. apply Hm. cbn. set_solver.
Qed.

(** What the source reads of a grouped output. *)
Definition read_offsets (v : list InscriptionAtOffset) : list (Z * InscriptionId) :=
  match collect at_offset_of v with Ok l => l | _ => [] end.

Lemma collect_offsets xs :
  Forall item_ok xs → collect at_offset_of (map at_offset xs) = Ok xs.
Proof.
  intros Hxs. rewrite <- (map_id xs) at 2. apply collect_map_ok. intros x Hx. apply at_offset_of_msg.
  rewrite Forall_forall in Hxs. by apply Hxs.
Qed.

Lemma read_grouped (m : gmap TxoRef (list (Z * InscriptionId))) :
  map_Forall (λ _ xs, Forall item_ok xs) m →
  omap (λ v, nonempty (read_offsets v)) (omap (λ xs, nonempty (map at_offset xs)) m) = omap nonempty m.
Proof.
  intros Hm. apply map_eq. intros k. rewrite !lookup_omap. destruct (m !! k) as [xs|] eqn:E; [|done].
  cbn. destruct xs as [|x xs]; [done|]. cbn [map nonempty mbind option_bind].
  change (at_offset x :: map at_offset xs) with (map at_offset (x :: xs)).
  unfold read_offsets. by rewrite collect_offsets by exact (Hm k _ E).
Qed.

(** ** The context of a stored block *)

(** The values of an entry fit their types on the wire (an inscription is within the first
    [2 ^ 32] satoshis of its output); an output is listed once, and a transaction makes at
    most one inscription. *)
Record entry_wf (e : ResolverEntry) : Prop := {
  ew_resolver : map_Forall (λ r b, ref_ok r ∧ Forall dune_ok (tb_dunes b)
      ∧ Forall item_ok (tb_inscriptions b)) (re_resolver e);
  ew_runes : NoDup (re_output_runes e).*1
      ∧ Forall (λ x, ref_ok x.1 ∧ Forall dune_ok x.2) (re_output_runes e);
  ew_inscriptions : NoDup (re_output_inscriptions e).*1
      ∧ Forall (λ x, ref_ok x.1 ∧ Forall item_ok x.2) (re_output_inscriptions e);
  ew_etches : Forall (λ x, in_range 128 x.2) (re_etches e);
  ew_brc20 : Forall (λ x, txid_ok (iid_txid x.1) ∧ message_ok x.2) (re_brc20 e);
  ew_new : NoDup (map ni_tx_hash (re_new_inscriptions e))
      ∧ Forall (λ i, txid_ok (ni_tx_hash i) ∧ txid_ok (iid_txid (ni_id i))) (re_new_inscriptions e);
}.

Definition ctx_utxo (b : TxoBody) : ContextUtxo :=
  mkContextUtxo (tb_height b) (tb_raw b) (tb_ord_ranges b).
Definition runes_in (d : list (KDuneId * Z)) : option (list (RuneId * Z)) :=
  nonempty (map rune_of_dune d).

Section context.
Context (encode_txout : TxOut → list Z) (decode_txout : list Z → option TxOut).
Context (shuffle : ∀ A, list A → list A).
Context (Hdecode : ∀ o, decode_txout (encode_txout o) = Some o).
Context (Hshuffle : ∀ A l, shuffle A l ≡ₚ l).

Lemma add_txos (m : Resolver) c :
  map_Forall (λ r _, ref_ok r) m →
  foldM (add_txo decode_txout) c (map (resolved_txo encode_txout) (shuffle _ (map_to_list m)))
  = Ok (set_inputs ((ctx_utxo <$> m) ∪ input_resolver c) c).
Proof.
  intros Hm. destruct (shuffled_map shuffle m Hshuffle) as [Hnd Hmap].
  rewrite (foldM_map_ok _ _ (λ c x, set_inputs (put_some (λ b, Some (ctx_utxo b)) (input_resolver c) x) c)).
  - rewrite (foldl_field input_resolver set_inputs); [|by intros []|done..].
    rewrite foldl_insert_omap by done. by rewrite Hmap, map_fmap_alt.
  - intros c' [r b] Hx%(elem_of_list_to_map_1 _ _ _ Hnd). rewrite Hmap in Hx.
    unfold add_txo. cbn [resolved_txo rt_ref rt_height rt_raw rt_ord_ranges fst snd].
    rewrite output_ref_msg by exact (Hm _ _ Hx). cbn [mbind outcome_bind]. unfold insert_txo.
    by rewrite Hdecode.
Qed.

Lemma add_runes_list l c :
  NoDup l.*1 → Forall (λ x, ref_ok x.1 ∧ Forall dune_ok x.2) l →
  foldM add_runes c (map runes_txo l)
  = Ok (set_runes (omap runes_in (list_to_map l : gmap TxoRef _) ∪ runes_resolver c) c).
Proof.
  intros Hnd Hl.
  rewrite (foldM_map_ok _ _ (λ c x, set_runes (put_some runes_in (runes_resolver c) x) c)).
  - rewrite (foldl_field runes_resolver set_runes); [|by intros []|done..].
    by rewrite foldl_insert_omap.
  - intros c' [r d] Hx. rewrite Forall_forall in Hl. destruct (Hl _ Hx) as [Hr Hd]. cbn [fst snd] in *.
    unfold add_runes. cbn [runes_txo rr_ref rr_runes fst snd]. rewrite output_ref_msg by done.
    cbn [mbind outcome_bind]. rewrite (collect_map_ok _ _ rune_of_dune).
    2: { intros x Hxd. apply rune_of_msg. rewrite Forall_forall in Hd. by apply Hd. }
    cbn [mbind outcome_bind]. unfold put_some, runes_in. cbn [fst snd].
    destruct (map rune_of_dune d); [|done]. by destruct c'.
Qed.

Lemma add_inscriptions_list (m : gmap TxoRef (list (Z * InscriptionId))) c :
  map_Forall (λ r xs, ref_ok r ∧ Forall item_ok xs) m →
  foldM add_inscriptions c (map inscription_txo
    (shuffle _ (map_to_list (omap (λ xs, nonempty (map at_offset xs)) m))))
  = Ok (set_inscriptions (omap nonempty m ∪ inscriptions_resolver c) c).
Proof.
  intros Hm. set (g := omap _ m). destruct (shuffled_map shuffle g Hshuffle) as [Hnd Hmap].
  rewrite (foldM_map_ok _ _ (λ c x,
    set_inscriptions (put_some (λ v, nonempty (read_offsets v)) (inscriptions_resolver c) x) c)).
  - rewrite (foldl_field inscriptions_resolver set_inscriptions); [|by intros []|done..].
    rewrite foldl_insert_omap by done. rewrite Hmap. unfold g. rewrite read_grouped; [done|].
    intros r xs Hr. by apply (Hm r xs).
  - intros c' [r v] Hx%(elem_of_list_to_map_1 _ _ _ Hnd). rewrite Hmap in Hx. unfold g in Hx.
    rewrite lookup_omap in Hx. destruct (m !! r) as [xs|] eqn:E; [|done]. cbn in Hx.
    destruct (Hm r xs E) as [Hr Hxs].
    assert (v = map at_offset xs) as -> by (destruct (map at_offset xs); [done|by injection Hx as <-]).
    unfold add_inscriptions. cbn [inscription_txo ir_ref ir_inscriptions fst snd].
    rewrite output_ref_msg by done. cbn [mbind outcome_bind]. rewrite collect_offsets by done.
    cbn [mbind outcome_bind]. unfold put_some. cbn [fst snd]. unfold read_offsets.
    rewrite collect_offsets by done. destruct xs; [|done]. by destruct c'.
Qed.

Definition push_message (m : gmap InscriptionId (list CtxMessage)) (x : InscriptionId * BRC20Message)
  : gmap InscriptionId (list CtxMessage) :=
  <[x.1 := default [] (m !! x.1) ++ [ctx_message x.2]]> m.

Lemma add_brc20s l c :
  Forall (λ x, txid_ok (iid_txid x.1) ∧ message_ok x.2) l →
  foldM add_brc20 c (map brc20_msg l) = Ok (set_brc20 (foldl push_message (brc20_resolver c) l) c).
Proof.
  intros Hl. rewrite Forall_forall in Hl.
  rewrite (foldM_map_ok _ _ (λ c x, set_brc20 (push_message (brc20_resolver c) x) c)).
  - by rewrite (foldl_field brc20_resolver set_brc20); [|intros []|..].
  - intros c' x Hx. destruct (Hl x Hx) as [Hi Hm]. unfold add_brc20. cbn [brc20_msg b2_id b2_action].
    rewrite inscription_id_msg_ok by done. cbn [mbind outcome_bind unwrap].
    rewrite message_of_kind by done. done.
Qed.

Lemma pushed_messages l m i :
  foldl push_message m l !! i
  = match map (λ x, ctx_message x.2) (filter (λ x, x.1 = i) l) with
    | [] => m !! i
    | new => Some (default [] (m !! i) ++ new)
    end.
Proof.
  induction l as [|x l IH] in m |- *; [done|]. cbn [foldl]. rewrite IH. unfold push_message.
  rewrite filter_cons. destruct (decide (x.1 = i)) as [<-|Hne]; cbn [map].
  - rewrite lookup_insert_eq. cbn [default]. unfold id.
    destruct (map _ (filter _ l)); [done|]. by rewrite <- (assoc_L (++)).
  - by rewrite lookup_insert_ne.
Qed.

Definition origin_of (i : NewInscriptionInfo) : InscriptionId * Z * list Z * list Z :=
  (ni_id i, ni_number i, ni_body_type i, ni_body i).
Definition put_origin (m : gmap Txid (InscriptionId * Z * list Z * list Z)) (i : NewInscriptionInfo) :=
  <[ni_tx_hash i := origin_of i]> m.

Lemma add_origins l c :
  Forall (λ i, txid_ok (ni_tx_hash i) ∧ txid_ok (iid_txid (ni_id i))) l →
  foldM add_origin c (map origin_msg l) = Ok (set_new (foldl put_origin (new_inscriptions_map c) l) c).
Proof.
  intros Hl. rewrite Forall_forall in Hl.
  rewrite (foldM_map_ok _ _ (λ c x, set_new (put_origin (new_inscriptions_map c) x) c)).
  - by rewrite (foldl_field new_inscriptions_map set_new); [|intros []|..].
  - intros c' x Hx. destruct (Hl x Hx) as [Ht Hi]. unfold add_origin, origin_msg.
    cbn [io_tx_hash io_id io_num io_type io_content]. rewrite unwrap_hash by done.
    cbn [mbind outcome_bind]. by rewrite inscription_id_msg_ok.
Qed.

Lemma put_origins_other l m t : t ∉ map ni_tx_hash l → foldl put_origin m l !! t = m !! t.
Proof.
  induction l as [|x l IH] in m |- *; [done|]. cbn [foldl map]. intros [Hx Hl]%not_elem_of_cons. rewrite IH by done.
  unfold put_origin. by rewrite lookup_insert_ne.
Qed.

Lemma put_origins l m i :
  NoDup (map ni_tx_hash l) → i ∈ l → foldl put_origin m l !! ni_tx_hash i = Some (origin_of i).
Proof.
  induction l as [|x l IH] in m |- *; intros Hnd Hi; [by apply not_elem_of_nil in Hi|]. cbn [foldl].
  apply NoDup_cons in Hnd as [Hx Hnd]. apply elem_of_cons in Hi as [->|Hi]; [|by apply IH].
  rewrite put_origins_other by done. unfold put_origin. by rewrite lookup_insert_eq.
Qed.

(** The context the reducers are meant to have of a block: of an output that the
    block spends what was stored with it, of an output it makes what it was given
    there; the messages of an inscription in their order; of a transaction that makes an
    inscription that one. *)
Record context_for (e : ResolverEntry) (ctx : BlockContext) : Prop := {
  cf_utxo : ∀ r, find_utxo ctx r = ok_or MissingUtxo (ctx_utxo <$> re_resolver e !! r);
  cf_runes : ∀ r, utxo_runes ctx r
    = ((list_to_map (re_output_runes e) : gmap TxoRef _) !! r ≫= runes_in)
      ∪ (re_resolver e !! r ≫= (λ b, runes_in (tb_dunes b)));
  cf_mints : rune_mint_idxs ctx = re_mints e;
  cf_etches : rune_etch_idxs ctx = re_etches e;
  cf_inscriptions : ∀ r, utxo_inscriptions ctx r
    = ((list_to_map (re_output_inscriptions e) : gmap TxoRef _) !! r ≫= nonempty)
      ∪ (re_resolver e !! r ≫= (λ b, nonempty (tb_inscriptions b)));
  cf_reinscriptions : valid_reinscriptions ctx = re_valid_reinscriptions e;
  cf_brc20 : ∀ i, inscription_brc20s ctx i
    = nonempty (map (λ x, ctx_message x.2) (filter (λ x, x.1 = i) (re_brc20 e)));
  cf_new : ∀ i, i ∈ re_new_inscriptions e → new_inscriptions ctx (ni_tx_hash i) = Some (origin_of i);
  cf_no_new : ∀ t, t ∉ map ni_tx_hash (re_new_inscriptions e) → new_inscriptions ctx t = None;
}.

Lemma runes_info_added e c :
  entry_wf e →
  add_runes_info c (runes_info shuffle e)
  = Ok (mkContext (input_resolver c)
          (omap runes_in (list_to_map (re_output_runes e) : gmap TxoRef _)
           ∪ (omap runes_in (tb_dunes <$> re_resolver e) ∪ runes_resolver c))
          (re_mints e) (re_etches e) (inscriptions_resolver c) (valid_reinscriptions c)
          (brc20_resolver c) (new_inscriptions_map c)).
Proof.
  intros He. destruct (shuffled_map shuffle (re_resolver e) Hshuffle) as [Hnd Hmap].
  unfold add_runes_info, runes_info. cbn [ru_txo_resolver successful_etchs successful_mints].
  rewrite foldM_app.
  rewrite <- (map_map (λ x, (x.1, tb_dunes x.2)) runes_txo), add_runes_list.
  - cbn [mbind outcome_bind]. destruct (ew_runes e He) as [? ?]. rewrite add_runes_list by done.
    cbn [mbind outcome_bind]. rewrite (collect_map_ok _ _ id).
    2: { intros [i name] Hx. pose proof (ew_etches e He) as Hn. rewrite Forall_forall in Hn.
         cbn [ve_name ve_tx_index fst snd]. rewrite unwrap_u128 by exact (Hn _ Hx). done. }
    cbn [mbind outcome_bind]. unfold set_runes. cbn [input_resolver runes_resolver inscriptions_resolver
      valid_reinscriptions brc20_resolver new_inscriptions_map].
    rewrite map_map, map_id. f_equal. f_equal.
    + f_equal. f_equal. f_equal. rewrite <- Hmap at 2. by rewrite <- list_to_map_fmap.
    + rewrite <- (map_id (re_mints e)) at 2. apply map_ext. by intros [].
  - rewrite <- list_fmap_compose. exact Hnd.
  - apply Forall_map, Forall_forall. intros [r b] Hx%(elem_of_list_to_map_1 _ _ _ Hnd).
    rewrite Hmap in Hx. cbn. by destruct (ew_resolver e He _ _ Hx) as (? & ? & _).
Qed.


Lemma inscriptions_info_added e c :
  entry_wf e →
  add_inscriptions_info c (inscriptions_info shuffle e)
  = Ok (mkContext (input_resolver c) (runes_resolver c) (rune_mint_idxs c) (rune_etch_idxs c)
          (omap nonempty (list_to_map (re_output_inscriptions e) : gmap TxoRef _)
           ∪ (omap nonempty (tb_inscriptions <$> re_resolver e) ∪ inscriptions_resolver c))
          (re_valid_reinscriptions e) (foldl push_message (brc20_resolver c) (re_brc20 e))
          (foldl put_origin (new_inscriptions_map c) (re_new_inscriptions e))).
Proof.
  intros He. destruct (shuffled_map shuffle (re_resolver e) Hshuffle) as [Hnd Hmap].
  destruct (ew_inscriptions e He) as [Hnd' Hout].
  unfold add_inscriptions_info, inscriptions_info. cbv zeta.
  cbn [in_txo_resolver in_valid_reinscriptions in_brc20_resolver in_new_inscriptions].
  rewrite foldM_app, !group_spec by first [done | rewrite <- list_fmap_compose; exact Hnd].
  assert (list_to_map (map (λ x, (x.1, tb_inscriptions x.2)) (shuffle _ (map_to_list (re_resolver e))))
          = tb_inscriptions <$> re_resolver e) as ->.
  { rewrite <- Hmap at 2. by rewrite <- list_to_map_fmap. }
  rewrite add_inscriptions_list.
  2: { intros r xs (b & <- & Hb)%lookup_fmap_Some. by destruct (ew_resolver e He _ _ Hb) as (? & _ & ?). }
  cbn [mbind outcome_bind]. rewrite add_inscriptions_list.
  2: { intros r xs Hx%(elem_of_list_to_map_2 _ _ _). rewrite Forall_forall in Hout. by apply (Hout _ Hx). }
  cbn [mbind outcome_bind]. rewrite add_brc20s by exact (ew_brc20 e He). cbn [mbind outcome_bind].
  destruct (ew_new e He) as [_ Hnew]. rewrite add_origins by exact Hnew. unfold set_new, set_brc20, set_inscriptions.
  cbn [input_resolver runes_resolver rune_mint_idxs rune_etch_idxs inscriptions_resolver
       valid_reinscriptions brc20_resolver new_inscriptions_map].
  rewrite map_map. do 2 f_equal. rewrite <- (map_id (re_valid_reinscriptions e)) at 2.
  apply map_ext. by intros [].
Qed.

(** C17: The context of a block arrives as it was stored: from the message the server
    makes of the block and of the entry kept with it, in whatever order it lists hash
    maps, the source makes a context in which every spent output, every balance of
    dunes, every mint and etching, every inscription with its offset, every reinscription,
    the token messages of every inscription and every new inscription are those of the
    entry.  This is for entries whose values fit the types of the messages; among them the
    offset of an inscription in its output, of 64 bits in the tables, is to be below
    [2 ^ 32] ([far_inscriptions_collide] is an entry with one that is not), and a
    transaction makes at most one inscription. *)
Theorem context_arrives encode_block height hash block e :
  entry_wf e →
  ∃ ctx, context_of decode_txout
           (block_with_context encode_txout encode_block shuffle height hash block e) = Ok ctx
    ∧ context_for e ctx.
Proof.
  intros He. unfold context_of, block_with_context. cbn [bc_txo_resolver bc_runes bc_inscriptions].
  rewrite add_txos; [|intros r b Hb; by destruct (ew_resolver e He _ _ Hb)].
  cbn [mbind outcome_bind]. rewrite runes_info_added by done. cbn [mbind outcome_bind].
  rewrite inscriptions_info_added by done. eexists. split; [done|].
  split; try done; intros k.
  - unfold find_utxo, set_inputs. cbn. by rewrite (right_id_L ∅ (∪)), lookup_fmap.
  - unfold utxo_runes, set_inputs. cbn. rewrite (right_id_L ∅ (∪)), lookup_union, !lookup_omap, lookup_fmap.
    by destruct (re_resolver e !! k).
  - unfold utxo_inscriptions. cbn. rewrite (right_id_L ∅ (∪)), lookup_union, !lookup_omap, lookup_fmap.
    by destruct (re_resolver e !! k).
  - unfold inscription_brc20s. cbn [brc20_resolver]. rewrite pushed_messages.
    by destruct (map _ (filter _ (re_brc20 e))).
  - unfold new_inscriptions. cbn [new_inscriptions_map]. destruct (ew_new e He). by apply put_origins.
  - unfold new_inscriptions. cbn [new_inscriptions_map]. intros Hk. by rewrite put_origins_other.
Qed.


End context.

(** ** Runs *)

Definition plain_encode (o : TxOut) : list Z := value o :: script_pubkey o.
Definition plain_decode (b : list Z) : option TxOut :=
  match b with v :: s => Some (mkTxOut v s) | [] => None end.
Definition plain_shuffle (A : Type) (l : list A) : list A := rev l.

Lemma plain_roundtrip o : plain_decode (plain_encode o) = Some o.
Proof. by destruct o. Qed.
Lemma plain_shuffle_perm A l : plain_shuffle A l ≡ₚ l.
Proof. apply Permutation_sym, Permutation_rev. Qed.

Definition iid (t : Z) : InscriptionId := mkInscriptionId t 0.

(** A block that spends an output and makes one with inscriptions [xs]. *)
Definition sample_stored (xs : list (Z * InscriptionId)) : ResolverEntry :=
  mkResolverEntry 9
    {[ (1, 0) := mkTxoBody 5 (mkTxOut 100 [81]) [] [(mkKDuneId 3 1, 70)] [(2, iid 6)] ∅ ]}
    [((7, 1), [(mkKDuneId 3 1, 70)])] [] [(1, 0)] [((7, 0), xs)] []
    default_counters [(iid 6, Mint [97] 10 33); (iid 6, Deploy [97])]
    [mkNewInscriptionInfo 7 (iid 7) 4 [1; 2] [3]].

Lemma sample_stored_wf xs : Forall item_ok xs → entry_wf (sample_stored xs).
Proof.
  intros Hxs. unfold item_ok, txid_ok, in_range in *.
  split; unfold ref_ok, dune_ok, message_ok, item_ok, txid_ok, in_range; cbn -[Z.pow].
  - apply map_Forall_singleton. repeat constructor; cbn -[Z.pow]; lia.
  - split; repeat constructor; cbn -[Z.pow]; try lia. set_solver.
  - split; repeat constructor; cbn -[Z.pow]; try lia; [set_solver|done].
  - done.
  - repeat constructor; cbn -[Z.pow]; lia.
  - split; repeat constructor; cbn -[Z.pow]; try lia. set_solver.
Qed.

Lemma context_arrives_witness :
  ∃ ctx, context_of plain_decode (block_with_context plain_encode (λ _, [1]) plain_shuffle 8 9
           (mkBlock 9 8 []) (sample_stored [(3, iid 7)])) = Ok ctx
    ∧ context_for (sample_stored [(3, iid 7)]) ctx.
Proof.
  apply (context_arrives plain_encode plain_decode plain_shuffle plain_roundtrip plain_shuffle_perm).
  apply sample_stored_wf. unfold item_ok, txid_ok, in_range. repeat constructor; cbn -[Z.pow]; lia.
Defined.

(** Offsets of inscriptions have 32 bits on the wire, and 64 in the compressor.  Of
    two inscriptions of one output, at its satoshi 5 and [2 ^ 32] satoshis (some 43
    coins) further on, the reducers see both at 5. *)
Theorem far_inscriptions_collide :
  match context_of plain_decode (block_with_context plain_encode (λ _, [1]) plain_shuffle 8 9
      (mkBlock 9 8 []) (sample_stored [(5, iid 7); (5 + 2 ^ 32, iid 8)])) with
  | Ok ctx => utxo_inscriptions ctx (7, 0)
  | _ => None
  end = Some [(5, iid 7); (5, iid 8)].
Proof. vm_compute. reflexivity. Qed.

End SourceContext.
