(* ===== verification/ServerChain.v ===== *)
(** The chain database as its clients see it: chains of points, the log as a history
    that takes one chain to the next, and what the steps of the roll stage do to
    both. *)

From S2P Require Import Prelude Dunes Dunestone Types DunesUpdater Inscription Brc20 InscriptionsUpdater ChainDB Crosscut Server SourceContext.
Import Dunestone Types Brc20 InscriptionsUpdater ChainDB Crosscut Server SourceContext.

Module ServerChain.

#[local] Opaque be_bytes hash_bytes.

(** ** Chains of points *)

Definition point_of (height : Z) (hash : BlockHash) : Point := mkPoint height (hash_bytes hash).
Definition entry_point (e : Z * (BlockHash * Block)) : Point := point_of e.1 e.2.1.
Definition log_point (l : Log) : Point := point_of (log_height l) (log_hash l).

(** The chain of the server. *)
Definition chain_of (m : gmap Z (BlockHash * Block)) : list Point := map entry_point (sorted_entries m).

(** The chain up to a point that is on it. *)
Fixpoint cut_after (p : Point) (chain : list Point) : option (list Point) :=
  match chain with
  | [] => None
  | q :: chain => if decide (q = p) then Some [q] else (q ::.) <$> cut_after p chain
  end.

(** What an entry of the log does to the chain.  The blocks undone go with the mark
    that follows them. *)
Definition log_step (chain : list Point) (l : Log) : option (list Point) :=
  match l with
  | Apply _ _ _ _ => Some (chain ++ [log_point l])
  | Undo _ _ _ => Some chain
  | Mark _ _ _ => cut_after (log_point l) chain
  end.

Fixpoint replay (chain : list Point) (ls : list Log) : option (list Point) :=
  match ls with [] => Some chain | l :: ls => chain ← log_step chain l; replay chain ls end.

Lemma replay_app chain ls ls' : replay chain (ls ++ ls') = (c ← replay chain ls; replay c ls').
Proof.
  induction ls as [|l ls IH] in chain |- *; [done|]. cbn. destruct (log_step chain l); cbn; [apply IH|done].
Qed.

Lemma cut_after_Some p chain c : cut_after p chain = Some c → ∃ post, chain = c ++ post ∧ last c = Some p.
Proof.
  induction chain as [|q chain IH] in c |- *; [done|]. cbn. case_decide as E.
  - intros [= <-]. subst. by exists chain.
  - intros (c' & (post & -> & Hl)%IH & ->)%fmap_Some. exists post. split; [done|].
    rewrite last_cons. by rewrite Hl.
Qed.

Lemma cut_after_at p pre post : p ∉ pre → cut_after p (pre ++ p :: post) = Some (pre ++ [p]).
Proof.
  induction pre as [|q pre IH]; intros Hp; cbn.
  - by rewrite decide_True.
  - rewrite decide_False by set_solver. rewrite IH by set_solver. done.
Qed.

Section linked.
(** The hash of the previous block, which the hash of a block determines, and the
    height of the first block of the chain. *)
Context (parent : list Z → list Z) (first : Z).

(** Consecutive heights, each block on top of the one before. *)
Inductive linked : list Point → Prop :=
| linked_nil : linked []
| linked_first p : pt_height p = first → linked [p]
| linked_snoc chain p q :
    linked (chain ++ [p]) → pt_height q = pt_height p + 1 → parent (pt_hash q) = pt_hash p →
    linked ((chain ++ [p]) ++ [q]).

Lemma linked_heights chain i p : linked chain → chain !! i = Some p → pt_height p = first + Z.of_nat i.
Proof.
  intros H. revert i p. induction H as [|q Hq|chain q r H IH Hr _]; intros i p.
  - done.
  - destruct i as [|i]; [|done]. intros [= <-]. lia.
  - intros [Hi|[Hi Hp]]%lookup_app_Some; [by apply IH|].
    destruct (i - length (chain ++ [q]))%nat as [|k] eqn:Ek; [|done]. injection Hp as <-.
    rewrite Hr. rewrite (IH (length chain) q) by by apply list_lookup_middle.
    rewrite length_app in *. cbn in *. lia.
Qed.

Lemma linked_prefix chain post : linked (chain ++ post) → linked chain.
Proof.
  induction post as [|p post IH] using rev_ind; [by rewrite app_nil_r|].
  rewrite (assoc_L (++)). intros H. apply IH. inversion H as [E|q Hq E|c q r Hc Hr Hp E].
  - by destruct (chain ++ post).
  - destruct (chain ++ post) as [|? [|]]; [constructor|done..].
  - by apply app_inj_tail in E as [<- <-].
Qed.

(** A chain is determined by its last block. *)
Lemma linked_unique c1 c2 p :
  linked c1 → linked c2 → last c1 = Some p → last c2 = Some p → c1 = c2.
Proof.
  intros H1. revert c2 p. induction H1 as [|q Hq|c q r H1 IH Hr Hp]; intros c2 p H2 L1 L2; [done| |].
  - injection L1 as <-. apply last_Some in L2 as [c2' ->].
    pose proof (linked_heights _ (length c2') q H2 ltac:(by apply list_lookup_middle)).
    destruct c2'; [done|]. cbn in *. lia.
  - rewrite last_snoc in L1. injection L1 as <-.
    inversion H2 as [E|q' Hq' E|c' q' r' H2' Hr' Hp' E].
    + by subst.
    + subst. injection L2 as ->. exfalso.
      pose proof (linked_heights _ (length c) q H1 ltac:(by apply list_lookup_middle)). lia.
    + subst c2. rewrite last_snoc in L2. injection L2 as ->.
      assert (q' = q) as ->.
      { destruct q, q'; cbn in *. f_equal; [lia|congruence]. }
      by rewrite (IH _ q H2') by (by rewrite last_snoc).
Qed.

Lemma linked_NoDup chain : linked chain → NoDup chain.
Proof.
  intros H. apply NoDup_alt. intros i j p Hi Hj.
  apply (linked_heights _ _ _ H) in Hi. apply (linked_heights _ _ _ H) in Hj. lia.
Qed.

End linked.

(** ** The log as a history *)

(** The entries of a log numbered from [n]. *)
Fixpoint numbered (n : Z) (ls : list Log) : list (Z * Log) :=
  match ls with [] => [] | l :: ls => (n, l) :: numbered (n + 1) ls end.

Lemma numbered_app n ls ls' :
  numbered n (ls ++ ls') = numbered n ls ++ numbered (n + Z.of_nat (length ls)) ls'.
Proof.
  induction ls as [|l ls IH] in n |- *; cbn [app numbered length]; [f_equal; lia|].
  rewrite IH. do 3 f_equal. lia.
Qed.

Lemma length_numbered n ls : length (numbered n ls) = length ls.
Proof. induction ls as [|l ls IH] in n |- *; [done|]. cbn. by rewrite IH. Qed.

Lemma drop_numbered i n ls : drop i (numbered n ls) = numbered (n + Z.of_nat i) (drop i ls).
Proof.
  induction ls as [|l ls IH] in i, n |- *; destruct i as [|i]; [done..| |].
  - by replace (n + Z.of_nat 0) with n by lia.
  - cbn [numbered drop]. rewrite IH. f_equal. lia.
Qed.

Lemma elem_of_numbered n ls k l :
  (k, l) ∈ numbered n ls → n ≤ k ∧ ls !! Z.to_nat (k - n) = Some l ∧ k < n + Z.of_nat (length ls).
Proof.
  induction ls as [|l' ls IH] in n |- *; cbn; [by intros ?%not_elem_of_nil|].
  intros [[= -> ->]|H]%elem_of_cons; [replace (n - n) with 0 by lia; split_and!; [lia|done|lia]|].
  apply IH in H as (H1 & H2 & H3). split; [lia|].
  replace (Z.to_nat (k - n)) with (S (Z.to_nat (k - (n + 1)))) by lia. split; [done|lia].
Qed.

(** The entries from a position on. *)
Lemma filter_numbered s n ls :
  filter (λ e, s ≤ e.1) (numbered n ls) = drop (Z.to_nat (s - n)) (numbered n ls).
Proof.
  induction ls as [|l ls IH] in n |- *; cbn [numbered]; [by rewrite drop_nil|].
  rewrite filter_cons. cbn [fst]. case_decide as E.
  - replace (Z.to_nat (s - n)) with 0%nat by lia. rewrite IH.
    by replace (Z.to_nat (s - (n + 1))) with 0%nat by lia.
  - rewrite IH. by replace (Z.to_nat (s - n)) with (S (Z.to_nat (s - (n + 1)))) by lia.
Qed.

Lemma stream_walk_next last ls :
  0 ≤ last → last + Z.of_nat (length ls) < 2 ^ 64 →
  stream_walk last (numbered (last + 1) ls) = (ls, Some (last + Z.of_nat (length ls))).
Proof.
  induction ls as [|l ls IH] in last |- *; intros H0 Hb; cbn [numbered stream_walk length] in *.
  - do 2 f_equal. lia.
  - rewrite wrap_small by (unfold in_range; lia). rewrite Z.eqb_refl. cbn [negb].
    rewrite IH by lia. do 2 f_equal. lia.
Qed.

Lemma stream_walk_gap last n ls :
  0 ≤ last → last + 1 < n → last + 1 < 2 ^ 64 →
  stream_walk last (numbered n ls) = ([], if decide (ls = []) then Some last else None).
Proof.
  intros H0 Hn Hb. destruct ls as [|l ls]; [done|]. cbn [numbered stream_walk length] in *.
  rewrite wrap_small by (unfold in_range; lia). by destruct (Z.eqb_spec n (last + 1)); [lia|].
Qed.

Section history.
Context (parent : list Z → list Z) (first : Z).

(** The log holds the end of a history [hist], numbered from [n0], that has taken the
    chain from [base] to [chain]; the chain was linked all along. *)
Record log_ok (m : gmap Z Log) (next : Z) (base : list Point) (n0 : Z) (hist : list Log)
    (chain : list Point) : Prop := {
  lo_n0 : 0 ≤ n0;
  lo_next : next = n0 + Z.of_nat (length hist);
  lo_bound : next < 2 ^ 64;
  lo_table : ∃ p, (p ≤ length hist)%nat ∧ sorted_entries m = drop p (numbered n0 hist);
  lo_replay : replay base hist = Some chain;
  lo_linked : ∀ i, ∃ c, replay base (take i hist) = Some c ∧ linked parent first c;
}.

Lemma log_keys m next base n0 hist chain :
  log_ok m next base n0 hist chain → ∀ k v, m !! k = Some v → k < next.
Proof.
  intros Hl k v Hk%sorted_entries_elem. destruct (lo_table _ _ _ _ _ _ Hl) as (p & Hp & E).
  rewrite E, drop_numbered in Hk. apply elem_of_numbered in Hk as (_ & _ & Hk).
  rewrite (lo_next _ _ _ _ _ _ Hl). rewrite length_drop in Hk. lia.
Qed.

Lemma log_snoc m next base n0 hist chain l chain' :
  log_ok m next base n0 hist chain → next + 1 < 2 ^ 64 →
  log_step chain l = Some chain' → linked parent first chain' →
  log_ok (<[next := l]> m) (next + 1) base n0 (hist ++ [l]) chain'.
Proof.
  intros Hl Hb Hs Hc. pose proof (log_keys _ _ _ _ _ _ Hl) as Hk.
  destruct Hl as [H0 Hn Hlt (p & Hp & E) Hr Hi].
  assert (Hr' : replay base (hist ++ [l]) = Some chain').
  { rewrite replay_app, Hr. cbn. by rewrite Hs. }
  split; [done|rewrite length_app; cbn; lia|done| |done|].
  - exists p. rewrite length_app. split; [cbn; lia|].
    rewrite sorted_entries_snoc by done. rewrite E, numbered_app, drop_app_le by (by rewrite length_numbered).
    do 2 f_equal. cbn. by rewrite Hn.
  - intros i. destruct (decide (i ≤ length hist)%nat).
    + rewrite take_app_le by done. apply Hi.
    + rewrite take_ge by (rewrite length_app; cbn; lia). eauto.
Qed.

Lemma log_prune m next base n0 hist chain b :
  log_ok m next base n0 hist chain → log_ok (prune b m) next base n0 hist chain.
Proof.
  intros [H0 Hn Hlt (p & Hp & E) Hr Hi]. split; try done.
  destruct (prune_keys_split b (sorted_entries m)) as (dropped & kept & Ed & Hk & _).
  rewrite (sorted_prune _ _ _ _ Ed Hk). rewrite E in Ed. exists (p + length dropped)%nat.
  rewrite <- drop_drop, Ed, drop_app_length. split; [|done].
  apply (f_equal length) in Ed. rewrite length_drop, length_numbered, length_app in Ed. lia.
Qed.

(** What a poll of the stream gives: entries that come next, all of them unless the
    log was pruned past the position. *)
Lemma poll_next m next base n0 hist chain j logs last' :
  log_ok m next base n0 hist chain → (j < length hist)%nat →
  stream_poll m (n0 + Z.of_nat j) = (logs, last') →
  ∃ k, logs = take k (drop (S j) hist)
    ∧ ∀ s, last' = Some s → s = n0 + Z.of_nat (j + length logs).
Proof.
  intros [H0 Hn Hlt (p & Hp & E) _ _] Hj.
  assert (stream_poll m (n0 + Z.of_nat j)
          = stream_walk (n0 + Z.of_nat j)
              (numbered (n0 + Z.of_nat (S (p `max` j))) (drop (S (p `max` j)) hist))) as ->.
  { unfold stream_poll, entries_from. f_equal.
    rewrite E, drop_numbered, filter_numbered, drop_numbered, drop_drop.
    replace (p + Z.to_nat (n0 + Z.of_nat j - (n0 + Z.of_nat p)))%nat with (p `max` j)%nat by lia.
    replace (n0 + Z.of_nat p + _) with (n0 + Z.of_nat (p `max` j)) by lia.
    replace (S (p `max` j)) with (p `max` j + 1)%nat by lia. rewrite <- drop_drop.
    replace (n0 + Z.of_nat (p `max` j + 1)) with (n0 + Z.of_nat (p `max` j) + 1) by lia.
    by destruct (drop (p `max` j) hist). }
  destruct (decide (p ≤ j)%nat) as [Hpj|Hpj].
  - replace (p `max` j)%nat with j by lia.
    replace (n0 + Z.of_nat (S j)) with (n0 + Z.of_nat j + 1) by lia.
    rewrite stream_walk_next by (rewrite ?length_drop; lia). intros [= <- <-].
    exists (length hist). split; [by rewrite take_ge by (rewrite length_drop; lia)|].
    intros s [= <-]. lia.
  - replace (p `max` j)%nat with p by lia.
    rewrite stream_walk_gap by (rewrite ?length_drop; lia). intros [= <- <-].
    exists 0%nat. split; [done|]. case_decide; [|done]. intros s [= <-]. cbn. lia.
Qed.

End history.

(** A block of the chain with its entry. *)
Abbreviation Stored := ((Z * (BlockHash * Block)) * ResolverEntry)%type.

(** ** The steps of the server *)

Section server.
Context (SUBSIDY_HALVING_INTERVAL : Z).
Context (instructions : list Z → list (outcome script_error Instruction)).
Context (is_op_return : list Z → bool) (to_lowercase : list Z → list Z).
Context (json_message : list Z → option RawProtocolMessage) (script_hash : list Z → Z).
Context (subsidy : Z → Z) (txout_len : TxOut → Z).
Context (parent : list Z → list Z) (first : Z).

Abbreviation apply_block := (apply_block_with_context SUBSIDY_HALVING_INTERVAL instructions
  is_op_return to_lowercase json_message script_hash subsidy txout_len).
Abbreviation roll := (roll_execute SUBSIDY_HALVING_INTERVAL instructions is_op_return to_lowercase
  json_message script_hash subsidy txout_len).
Abbreviation linked := (linked parent first).

(** Every block of the chain is kept with its entry. *)
Record blocks_ok (t : Tables) (last_hash : option BlockHash) : Prop := {
  bo_linked : linked (chain_of (BlockByHeightKV t));
  bo_last : last_hash = (λ e, e.2.1) <$> last (sorted_entries (BlockByHeightKV t));
  bo_range : ∀ h x, BlockByHeightKV t !! h = Some x → txid_ok x.1;
  bo_resolver : ∀ h, re_hash <$> ResolverByHeightKV t !! h = fst <$> BlockByHeightKV t !! h;
}.

(** A block the node announces: at the next height, its hash commits to that of the
    previous one. *)
Definition next_block (chain : list Point) (height : Z) (block : Block) : Prop :=
  height = first + Z.of_nat (length chain)
  ∧ txid_ok (block_hash block)
  ∧ parent (hash_bytes (block_hash block)) = hash_bytes (prev_blockhash block).

Lemma chain_of_lookup m k v :
  linked (chain_of m) → m !! k = Some v → first ≤ k < first + Z.of_nat (length (chain_of m)).
Proof.
  intros Hl Hk%sorted_entries_elem. apply list_elem_of_lookup in Hk as [i Hi].
  assert (Hp : chain_of m !! i = Some (entry_point (k, v))).
  { unfold chain_of. by rewrite list_lookup_fmap, Hi. }
  pose proof (linked_heights _ _ _ _ _ Hl Hp) as Hh. cbn in Hh.
  apply lookup_lt_Some in Hp. lia.
Qed.

Lemma chain_of_snoc m h hash block :
  linked (chain_of m) → h = first + Z.of_nat (length (chain_of m)) →
  sorted_entries (<[h := (hash, block)]> m) = sorted_entries m ++ [(h, (hash, block))]
  ∧ chain_of (<[h := (hash, block)]> m) = chain_of m ++ [point_of h hash].
Proof.
  intros Hl ->. assert (E : sorted_entries (<[first + Z.of_nat (length (chain_of m)) := (hash, block)]> m)
    = sorted_entries m ++ [(first + Z.of_nat (length (chain_of m)), (hash, block))]).
  { apply sorted_entries_snoc. intros k v Hk. apply (chain_of_lookup _ _ _ Hl) in Hk. lia. }
  split; [done|]. unfold chain_of at 1. by rewrite E, map_app.
Qed.

Lemma last_chain_of m : last (chain_of m) = entry_point <$> last (sorted_entries m).
Proof. unfold chain_of. by rewrite fmap_last. Qed.

(** What applying a block does to the tables of blocks and to the log. *)
Lemma applied db h block mutable mem db' mem' :
  apply_block db h block mutable mem = Ok (db', mem') →
  (∀ x, last_block_hash db = Some x → prev_blockhash block = x)
  ∧ last_block_hash db' = Some (block_hash block)
  ∧ next_wal_seq db' = wrap 64 (next_wal_seq db + 1)
  ∧ ∃ e, re_hash e = block_hash block
    ∧ BlockByHeightKV (tables db') = <[h := (block_hash block, block)]> (BlockByHeightKV (tables db))
    ∧ ResolverByHeightKV (tables db') = <[h := e]> (ResolverByHeightKV (tables db))
    ∧ let log := <[next_wal_seq db := Apply h (block_hash block) block e]> (MutableKV (tables db)) in
      if mutable then MutableKV (tables db') = log ∨ ∃ b, MutableKV (tables db') = prune b log
      else MutableKV (tables db') = MutableKV (tables db).
Proof.
  unfold apply_block_with_context. destruct (match last_block_hash db with Some _ => _ | None => _ end) eqn:Eh;
    [done|].
  intros (p & _ & (s & _ & [= <- <-])%outcome_bind_Ok)%outcome_bind_Ok. split.
  { intros x E. rewrite E in Eh. apply negb_false_iff in Eh. by apply Z.eqb_eq in Eh. }
  split; [done|]. split; [done|]. eexists. unfold commit_block. cbn [tables BlockByHeightKV ResolverByHeightKV MutableKV].
  split_and!; [|done|done|]; [done|]. cbv zeta. destruct mutable; [|done].
  destruct (immutable_after_confs db) as [c|]; [|by left]. destruct (c <=? h); [|by left]. right. eauto.
Qed.

Lemma blocks_applied db h block mutable mem db' mem' :
  apply_block db h block mutable mem = Ok (db', mem') →
  blocks_ok (tables db) (last_block_hash db) →
  next_block (chain_of (BlockByHeightKV (tables db))) h block →
  blocks_ok (tables db') (last_block_hash db')
  ∧ chain_of (BlockByHeightKV (tables db'))
    = chain_of (BlockByHeightKV (tables db)) ++ [point_of h (block_hash block)].
Proof.
  intros (Hprev & Hlast & _ & e & He & Eb & Er & _)%applied [Hl Hlh Hr Hres] (Hh & Hrange & Hpar).
  destruct (chain_of_snoc _ h (block_hash block) block Hl Hh) as [Es Ec].
  rewrite Eb, Ec. split; [|done]. split; rewrite ?Eb, ?Er.
  - rewrite Ec. destruct (last (sorted_entries (BlockByHeightKV (tables db)))) as [[k [x b]]|] eqn:El.
    + assert (prev_blockhash block = x) as Hx by (apply Hprev; by rewrite Hlh).
      pose proof (last_chain_of (BlockByHeightKV (tables db))) as Elc.
      rewrite El in Elc. apply last_Some in Elc as [c Elc]. rewrite Elc in Hl |- *.
      constructor; [done| |cbn [point_of pt_hash]; by rewrite Hpar, Hx].
      pose proof (linked_heights _ _ _ (length c) _ Hl ltac:(by apply list_lookup_middle)) as Hk.
      rewrite Elc, length_app in Hh. cbn in *. lia.
    + pose proof (last_chain_of (BlockByHeightKV (tables db))) as Elc. rewrite El in Elc.
      apply last_None in Elc. rewrite Elc in *. constructor. cbn in *. lia.
  - rewrite Hlast, Es, last_snoc. done.
  - intros k x [[<- <-]|[_ Hk]]%lookup_insert_Some; [done|]. by apply (Hr k).
  - intros k. rewrite !lookup_insert. case_decide; [cbn; by rewrite He|apply Hres].
Qed.

Lemma undone mutable t seq e t' seq' :
  undo_block instructions mutable (t, seq) e = Ok (t', seq') →
  BlockByHeightKV t' = delete e.1 (BlockByHeightKV t)
  ∧ ResolverByHeightKV t' = delete e.1 (ResolverByHeightKV t)
  ∧ MutableKV t' = (if mutable then <[seq := Undo e.1 e.2.1 e.2.2]> (MutableKV t) else MutableKV t)
  ∧ seq' = if mutable then wrap 64 (seq + 1) else seq.
Proof.
  destruct e as [h [hash block]]. cbn [undo_block]. intros (entry & _ & H)%outcome_bind_Ok.
  destruct (negb _); [done|]. apply outcome_bind_Ok in H as (u & _ & [= <- <-]). done.
Qed.

Lemma undone_tables mutable l t seq t' seq' :
  foldM (undo_block instructions mutable) (t, seq) l = Ok (t', seq') →
  BlockByHeightKV t' = foldl (λ m k, delete k m) (BlockByHeightKV t) l.*1
  ∧ ResolverByHeightKV t' = foldl (λ m k, delete k m) (ResolverByHeightKV t) l.*1
  ∧ (mutable = false → MutableKV t' = MutableKV t ∧ seq' = seq).
Proof.
  induction l as [|e l IH] in t, seq |- *; cbn [foldM fmap list_fmap foldl]; [by intros [= <- <-]|].
  destruct (undo_block _ _ _ _) as [[t1 seq1]| |] eqn:E; [|done..].
  apply undone in E as (Eb & Er & Em & Es). intros (Hb & Hr & Hm)%IH.
  rewrite Hb, Hr, Eb, Er. split_and!; [done..|]. intros ->. destruct Hm as [-> ->]; done.
Qed.

Lemma undone_log l t seq t' seq' base n0 hist chain :
  foldM (undo_block instructions true) (t, seq) l = Ok (t', seq') →
  log_ok parent first (MutableKV t) seq base n0 hist chain → linked chain →
  seq + Z.of_nat (length l) < 2 ^ 64 →
  ∃ hist', log_ok parent first (MutableKV t') seq' base n0 (hist ++ hist') chain
    ∧ seq' = seq + Z.of_nat (length l).
Proof.
  induction l as [|e l IH] in t, seq, hist |- *; cbn [foldM length].
  { intros [= <- <-] Hlog _ _. exists []. rewrite app_nil_r. split; [done|lia]. }
  destruct (undo_block _ _ _ _) as [[t1 seq1]| |] eqn:E; [|done..].
  apply undone in E as (_ & _ & Em & Es). intros H Hlog Hc Hb.
  pose proof (lo_n0 _ _ _ _ _ _ _ _ Hlog). pose proof (lo_next _ _ _ _ _ _ _ _ Hlog).
  rewrite wrap_small in Es by (unfold in_range; lia).
  apply (IH _ _ (hist ++ [Undo e.1 e.2.1 e.2.2])) in H as (hist' & H & ->); [| |done|lia].
  - exists (Undo e.1 e.2.1 e.2.2 :: hist'). rewrite <- (assoc_L (++)) in H. split; [done|lia].
  - rewrite Em, Es. by apply log_snoc with chain; [|lia|..].
Qed.

Lemma sorted_split {A} (l : list (Z * A)) h :
  StronglySorted key_lt l → l = filter (λ e, e.1 < h) l ++ filter (λ e, h ≤ e.1) l.
Proof.
  induction 1 as [|e l _ IH Hlt]; [done|]. rewrite !filter_cons.
  destruct (decide (e.1 < h)); [rewrite decide_False by lia; cbn; by rewrite <- IH|].
  rewrite decide_True by lia.
  assert (filter (λ e, e.1 < h) l = []) as E0.
  { clear IH. induction Hlt as [|x l Hx _ IHl]; [done|]. rewrite filter_cons, decide_False, IHl; [done|].
    unfold key_lt in Hx. lia. }
  rewrite E0 in IH |- *. cbn in *. by rewrite <- IH.
Qed.

(** What a rollback does to the tables of blocks. *)
Lemma rolled_back db h hash mutable db' :
  rollback instructions db h hash mutable = Ok db' →
  blocks_ok (tables db) (last_block_hash db) →
  ∃ found post t seq,
    let chain' := chain_of (BlockByHeightKV (tables db')) in
    foldM (undo_block instructions mutable) (tables db, next_wal_seq db) post = Ok (t, seq)
    ∧ (length post < length (chain_of (BlockByHeightKV (tables db))))%nat
    ∧ db' = commit_rollback db h hash found mutable t seq
    ∧ blocks_ok (tables db') (last_block_hash db')
    ∧ cut_after (point_of h hash) (chain_of (BlockByHeightKV (tables db))) = Some chain'
    ∧ linked chain'.
Proof.
  unfold rollback. set (m := BlockByHeightKV (tables db)). intros H [Hl Hlh Hr Hres]. fold m in Hl, Hlh, Hr, Hres.
  pose proof (sorted_split _ h (sorted_entries_sorted m)) as Hs.
  destruct (filter (λ e, h ≤ e.1) (sorted_entries m)) as [|[fh [fhash found]] post] eqn:Ef; [done|].
  set (pre := filter (λ e, e.1 < h) (sorted_entries m)) in *.
  destruct (negb (h =? fh) || negb (hash =? fhash)) eqn:Ec; [done|].
  apply orb_false_iff in Ec as [E1%negb_false_iff%Z.eqb_eq E2%negb_false_iff%Z.eqb_eq]. subst fh fhash.
  apply outcome_bind_Ok in H as ([t seq] & Hf & [= <-]).
  destruct (undone_tables _ _ _ _ _ _ Hf) as (Eb & Er & _).
  exists found, (rev post), t, seq. unfold commit_rollback. cbn [tables BlockByHeightKV ResolverByHeightKV last_block_hash].
  assert (Ek : ∀ k, k ∈ (rev post).*1 ↔ k ∈ post.*1).
  { intros k. by rewrite <- (Permutation_rev post). }
  pose proof (sorted_entries_sorted m) as Hss. rewrite Hs in Hss.
  replace (pre ++ (h, (hash, found)) :: post) with ((pre ++ [(h, (hash, found))]) ++ post) in Hss
    by by rewrite <- (assoc_L (++)).
  apply StronglySorted_app in Hss as (Hlt & Hsp & _).
  assert (Esort : sorted_entries (BlockByHeightKV t) = pre ++ [(h, (hash, found))]).
  { apply key_sorted_unique; [apply sorted_entries_sorted|done|]. intros [k v].
    rewrite sorted_entries_elem, Eb, delete_list_lookup.
    assert ((k, v) ∈ (pre ++ [(h, (hash, found))]) ++ post ↔ m !! k = Some v) as Hkv
      by (rewrite <- (assoc_L (++)); cbn; by rewrite <- Hs, sorted_entries_elem).
    rewrite elem_of_app in Hkv. case_decide as Hin.
    - split; [done|]. intros Hkept. exfalso. apply Ek, list_elem_of_fmap in Hin as ([k' v'] & -> & Hin).
      specialize (Hlt _ _ Hkept Hin). unfold key_lt in Hlt. cbn in Hlt. lia.
    - change (BlockByHeightKV (tables db)) with m. rewrite <- Hkv. split; [|by left].
      intros [|Hdrop]; [done|]. exfalso. apply Hin, Ek, list_elem_of_fmap. by exists (k, v). }
  assert (Echain : chain_of m = chain_of (BlockByHeightKV t) ++ map entry_point post).
  { unfold chain_of. by rewrite Esort, Hs, <- map_app, <- (assoc_L (++)). }
  assert (Hl' : linked (chain_of (BlockByHeightKV t))).
  { rewrite Echain in Hl. by apply linked_prefix in Hl. }
  split_and!; [exact Hf| |done| | |done].
  - rewrite Echain. unfold chain_of. rewrite Esort, length_app, !length_map, length_app, length_rev. cbn. lia.
  - split; cbn [tables BlockByHeightKV ResolverByHeightKV last_block_hash];
      [done|by rewrite Esort, last_snoc| |].
    + intros k x. rewrite Eb, delete_list_lookup. case_decide; [done|]. apply Hr.
    + intros k. rewrite Eb, Er, !delete_list_lookup. case_decide; [done|]. apply Hres.
  - rewrite Echain. unfold chain_of. rewrite Esort, map_app, <- (assoc_L (++)). cbn [map app].
    apply (cut_after_at (point_of h hash)).
    apply linked_NoDup in Hl'. unfold chain_of in Hl'. rewrite Esort, map_app in Hl'.
    apply NoDup_app in Hl' as (_ & Hd & _). intros Hin. apply (Hd _ Hin). by left.
Qed.


(** The server with its history: nothing is logged before the mutable part. *)
Record server_ok (s : Stage) (base : list Point) (n0 : Z) (hist : list Log) : Prop := {
  so_blocks : blocks_ok (tables (chain_db s)) (last_block_hash (chain_db s));
  so_log : log_ok parent first (MutableKV (tables (chain_db s))) (next_wal_seq (chain_db s)) base n0 hist
             (chain_of (BlockByHeightKV (tables (chain_db s))));
  so_mutable : stage_mutable s = false → hist = [];
}.

Definition chain (s : Stage) : list Point := chain_of (BlockByHeightKV (tables (chain_db s))).

(** What the node announces, while the counter of the log does not overflow. *)
Definition announced (s : Stage) (e : PullEvent) : Prop :=
  next_wal_seq (chain_db s) + Z.of_nat (length (chain s)) + 1 < 2 ^ 64
  ∧ match e with
    | ChainDB.RollForward height _ block _ => next_block (chain s) height block
    | ChainDB.RollBack _ _ _ => True
    end.

(** A history that has not started. *)
Lemma log_restart m next chain' :
  sorted_entries m = [] → 0 ≤ next < 2 ^ 64 → linked chain' →
  log_ok parent first m next chain' next [] chain'.
Proof.
  intros E Hn Hl. split; cbn; [lia|lia|lia| |done|].
  - exists 0%nat. by rewrite E.
  - intros i. rewrite take_nil. by exists chain'.
Qed.

Lemma log_empty m next base n0 chain' :
  log_ok parent first m next base n0 [] chain' → sorted_entries m = [].
Proof. intros [_ _ _ (p & _ & ->) _ _]. apply drop_nil. Qed.

Lemma forward_ok s h hash block tip s' base n0 hist :
  roll s (RollForward h hash block tip) = Ok s' → server_ok s base n0 hist →
  announced s (RollForward h hash block tip) →
  ∃ base' n0' hist', server_ok s' base' n0' hist'
    ∧ (hist ≠ [] → base' = base ∧ n0' = n0 ∧ hist `prefix_of` hist').
Proof.
  intros H [Hb Hlog Hmut] [Hbound He].
  pose proof (lo_n0 _ _ _ _ _ _ _ _ Hlog) as Hn0. pose proof (lo_next _ _ _ _ _ _ _ _ Hlog) as Hnext.
  cbn [roll_execute] in H. cbv zeta in H. set (mutable := stage_mutable s || _) in H.
  apply outcome_bind_Ok in H as ([db' mem] & H & [= <-]).
  destruct (blocks_applied _ _ _ _ _ _ _ H Hb He) as [Hb' Ec].
  apply applied in H as (_ & _ & Es & e & _ & _ & _ & Hm). rewrite wrap_small in Es by (unfold in_range; lia).
  destruct mutable eqn:Emut; cbv zeta in Hm.
  - exists base, n0, (hist ++ [Apply h (block_hash block) block e]). split; [|intros _; by eauto using prefix_app_r].
    split; cbn [chain_db stage_mutable]; [done| |done]. rewrite Ec, Es.
    assert (log_ok parent first (<[next_wal_seq (chain_db s) := Apply h (block_hash block) block e]>
      (MutableKV (tables (chain_db s)))) (next_wal_seq (chain_db s) + 1) base n0
      (hist ++ [Apply h (block_hash block) block e]) (chain s ++ [point_of h (block_hash block)])) as Hl'.
    { apply log_snoc with (chain s); [done|lia|done|]. unfold chain. rewrite <- Ec. apply (bo_linked _ _ Hb'). }
    destruct Hm as [->|[b ->]]; [done|by apply log_prune].
  - apply orb_false_iff in Emut as [Em _]. apply Hmut in Em. subst hist.
    exists (chain_of (BlockByHeightKV (tables db'))), (next_wal_seq db'), []. split; [|done].
    split; cbn [chain_db stage_mutable]; [done| |done]. apply log_empty in Hlog.
    apply log_restart; [by rewrite Hm|cbn in *; lia|apply (bo_linked _ _ Hb')].
Qed.

Lemma back_ok s h hash tip s' base n0 hist :
  roll s (RollBack h hash tip) = Ok s' → server_ok s base n0 hist → announced s (RollBack h hash tip) →
  ∃ base' n0' hist', server_ok s' base' n0' hist'
    ∧ (hist ≠ [] → base' = base ∧ n0' = n0 ∧ hist `prefix_of` hist').
Proof.
  intros H [Hb Hlog Hmut] [Hbound _].
  pose proof (lo_n0 _ _ _ _ _ _ _ _ Hlog) as Hn0. pose proof (lo_next _ _ _ _ _ _ _ _ Hlog) as Hnext.
  cbn [roll_execute] in H. cbv zeta in H. set (mutable := stage_mutable s || _) in H.
  apply outcome_bind_Ok in H as (db' & H & [= <-]).
  destruct (rolled_back _ _ _ _ _ H Hb) as (found & post & t & seq & Hf & Hlen & -> & Hb' & Hcut & Hl').
  fold (chain s) in Hcut, Hlen, Hlog. destruct mutable eqn:Emut.
  - destruct (undone_log _ _ _ _ _ _ _ _ _ Hf Hlog (bo_linked _ _ Hb)) as (hist' & Hlog' & ->); [lia|].
    exists base, n0, ((hist ++ hist') ++ [Mark h hash found]).
    split; [|intros _; split_and!; [done..|by do 2 apply prefix_app_r]].
    split; cbn [chain_db stage_mutable]; [done| |done].
    unfold commit_rollback in *. cbn [tables BlockByHeightKV MutableKV next_wal_seq] in *.
    rewrite wrap_small by (unfold in_range; lia). by apply log_snoc with (chain s); [|lia|..].
  - apply orb_false_iff in Emut as [Em _]. apply Hmut in Em. subst hist.
    destruct (undone_tables _ _ _ _ _ _ Hf) as (_ & _ & Hm). destruct (Hm eq_refl) as [Em ->].
    exists (chain_of (BlockByHeightKV t)), (next_wal_seq (chain_db s)), []. split; [|done].
    unfold commit_rollback in *. cbn [tables BlockByHeightKV MutableKV next_wal_seq] in *.
    split; cbn [chain_db stage_mutable]; [done| |done]. apply log_empty in Hlog.
    apply log_restart; [cbn; by rewrite Em|cbn in *; lia|done].
Qed.

Lemma roll_ok s e s' base n0 hist :
  roll s e = Ok s' → server_ok s base n0 hist → announced s e →
  ∃ base' n0' hist', server_ok s' base' n0' hist'
    ∧ (hist ≠ [] → base' = base ∧ n0' = n0 ∧ hist `prefix_of` hist').
Proof. destruct e; [apply forward_ok|apply back_ok]. Qed.

(** ** Pages *)

(** The blocks of the chain with their entries. *)
Definition stored (t : Tables) : list Stored :=
  omap (λ e, pair e <$> ResolverByHeightKV t !! e.1) (sorted_entries (BlockByHeightKV t)).

Lemma stored_entry t last_hash e :
  blocks_ok t last_hash → e ∈ sorted_entries (BlockByHeightKV t) →
  ∃ r, ResolverByHeightKV t !! e.1 = Some r ∧ re_hash r = e.2.1.
Proof.
  intros Hb He. destruct e as [k v]. apply sorted_entries_elem in He. pose proof (bo_resolver _ _ Hb k) as Hr.
  rewrite He in Hr. cbn in *. destruct (ResolverByHeightKV t !! k) as [r|]; [|done]. exists r.
  by injection Hr.
Qed.

Lemma stored_blocks t last_hash :
  blocks_ok t last_hash → (stored t).*1 = sorted_entries (BlockByHeightKV t).
Proof.
  intros Hb. pose proof (λ e, stored_entry t last_hash e Hb) as He. unfold stored.
  induction (sorted_entries (BlockByHeightKV t)) as [|e l IH]; [done|].
  destruct (He e ltac:(by left)) as (r & E & _). cbn. rewrite E. cbn. f_equal. apply IH.
  intros e' He'. apply He. by right.
Qed.

Lemma stored_resolvers t last_hash :
  blocks_ok t last_hash →
  map (λ x, (x.1.1, x.2)) (stored t) = sorted_entries (ResolverByHeightKV t).
Proof.
  intros Hb. apply key_sorted_unique; [|apply sorted_entries_sorted|].
  - pose proof (sorted_entries_sorted (BlockByHeightKV t)) as Hs.
    rewrite <- (stored_blocks t _ Hb) in Hs. induction (stored t) as [|x l IH]; [constructor|].
    apply StronglySorted_inv in Hs as [Hs Hx]. constructor; [by apply IH|].
    apply Forall_map, Forall_forall. intros y Hy. rewrite Forall_forall in Hx.
    apply (Hx y.1), list_elem_of_fmap. by exists y.
  - intros [k r]. rewrite sorted_entries_elem, list_elem_of_fmap. unfold stored. split.
    + intros ([e r'] & [= -> ->] & (e' & _ & Hx)%list_elem_of_omap).
      apply fmap_Some in Hx as (? & Hr & [= -> ->]). done.
    + intros Hr. pose proof (bo_resolver _ _ Hb k) as Hk. rewrite Hr in Hk. cbn in Hk.
      destruct (BlockByHeightKV t !! k) as [v|] eqn:Ev; [|done].
      exists ((k, v), r). split; [done|]. apply list_elem_of_omap. exists (k, v).
      split; [by apply sorted_entries_elem|]. cbn. by rewrite Hr.
Qed.

Section pages.
Context (encode_txout : TxOut → list Z) (encode_block : Block → list Z).
Context (shuffle : ∀ A, list A → list A).

Abbreviation page := (page_blocks_with_context encode_txout encode_block shuffle).

Definition stored_ref (x : Stored) : BlockRef :=
  block_ref x.1.1 x.1.2.1.
Definition stored_message (x : Stored) : BlockWithContext :=
  block_with_context encode_txout encode_block shuffle x.1.1 x.1.2.1 x.1.2.2 x.2.

(** [pre] is what is before the cursor, with its block. *)
Definition at_cursor (c : option BlockRef) (pre : list Stored) : Prop :=
  match c with
  | None => pre = []
  | Some c => stored_ref <$> last pre = Some c
  end.

Lemma filter_stored {A} (f : Stored → Z * A) h l :
  (∀ x, (f x).1 = x.1.1) →
  filter (λ e, h ≤ e.1) (map f l) = map f (filter (λ x, h ≤ x.1.1) l).
Proof.
  intros Hf. induction l as [|x l IH]; [done|]. cbn [map]. rewrite !filter_cons, Hf, IH.
  by case_decide.
Qed.

Lemma stored_keys t last_hash :
  blocks_ok t last_hash → StronglySorted (λ x y, x.1.1 < y.1.1) (stored t).
Proof.
  intros Hb. pose proof (sorted_entries_sorted (BlockByHeightKV t)) as Hs.
  rewrite <- (stored_blocks t _ Hb) in Hs. induction (stored t) as [|x l IH]; [constructor|].
  apply StronglySorted_inv in Hs as [Hs Hx]. constructor; [by apply IH|]. apply Forall_forall.
  intros y Hy. rewrite Forall_forall in Hx. apply (Hx y.1), list_elem_of_fmap. by exists y.
Qed.

Lemma filter_all h (l : list Stored) :
  (∀ x, x ∈ l → h ≤ x.1.1) → filter (λ x, h ≤ x.1.1) l = l.
Proof.
  intros Hl. induction l as [|x l IH]; [done|]. rewrite filter_cons, decide_True by (apply Hl; by left).
  rewrite IH; [done|]. intros y Hy. apply Hl. by right.
Qed.

Lemma filter_from h (pre : list Stored) x rest :
  StronglySorted (λ x y, x.1.1 < y.1.1) (pre ++ x :: rest) → x.1.1 = h →
  filter (λ y, h ≤ y.1.1) (pre ++ x :: rest) = x :: rest.
Proof.
  intros Hs Hx. induction pre as [|y pre IH]; cbn [app] in *.
  - apply filter_all. intros y [->|Hy]%elem_of_cons; [lia|].
    apply StronglySorted_inv in Hs as [_ Hs]. rewrite Forall_forall in Hs. specialize (Hs y Hy). lia.
  - apply StronglySorted_inv in Hs as [Hs Hy]. rewrite Forall_forall in Hy.
    specialize (Hy x ltac:(apply elem_of_app; right; by left)). rewrite filter_cons, decide_False by lia. by apply IH.
Qed.

(** The blocks from the height of the cursor on. *)
Lemma stored_from t last_hash c pre rest :
  blocks_ok t last_hash → 0 ≤ first → stored t = pre ++ rest → at_cursor c pre →
  filter (λ x, default 0 (br_height <$> c) ≤ x.1.1) (stored t)
  = match c with None => rest | Some _ => from_option (λ x, [x]) [] (last pre) ++ rest end.
Proof.
  intros Hb H0 E Hc. pose proof (stored_keys t _ Hb) as Hs.
  destruct c as [c|]; cbn [at_cursor] in Hc.
  - apply fmap_Some in Hc as (x & [pre' ->]%last_Some & ->). rewrite E in *.
    rewrite last_snoc. cbn [from_option app]. rewrite <- (assoc_L (++)) in Hs |- *.
    by apply filter_from.
  - subst pre. transitivity (stored t); [|done]. apply filter_all. intros x Hx. unfold stored in Hx.
    apply list_elem_of_omap in Hx as ([k v] & Hk%sorted_entries_elem & Hx).
    apply fmap_Some in Hx as (r & _ & ->). cbn. apply (chain_of_lookup _ _ _ (bo_linked _ _ Hb)) in Hk. lia.
Qed.

Lemma page_entries_ok l acc :
  (∀ x, x ∈ l → re_hash x.2 = x.1.2.1) →
  foldM (λ page x, b ← page_entry encode_txout encode_block shuffle x; Ok (page ++ [b])) acc
    (zip (map fst l) (map (λ x, (x.1.1, x.2)) l))
  = Ok (acc ++ map stored_message l).
Proof.
  induction l as [|[[h [hash b]] r] l IH] in acc |- *; intros Hl; cbn [map zip zip_with foldM];
    [by rewrite app_nil_r|].
  unfold page_entry at 1. cbn [fst snd]. pose proof (Hl _ ltac:(by left)) as Hr. cbn in Hr.
  rewrite Hr, Z.eqb_refl. cbn [negb mbind outcome_bind]. rewrite IH by (intros x Hx; apply Hl; by right).
  by rewrite <- (assoc_L (++)).
Qed.

Lemma stored_hash t last_hash x : blocks_ok t last_hash → x ∈ stored t → re_hash x.2 = x.1.2.1.
Proof.
  intros Hb Hx. unfold stored in Hx. apply list_elem_of_omap in Hx as (e & He & Hx).
  destruct (stored_entry t _ e Hb He) as (r & E & Hr). rewrite E in Hx. by injection Hx as <-.
Qed.

Lemma cut_stored k (rest : list Stored) :
  cut k (map fst rest) = (map fst (take k rest),
    if (k <? length rest)%nat then stored_ref <$> last (take k rest) else None).
Proof.
  unfold cut. rewrite length_take, length_map. destruct (Nat.ltb_spec k (length rest)).
  - rewrite (proj2 (Nat.eqb_eq _ _)) by lia. rewrite take_take, Nat.min_l by lia.
    rewrite !firstn_map. f_equal. change (map fst (take k rest)) with (fst <$> take k rest).
    rewrite fmap_last. by destruct (last (take k rest)).
  - rewrite (proj2 (Nat.eqb_neq _ _)) by lia. rewrite !take_ge by (rewrite ?length_map; lia). done.
Qed.

(** A page from a cursor on the chain. *)
Lemma page_found t last_hash c n pre rest :
  blocks_ok t last_hash → 0 ≤ first → 1 ≤ n → stored t = pre ++ rest → at_cursor c pre →
  page t (mkPageRequest c n)
  = Ok (mkPageResponse (map stored_message (take (Z.to_nat n) rest))
          (if (Z.to_nat n <? length rest)%nat then stored_ref <$> last (take (Z.to_nat n) rest) else None)
          (stored_ref <$> last (stored t))).
Proof.
  intros Hb H0 Hn E Hc. pose proof (stored_from t _ c pre rest Hb H0 E Hc) as Hf.
  unfold page_blocks_with_context. cbn [max_items pq_cursor].
  destruct (Z.ltb_spec n 1); [lia|]. unfold entries_from.
  rewrite <- (stored_blocks t _ Hb), <- (stored_resolvers t _ Hb).
  change ((stored t).*1) with (map fst (stored t)). rewrite !filter_stored, Hf by done.
  set (from := match c with None => rest | Some _ => _ end) in *.
  assert (Hfrom : after_cursor (map fst from) c = Ok (map fst rest)
    ∧ match c with Some _ => tail (map (λ x, (x.1.1, x.2)) from) | None => map (λ x, (x.1.1, x.2)) from end
      = map (λ x, (x.1.1, x.2)) rest).
  { unfold from. destruct c as [c|]; [|done]. cbn [at_cursor] in Hc.
    apply fmap_Some in Hc as ([[h [hash b]] r] & Hx & ->). rewrite Hx. split; [|done].
    cbn. by rewrite Z.eqb_refl, bool_decide_false by (by intros []). }
  destruct Hfrom as [-> ->]. cbn [mbind outcome_bind]. rewrite cut_stored.
  rewrite firstn_map, !length_map, Nat.eqb_refl. cbn [negb]. rewrite page_entries_ok.
  2: { intros x (i & Hi & _)%elem_of_take. apply (stored_hash t last_hash); [done|].
       rewrite E. apply elem_of_app. right. by apply list_elem_of_lookup_2 in Hi. }
  cbn [mbind outcome_bind app]. do 2 f_equal. change (map fst (stored t)) with (fst <$> stored t).
  rewrite fmap_last. by destruct (last (stored t)).
Qed.

(** A page from a cursor that is not. *)
Lemma page_missing t last_hash c n :
  blocks_ok t last_hash → 1 ≤ n → (∀ x, x ∈ stored t → stored_ref x ≠ c) →
  page t (mkPageRequest (Some c) n) = Err NotFound.
Proof.
  intros Hb Hn Hc. unfold page_blocks_with_context. cbn [max_items pq_cursor].
  destruct (Z.ltb_spec n 1); [lia|]. unfold entries_from. cbn [fmap option_fmap option_map default from_option].
  rewrite <- (stored_blocks t _ Hb). change ((stored t).*1) with (map fst (stored t)).
  rewrite filter_stored by done.
  destruct (filter _ (stored t)) as [|x l] eqn:Ef; [done|].
  assert (Hx : x ∈ stored t).
  { assert (x ∈ filter (λ x, id (br_height c) ≤ x.1.1) (stored t)) as Hx%list_elem_of_filter
      by (rewrite Ef; by left). by destruct Hx. }
  specialize (Hc x Hx). destruct x as [[h [hash b]] r]. cbn [map after_cursor fst snd].
  destruct (Z.eqb_spec h (br_height c)) as [E1|]; [|done]. cbn [negb].
  case_bool_decide as E2; [done|]. destruct Hc. unfold stored_ref, block_ref.
  destruct c. cbn in *. by subst.
Qed.


(** The pages from a cursor on, put together; [fuel] bounds their number. *)
Fixpoint read_pages (fuel : nat) (t : Tables) (cursor : option BlockRef) (n : Z)
  : option (list BlockWithContext) :=
  match fuel with
  | O => None
  | S fuel =>
      match page t (mkPageRequest cursor n) with
      | Ok r =>
          match next_cursor r with
          | None => Some (ps_blocks r)
          | Some c => (ps_blocks r ++.) <$> read_pages fuel t (Some c) n
          end
      | _ => None
      end
  end.

Lemma read_pages_rest fuel t last_hash c n pre rest :
  blocks_ok t last_hash → 0 ≤ first → 1 ≤ n → stored t = pre ++ rest → at_cursor c pre →
  (length rest < fuel)%nat → read_pages fuel t c n = Some (map stored_message rest).
Proof.
  intros Hb H0 Hn. induction fuel as [|fuel IH] in c, pre, rest |- *; intros E Hc Hf; [lia|].
  cbn [read_pages]. rewrite (page_found _ _ _ _ _ _ Hb H0 Hn E Hc). cbn [next_cursor ps_blocks].
  destruct (Nat.ltb_spec (Z.to_nat n) (length rest)) as [Hlt|Hge]; [|by rewrite take_ge by lia].
  destruct (last (take (Z.to_nat n) rest)) as [x|] eqn:El.
  2: { apply last_None, (f_equal length) in El. rewrite length_take in El. cbn in El. lia. }
  cbn [fmap option_fmap option_map].
  rewrite (IH (Some (stored_ref x)) (pre ++ take (Z.to_nat n) rest) (drop (Z.to_nat n) rest)).
  - cbn. by rewrite <- map_app, take_drop.
  - by rewrite <- (assoc_L (++)), take_drop.
  - cbn [at_cursor]. by rewrite last_app, El.
  - rewrite length_drop. lia.
Qed.

(** C30: Pages give the whole chain: asked for one after the other, from the start and
    from the cursor of the one before, pages of any size end, and put together they are
    the blocks of the chain in their order, each with the entry stored with it.  A page
    from a block that is not on the chain is refused as not found. *)
Theorem pages_cover_chain t last_hash n :
  blocks_ok t last_hash → 0 ≤ first → 1 ≤ n →
  (∀ fuel, (length (stored t) < fuel)%nat →
     read_pages fuel t None n = Some (map stored_message (stored t)))
  ∧ (∀ c, (∀ x, x ∈ stored t → stored_ref x ≠ c) → page t (mkPageRequest (Some c) n) = Err NotFound).
Proof.
  intros Hb H0 Hn. split.
  - intros fuel Hf. by apply (read_pages_rest fuel t last_hash None n []).
  - intros c Hc. by apply (page_missing t last_hash).
Qed.

End pages.


End server.

(** ** A chain *)

Definition bare_entry (hash : Z) : ResolverEntry :=
  mkResolverEntry hash ∅ [] [] [] [] [] default_counters [] [].

(** Three blocks from height 5 on. *)
Definition short_chain : Tables :=
  mkTables {[ 5 := (101, mkBlock 101 100 []); 6 := (102, mkBlock 102 101 []); 7 := (103, mkBlock 103 102 []) ]}
    ∅ (DunesUpdater.mkDunesDB ∅ ∅ ∅ None) (mkInscDB empty_db ∅ ∅) None
    {[ 5 := bare_entry 101; 6 := bare_entry 102; 7 := bare_entry 103 ]} ∅.
Definition short_parent (b : list Z) : list Z := hash_bytes (of_be_bytes b - 1).

Lemma short_chain_ok : blocks_ok short_parent 5 short_chain (Some 103).
Proof.
  assert (Hd : ∀ (P : Z → Prop), P 5 → P 6 → P 7 → ∀ h, h ∈ [5; 6; 7] → P h).
  { intros P H5 H6 H7 h [->|[->|[->|[]%not_elem_of_nil]%elem_of_cons]%elem_of_cons]%elem_of_cons; done. }
  assert (Hn : ∀ h, h ∉ [5; 6; 7] → BlockByHeightKV short_chain !! h = None ∧ ResolverByHeightKV short_chain !! h = None).
  { intros h Hh. cbn. by rewrite !lookup_insert_ne, !lookup_singleton_ne by set_solver. }
  split.
  - assert (E : chain_of (BlockByHeightKV short_chain)
      = (([] ++ [point_of 5 101]) ++ [point_of 6 102]) ++ [point_of 7 103]) by by vm_compute.
    rewrite E. constructor; [constructor; [by constructor|done|by vm_compute]|done|by vm_compute].
  - by vm_compute.
  - intros h x Hx. change (({[ 5 := (101, mkBlock 101 100 []); 6 := (102, mkBlock 102 101 []);
      7 := (103, mkBlock 103 102 []) ]} : gmap Z (BlockHash * Block)) !! h = Some x) in Hx. unfold txid_ok, in_range.
    apply lookup_insert_Some in Hx as [[_ <-]|[_ Hx]]; [cbn -[Z.pow]; lia|].
    apply lookup_insert_Some in Hx as [[_ <-]|[_ Hx]]; [cbn -[Z.pow]; lia|].
    apply lookup_singleton_Some in Hx as [_ <-]. cbn -[Z.pow]. lia.
  - intros h. destruct (decide (h ∈ [5; 6; 7])) as [Hh|[E E']%Hn]; [|exact (eq_trans (f_equal (fmap re_hash) E') (eq_sym (f_equal (fmap fst) E)))].
    revert h Hh. by apply (Hd (λ h, re_hash <$> ResolverByHeightKV short_chain !! h
      = fst <$> BlockByHeightKV short_chain !! h)); vm_compute.
Qed.

Lemma pages_cover_chain_witness :
  read_pages plain_encode (λ b, [block_hash b]) plain_shuffle 4 short_chain None 2
  = Some (map (stored_message plain_encode (λ b, [block_hash b]) plain_shuffle) (stored short_chain)).
Proof.
  apply (proj1 (pages_cover_chain short_parent 5 plain_encode (λ b, [block_hash b]) plain_shuffle short_chain
    (Some 103) 2 short_chain_ok ltac:(lia) ltac:(lia))). vm_compute. lia.
Defined.

End ServerChain.
