(* ===== verification/Following.v ===== *)
(** The source follows the chain: the server of the compressor ([ChainDB],
    [Server]) and the client of polyphony ([Source]) as one system.

    The server applies and rolls back blocks; between any two of its steps the client
    asks for a page, opens the stream or takes what the stream gives.  The view of the
    client is the chain the messages it sends downstream describe. *)

From S2P Require Import Prelude Dunes Dunestone Types DunesUpdater Inscription Brc20 InscriptionsUpdater ChainDB Timbre Crosscut StorageAction ReducerOutput TikvWorker Reducers Server Source SourceContext ServerChain.
Import Dunestone Types Brc20 InscriptionsUpdater ChainDB Timbre Crosscut StorageAction TikvWorker Reducers Server Source SourceContext ServerChain.

Module Following.

#[local] Opaque be_bytes hash_bytes.

(** ** The view of the client *)

(** What a message downstream does to the view; a roll back must be to a point of it. *)
Definition view_step (view : list Point) (p : EnrichedBlockPayload) : option (list Point) :=
  match p with
  | EnrichedForward point _ _ _ => Some (view ++ [point])
  | EnrichedBack point _ => cut_after point view
  end.

Fixpoint follow (view : list Point) (ps : list EnrichedBlockPayload) : option (list Point) :=
  match ps with [] => Some view | p :: ps => view ← view_step view p; follow view ps end.

Lemma follow_app view ps ps' : follow view (ps ++ ps') = (v ← follow view ps; follow v ps').
Proof.
  induction ps as [|p ps IH] in view |- *; [done|]. cbn. destruct (view_step view p); cbn; [apply IH|done].
Qed.


(** ** The system *)

Record System : Type := mkSystem {
  server : Stage;
  client : SourceWorker;
  (** the position of the stream the server feeds, while it is open *)
  stream : option Z;
  (** what the stream has given and the client has not taken *)
  pending : list Log;
  out : list EnrichedBlockPayload;
}.

Section system.
Context (SUBSIDY_HALVING_INTERVAL : Z).
Context (instructions : list Z → list (outcome script_error Instruction)).
Context (is_op_return : list Z → bool) (to_lowercase : list Z → list Z).
Context (json_message : list Z → option RawProtocolMessage) (script_hash : list Z → Z).
Context (subsidy : Z → Z) (txout_len : TxOut → Z).
Context (encode_txout : TxOut → list Z) (encode_block : Block → list Z).
Context (shuffle : ∀ A, list A → list A) (decode_txout : list Z → option TxOut).
Context (parse_hash : list Z → option (list Z)).
Context (n : Namespace) (intersect : IntersectConfig) (max_items_per_page : option Z).
Context (parent : list Z → list Z) (first : Z).

Abbreviation roll := (roll_execute SUBSIDY_HALVING_INTERVAL instructions is_op_return to_lowercase
  json_message script_hash subsidy txout_len).
Abbreviation fetch_now := (fetch encode_txout encode_block shuffle max_items_per_page).
Abbreviation linked := (linked parent first).
Abbreviation server_ok := (server_ok parent first).

Definition now (s : Stage) : Tables := tables (chain_db s).

(** The client acting on the server as it is now. *)
Definition world (y : System) : World := mkWorld (client y) [Some (now (server y))] (out y).

(** Taking a unit of work, if there is one. *)
Definition work (next : option (outcome Status (option Action))) : Net unit :=
  u ← fetch_now next;
  match u with Some u => execute decode_txout u | None => mret tt end.

Inductive step : System → System → Prop :=
| step_server y e s :
    roll (server y) e = Ok s → announced parent first (server y) e →
    step y (mkSystem s (client y) (stream y) (pending y) (out y))
| step_open y c w seq :
    mode (client y) = Dumping (Some c) → try_stream (world y) = (w, Ok tt) →
    mode (worker w) = Streaming → stream_updates_with_context (now (server y)) [c] = Ok seq →
    step y (mkSystem (server y) (worker w) (Some seq) [] (sent w))
| step_not_yet y w :
    try_stream (world y) = (w, Ok tt) → mode (worker w) = mode (client y) →
    step y (mkSystem (server y) (worker w) (stream y) (pending y) (sent w))
| step_page y c w :
    mode (client y) = Dumping c → work None (world y) = (w, Ok tt) →
    step y (mkSystem (server y) (worker w) (stream y) (pending y) (sent w))
| step_poll y seq logs last :
    stream y = Some seq → stream_poll (MutableKV (now (server y))) seq = (logs, last) →
    step y (mkSystem (server y) (client y) last (pending y ++ logs) (out y))
| step_next y l rest w :
    mode (client y) = Streaming → pending y = l :: rest →
    work (Some (Ok (log_to_response_with_ctx encode_txout encode_block shuffle l))) (world y) = (w, Ok tt) →
    step y (mkSystem (server y) (worker w) (stream y) rest (sent w)).

(** ** What the client does *)

Lemma Net_bind_Ok {A B} (m : Net A) (f : A → Net B) w w' b :
  (m ≫= f) w = (w', Ok b) → ∃ w1 a, m w = (w1, Ok a) ∧ f a w1 = (w', Ok b).
Proof. unfold mbind, Net_bind. destruct (m w) as [w1 [a| |]]; [eauto|done..]. Qed.

(** The view ends at the cursor, or the stream is at the place in the history the view
    is the replay of. *)
Definition stands (y : System) (base : list Point) (n0 : Z) (hist : list Log) (view : list Point) : Prop :=
  match mode (client y) with
  | Init => False
  | Dumping None => view = []
  | Dumping (Some c) => ∃ p, last view = Some p ∧ c = point_to_block_ref p ∧ bytes_ok (pt_hash p)
  | Streaming =>
      ∃ past later, hist = past ++ pending y ++ later ∧ past ≠ [] ∧ replay base past = Some view
        ∧ ∀ seq, stream y = Some seq → seq = n0 + Z.of_nat (length (past ++ pending y)) - 1
  end.

Definition following (view0 : list Point) (y : System) : Prop :=
  ∃ base n0 hist view, server_ok (server y) base n0 hist
    ∧ follow view0 (out y) = Some view ∧ linked view ∧ stands y base n0 hist view.

(** The messages downstream of a page. *)
Lemma page_sent l m w w' :
  process_actions decode_txout (map ActApply (map (stored_message encode_txout encode_block shuffle) l)) m w
    = (w', Ok tt) →
  worker w' = worker w
  ∧ ∃ ps, sent w' = sent w ++ ps
    ∧ ∀ view, follow view ps = Some (view ++ map (λ x, entry_point x.1) l).
Proof.
  induction l as [|x l IH] in w |- *; cbn [map process_actions].
  { intros [= <-]. split; [done|]. exists []. rewrite app_nil_r. split; [done|]. intros view. cbn.
    by rewrite app_nil_r. }
  unfold mbind, Net_bind at 1. destruct (process_action _ _ _ _) as [w1 [[]| |]] eqn:E; [|done..].
  intros (Hw & ps & Hs & Hf)%IH. unfold process_action in E. unfold mbind, Net_bind, lift in E.
  cbn [action_payload stored_message block_with_context bc_ref ok_or mbind outcome_bind] in E.
  destruct (context_of _ _) as [ctx| |]; [|done..]. cbn [mbind outcome_bind] in E.
  unfold block_ref_to_point, block_ref in E. cbn [br_hash br_height] in E.
  rewrite to_array_hash in E. cbn [unwrap mbind outcome_bind] in E. injection E as <-. cbn [worker sent] in *.
  split; [done|]. eexists (_ :: ps). rewrite Hs, <- (assoc_L (++)). split; [done|].
  intros view. cbn [follow view_step mbind option_bind]. rewrite Hf, <- (assoc_L (++)). done.
Qed.

(** A page that is fetched and sent. *)
Lemma work_page y c w :
  mode (client y) = Dumping c → work None (world y) = (w, Ok tt) →
  ∃ resp w1, page_blocks_with_context encode_txout encode_block shuffle (now (server y))
      (mkPageRequest c (default 20 max_items_per_page)) = Ok resp
    ∧ process_actions decode_txout (map ActApply (ps_blocks resp)) false w1 = (w, Ok tt)
    ∧ sent w1 = out y
    ∧ mode (worker w1) = Dumping (match last (ps_blocks resp) with Some b => bc_ref b | None => c end).
Proof.
  intros Hm. unfold work, Source.fetch, get_worker. unfold mbind, Net_bind. cbn [worker world]. rewrite Hm.
  unfold page_request, call, or_restart, lift. cbn [answers world].
  destruct (page_blocks_with_context _ _ _ _ _) as [resp| |]; [|done..].
  intros H. exists resp. cbn [tail worker sent] in H.
  destruct (last (ps_blocks resp)) as [b|] eqn:El; cbn in H.
  - assert (∃ a l, map ActApply (ps_blocks resp) = a :: l) as (a & l & E).
    { apply last_Some in El as [l' ->]. destruct l'; eauto. }
    rewrite E in H |- *. eexists. split; [done|]. split; [exact H|]. done.
  - apply last_None in El. rewrite El in H |- *. cbn in H. injection H as <-.
    eexists (mkWorld _ [] (out y)). split; [done|]. split; [done|]. cbn. done.
Qed.


Definition stored_points (l : list Stored) : list Point := map (λ x, entry_point x.1) l.

Lemma stored_points_chain t last_hash :
  blocks_ok parent first t last_hash → stored_points (stored t) = chain_of (BlockByHeightKV t).
Proof.
  intros Hb. unfold stored_points, chain_of. rewrite <- (stored_blocks _ _ t _ Hb).
  by rewrite <- map_map.
Qed.

Lemma stored_ref_point x p : stored_ref x = point_to_block_ref p → entry_point x.1 = p.
Proof. destruct p. unfold stored_ref, block_ref, entry_point, point_of, point_to_block_ref. by intros [= -> ->]. Qed.

Lemma linked_stored t last_hash pre rest :
  blocks_ok parent first t last_hash → stored t = pre ++ rest → linked (stored_points pre).
Proof.
  intros Hb E. pose proof (bo_linked _ _ _ _ Hb) as Hl. rewrite <- (stored_points_chain t last_hash Hb), E in Hl.
  unfold stored_points in *. rewrite map_app in Hl. by apply linked_prefix in Hl.
Qed.

(** A page is given only from a cursor on the chain; the view is then the chain up to
    it. *)
Lemma page_cursor t last_hash c m resp view :
  blocks_ok parent first t last_hash → linked view →
  match c with
  | None => view = []
  | Some c => ∃ p, last view = Some p ∧ c = point_to_block_ref p ∧ bytes_ok (pt_hash p)
  end →
  page_blocks_with_context encode_txout encode_block shuffle t (mkPageRequest c m) = Ok resp →
  1 ≤ m ∧ ∃ pre rest, stored t = pre ++ rest ∧ at_cursor c pre ∧ view = stored_points pre.
Proof.
  intros Hb Hl Hc Hp. assert (Hm : 1 ≤ m).
  { unfold page_blocks_with_context in Hp. cbn [max_items] in Hp. destruct (Z.ltb_spec m 1); [done|lia]. }
  split; [done|]. destruct c as [c|]; [|by exists [], (stored t)].
  destruct Hc as (p & Hlast & -> & _).
  destruct (decide (Exists (λ x, stored_ref x = point_to_block_ref p) (stored t))) as [He|Hn].
  - apply Exists_exists in He as (x & Hx & Hr). apply list_elem_of_split in Hx as (pre & rest & E).
    exists (pre ++ [x]), rest. rewrite <- (assoc_L (++)). split; [done|].
    cbn [at_cursor]. rewrite last_snoc. split; [cbn; by rewrite Hr|].
    apply (linked_unique parent first _ _ p); [done| |done|].
    + apply (linked_stored t last_hash _ rest Hb). by rewrite <- (assoc_L (++)).
    + unfold stored_points. rewrite map_app. cbn [map]. rewrite last_snoc. f_equal. by apply stored_ref_point.
  - rewrite (page_missing parent first encode_txout encode_block shuffle t last_hash) in Hp; [done|done|done|].
    intros x Hx Hr. apply Hn, Exists_exists. by exists x.
Qed.

Lemma page_follows view0 y c w base n0 hist view :
  0 ≤ first → mode (client y) = Dumping c → work None (world y) = (w, Ok tt) →
  server_ok (server y) base n0 hist → follow view0 (out y) = Some view → linked view →
  stands y base n0 hist view →
  following view0 (mkSystem (server y) (worker w) (stream y) (pending y) (sent w)).
Proof.
  intros H0 Hm Hw Hs Hf Hl Hp. unfold stands in Hp. rewrite Hm in Hp.
  destruct (work_page y c w Hm Hw) as (resp & w1 & Hpage & Hact & Hsent & Hmode).
  pose proof (so_blocks _ _ _ _ _ _ Hs) as Hb. fold (now (server y)) in Hb.
  assert (Hc : match c with None => view = []
    | Some c => ∃ p, last view = Some p ∧ c = point_to_block_ref p ∧ bytes_ok (pt_hash p) end) by by destruct c.
  destruct (page_cursor _ _ _ _ _ _ Hb Hl Hc Hpage) as (Hmax & pre & rest & E & Hat & ->).
  rewrite (page_found parent first encode_txout encode_block shuffle _ _ _ _ pre rest Hb H0 Hmax E Hat) in Hpage. injection Hpage as <-.
  cbn [ps_blocks] in *. set (new := take _ rest) in *.
  destruct (page_sent new false w1 w Hact) as (Hwork & ps & Hps & Hfol).
  exists base, n0, hist, (stored_points (pre ++ new)). cbn [server client out]. split; [done|].
  split; [|split].
  - rewrite Hps, Hsent, follow_app, Hf. cbn [mbind option_bind]. rewrite Hfol. unfold stored_points.
    by rewrite map_app.
  - apply (linked_stored _ _ _ (drop (Z.to_nat (default 20 max_items_per_page)) rest) Hb).
    unfold new. by rewrite <- (assoc_L (++)), take_drop.
  - unfold stands. cbn [client]. rewrite Hwork, Hmode. unfold stored_points. rewrite map_app.
    destruct (last new) as [x|] eqn:El.
    + change (map (stored_message encode_txout encode_block shuffle) new)
        with (stored_message encode_txout encode_block shuffle <$> new).
      rewrite fmap_last, El. cbn. exists (entry_point x.1). apply last_Some in El as [l ->].
      rewrite map_app. cbn [map]. rewrite (assoc_L (++)), last_snoc. split; [done|]. split; [done|apply hash_bytes_ok].
    + apply last_None in El. rewrite El. cbn. rewrite app_nil_r. done.
Qed.


(** The stream opens where the view is. *)
Lemma open_follows view0 y c w seq base n0 hist view :
  mode (client y) = Dumping (Some c) → try_stream (world y) = (w, Ok tt) →
  mode (worker w) = Streaming → stream_updates_with_context (now (server y)) [c] = Ok seq →
  server_ok (server y) base n0 hist → follow view0 (out y) = Some view → linked view →
  stands y base n0 hist view →
  following view0 (mkSystem (server y) (worker w) (Some seq) [] (sent w)).
Proof.
  intros Hm Ht Hm' Hopen Hs Hf Hl Hp. unfold stands in Hp. rewrite Hm in Hp.
  destruct Hp as (p & Hlast & -> & Hbytes).
  assert (Hsent : sent w = out y).
  { unfold try_stream, get_worker in Ht. unfold mbind, Net_bind in Ht. cbn [worker world] in Ht.
    rewrite Hm in Ht. destruct (upstream_height (client y)); [|by injection Ht as <-].
    destruct (_ <=? _); [|by injection Ht as <-]. unfold call in Ht. cbn [answers world] in Ht.
    rewrite Hopen in Ht. by injection Ht as <-. }
  cbn [stream_updates_with_context point_to_block_ref br_hash br_height] in Hopen.
  destruct (Nat.eqb_spec (length (pt_hash p)) 32) as [H32|]; [|done]. cbn [negb] in Hopen.
  destruct (find_wal_seq _ _ _) as [seq'|] eqn:Efind; [|done]. injection Hopen as ->.
  unfold find_wal_seq in Efind. apply scan_until_or_Some in Efind as (pre & v & post & E & Hv & _).
  apply is_point_true in Hv as (Hu & Hh & Hhash).
  destruct (so_log _ _ _ _ _ _ Hs) as [Hn0 Hnext Hbound (q & Hq & Etab) Hrep Hlinked].
  unfold now in E. rewrite Etab in E.
  assert (Hin : (seq, v) ∈ drop q (numbered n0 hist)) by (rewrite E; apply elem_of_app; right; by left).
  rewrite drop_numbered in Hin. apply elem_of_numbered in Hin as (Hge & Hlook & Hlt).
  rewrite lookup_drop in Hlook. set (i := (q + _)%nat) in Hlook.
  assert (Hi : seq = n0 + Z.of_nat i) by (unfold i; lia).
  destruct (Hlinked (S i)) as (c & Hc & Hcl). rewrite (take_S_r _ _ _ Hlook) in Hc.
  exists base, n0, hist, view. cbn [server out]. split; [done|]. split; [by rewrite Hsent|]. split; [done|].
  unfold stands. cbn [client]. rewrite Hm'. exists (take i hist ++ [v]), (drop (S i) hist). cbn [pending app].
  assert (Hpt : log_point v = p).
  { unfold log_point, point_of. rewrite Hh, Hhash. destruct p as [ph pb]. cbn in *. f_equal.
    by apply hash_bytes_of. }
  assert (Hlc : last c = Some p).
  { rewrite replay_app in Hc. destruct (replay base (take i hist)) as [c0|]; [|done].
    cbn [mbind option_bind replay] in Hc. destruct v as [h hash b e|h hash b|h hash b]; [|done|].
    - cbn [log_step mbind option_bind] in Hc. injection Hc as <-. by rewrite last_snoc, Hpt.
    - cbn [log_step] in Hc. rewrite Hpt in Hc. destruct (cut_after p c0) eqn:Ec; [|done].
      injection Hc as <-. by apply cut_after_Some in Ec as (_ & _ & ?). }
  split_and!.
  - rewrite <- (take_drop (S i) hist) at 1. by rewrite (take_S_r _ _ _ Hlook).
  - by destruct (take i hist).
  - rewrite Hc. f_equal. by apply (linked_unique parent first _ _ p).
  - intros s [= <-]. rewrite app_nil_r, length_app, length_take_le.
    + cbn. lia.
    + apply lookup_lt_Some in Hlook. lia.
Qed.


(** Taking an entry of the log from the stream. *)
Lemma work_next y l w :
  mode (client y) = Streaming →
  work (Some (Ok (log_to_response_with_ctx encode_txout encode_block shuffle l))) (world y) = (w, Ok tt) →
  mode (worker w) = Streaming
  ∧ ∃ ps, sent w = out y ++ ps ∧ ∀ view, follow view ps = log_step view l.
Proof.
  intros Hm. unfold work, Source.fetch, get_worker. unfold mbind, Net_bind. cbn [worker world]. rewrite Hm.
  unfold Source.or_restart, lift, ok_or, log_to_response_with_ctx, execute, mret, Net_ret.
  cbn [actions unit_mutable process_actions]. unfold mbind, Net_bind.
  destruct (process_action _ _ _ _) as [w1 [[]| |]] eqn:E; [|done..]. unfold mret, Net_ret. intros [= <-].
  unfold process_action in E. unfold mbind, Net_bind, lift in E.
  destruct l as [h hash b e|h hash b|h hash b]; cbn [action_payload block_with_context bc_ref ok_or mbind outcome_bind] in E.
  - destruct (context_of _ _) as [ctx| |]; [|done..]. cbn [mbind outcome_bind] in E.
    unfold block_ref_to_point, block_ref in E. cbn [br_hash br_height] in E.
    rewrite to_array_hash in E. injection E as <-. split; [done|]. eexists [_]. split; [done|]. done.
  - injection E as <-. split; [done|]. exists []. by rewrite app_nil_r.
  - unfold block_ref_to_point, block_ref in E. cbn [br_hash br_height] in E.
    rewrite to_array_hash in E. injection E as <-. split; [done|]. eexists [_]. split; [done|].
    intros view. cbn. by destruct (cut_after _ view).
Qed.

Lemma next_follows view0 y l rest w base n0 hist view :
  mode (client y) = Streaming → pending y = l :: rest →
  work (Some (Ok (log_to_response_with_ctx encode_txout encode_block shuffle l))) (world y) = (w, Ok tt) →
  server_ok (server y) base n0 hist → follow view0 (out y) = Some view →
  stands y base n0 hist view →
  following view0 (mkSystem (server y) (worker w) (stream y) rest (sent w)).
Proof.
  intros Hm Hpend Hw Hs Hf Hp. unfold stands in Hp. rewrite Hm in Hp.
  destruct Hp as (past & later & -> & Hne & Hrep & Hseq). rewrite Hpend in *.
  destruct (work_next y l w Hm Hw) as (Hm' & ps & Hsent & Hps).
  destruct (lo_linked _ _ _ _ _ _ _ _ (so_log _ _ _ _ _ _ Hs) (S (length past))) as (view' & Hv & Hl').
  cbn [app] in Hv. replace (S (length past)) with (length past + 1)%nat in Hv by lia.
  rewrite take_app_add, replay_app, Hrep in Hv.
  cbn [take mbind option_bind replay] in Hv.
  destruct (log_step view l) as [v|] eqn:El; [|done]. injection Hv as ->.
  exists base, n0, (past ++ (l :: rest) ++ later), view'. cbn [server out].
  split; [done|]. split; [|split; [done|]].
  - rewrite Hsent, follow_app, Hf. cbn [mbind option_bind]. by rewrite Hps.
  - unfold stands. cbn [client pending stream]. rewrite Hm'. exists (past ++ [l]), later.
    rewrite <- !(assoc_L (++)). cbn [app]. split_and!; [done|by destruct past| |done].
    rewrite replay_app, Hrep. cbn. by rewrite El.
Qed.

Lemma poll_follows view0 y seq logs last base n0 hist view :
  stream y = Some seq → stream_poll (MutableKV (now (server y))) seq = (logs, last) →
  server_ok (server y) base n0 hist → follow view0 (out y) = Some view → linked view →
  stands y base n0 hist view →
  following view0 (mkSystem (server y) (client y) last (pending y ++ logs) (out y)).
Proof.
  intros Hst Hpoll Hs Hf Hl Hp. exists base, n0, hist, view. split; [done|]. split; [done|]. split; [done|].
  unfold stands in *. cbn [client pending stream]. destruct (mode (client y)) as [|[c|]|]; [done..|].
  destruct Hp as (past & later & E & Hne & Hrep & Hseq). pose proof (Hseq _ Hst) as Hpos.
  assert (Hlen : (1 ≤ length (past ++ pending y))%nat) by (destruct past; [done|cbn; lia]).
  set (j := (length (past ++ pending y) - 1)%nat).
  replace seq with (n0 + Z.of_nat j) in Hpoll by (unfold j; lia).
  assert (Hj : (j < length hist)%nat).
  { rewrite E, (assoc_L (++)), length_app. unfold j. lia. }
  destruct (poll_next _ _ _ _ _ _ _ _ _ _ _ (so_log _ _ _ _ _ _ Hs) Hj Hpoll) as (k & Hlogs & Hlast).
  replace (S j) with (length (past ++ pending y)) in Hlogs by (unfold j; lia).
  rewrite E, (assoc_L (++)), drop_app_length in Hlogs.
  exists past, (drop k later). split_and!; [|done|done|].
  - rewrite <- (assoc_L (++)), Hlogs, take_drop. done.
  - intros s Hs'. rewrite (Hlast s Hs'). rewrite (assoc_L (++)), (length_app (past ++ pending y)). unfold j. lia.
Qed.

Lemma server_follows view0 y e s base n0 hist view :
  roll (server y) e = Ok s → announced parent first (server y) e →
  server_ok (server y) base n0 hist → follow view0 (out y) = Some view → linked view →
  stands y base n0 hist view →
  following view0 (mkSystem s (client y) (stream y) (pending y) (out y)).
Proof.
  intros Hr Ha Hs Hf Hl Hp.
  destruct (roll_ok _ _ _ _ _ _ _ _ _ _ _ _ _ _ _ _ Hr Hs Ha) as (base' & n0' & hist' & Hs' & Hpre).
  exists base', n0', hist', view. split; [done|]. split; [done|]. split; [done|].
  unfold stands in *. cbn [client pending stream]. destruct (mode (client y)) as [|[c|]|]; [done..|].
  destruct Hp as (past & later & -> & Hne & Hrep & Hseq).
  destruct Hpre as (-> & -> & more & ->); [by destruct past|].
  exists past, (later ++ more). by rewrite <- !(assoc_L (++)).
Qed.

Lemma not_yet_follows view0 y w base n0 hist view :
  try_stream (world y) = (w, Ok tt) → mode (worker w) = mode (client y) →
  server_ok (server y) base n0 hist → follow view0 (out y) = Some view → linked view →
  stands y base n0 hist view →
  following view0 (mkSystem (server y) (worker w) (stream y) (pending y) (sent w)).
Proof.
  intros Ht Hm Hs Hf Hl Hp. assert (Hsent : sent w = out y).
  { unfold try_stream, get_worker in Ht. unfold mbind, Net_bind in Ht. cbn [worker world] in Ht.
    destruct (upstream_height (client y)); [|by injection Ht as <-].
    destruct (mode (client y)) as [|[c|]|]; [by injection Ht as <-| |by injection Ht as <-..].
    destruct (_ <=? _); [|by injection Ht as <-]. unfold call in Ht. cbn [answers world] in Ht.
    destruct (stream_updates_with_context _ _) as [|[]|]; first [done|by injection Ht as <-]. }
  exists base, n0, hist, view. cbn [server out]. rewrite Hsent. split_and!; [done..|].
  unfold stands in *. cbn [client pending stream]. by rewrite Hm.
Qed.

Lemma step_follows view0 y y' : 0 ≤ first → step y y' → following view0 y → following view0 y'.
Proof.
  intros H0 Hstep (base & n0 & hist & view & Hs & Hf & Hl & Hp). destruct Hstep.
  - by eapply server_follows.
  - by eapply open_follows.
  - by eapply not_yet_follows.
  - by eapply page_follows.
  - by eapply poll_follows.
  - by eapply next_follows.
Qed.


(** ** The start *)

Abbreviation bootstrap := (bootstrap encode_txout encode_block shuffle parse_hash n intersect).

(** The chain the store has: its cursor is the last block, the blocks it can roll back
    to are on it. *)
Record store_view (s s' : Store) (view : list Point) : Prop := {
  sv_linked : linked view;
  sv_bytes : Forall (λ p, bytes_ok (pt_hash p)) view;
  sv_buffer : ∀ buf e, fetch_persistent_buffer n s = Ok (Some buf) → e ∈ buf → pb_point e ∈ view;
  sv_cursor : last_point n s' = Ok (last view);
}.

Lemma intersect_points_found points w w' p :
  intersect_points encode_txout encode_block shuffle points w = (w', Ok p) →
  sent w' = sent w ∧ ∃ q, p = Some q ∧ q ∈ points.
Proof.
  induction points as [|q points IH] in w |- *; cbn [intersect_points]; [done|].
  unfold page_from, page_request, call, mbind, Net_bind. cbn.
  destruct (match answers w with Some t :: _ => _ | _ => _ end) as [r|[]|].
  - intros [= <- <-]. split; [done|]. exists q. split; [done|by left].
  - done.
  - intros (-> & x & -> & Hx)%IH. split; [done|]. exists x. split; [done|by right].
  - done.
  - done.
Qed.

Lemma expect_intersect_found p w w' i :
  expect_intersect encode_txout encode_block shuffle p w = (w', Ok i) → sent w' = sent w ∧ i = Some p.
Proof.
  unfold expect_intersect, page_from, page_request, call, mbind, Net_bind. cbn.
  destruct (match answers w with Some t :: _ => _ | _ => _ end) as [r|[]|]; [|done..]. by intros [= <- <-].
Qed.

(** After the intersection the client goes on from there. *)
Lemma bootstrap_rest (i : option Point) w w' :
  (res ← page_request encode_txout encode_block shuffle (mkPageRequest None 1);
   res ← Source.or_panic res;
   set_upstream (br_height <$> chain_tip res);;
   set_mode (Dumping (point_to_block_ref <$> i))) w = (w', Ok tt) →
  sent w' = sent w ∧ mode (worker w') = Dumping (point_to_block_ref <$> i).
Proof.
  unfold page_request, call, Source.or_panic, lift, mbind, Net_bind. cbn.
  destruct (match answers w with Some t :: _ => _ | _ => _ end) as [r|[]|]; [|done..]. by intros [= <-].
Qed.

Lemma cut_after_elem view p : p ∈ view → ∃ c post, cut_after p view = Some c ∧ view = c ++ post ∧ last c = Some p.
Proof.
  intros Hp. assert (is_Some (cut_after p view)) as [c Hc].
  { induction view as [|q view IH]; [by apply not_elem_of_nil in Hp|]. cbn.
    case_decide as E; [eauto|]. apply fmap_is_Some, IH. apply elem_of_cons in Hp as [->|]; done. }
  pose proof (cut_after_Some _ _ _ Hc) as (post & Hpost & Hl). by exists c, post.
Qed.

(** What the client has found before its first page, and has sent. *)
Lemma bootstrap_found s s' w0 ans w' :
  intersect = IntersectOrigin → bootstrap s s' (mkWorld w0 ans []) = (w', Ok tt) →
  ∃ i, mode (worker w') = Dumping (point_to_block_ref <$> i)
    ∧ ((∃ buf e, fetch_persistent_buffer n s = Ok (Some buf) ∧ e ∈ buf
          ∧ i = Some (pb_point e) ∧ sent w' = [EnrichedBack (pb_point e) true])
       ∨ (last_point n s' = Ok i ∧ sent w' = [])).
Proof.
  intros Hi (w1 & found & H1 & H)%Net_bind_Ok. apply Net_bind_Ok in H as (w2 & i & H2 & H).
  apply bootstrap_rest in H as [Hsent Hmode]. exists i. split; [done|].
  unfold try_intersect_with_rollback_buf in H1. apply Net_bind_Ok in H1 as (w3 & buf & [= <- Hb] & H1).
  destruct buf as [buf|].
  - left. apply intersect_points_found in H1 as (Hs1 & p & -> & Hp).
    rewrite <- Permutation_rev in Hp. apply list_elem_of_fmap in Hp as (e & -> & He).
    injection H2 as <- <-. exists buf, e. rewrite Hsent. cbn [sent]. by rewrite Hs1.
  - right. injection H1 as <- <-. unfold try_intersect_with_last_point_or_config in H2.
    apply Net_bind_Ok in H2 as (w3 & lastp & [= <- Hp] & H2). rewrite Hp.
    destruct lastp as [p|].
    + apply expect_intersect_found in H2 as [Hs2 ->]. by rewrite Hsent, Hs2.
    + rewrite Hi in H2. injection H2 as <- <-. by rewrite Hsent.
Qed.

Lemma bootstrap_follows s s' view0 w0 ans w' srv base n0 hist :
  intersect = IntersectOrigin → store_view s s' view0 →
  bootstrap s s' (mkWorld w0 ans []) = (w', Ok tt) → server_ok srv base n0 hist →
  following view0 (mkSystem srv (worker w') None [] (sent w')).
Proof.
  intros Hi [Hl Hby Hbuf Hcur] H Hs. rewrite Forall_forall in Hby.
  destruct (bootstrap_found _ _ _ _ _ Hi H) as (i & Hm & [(buf & e & Hb & He & -> & Hsent)|[Hp Hsent]]).
  - pose proof (Hbuf _ _ Hb He) as Hin. destruct (cut_after_elem _ _ Hin) as (c & post & Hc & -> & Hlast).
    exists base, n0, hist, c. cbn [server out]. rewrite Hsent. cbn [follow view_step]. rewrite Hc.
    split; [done|]. split; [done|]. split; [by apply linked_prefix in Hl|].
    unfold stands. cbn [client]. rewrite Hm. cbn. exists (pb_point e). by split_and!; [|..|apply Hby].
  - rewrite Hcur in Hp. injection Hp as <-.
    exists base, n0, hist, view0. cbn [server out]. rewrite Hsent. split_and!; [done..|].
    unfold stands. cbn [client]. rewrite Hm. destruct (last view0) as [p|] eqn:El; cbn.
    + exists p. split_and!; [done..|]. apply Hby. apply last_Some in El as [l ->]. set_solver.
    + by apply last_None in El.
Qed.

(** ** The client follows *)

(** The client has all there is: the next page is empty, or the stream is at the end of
    the log and everything it gave was taken. *)
Definition caught_up (y : System) : Prop :=
  match mode (client y) with
  | Init => False
  | Dumping c =>
      ps_blocks <$> page_blocks_with_context encode_txout encode_block shuffle (now (server y))
        (mkPageRequest c (default 20 max_items_per_page)) = Ok []
  | Streaming => pending y = [] ∧ stream y = Some (next_wal_seq (chain_db (server y)) - 1)
  end.

Lemma caught_up_view y base n0 hist view :
  0 ≤ first → server_ok (server y) base n0 hist → linked view → stands y base n0 hist view →
  caught_up y → view = chain (server y).
Proof.
  intros H0 Hs Hl Hp Hc. unfold stands, caught_up in *.
  pose proof (so_blocks _ _ _ _ _ _ Hs) as Hb. fold (now (server y)) in Hb.
  destruct (mode (client y)) as [|c|]; [done| |].
  - destruct (page_blocks_with_context _ _ _ _ _) as [resp| |] eqn:Hpage; [|done..].
    assert (Hc' : match c with None => view = []
      | Some c => ∃ p, last view = Some p ∧ c = point_to_block_ref p ∧ bytes_ok (pt_hash p) end) by by destruct c.
    destruct (page_cursor _ _ _ _ _ _ Hb Hl Hc' Hpage) as (Hmax & pre & rest & E & Hat & ->).
    rewrite (page_found parent first encode_txout encode_block shuffle _ _ _ _ pre rest Hb H0 Hmax E Hat) in Hpage.
    injection Hpage as <-. cbn in Hc. injection Hc as Hc. apply map_eq_nil in Hc.
    unfold chain. fold (now (server y)). rewrite <- (stored_points_chain _ _ Hb), E.
    destruct rest; [by rewrite app_nil_r|].
    destruct (Z.to_nat (default 20 max_items_per_page)) eqn:En; [lia|done].
  - destruct Hc as [Hpend Hst]. destruct Hp as (past & later & E & _ & Hrep & Hseq).
    pose proof (Hseq _ Hst) as Hpos. rewrite Hpend, app_nil_r in Hpos. rewrite Hpend in E. cbn in E.
    destruct (so_log _ _ _ _ _ _ Hs) as [_ Hnext _ _ Hr _].
    assert (later = []) as ->.
    { apply length_zero_iff_nil. rewrite E, length_app in Hnext. lia. }
    rewrite app_nil_r in E. subst hist. rewrite Hrep in Hr. by injection Hr.
Qed.

(** C2: The source of polyphony follows the chain of the compressor.  From any start of
    the source over a store whose blocks form a chain, and in any interleaving of blocks
    and rollbacks at the server with pages, openings of the stream and entries of the
    stream at the client, the messages the client sends downstream describe a chain of
    consecutive blocks, each on top of the one before, and roll back only to blocks of
    it; when the client has all there is, that chain is the chain of the server. *)
Theorem source_follows_chain s s' view0 w0 ans w' srv base n0 hist y :
  0 ≤ first → intersect = IntersectOrigin → store_view s s' view0 →
  bootstrap s s' (mkWorld w0 ans []) = (w', Ok tt) → server_ok srv base n0 hist →
  rtc step (mkSystem srv (worker w') None [] (sent w')) y →
  ∃ view, follow view0 (out y) = Some view ∧ linked view
    ∧ (caught_up y → view = chain (server y)).
Proof.
  intros H0 Hi Hv Hboot Hs Hrtc. pose proof (bootstrap_follows _ _ _ _ _ _ _ _ _ _ Hi Hv Hboot Hs) as Hf.
  revert Hf. induction Hrtc as [y|y1 y2 y3 Hstep _ IH]; intros Hf.
  - destruct Hf as (base' & n0' & hist' & view & Hs' & Hfol & Hl & Hp).
    exists view. split_and!; [done..|]. by eapply caught_up_view.
  - apply IH. by eapply step_follows.
Qed.



End system.

(** ** A run *)

(** Blocks with nothing but a coinbase. *)
Definition run_block (hash prev : Z) : Block :=
  mkBlock hash prev [mkTransaction (hash + 500) [mkTxIn (mkOutPoint 0 (umax 32)) []] [mkTxOut 50 [83]]].
Definition run_parent (b : list Z) : list Z :=
  hash_bytes (match of_be_bytes b with 112 => 101 | h => h - 1 end).
Definition run_stage : Stage :=
  mkStage (ChainDB_open (mkTables ∅ ∅ (DunesUpdater.mkDunesDB ∅ ∅ ∅ None) (mkInscDB empty_db ∅ ∅) None ∅ ∅) None
    Dogecoin 1000 1000) false None.

Definition run_roll : Stage → PullEvent → outcome Error Stage :=
  roll_execute 210000 (λ _, []) (λ _, false) id (λ _, None) (λ _, 0) (λ _, 100) value.
Definition run_encode (b : Block) : list Z := [block_hash b].
Definition run_namespace : Namespace := mkNamespace 1 2.
Definition run_work (next : option (outcome Status (option Action))) (y : System) : World :=
  (work plain_encode run_encode plain_shuffle plain_decode None next (world y)).1.

Definition on_server (e : PullEvent) (y : System) : System :=
  mkSystem (match run_roll (server y) e with Ok s => s | _ => server y end) (client y) (stream y)
    (pending y) (out y).
Definition on_page (y : System) : System :=
  let w := run_work None y in mkSystem (server y) (worker w) (stream y) (pending y) (sent w).
Definition on_open (y : System) : System :=
  let w := (try_stream (world y)).1 in mkSystem (server y) (worker w) (Some 1) [] (sent w).
Definition on_poll (y : System) : System :=
  let p := stream_poll (MutableKV (now (server y))) (default 0 (stream y)) in
  mkSystem (server y) (client y) p.2 (pending y ++ p.1) (out y).
Definition on_next (y : System) : System :=
  match pending y with
  | l :: rest =>
      let w := run_work (Some (Ok (log_to_response_with_ctx plain_encode run_encode plain_shuffle l))) y in
      mkSystem (server y) (worker w) (stream y) rest (sent w)
  | [] => y
  end.

Definition run_start : World :=
  (bootstrap plain_encode run_encode plain_shuffle Some run_namespace IntersectOrigin ∅ ∅
     (mkWorld (mkSourceWorker Init None) [Some (now run_stage)] [])).1.
Definition run0 : System := mkSystem run_stage (worker run_start) None [] (sent run_start).
Definition run1 : System := on_server (ChainDB.RollForward 0 101 (run_block 101 100) 0) run0.
Definition run2 : System := on_open (on_page run1).
(** A block, a rollback, and a block in its place. *)
Definition run3 : System := on_server (ChainDB.RollForward 1 102 (run_block 102 101) 1) run2.
Definition run4 : System := on_server (ChainDB.RollBack 0 101 1) run3.
Definition run5 : System := on_server (ChainDB.RollForward 1 112 (run_block 112 101) 1) run4.
Definition run6 : System := on_next (on_next (on_next (on_next (on_poll run5)))).

Example run6_view :
  follow [] (out run6) = Some (chain (server run6))
  ∧ chain (server run6) = [point_of 0 101; point_of 1 112] ∧ length (out run6) = 4%nat
  ∧ mode (client run6) = Streaming ∧ pending run6 = [] ∧ stream run6 = Some 5.
Proof. by vm_compute. Qed.


Abbreviation run_step := (step 210000 (λ _, []) (λ _, false) id (λ _, None) (λ _, 0) (λ _, 100) value
  plain_encode run_encode plain_shuffle plain_decode None run_parent 0).

Lemma run_forward h hash prev tip y :
  bool_decide (next_wal_seq (chain_db (server y)) + Z.of_nat (length (chain (server y))) + 1 < 2 ^ 64
    ∧ h = 0 + Z.of_nat (length (chain (server y))) ∧ in_range 256 hash
    ∧ run_parent (hash_bytes hash) = hash_bytes prev) = true →
  is_ok (run_roll (server y) (ChainDB.RollForward h hash (run_block hash prev) tip)) = true →
  run_step y (on_server (ChainDB.RollForward h hash (run_block hash prev) tip) y).
Proof.
  intros (Hb & Hh & Hr & Hp)%bool_decide_eq_true H. unfold on_server.
  apply step_server with (ChainDB.RollForward h hash (run_block hash prev) tip).
  - fold run_roll. by destruct (run_roll _ _).
  - done.
Qed.

Lemma run_next y :
  match mode (client y), pending y with
  | Streaming, l :: _ =>
      is_ok (work plain_encode run_encode plain_shuffle plain_decode None
        (Some (Ok (log_to_response_with_ctx plain_encode run_encode plain_shuffle l))) (world y)).2
  | _, _ => false
  end = true →
  run_step y (on_next y).
Proof.
  unfold on_next. destruct (mode (client y)) eqn:Hm; [done..|]. destruct (pending y) as [|l rest] eqn:Hp; [done|].
  unfold run_work. destruct (work _ _ _ _ _ _ _) as [w [[]| |]] eqn:E; [|done..]. intros _.
  by apply step_next with l.
Qed.

Lemma run_stage_ok : server_ok run_parent 0 run_stage [] 1 [].
Proof.
  split; [|apply log_restart; [done|lia|constructor]|done].
  split; [constructor|done| |done]. intros h x Hx. cbn in Hx. by rewrite lookup_empty in Hx.
Qed.

Lemma run_steps : rtc run_step run0 run6.
Proof.
  eapply rtc_l with run1; [by apply run_forward; vm_compute|].
  eapply rtc_l with (on_page run1); [apply (step_page _ _ _ _ _ _ _ _ _ _ _ _ _ _ _ run1 None); by vm_compute|].
  eapply rtc_l with run2.
  { apply (step_open _ _ _ _ _ _ _ _ _ _ _ _ _ _ _ (on_page run1) (block_ref 0 101)); by vm_compute. }
  eapply rtc_l with run3; [by apply run_forward; vm_compute|].
  eapply rtc_l with run4.
  { apply (step_server _ _ _ _ _ _ _ _ _ _ _ _ _ _ _ run3 (ChainDB.RollBack 0 101 1)); by vm_compute. }
  eapply rtc_l with run5; [by apply run_forward; vm_compute|].
  eapply rtc_l with (on_poll run5).
  { apply (step_poll _ _ _ _ _ _ _ _ _ _ _ _ _ _ _ run5 1); by vm_compute. }
  eapply rtc_l with (on_next (on_poll run5)); [by apply run_next; vm_compute|].
  eapply rtc_l with (on_next (on_next (on_poll run5))); [by apply run_next; vm_compute|].
  eapply rtc_l with (on_next (on_next (on_next (on_poll run5)))); [by apply run_next; vm_compute|].
  eapply rtc_l with run6; [by apply run_next; vm_compute|]. apply rtc_refl.
Qed.


Lemma source_follows_chain_witness :
  ∃ view, follow [] (out run6) = Some view ∧ linked run_parent 0 view
    ∧ (caught_up plain_encode run_encode plain_shuffle None run6 → view = chain (server run6)).
Proof.
  refine (source_follows_chain 210000 (λ _, []) (λ _, false) id (λ _, None) (λ _, 0) (λ _, 100) value
    plain_encode run_encode plain_shuffle plain_decode Some run_namespace IntersectOrigin None run_parent 0
    ∅ ∅ [] (mkSourceWorker Init None) [Some (now run_stage)] run_start run_stage [] 1 [] run6
    ltac:(lia) eq_refl _ _ run_stage_ok run_steps).
  - split; [constructor|constructor| |by vm_compute]. intros buf e Hbuf. exfalso.
    assert (E : fetch_persistent_buffer run_namespace ∅ = Ok None) by by vm_compute. by rewrite E in Hbuf.
  - by vm_compute.
Defined.

(** ** A restart *)

(** A block of the part of the chain that is dumped. *)
Definition dumped (p : EnrichedBlockPayload) : Prop :=
  match p with EnrichedForward _ _ _ mutable => mutable = false | EnrichedBack _ _ => False end.

(** What only reads the answers of the server. *)
Definition quiet {A} (m : Net A) : Prop :=
  ∀ ans, ∃ ans' o, ∀ wk out, m (mkWorld wk ans out) = (mkWorld wk ans' out, o).

(** What sends dumped blocks, the same ones whatever was sent before; a result has [Q]. *)
Definition dumps {A} (Q : A → Prop) (m : Net A) : Prop :=
  ∀ wk ans, ∃ wk' ans' ps o, Forall dumped ps ∧ (∀ a, o = Ok a → Q a)
    ∧ ∀ out, m (mkWorld wk ans out) = (mkWorld wk' ans' (out ++ ps), o).

Lemma quiet_lift {A} (o : outcome WorkError A) : quiet (lift o).
Proof. intros ans. by exists ans, o. Qed.
Lemma quiet_ret {A} (a : A) : quiet (mret a).
Proof. intros ans. by exists ans, (Ok a). Qed.
Lemma quiet_call {A} (f : Tables → outcome Status A) : quiet (call f).
Proof. intros ans. by exists (tail ans), (Ok (match ans with Some t :: _ => f t | _ => Err OtherStatus end)). Qed.
Lemma quiet_bind {A B} (m : Net A) (f : A → Net B) : quiet m → (∀ a, quiet (f a)) → quiet (m ≫= f).
Proof.
  intros Hm Hf ans. destruct (Hm ans) as (ans' & o & E). unfold mbind, Net_bind. destruct o as [a|e|].
  - destruct (Hf a ans') as (ans2 & o2 & E2). exists ans2, o2. intros wk out. by rewrite E.
  - exists ans', (Err e). intros wk out. by rewrite E.
  - exists ans', Panic. intros wk out. by rewrite E.
Qed.

Lemma dumps_quiet {A} (m : Net A) : quiet m → dumps (λ _, True) m.
Proof.
  intros Hm wk ans. destruct (Hm ans) as (ans' & o & E). exists wk, ans', [], o.
  split_and!; [done..|]. intros out. by rewrite app_nil_r.
Qed.
Lemma dumps_ret {A} (Q : A → Prop) a : Q a → dumps Q (mret a).
Proof.
  intros Ha wk ans. exists wk, ans, [], (Ok a). split_and!; [done|by intros ? [= <-]|]. intros out. by rewrite app_nil_r.
Qed.
Lemma dumps_fail {A} (Q : A → Prop) (o : outcome WorkError A) : is_ok o = false → dumps Q (lift o).
Proof.
  intros Ho wk ans. exists wk, ans, [], o. split_and!; [done|by intros a ->|]. intros out. by rewrite app_nil_r.
Qed.
Lemma dumps_bind {A B} (Q : A → Prop) (R : B → Prop) (m : Net A) (f : A → Net B) :
  dumps Q m → (∀ a, Q a → dumps R (f a)) → dumps R (m ≫= f).
Proof.
  intros Hm Hf wk ans. destruct (Hm wk ans) as (wk' & ans' & ps & o & Hps & HQ & E). unfold mbind, Net_bind.
  destruct o as [a|e|].
  - destruct (Hf a (HQ a eq_refl) wk' ans') as (wk2 & ans2 & ps2 & o2 & Hps2 & HR & E2).
    exists wk2, ans2, (ps ++ ps2), o2. split_and!; [by apply Forall_app|done|].
    intros out. by rewrite E, E2, (assoc_L (++)).
  - exists wk', ans', ps, (Err e). split_and!; [done..|]. intros out. by rewrite E.
  - exists wk', ans', ps, Panic. split_and!; [done..|]. intros out. by rewrite E.
Qed.
Lemma dumps_weaken {A} (Q R : A → Prop) m : (∀ a, Q a → R a) → dumps Q m → dumps R m.
Proof.
  intros H Hm wk ans. destruct (Hm wk ans) as (wk' & ans' & ps & o & Hps & HQ & E).
  exists wk', ans', ps, o. split_and!; [done|by auto|done].
Qed.
Lemma dumps_send p : dumped p → dumps (λ _, True) (send p).
Proof. intros Hp wk ans. exists wk, ans, [p], (Ok tt). by split_and!; [constructor|..]. Qed.
Lemma dumps_mode m : dumps (λ _, True) (set_mode m).
Proof.
  intros wk ans. exists (mkSourceWorker m (upstream_height wk)), ans, [], (Ok tt). split_and!; [done..|].
  intros out. by rewrite app_nil_r.
Qed.
Lemma dumps_upstream h : dumps (λ _, True) (set_upstream h).
Proof.
  intros wk ans. exists (mkSourceWorker (mode wk) h), ans, [], (Ok tt). split_and!; [done..|].
  intros out. by rewrite app_nil_r.
Qed.
Lemma dumps_worker : dumps (λ _, True) get_worker.
Proof. intros wk ans. exists wk, ans, [], (Ok wk). split_and!; [done..|]. intros out. by rewrite app_nil_r. Qed.

#[local] Hint Resolve quiet_lift quiet_ret quiet_call quiet_bind : core.
#[local] Hint Resolve dumps_quiet dumps_send dumps_mode dumps_upstream dumps_worker : core.

Section restart.
Context (encode_txout : TxOut → list Z) (encode_block : Block → list Z).
Context (shuffle : ∀ A, list A → list A) (decode_txout : list Z → option TxOut).
Context (parse_hash : list Z → option (list Z)).
Context (n : Namespace) (intersect : IntersectConfig) (max_items_per_page : option Z).

Abbreviation start := (bootstrap encode_txout encode_block shuffle parse_hash n intersect).

(** One turn of the stage, when no stream gives anything: a unit is scheduled and executed. *)
Definition turn : Net unit :=
  u ← schedule encode_txout encode_block shuffle max_items_per_page None;
  match u with Some u => execute decode_txout u | None => mret tt end.

Fixpoint turns (k : nat) : Net unit := match k with O => mret tt | S k => turn;; turns k end.

Lemma quiet_expect p : quiet (expect_intersect encode_txout encode_block shuffle p).
Proof.
  unfold expect_intersect, page_from, page_request. apply quiet_bind; [auto|]. intros [r| |]; auto.
Qed.

Lemma quiet_last_point s : quiet (try_intersect_with_last_point_or_config encode_txout encode_block shuffle parse_hash n intersect s).
Proof.
  unfold try_intersect_with_last_point_or_config. apply quiet_bind; [auto|]. intros [p|]; [apply quiet_expect|].
  destruct intersect as [| |h x]; [|auto|apply quiet_bind; [auto|]; intros; apply quiet_expect].
  apply quiet_bind; [unfold page_request; auto|]. intros res. apply quiet_bind; [unfold or_panic; auto|].
  intros r. destruct (chain_tip r); auto.
Qed.

(** A start without a rollback buffer sends nothing, and what the worker was is forgotten. *)
Lemma start_forgets s s' ans :
  fetch_persistent_buffer n s = Ok None →
  (∃ wk' ans', ∀ wk out, start s s' (mkWorld wk ans out) = (mkWorld wk' ans' out, Ok tt))
  ∨ ∀ wk out w, start s s' (mkWorld wk ans out) ≠ (w, Ok tt).
Proof.
  intros Hbuf.
  set (prefix := point ← try_intersect_with_last_point_or_config encode_txout encode_block shuffle parse_hash n intersect s';
    res ← page_request encode_txout encode_block shuffle (mkPageRequest None 1);
    res ← or_panic res; mret (point, br_height <$> chain_tip res)).
  assert (Hq : quiet prefix).
  { apply quiet_bind; [apply quiet_last_point|]. intros point. apply quiet_bind; [unfold page_request; auto|].
    intros res. apply quiet_bind; [unfold or_panic; auto|auto]. }
  assert (E : ∀ w, start s s' w = (x ← prefix; set_upstream x.2;; set_mode (Dumping (point_to_block_ref <$> x.1))) w).
  { intros w. unfold bootstrap, try_intersect_with_rollback_buf, prefix. unfold mbind, Net_bind.
    unfold lift at 1. rewrite Hbuf. cbn [mret Net_ret].
    destruct (try_intersect_with_last_point_or_config _ _ _ _ _ _ _ _) as [w1 [p| |]]; [|done..].
    destruct (page_request _ _ _ _ _) as [w2 [r| |]]; [|done..]. by destruct (or_panic r w2) as [w3 [x| |]]. }
  destruct (Hq ans) as (ans' & o & Ho). destruct o as [[point h]|e|].
  - left. exists (mkSourceWorker (Dumping (point_to_block_ref <$> point)) h), ans'. intros wk out.
    rewrite E. unfold mbind, Net_bind. by rewrite Ho.
  - right. intros wk out w. rewrite E. unfold mbind, Net_bind. by rewrite Ho.
  - right. intros wk out w. rewrite E. unfold mbind, Net_bind. by rewrite Ho.
Qed.

Definition dump_unit (u : SourceWorkUnit) : Prop :=
  unit_mutable u = false ∧ Forall (λ a, ∃ b, a = ActApply b) (actions u).

Lemma schedule_dumps :
  dumps (λ o, ∀ u, o = Some u → dump_unit u) (schedule encode_txout encode_block shuffle max_items_per_page None).
Proof.
  unfold schedule. eapply dumps_bind with (λ _, True).
  - unfold try_stream. eapply dumps_bind; [apply dumps_worker|]. intros w _.
    destruct (upstream_height w), (mode w) as [|[c|]|]; auto. destruct (_ <=? _); auto.
    eapply dumps_bind; [apply dumps_quiet; auto|]. intros [a|[]|] _; auto.
  - intros _ _. unfold fetch. eapply dumps_bind; [apply dumps_worker|]. intros w _.
    destruct (mode w) as [|c|]; [by apply dumps_fail| |].
    + eapply dumps_bind; [apply dumps_quiet; unfold page_request; auto|]. intros res _.
      eapply dumps_bind; [apply dumps_quiet; unfold or_restart; auto|]. intros r _.
      eapply dumps_bind with (λ _, True); [destruct (last (ps_blocks r)); auto|]. intros _ _.
      eapply dumps_bind; [apply dumps_upstream|]. intros _ _. apply dumps_ret. intros u.
      destruct (map ActApply (ps_blocks r)) as [|a l] eqn:El; [done|]. intros [= <-]. split; [done|].
      cbn [actions]. rewrite <- El. apply Forall_forall. intros x (b & -> & _)%list_elem_of_fmap. by eexists.
    + eapply dumps_bind with (λ _, False); [by apply dumps_fail|done].
Qed.

Lemma turns_dump k : dumps (λ _, True) (turns k).
Proof.
  induction k as [|k IH]; [by apply dumps_ret|]. cbn [turns]. eapply dumps_bind with (λ _, True); [|done].
  unfold turn. eapply dumps_bind; [apply schedule_dumps|]. intros [u|] Hu; [|by apply dumps_ret].
  destruct (Hu u eq_refl) as [Hm Ha]. unfold execute. rewrite Hm. clear -Ha.
  induction Ha as [|a l [b ->] _ IHl]; [by apply dumps_ret|]. cbn [process_actions].
  eapply dumps_bind with (λ _, True); [|done]. unfold process_action.
  destruct (action_payload decode_txout (ActApply b) false) as [p|e|] eqn:Ep.
  - eapply dumps_bind with (λ x, x = p); [apply dumps_ret; done|]. intros _ ->.
    cbn [action_payload] in Ep. apply outcome_bind_Ok in Ep as (r & _ & Ep). apply outcome_bind_Ok in Ep as (ctx & _ & Ep).
    apply outcome_bind_Ok in Ep as (pt & _ & [= <-]). by apply dumps_send.
  - eapply dumps_bind with (λ _, False); [by apply dumps_fail|done].
  - eapply dumps_bind with (λ _, False); [by apply dumps_fail|done].
Qed.

(** C31: A source that starts again over the same store sends the same blocks again.
    Take a store without a rollback buffer (as long as the storage stage batches the blocks
    it is sent, and none is mutable yet) and answers of the server with which the source
    starts and takes any number of turns.  What it sends are blocks only, immutable ones; and
    when it starts again, whatever its state and whatever was sent before (these blocks
    among it), while the store and the answers are the same, it sends them all a second
    time: no rollback comes first. *)
Theorem restart_sends_again s s' ans k wk out w :
  fetch_persistent_buffer n s = Ok None →
  (start s s';; turns k) (mkWorld wk ans out) = (w, Ok tt) →
  ∃ ps, sent w = out ++ ps ∧ Forall dumped ps
    ∧ ∀ wk' out', (start s s';; turns k) (mkWorld wk' ans out') = (mkWorld (worker w) (answers w) (out' ++ ps), Ok tt).
Proof.
  intros Hbuf. unfold mbind, Net_bind at 1 2.
  destruct (start_forgets s s' ans Hbuf) as [(wk1 & ans1 & E)|E].
  2:{ intros H. exfalso. destruct (start s s' (mkWorld wk ans out)) as [w1 [[]| |]] eqn:E1; [|done..]. by apply E in E1. }
  rewrite E. destruct (turns_dump k wk1 ans1) as (wk2 & ans2 & ps & o & Hps & _ & Et). rewrite Et. intros [= <- ->].
  exists ps. split; [done|]. split; [done|]. intros wk' out'. by rewrite E, Et.
Qed.

End restart.

(** The server has one block; the source sends it, and again after a start. *)
Definition one_block : list (option Tables) := replicate 2 (Some (now (server run1))).

Abbreviation start_and_dump :=
  (bootstrap plain_encode run_encode plain_shuffle Some run_namespace IntersectOrigin ∅ ∅;;
   turns plain_encode run_encode plain_shuffle plain_decode None 1).

Definition first_run : World := (start_and_dump (mkWorld (mkSourceWorker Init None) one_block [])).1.

Lemma restart_sends_again_witness :
  follow [] (sent first_run) = Some [point_of 0 101]
  ∧ ∃ ps, sent first_run = [] ++ ps ∧ Forall dumped ps
    ∧ ∀ wk' out', start_and_dump (mkWorld wk' one_block out')
        = (mkWorld (worker first_run) (answers first_run) (out' ++ ps), Ok tt).
Proof.
  split; [by vm_compute|].
  apply (restart_sends_again plain_encode run_encode plain_shuffle plain_decode Some run_namespace IntersectOrigin None
    ∅ ∅ one_block 1 (mkSourceWorker Init None) [] first_run); by vm_compute.
Defined.

End Following.
