(* ===== verification/Peer.v ===== *)
(** The connection of the compressor to a node ([peer.rs]): the messages read from the
    stream, the requests, the handler between the client and the node; and the proof
    that every request gets its own answer, in any interleaving.

    What the [bitcoin] crate decodes is the parameter [Consensus].  A channel is the
    list of what was sent and not yet received, at most as long as its capacity; a
    [Notify] is the permit it holds. *)

From S2P Require Import Prelude Types.
Import Types.

Module Peer.

(** ** Messages *)

(** [bitcoin::block::Header]: its hash and the hash of the previous block. *)
Record Header : Type := mkHeader { header_hash : BlockHash; header_prev : BlockHash }.

Inductive Inventory : Type :=
| InvBlock (h : BlockHash)
| InvWitnessBlock (h : BlockHash)
| InvOther.

Inductive PeerError : Type :=
| ConnectFailure
| IngressIO
| IngressChannelClosed
| IngressDecoding
| EgressIO
| EgressChannelClosed
| PeerChannelClosed (channel : string)
| GetBlocksMismatch (received requested : BlockHash).

(** What the decoders of the [bitcoin] crate make of a prefix of their input, and what
    they leave of it. *)
Record Consensus : Type := mkConsensus {
  VersionMessage : Type;
  decode_magic : list Z → option (list Z);
  decode_command : list Z → option string;
  decode_u32 : list Z → option Z;
  decode_checksum : list Z → option (list Z);
  decode_version : list Z → option (VersionMessage * list Z);
  decode_inventory : list Z → option (list Inventory * list Z);
  decode_u64 : list Z → option (Z * list Z);
  decode_varint : list Z → option (Z * list Z);
  decode_header : list Z → option (Header * list Z);
  decode_block : list Z → option Block;
}.

Section peer.
Context (C : Consensus).

Inductive ParsedNetworkMessage : Type :=
| Version (v : VersionMessage C)
| Verack
| Inv (inv : list Inventory)
| Ping (nonce : Z)
| Headers (headers : list Header)
| BlockBytes (raw : list Z)
| Ignored.

(** What is sent to the node. *)
Inductive NetworkMessage : Type :=
| SendVersion
| SendVerack
| GetHeaders (locator : list BlockHash) (stop_hash : BlockHash)
| GetData (inv : list Inventory)
| Pong (nonce : Z).

(** ** Reading the stream *)

Definition decoded {A} (o : option A) : outcome PeerError A := ok_or IngressDecoding o.

(** A header is followed by an empty list of transactions: it is read as a block. *)
Fixpoint parse_headers (len : nat) (raw : list Z) : outcome PeerError (list Header) :=
  match len with
  | O => Ok []
  | S len =>
      '(h, raw) ← decoded (decode_header C raw);
      rest ← parse_headers len raw;
      Ok (h :: rest)
  end.

(** The largest number of headers (80 bytes each) a vector has room for. *)
Definition headers_capacity : Z := umax 63 / 80.

Definition parse (cmd : string) (raw : list Z) : outcome PeerError ParsedNetworkMessage :=
  if decide (cmd = "version") then '(v, _) ← decoded (decode_version C raw); Ok (Version v)
  else if decide (cmd = "verack") then Ok Verack
  else if decide (cmd = "inv") then '(inv, _) ← decoded (decode_inventory C raw); Ok (Inv inv)
  else if decide (cmd = "block") then Ok (BlockBytes raw)
  else if decide (cmd = "headers") then
    '(len, raw) ← decoded (decode_varint C raw);
    if headers_capacity <? len then Panic
    else headers ← parse_headers (Z.to_nat len) raw; Ok (Headers headers)
  else if decide (cmd = "ping") then '(nonce, _) ← decoded (decode_u64 C raw); Ok (Ping nonce)
  else if decide (cmd = "pong") then Ok Ignored
  else if decide (cmd = "addr") then Ok Ignored
  else if decide (cmd = "alert") then Ok Ignored
  else Panic.

(** [read_exact]: what is read and what is left; an error at the end of the stream. *)
Definition read_exact (n : Z) (stream : list Z) : outcome PeerError (list Z * list Z) :=
  if Z.of_nat (length stream) <? n then Err IngressIO
  else Ok (take (Z.to_nat n) stream, drop (Z.to_nat n) stream).

Definition between (from to : nat) (l : list Z) : list Z := take (to - from) (drop from l).

Definition read_message (stream : list Z) : outcome PeerError (ParsedNetworkMessage * list Z) :=
  '(header, stream) ← read_exact 24 stream;
  _ ← decoded (decode_magic C (between 0 4 header));
  cmd ← decoded (decode_command C (between 4 16 header));
  length ← decoded (decode_u32 C (between 16 20 header));
  _ ← decoded (decode_checksum C (between 20 24 header));
  '(payload, stream) ← read_exact length stream;
  parsed ← parse cmd payload;
  Ok (parsed, stream).

(** [Ingress::run]: the messages relayed until something fails; every message takes 24
    bytes at least. *)
Fixpoint ingress (fuel : nat) (stream : list Z) : list ParsedNetworkMessage * option PeerError :=
  match fuel with
  | O => ([], None)
  | S fuel =>
      match read_message stream with
      | Ok (m, stream) => let r := ingress fuel stream in (m :: r.1, r.2)
      | Err e => ([], Some e)
      | Panic => ([], None)
      end
  end.

Definition ingress_run (stream : list Z) : list ParsedNetworkMessage * option PeerError :=
  ingress (S (length stream)) stream.

(** *** Frames *)

(** A message on the stream: 24 bytes that say what follows, and the payload. *)
Definition frame (bytes : list Z) (m : ParsedNetworkMessage) : Prop :=
  ∃ head payload magic cmd sum,
    bytes = head ++ payload ∧ length head = 24%nat
    ∧ decode_magic C (between 0 4 head) = Some magic
    ∧ decode_command C (between 4 16 head) = Some cmd
    ∧ decode_u32 C (between 16 20 head) = Some (Z.of_nat (length payload))
    ∧ decode_checksum C (between 20 24 head) = Some sum
    ∧ parse cmd payload = Ok m.

Lemma read_exact_app a b : read_exact (Z.of_nat (length a)) (a ++ b) = Ok (a, b).
Proof.
  unfold read_exact. rewrite length_app, Nat2Z.id, (proj2 (Z.ltb_ge _ _)) by lia.
  by rewrite take_app_length, drop_app_length.
Qed.

Lemma read_frame bytes m rest : frame bytes m → read_message (bytes ++ rest) = Ok (m, rest).
Proof.
  intros (head & payload & magic & cmd & sum & -> & Hl & H1 & H2 & H3 & H4 & H5).
  unfold read_message. rewrite <- (assoc_L (++)).
  pose proof (read_exact_app head (payload ++ rest)) as E. rewrite Hl in E. change (Z.of_nat 24) with 24 in E. rewrite E.
  cbn -[between read_exact]. rewrite H1. cbn -[between read_exact]. rewrite H2. cbn -[between read_exact].
  rewrite H3. cbn -[between read_exact]. rewrite H4. cbn -[between read_exact]. rewrite read_exact_app.
  cbn. by rewrite H5.
Qed.

(** Messages are read one after the other, however the stream was cut on its way; the
    end of the stream is an error. *)
Lemma ingress_frames frames :
  Forall (λ f, frame f.1 f.2) frames →
  ingress_run (concat frames.*1) = (frames.*2, Some IngressIO).
Proof.
  unfold ingress_run. assert (Hn : (length (concat frames.*1) < S (length (concat frames.*1)))%nat) by lia.
  revert Hn. generalize (S (length (concat frames.*1))). intros fuel Hfuel Hf.
  induction Hf as [|[bytes m] frames Hm _ IH] in fuel, Hfuel |- *; (destruct fuel as [|fuel]; [lia|]); [done|].
  cbn [fmap list_fmap concat fst snd ingress] in *. rewrite (read_frame _ _ _ Hm). cbn.
  assert (24 ≤ length bytes)%nat.
  { destruct Hm as (head & payload & _ & _ & _ & -> & Hl & _). rewrite length_app. lia. }
  rewrite length_app in Hfuel. rewrite IH by lia. done.
Qed.

(** ** The handler *)

Inductive Request : Type :=
| GetNewHeaders (locator : list BlockHash) (stop_hash : BlockHash)
| GetBlocks (inv : list Inventory).

Definition get_new_headers_request (intersects : list BlockHash) : Request := GetNewHeaders intersects 0.
Definition get_blocks_request (hashes : list BlockHash) : Request := GetBlocks (map InvWitnessBlock hashes).

(** The channels of the handler: to the node, to the client, the two permits. *)
Record PeerHandler : Type := mkPeerHandler {
  egress : list NetworkMessage;
  headers_chan : list (list Header);
  blocks_chan : list (list Z);
  init_permit : bool;
  new_block_permit : bool;
}.

Definition send_egress (m : NetworkMessage) (h : PeerHandler) : PeerHandler :=
  mkPeerHandler (egress h ++ [m]) (headers_chan h) (blocks_chan h) (init_permit h) (new_block_permit h).

(** The two branches of [PeerHandler::tick]. *)
Definition handle_request (r : Request) (h : PeerHandler) : PeerHandler :=
  send_egress (match r with
    | GetNewHeaders locator stop => GetHeaders locator stop
    | GetBlocks inv => GetData inv
    end) h.

Definition is_block_inv (i : Inventory) : bool := match i with InvBlock _ => true | _ => false end.

Definition handle_message (m : ParsedNetworkMessage) (h : PeerHandler) : PeerHandler :=
  match m with
  | Version _ => send_egress SendVerack h
  | Verack => mkPeerHandler (egress h) (headers_chan h) (blocks_chan h) true (new_block_permit h)
  | Inv inv =>
      if existsb is_block_inv inv
      then mkPeerHandler (egress h) (headers_chan h) (blocks_chan h) (init_permit h) true
      else h
  | Ping nonce => send_egress (Pong nonce) h
  | Headers hs =>
      mkPeerHandler (egress h) (headers_chan h ++ [hs]) (blocks_chan h) (init_permit h) (new_block_permit h)
  | BlockBytes raw =>
      mkPeerHandler (egress h) (headers_chan h) (blocks_chan h ++ [raw]) (init_permit h) (new_block_permit h)
  | Ignored => h
  end.

(** [PeerHandler::run] starts with the version. *)
Definition handler_start : PeerHandler := mkPeerHandler [SendVersion] [] [] false false.

(** *** Connecting *)

(** What the handler has done when the stream ends or fails: [Ingress] has then dropped its
    channel, and [run] ends with [IngressChannelClosed]. *)
Definition handler_run (stream : list Z) : PeerHandler :=
  foldl (λ h m, handle_message m h) handler_start (ingress_run stream).1.

(** [Peer::connect] returns when the permit of the handshake is there; it does not look at
    the handler. *)
Definition connect_returns (stream : list Z) : bool := init_permit (handler_run stream).

Lemma connect_returns_spec stream :
  connect_returns stream = existsb (λ m, if m is Verack then true else false) (ingress_run stream).1.
Proof.
  unfold connect_returns, handler_run. generalize (ingress_run stream).1. intros ms.
  change (existsb (λ m, if m is Verack then true else false) ms)
    with (init_permit handler_start || existsb (λ m, if m is Verack then true else false) ms).
  generalize handler_start. induction ms as [|m ms IH]; intros h; cbn [foldl existsb]; [by rewrite orb_false_r|].
  rewrite IH. destruct m; cbn [handle_message init_permit send_egress]; try done; [by rewrite orb_true_r|].
  by destruct (existsb is_block_inv _).
Qed.

(** A node that closes the connection before it has acknowledged the version: the handler
    stops, and the call that connects waits for ever. *)
Theorem connect_never_returns frames :
  Forall (λ f, frame f.1 f.2) frames → Verack ∉ frames.*2 →
  (ingress_run (concat frames.*1)).2 = Some IngressIO ∧ connect_returns (concat frames.*1) = false.
Proof.
  intros Hf Hv. rewrite connect_returns_spec, ingress_frames by done. split; [done|].
  apply not_true_iff_false. intros H. apply existsb_exists in H as (m & Hm & E). destruct m; try done.
  by apply list_elem_of_In in Hm.
Qed.

(** ** The client *)

(** What [Peer::get_blocks] makes of the bytes it received. *)
Fixpoint decode_blocks (l : list (BlockHash * list Z)) : outcome PeerError (list Block) :=
  match l with
  | [] => Ok []
  | (hash, raw) :: l =>
      block ← decoded (decode_block C raw);
      if negb (block_hash block =? hash) then Err (GetBlocksMismatch (block_hash block) hash)
      else rest ← decode_blocks l; Ok (block :: rest)
  end.

(** A block whose decoding succeeds has the hash that was asked for. *)
Lemma decode_blocks_hashes hashes raws blocks :
  length raws = length hashes → decode_blocks (zip hashes raws) = Ok blocks →
  map block_hash blocks = hashes.
Proof.
  induction hashes as [|hash hashes IH] in raws, blocks |- *; intros Hlen; [by intros [= <-]|].
  destruct raws as [|raw raws]; [done|]. cbn [zip decode_blocks zip_with].
  intros (b & _ & H)%outcome_bind_Ok. case_match eqn:Eh; [done|].
  apply negb_false_iff, Z.eqb_eq in Eh. apply outcome_bind_Ok in H as (rest & Hrest & [= <-]).
  cbn. f_equal; [done|]. apply (IH raws); [cbn in Hlen; lia|done].
Qed.

(** ** The client, the handler and the node together *)

Section system.
(** The node: its states, what it answers to a message. *)
Context {Node : Type} (reply : Node → NetworkMessage → list ParsedNetworkMessage).
(** The headers it has after a locator, the bytes of its blocks. *)
Context (locate : Node → list BlockHash → list Header) (block_bytes : Node → BlockHash → list Z).

(** The protocol: the handshake, one message of headers for a locator, the blocks in the
    order in which they were asked for. *)
Class Protocol : Prop := {
  reply_version n : ∃ v, reply n SendVersion = [Version v; Verack];
  reply_verack n : reply n SendVerack = [];
  reply_pong n nonce : reply n (Pong nonce) = [];
  reply_headers n l stop : reply n (GetHeaders l stop) = [Headers (locate n l)];
  reply_blocks n hs : reply n (GetData (map InvWitnessBlock hs)) = map (λ h, BlockBytes (block_bytes n h)) hs;
}.

(** Where the client is: in [connect], between calls, in [get_new_headers], in
    [get_blocks] with the blocks received, waiting for [new_block_notification]. *)
Inductive Client : Type :=
| Connecting
| Between
| AwaitHeaders (intersects : list BlockHash)
| AwaitBlocks (hashes : list BlockHash) (blocks : list (list Z))
| AwaitBlock.

Record System : Type := mkSystem {
  client : Client;
  requests : list Request;
  handler : PeerHandler;
  wire : list ParsedNetworkMessage;
  node : Node;
  seen : list Node;
  got_headers : list (list BlockHash * list Header);
  got_blocks : list (list BlockHash * outcome PeerError (list Block));
}.

Definition start (n : Node) : System := mkSystem Connecting [] handler_start [] n [n] [] [].

(** Whether the channel a message is relayed to has room (20 messages). *)
Definition has_room (m : ParsedNetworkMessage) (h : PeerHandler) : bool :=
  match m with
  | Headers _ => (length (headers_chan h) <? 20)%nat
  | BlockBytes _ => (length (blocks_chan h) <? 20)%nat
  | _ => true
  end.

(** What a node sends without being asked. *)
Definition unsolicited (m : ParsedNetworkMessage) : bool :=
  match m with Inv _ | Ping _ | Ignored => true | _ => false end.

(** The steps that end a call or bring its end nearer. *)
Inductive advance : System → System → Prop :=
| advance_connected s h :
    client s = Connecting → init_permit (handler s) = true →
    h = mkPeerHandler (egress (handler s)) (headers_chan (handler s)) (blocks_chan (handler s)) false
          (new_block_permit (handler s)) →
    advance s (mkSystem Between (requests s) h (wire s) (node s) (seen s) (got_headers s) (got_blocks s))
| advance_request s r rest :
    requests s = r :: rest →
    advance s (mkSystem (client s) rest (handle_request r (handler s)) (wire s) (node s) (seen s)
      (got_headers s) (got_blocks s))
| advance_node s m rest h :
    egress (handler s) = m :: rest →
    h = mkPeerHandler rest (headers_chan (handler s)) (blocks_chan (handler s)) (init_permit (handler s))
          (new_block_permit (handler s)) →
    advance s (mkSystem (client s) (requests s) h (wire s ++ reply (node s) m) (node s) (seen s)
      (got_headers s) (got_blocks s))
| advance_message s m rest :
    wire s = m :: rest → has_room m (handler s) = true →
    advance s (mkSystem (client s) (requests s) (handle_message m (handler s)) rest (node s) (seen s)
      (got_headers s) (got_blocks s))
| advance_headers s l hs rest h :
    client s = AwaitHeaders l → headers_chan (handler s) = hs :: rest →
    h = mkPeerHandler (egress (handler s)) rest (blocks_chan (handler s)) (init_permit (handler s))
          (new_block_permit (handler s)) →
    advance s (mkSystem Between (requests s) h (wire s) (node s) (seen s)
      (got_headers s ++ [(l, hs)]) (got_blocks s))
| advance_block s hs got raw rest h :
    client s = AwaitBlocks hs got → (length got < length hs)%nat → blocks_chan (handler s) = raw :: rest →
    h = mkPeerHandler (egress (handler s)) (headers_chan (handler s)) rest (init_permit (handler s))
          (new_block_permit (handler s)) →
    advance s (mkSystem (AwaitBlocks hs (got ++ [raw])) (requests s) h (wire s) (node s) (seen s)
      (got_headers s) (got_blocks s))
| advance_blocks s hs got :
    client s = AwaitBlocks hs got → length got = length hs →
    advance s (mkSystem Between (requests s) (handler s) (wire s) (node s) (seen s) (got_headers s)
      (got_blocks s ++ [(hs, decode_blocks (zip hs got))]))
| advance_notified s h :
    client s = AwaitBlock → new_block_permit (handler s) = true →
    h = mkPeerHandler (egress (handler s)) (headers_chan (handler s)) (blocks_chan (handler s))
          (init_permit (handler s)) false →
    advance s (mkSystem Between (requests s) h (wire s) (node s) (seen s) (got_headers s) (got_blocks s)).

(** All steps: the client calls (it never asks for no block), the node changes and
    speaks. *)
Inductive step : System → System → Prop :=
| step_advance s s' : advance s s' → step s s'
| step_call s c r :
    client s = Between → requests s = [] →
    (∃ l, c = AwaitHeaders l ∧ r = [get_new_headers_request l])
      ∨ (∃ hs, hs ≠ [] ∧ c = AwaitBlocks hs [] ∧ r = [get_blocks_request hs])
      ∨ c = AwaitBlock ∧ r = [] →
    step s (mkSystem c r (handler s) (wire s) (node s) (seen s) (got_headers s) (got_blocks s))
| step_node s n :
    step s (mkSystem (client s) (requests s) (handler s) (wire s) n (seen s ++ [n]) (got_headers s) (got_blocks s))
| step_speak s m :
    unsolicited m = true →
    step s (mkSystem (client s) (requests s) (handler s) (wire s ++ [m]) (node s) (seen s)
      (got_headers s) (got_blocks s)).

(** *** What is under way *)

Definition is_request (m : NetworkMessage) : bool := match m with GetHeaders _ _ | GetData _ => true | _ => false end.

Definition message_of (r : Request) : NetworkMessage :=
  match r with GetNewHeaders l stop => GetHeaders l stop | GetBlocks inv => GetData inv end.

Definition headers_of (m : ParsedNetworkMessage) : option (list Header) :=
  match m with Headers hs => Some hs | _ => None end.
Definition bytes_of (m : ParsedNetworkMessage) : option (list Z) :=
  match m with BlockBytes raw => Some raw | _ => None end.

Definition asked (s : System) : list NetworkMessage :=
  filter is_request (egress (handler s)) ++ map message_of (requests s).
Definition headers_coming (s : System) : list (list Header) := headers_chan (handler s) ++ omap headers_of (wire s).
Definition blocks_coming (s : System) : list (list Z) := blocks_chan (handler s) ++ omap bytes_of (wire s).

(** At most one request is under way, and what comes back is what the node, in one of
    its states, answers to it. *)
Definition flow (c : Client) (asked : list NetworkMessage) (headers : list (list Header))
    (blocks : list (list Z)) (seen : list Node) : Prop :=
  match c with
  | AwaitHeaders l =>
      blocks = []
      ∧ (asked = [GetHeaders l 0] ∧ headers = []
         ∨ asked = [] ∧ ∃ n, n ∈ seen ∧ headers = [locate n l])
  | AwaitBlocks hs got =>
      hs ≠ [] ∧ headers = []
      ∧ (asked = [GetData (map InvWitnessBlock hs)] ∧ blocks = [] ∧ got = []
         ∨ asked = [] ∧ ∃ n, n ∈ seen ∧ got ++ blocks = map (block_bytes n) hs)
  | _ => asked = [] ∧ headers = [] ∧ blocks = []
  end.

(** What calls have returned. *)
Definition answered (s : System) : Prop :=
  (∀ l hs, (l, hs) ∈ got_headers s → ∃ n, n ∈ seen s ∧ hs = locate n l)
  ∧ (∀ hs r, (hs, r) ∈ got_blocks s → ∃ n, n ∈ seen s ∧ r = decode_blocks (zip hs (map (block_bytes n) hs))).

(** The handshake is under way until the client is told. *)
Definition greeted (s : System) : Prop :=
  client s = Connecting →
  SendVersion ∈ egress (handler s) ∨ Verack ∈ wire s ∨ init_permit (handler s) = true.

Record in_order (s : System) : Prop := {
  io_flow : flow (client s) (asked s) (headers_coming s) (blocks_coming s) (seen s);
  io_answered : answered s;
  io_greeted : greeted s;
  io_node : node s ∈ seen s;
}.

Context {P : Protocol}.

Lemma message_of_request r : is_request (message_of r) = true.
Proof. by destruct r. Qed.

Lemma reply_aside n m :
  is_request m = false → omap headers_of (reply n m) = [] ∧ omap bytes_of (reply n m) = [].
Proof.
  destruct m; try done; intros _; [destruct (reply_version n) as [v ->]|rewrite reply_verack|rewrite reply_pong]; done.
Qed.

Lemma reply_bytes n hs :
  omap headers_of (reply n (GetData (map InvWitnessBlock hs))) = []
  ∧ omap bytes_of (reply n (GetData (map InvWitnessBlock hs))) = map (block_bytes n) hs.
Proof.
  rewrite reply_blocks. induction hs as [|h hs [IH1 IH2]]; [done|].
  cbn [map omap list_omap headers_of bytes_of] in *. by rewrite IH1, IH2.
Qed.

(** The handler moves what is under way and loses nothing. *)
Lemma handled_request s r rest c n sn gh gb :
  requests s = r :: rest →
  let s' := mkSystem c rest (handle_request r (handler s)) (wire s) n sn gh gb in
  asked s' = asked s ∧ headers_coming s' = headers_coming s ∧ blocks_coming s' = blocks_coming s.
Proof.
  intros Hr. unfold asked, headers_coming, blocks_coming. cbn. rewrite Hr, filter_app, filter_cons, filter_nil.
  change (match r with GetNewHeaders locator stop => GetHeaders locator stop | GetBlocks inv => GetData inv end)
    with (message_of r).
  rewrite decide_True by by rewrite message_of_request. cbn. by rewrite <- (assoc_L (++)).
Qed.

Lemma handled_message s m rest c n sn gh gb :
  wire s = m :: rest →
  let s' := mkSystem c (requests s) (handle_message m (handler s)) rest n sn gh gb in
  asked s' = asked s ∧ headers_coming s' = headers_coming s ∧ blocks_coming s' = blocks_coming s.
Proof.
  intros Hw. unfold asked, headers_coming, blocks_coming. cbn. rewrite Hw.
  destruct m as [v| |inv|nonce|hs|raw|]; cbn; try case_match; cbn;
    rewrite ?filter_app, ?filter_cons, ?filter_nil; cbn; rewrite ?app_nil_r, <- ?(assoc_L (++)); done.
Qed.

Lemma flow_node s m rest c n sn gh gb h :
  egress (handler s) = m :: rest → n ∈ sn →
  h = mkPeerHandler rest (headers_chan (handler s)) (blocks_chan (handler s)) (init_permit (handler s))
        (new_block_permit (handler s)) →
  flow c (asked s) (headers_coming s) (blocks_coming s) sn →
  let s' := mkSystem c (requests s) h (wire s ++ reply n m) n sn gh gb in
  flow c (asked s') (headers_coming s') (blocks_coming s') sn.
Proof.
  intros He Hn -> Hf. unfold headers_coming, blocks_coming. cbn. rewrite !omap_app, !(assoc_L (++)).
  fold (headers_coming s) (blocks_coming s).
  destruct (is_request m) eqn:Em.
  - assert (Ea : asked s = m :: (filter is_request rest ++ map message_of (requests s))).
    { unfold asked. rewrite He, filter_cons, decide_True by by rewrite Em. done. }
    unfold asked. cbn. rewrite Ea in Hf.
    destruct c as [| |l|hs got|]; cbn in Hf |- *; [by destruct Hf|by destruct Hf| | |by destruct Hf].
    + destruct Hf as (-> & [[[= -> ->] ->]|[? _]]); [|done]. rewrite reply_headers. split; [done|]. right. eauto.
    + destruct Hf as (Hne & -> & [([= -> ->] & -> & ->)|[? _]]); [|done].
      destruct (reply_bytes n hs) as [-> ->]. split_and!; [done..|]. right. eauto.
  - destruct (reply_aside n m Em) as [-> ->]. rewrite !app_nil_r.
    assert (Ea : asked s = filter is_request rest ++ map message_of (requests s)).
    { unfold asked. rewrite He, filter_cons, decide_False by (rewrite Em; tauto). done. }
    unfold asked. cbn. by rewrite <- Ea.
Qed.

Lemma flow_seen c a h b sn n : flow c a h b sn → flow c a h b (sn ++ [n]).
Proof.
  destruct c as [| |l|hs got|]; cbn; [done|done| | |done].
  - intros (-> & [[-> ->]|(-> & m & Hm & ->)]); (split; [done|]); [by left|]. right. split; [done|]. exists m. set_solver.
  - intros (Hne & -> & [(-> & -> & ->)|(-> & m & Hm & E)]); (split_and!; [done..|]); [by left|]. right. split; [done|]. exists m. set_solver.
Qed.

Lemma answered_seen s s' n :
  answered s → got_headers s' = got_headers s → got_blocks s' = got_blocks s → seen s' = seen s ++ [n] → answered s'.
Proof.
  intros [H1 H2] E1 E2 E3. unfold answered. rewrite E1, E2, E3. split.
  - intros l hs (m & Hm & ->)%H1. exists m. set_solver.
  - intros hs r (m & Hm & ->)%H2. exists m. set_solver.
Qed.

Lemma greeted_message m h :
  init_permit h = true ∨ m = Verack → init_permit (handle_message m h) = true.
Proof. intros [H| ->]; [|done]. destruct m; cbn; try case_match; done. Qed.

Lemma egress_message m x h : x ∈ egress h → x ∈ egress (handle_message m h).
Proof. destruct m; cbn; try case_match; set_solver. Qed.

Lemma greeted_node s m rest c n h sn gh gb :
  greeted s → egress (handler s) = m :: rest → c = client s →
  h = mkPeerHandler rest (headers_chan (handler s)) (blocks_chan (handler s)) (init_permit (handler s))
        (new_block_permit (handler s)) →
  greeted (mkSystem c (requests s) h (wire s ++ reply n m) (node s) sn gh gb).
Proof.
  intros Hg He -> -> Hc. specialize (Hg Hc). cbn. rewrite He in Hg.
  rewrite elem_of_cons, elem_of_app in *. destruct Hg as [[<-|H]|[H|H]]; auto.
  right. left. right. destruct (reply_version n) as [v ->]. set_solver.
Qed.

(** When all blocks have come, nothing is under way. *)
Lemma blocks_complete c a h b sn hs got :
  flow c a h b sn → c = AwaitBlocks hs got → length got = length hs →
  ∃ n, n ∈ sn ∧ a = [] ∧ h = [] ∧ b = [] ∧ got = map (block_bytes n) hs.
Proof.
  intros Hf -> Hlen. destruct Hf as (Hne & -> & [(_ & _ & ->)|(-> & n & Hn & E)]); [by destruct hs|].
  exists n. assert (b = []) as ->.
  { apply length_zero_iff_nil. apply (f_equal length) in E. rewrite length_app, length_map in E. lia. }
  rewrite app_nil_r in E. done.
Qed.

Lemma advance_in_order s s' : advance s s' → in_order s → in_order s'.
Proof.
  intros Hs [Hf Ha Hg Hn]. destruct Hs as
    [s h Hc Hp ->|s r rest Hr|s m rest h He Eh|s m rest Hw _|s l hs rest h Hc Hch ->
    |s hs got raw rest h Hc Hlen Hch ->|s hs got Hc Hlen|s h Hc Hp ->]; split; try done; cbn [client seen].
  - by rewrite Hc in Hf.
  - by destruct (handled_request s r rest (client s) (node s) (seen s) (got_headers s) (got_blocks s) Hr) as (-> & -> & ->).
  - intros Hc. cbn in *. destruct (Hg Hc) as [?|[?|?]]; [left; set_solver|auto..].
  - by eapply flow_node.
  - by eapply greeted_node.
  - by destruct (handled_message s m rest (client s) (node s) (seen s) (got_headers s) (got_blocks s) Hw) as (-> & -> & ->).
  - intros Hc. specialize (Hg Hc). cbn in *. rewrite Hw in Hg. destruct Hg as [H|[[<-|H]%elem_of_cons|H]]; auto.
    + left. by apply egress_message.
    + right. right. by apply greeted_message; left.
  - rewrite Hc in Hf. unfold headers_coming in *. cbn in *. rewrite Hch in Hf.
    destruct Hf as (Hb & [[_ ?]|(Hq & n & _ & [= _ ->])]); done.
  - rewrite Hc in Hf. unfold headers_coming in Hf. cbn in Hf. rewrite Hch in Hf.
    destruct Hf as (_ & [[_ ?]|(_ & n & Hns & [= -> _])]); [done|].
    destruct Ha as [H1 H2]. split; cbn; [|done].
    intros l' hs' [H|[= -> ->]%list_elem_of_singleton]%elem_of_app; eauto.
  - rewrite Hc in Hf. unfold blocks_coming in *. cbn in *. rewrite Hch in Hf.
    destruct Hf as (Hne & Hh & [(_ & ? & _)|(Hq & n & Hns & E)]); [done|]. split_and!; [done..|].
    right. split; [done|]. exists n. split; [done|]. by rewrite <- (assoc_L (++)).
  - destruct (blocks_complete _ _ _ _ _ _ _ Hf Hc Hlen) as (n & _ & H1 & H2 & H3 & _).
    unfold asked, headers_coming, blocks_coming in *. done.
  - destruct (blocks_complete _ _ _ _ _ _ _ Hf Hc Hlen) as (n & Hns & _ & _ & _ & ->).
    destruct Ha as [H1 H2]. split; cbn; [done|].
    intros hs' r [H|[= -> ->]%list_elem_of_singleton]%elem_of_app; eauto.
  - by rewrite Hc in Hf.
Qed.

Lemma step_in_order s s' : step s s' → in_order s → in_order s'.
Proof.
  intros Hs [Hf Ha Hg Hn]. destruct Hs as [s s' Hs|s c r Hc Hr Hcall|s n|s m Hm].
  - by eapply advance_in_order.
  - rewrite Hc in Hf. destruct Hf as (Hq & Hh & Hb). unfold asked in Hq. rewrite Hr, app_nil_r in Hq.
    split; [|done| |done].
    + unfold asked, headers_coming, blocks_coming in *. cbn. rewrite Hq.
      destruct Hcall as [(l & -> & ->)|[(hs & Hne & -> & ->)|[-> ->]]]; cbn; split_and!; auto.
    + intros E. cbn in E. destruct Hcall as [(l & -> & _)|[(hs & _ & -> & _)|[-> _]]]; done.
  - split; cbn [client node seen]; [by apply flow_seen|by eapply answered_seen|done|set_solver].
  - split; [|done| |done].
    + unfold headers_coming, blocks_coming, asked in *. cbn. rewrite !omap_app. by destruct m; cbn; rewrite ?app_nil_r.
    + intros E. destruct (Hg E) as [?|[?|?]]; cbn; [auto| |auto]. right. left. set_solver.
Qed.

Lemma start_in_order n : in_order (start n).
Proof. split; [done|split; cbn; set_solver|intros _; left; cbn; set_solver|cbn; set_solver]. Qed.

Lemma reachable_in_order n s : rtc step (start n) s → in_order s.
Proof.
  intros H. pose proof (start_in_order n) as Hs. revert Hs.
  induction H as [|x y z Hxy _ IH]; [done|]. intros Hx. apply IH. by eapply step_in_order.
Qed.

(** *** Calls end *)

(** What a client that waits for a block was told: it will see the announcement. *)
Definition is_announcement (m : ParsedNetworkMessage) : bool :=
  match m with Inv inv => existsb is_block_inv inv | _ => false end.

Definition awaited (s : System) : Prop :=
  client s = AwaitBlock → new_block_permit (handler s) = true ∨ ∃ m, m ∈ wire s ∧ is_announcement m = true.

(** The handler takes the request, the node answers all it was sent. *)
Lemma requests_taken s : ∃ s', rtc advance s s' ∧ requests s' = [] ∧ (awaited s → awaited s').
Proof.
  remember (requests s) as rs eqn:Er. induction rs as [|r rs IH] in s, Er |- *; [by exists s|].
  destruct (IH (mkSystem (client s) rs (handle_request r (handler s)) (wire s) (node s) (seen s)
    (got_headers s) (got_blocks s)) eq_refl) as (s' & H & Hr & Hc).
  exists s'. split_and!; [|done|intros Ha; by apply Hc]. eapply rtc_l; [by apply advance_request|exact H].
Qed.

Lemma messages_answered s :
  requests s = [] → ∃ s', rtc advance s s' ∧ requests s' = [] ∧ egress (handler s') = []
    ∧ (awaited s → awaited s').
Proof.
  remember (egress (handler s)) as ms eqn:Em. induction ms as [|m ms IH] in s, Em |- *; intros Hr; [by exists s|].
  set (h := mkPeerHandler ms (headers_chan (handler s)) (blocks_chan (handler s)) (init_permit (handler s))
    (new_block_permit (handler s))).
  destruct (IH (mkSystem (client s) (requests s) h (wire s ++ reply (node s) m) (node s) (seen s)
    (got_headers s) (got_blocks s)) eq_refl Hr) as (s' & H & Hr' & He & Hc).
  exists s'. split_and!; [|done..|].
  - eapply rtc_l; [by eapply advance_node|exact H].
  - intros Ha. apply Hc. intros E. destruct (Ha E) as [Hp|(m' & Hm & Hp)]; [by left|]. right. exists m'. set_solver.
Qed.

Definition answering (s : System) : Prop :=
  in_order s ∧ asked s = [] ∧ (SendVersion ∉ egress (handler s)) ∧ awaited s.

Definition distance (s : System) : nat := 2 * length (wire s) + length (blocks_chan (handler s)).

Lemma awaited_message s m rest :
  awaited s → wire s = m :: rest →
  awaited (mkSystem (client s) (requests s) (handle_message m (handler s)) rest (node s) (seen s)
    (got_headers s) (got_blocks s)).
Proof.
  intros Ha Hw Hc. specialize (Ha Hc). rewrite Hw in Ha. cbn.
  assert (Hp : new_block_permit (handler s) = true ∨ is_announcement m = true →
    new_block_permit (handle_message m (handler s)) = true).
  { destruct m as [| |inv| | | |]; cbn; intros [H|H]; try done; [by case_match|by rewrite H]. }
  destruct Ha as [H|(m' & [->|Hm]%elem_of_cons & H)]; [auto..|]. right. eauto.
Qed.

Lemma message_taken s m rest :
  answering s → headers_chan (handler s) = [] → blocks_chan (handler s) = [] → wire s = m :: rest →
  ∃ s', advance s s' ∧ answering s' ∧ (distance s' < distance s)%nat.
Proof.
  intros (Hio & Hq & Hv & Ha) Hh Hb Hw.
  assert (Hs : advance s (mkSystem (client s) (requests s) (handle_message m (handler s)) rest (node s) (seen s)
    (got_headers s) (got_blocks s))).
  { apply advance_message; [done|]. unfold has_room. rewrite Hh, Hb. by destruct m. }
  eexists. split; [exact Hs|]. split; [split_and!|].
  - by eapply advance_in_order.
  - by destruct (handled_message s m rest (client s) (node s) (seen s) (got_headers s) (got_blocks s) Hw) as (-> & _).
  - cbn. destruct m; cbn; try case_match; set_solver.
  - by apply awaited_message.
  - unfold distance. cbn. rewrite Hw, Hb. destruct m; cbn; try case_match; cbn; rewrite ?Hb; cbn; lia.
Qed.

Lemma call_ends s : answering s → ∃ s', rtc advance s s' ∧ client s' = Between.
Proof.
  remember (distance s) as k eqn:Ek. induction (lt_wf k) as [k _ IH] in s, Ek |- *. subst k. intros H.
  assert (Hnext : ∀ s', advance s s' → answering s' → (distance s' < distance s)%nat →
    ∃ s'', rtc advance s s'' ∧ client s'' = Between).
  { intros s' Hs Ha Hd. destruct (IH _ Hd s' eq_refl Ha) as (s'' & Hr & Hc). exists s''. split; [|done]. by eapply rtc_l. }
  assert (Hwire : headers_chan (handler s) = [] → blocks_chan (handler s) = [] → wire s ≠ [] →
    ∃ s'', rtc advance s s'' ∧ client s'' = Between).
  { intros Hh Hb Hw. destruct (wire s) as [|m rest] eqn:Ew; [done|].
    destruct (message_taken _ _ _ H Hh Hb Ew) as (s' & Hs & Ha & Hd). by apply (Hnext s'). }
  destruct H as (Hio & Hq & Hv & Haw). pose proof (io_flow _ Hio) as Hf. rewrite Hq in Hf.
  unfold headers_coming, blocks_coming in Hf.
  destruct (client s) as [| |l|hs got|] eqn:Hc; cbn in Hf.
  - destruct Hf as (_ & [Hh _]%app_nil & [Hb _]%app_nil).
    destruct (init_permit (handler s)) eqn:Hp.
    { eexists. split; [by eapply rtc_once, advance_connected|done]. }
    apply Hwire; [done..|]. destruct (io_greeted _ Hio Hc) as [?|[Hw|?]]; [done| |congruence].
    intros E. by rewrite E in Hw; apply elem_of_nil in Hw.
  - by exists s.
  - destruct Hf as ([Hb _]%app_nil & [[? _]|(_ & n & _ & E)]); [done|].
    destruct (headers_chan (handler s)) as [|x rest] eqn:Hh.
    + apply Hwire; [done..|]. intros Ew. by rewrite Ew in E.
    + eexists. split; [by eapply rtc_once, advance_headers|done].
  - destruct Hf as (Hne & [Hh _]%app_nil & [[? _]|(_ & n & _ & E)]); [done|].
    destruct (decide (length got = length hs)) as [Hl|Hl].
    { eexists. split; [by eapply rtc_once, advance_blocks|done]. }
    pose proof (f_equal length E) as El. rewrite length_app, length_map in El.
    destruct (blocks_chan (handler s)) as [|raw rest] eqn:Hb.
    + apply Hwire; [done..|]. intros Ew. rewrite Ew in El. cbn in El. lia.
    + eapply Hnext; [eapply advance_block; [done|rewrite length_app in El; cbn in El; lia|done|done]| |].
      * split_and!; [|done..]. eapply advance_in_order; [|exact Hio].
        eapply advance_block; [done|rewrite length_app in El; cbn in El; lia|done|done].
      * unfold distance. cbn. rewrite Hb. cbn. lia.
  - destruct Hf as (_ & [Hh _]%app_nil & [Hb _]%app_nil).
    destruct (new_block_permit (handler s)) eqn:Hp.
    { eexists. split; [by eapply rtc_once, advance_notified|done]. }
    apply Hwire; [done..|]. destruct (Haw Hc) as [?|(m & Hm & _)]; [congruence|].
    intros Ew. rewrite Ew in Hm. by apply elem_of_nil in Hm.
Qed.

Lemma advance_rtc_in_order s s' : rtc advance s s' → in_order s → in_order s'.
Proof. induction 1 as [|x y z Hxy _ IH]; [done|]. intros Hx. apply IH. by eapply advance_in_order. Qed.

(** C19: Every request of the client gets its own answer, and no call is stuck.  In any
    interleaving of the client, the handler and a node that keeps to the protocol (it
    may change its chain, ping and announce at any time), the headers that
    [get_new_headers] returned are those the node, in one of its states, has after the
    locator of that call, and what [get_blocks] returned is made of the blocks of that
    call; and the channels never block: the connection, a call for headers or blocks,
    and the wait for a block that is announced can always be completed. *)
Theorem requests_answered n s :
  rtc step (start n) s → awaited s →
  (∀ l hs, (l, hs) ∈ got_headers s → ∃ n, n ∈ seen s ∧ hs = locate n l)
  ∧ (∀ hs r, (hs, r) ∈ got_blocks s → ∃ n, n ∈ seen s ∧ r = decode_blocks (zip hs (map (block_bytes n) hs)))
  ∧ ∃ s', rtc advance s s' ∧ client s' = Between.
Proof.
  intros Hio%reachable_in_order Ha. destruct (io_answered _ Hio) as [H1 H2]. split_and!; [done..|].
  destruct (requests_taken s) as (s1 & Hr1 & Hq1 & Ha1).
  destruct (messages_answered s1 Hq1) as (s2 & Hr2 & Hq2 & He2 & Ha2).
  destruct (call_ends s2) as (s3 & Hr3 & Hc3).
  { split_and!; [|unfold asked; by rewrite He2, Hq2|rewrite He2; apply not_elem_of_nil|auto].
    by eapply advance_rtc_in_order, advance_rtc_in_order. }
  exists s3. split; [|done]. by etrans; [|etrans].
Qed.

End system.

End peer.

(** ** A run *)

(** A node with a list of headers; the bytes of a block are its hash and the one before. *)
Definition plain_consensus : Consensus :=
  mkConsensus unit Some (λ _, Some "ping"%string) (λ _, Some 0) Some (λ l, Some (tt, l)) (λ l, Some ([], l))
    (λ l, Some (0, l)) (λ l, Some (0, l)) (λ l, Some (mkHeader 0 0, l))
    (λ l, match l with [h; p] => Some (mkBlock h p []) | _ => None end).

Definition plain_locate (n : list Header) (l : list BlockHash) : list Header :=
  match l with
  | [] => n
  | hash :: _ => tail (filter (λ h, hash ≤ header_hash h) n)
  end.
Definition plain_bytes (n : list Header) (hash : BlockHash) : list Z := [hash; hash - 1].
Definition plain_reply (n : list Header) (m : NetworkMessage) : list (ParsedNetworkMessage plain_consensus) :=
  match m with
  | SendVersion => [Version plain_consensus tt; Verack plain_consensus]
  | GetHeaders l _ => [Headers plain_consensus (plain_locate n l)]
  | GetData inv =>
      omap (λ i, match i with InvWitnessBlock h => Some (BlockBytes plain_consensus (plain_bytes n h)) | _ => None end) inv
  | _ => []
  end.

#[export] Instance plain_protocol : Protocol plain_consensus plain_reply plain_locate plain_bytes.
Proof.
  split; [by eexists|done..|]. intros n hs. cbn. induction hs as [|h hs IH]; [done|]. cbn. f_equal. apply IH.
Qed.

Definition plain_chain : list Header := [mkHeader 100 99; mkHeader 101 100; mkHeader 102 101].

(** The handshake, a call for headers with a ping on its way, a call for two blocks of
    which the first has come. *)
Definition plain_run : System plain_consensus :=
  mkSystem plain_consensus (AwaitBlocks [101; 102] [[101; 100]]) []
    (mkPeerHandler [] [] [] false false) [BlockBytes plain_consensus [102; 101]]
    plain_chain [plain_chain] [([100], [mkHeader 101 100; mkHeader 102 101])] [].

(** The steps of a run, and the state each leads to. *)
Inductive Act : Type :=
| ByHandler | ByNode | OnMessage | OnConnected | OnHeaders | OnBlock
| CallHeaders (l : list BlockHash) | CallBlocks (hs : list BlockHash) | Pinged (nonce : Z).

Definition act (a : Act) (s : System plain_consensus (Node := list Header)) : option (System plain_consensus) :=
  let h := handler _ s in
  let to c r h w g :=
    Some (mkSystem plain_consensus c r h w (node _ s) (seen _ s) g (got_blocks _ s)) in
  match a with
  | ByHandler =>
      match requests _ s with
      | r :: rest => to (client _ s) rest (handle_request r h) (wire _ s) (got_headers _ s)
      | [] => None
      end
  | ByNode =>
      match egress h with
      | m :: rest =>
          to (client _ s) (requests _ s)
            (mkPeerHandler rest (headers_chan h) (blocks_chan h) (init_permit h) (new_block_permit h))
            (wire _ s ++ plain_reply (node _ s) m) (got_headers _ s)
      | [] => None
      end
  | OnMessage =>
      match wire _ s with
      | m :: rest =>
          if has_room _ m h then to (client _ s) (requests _ s) (handle_message _ m h) rest (got_headers _ s) else None
      | [] => None
      end
  | OnConnected =>
      match client _ s, init_permit h with
      | Connecting, true =>
          to Between (requests _ s)
            (mkPeerHandler (egress h) (headers_chan h) (blocks_chan h) false (new_block_permit h)) (wire _ s) (got_headers _ s)
      | _, _ => None
      end
  | OnHeaders =>
      match client _ s, headers_chan h with
      | AwaitHeaders l, hs :: rest =>
          to Between (requests _ s)
            (mkPeerHandler (egress h) rest (blocks_chan h) (init_permit h) (new_block_permit h))
            (wire _ s) (got_headers _ s ++ [(l, hs)])
      | _, _ => None
      end
  | OnBlock =>
      match client _ s, blocks_chan h with
      | AwaitBlocks hs got, raw :: rest =>
          if (length got <? length hs)%nat then
            to (AwaitBlocks hs (got ++ [raw])) (requests _ s)
              (mkPeerHandler (egress h) (headers_chan h) rest (init_permit h) (new_block_permit h))
              (wire _ s) (got_headers _ s)
          else None
      | _, _ => None
      end
  | CallHeaders l =>
      match client _ s, requests _ s with
      | Between, [] => to (AwaitHeaders l) [get_new_headers_request l] h (wire _ s) (got_headers _ s)
      | _, _ => None
      end
  | CallBlocks hs =>
      match client _ s, requests _ s, hs with
      | Between, [], _ :: _ => to (AwaitBlocks hs []) [get_blocks_request hs] h (wire _ s) (got_headers _ s)
      | _, _, _ => None
      end
  | Pinged nonce => to (client _ s) (requests _ s) h (wire _ s ++ [Ping _ nonce]) (got_headers _ s)
  end.

Lemma act_step a s s' : act a s = Some s' → step plain_consensus plain_reply s s'.
Proof.
  unfold act. destruct a; repeat case_match; try done; intros [= <-].
  - by apply step_advance, advance_request.
  - apply step_advance. by eapply advance_node.
  - by apply step_advance, advance_message.
  - apply step_advance. by eapply advance_connected.
  - apply step_advance. by eapply advance_headers.
  - apply step_advance. eapply advance_block; [done|by apply Nat.ltb_lt|done..].
  - apply step_call; [done..|]. left. by eexists.
  - apply step_call; [done..|]. right. left. eexists. split_and!; [|reflexivity..]. done.
  - by apply step_speak.
Qed.

Lemma acts_steps l s s' : foldl (λ o a, o ≫= act a) (Some s) l = Some s' → rtc (step plain_consensus plain_reply) s s'.
Proof.
  revert s'. induction l as [|a l IH] using rev_ind; intros s'.
  - intros [= <-]. apply rtc_refl.
  - rewrite foldl_app. cbn [foldl]. intros (s1 & H1 & H2)%bind_Some. apply IH in H1. eapply rtc_r; [exact H1|by eapply act_step].
Qed.

Lemma plain_steps : rtc (step plain_consensus plain_reply) (start plain_consensus plain_chain) plain_run.
Proof.
  apply (acts_steps [ByNode; OnMessage; OnMessage; OnConnected; CallHeaders [100]; Pinged 7; ByHandler; OnMessage;
    ByNode; ByNode; OnMessage; OnHeaders; CallBlocks [101; 102]; ByHandler; ByNode; ByNode; OnMessage; OnBlock]).
  by vm_compute.
Qed.

Lemma requests_answered_witness :
  (∀ l hs, (l, hs) ∈ got_headers _ plain_run → ∃ n, n ∈ seen _ plain_run ∧ hs = plain_locate n l)
  ∧ (∀ hs r, (hs, r) ∈ got_blocks _ plain_run → ∃ n, n ∈ seen _ plain_run
       ∧ r = decode_blocks plain_consensus (zip hs (map (plain_bytes n) hs)))
  ∧ ∃ s', rtc (advance plain_consensus plain_reply) plain_run s' ∧ client _ s' = Between.
Proof.
  apply (requests_answered plain_consensus plain_reply plain_locate plain_bytes plain_chain plain_run plain_steps).
  intros E. by vm_compute in E.
Defined.

End Peer.
