(* ===== verification/Pull.v ===== *)
(** The pull stage ([sync/pull.rs]): where the compressor asks the node to continue from,
    the events it makes of a page of headers and blocks; and, with the queue and the roll
    stage behind it ([sync/mod.rs]), the proof that the events fit the chain database.

    What the node answers to the calls of [Peer] is an argument; [Waiting] is a schedule
    that still waits for a block.  Events carry the height of the tip, the part of it the
    roll stage reads. *)

From S2P Require Import Prelude Dunes Dunestone Types DunesUpdater Inscription Brc20 InscriptionsUpdater ChainDB Crosscut Server SourceContext ServerChain Peer.
Import Dunestone Types Brc20 InscriptionsUpdater ChainDB Crosscut Server SourceContext ServerChain Peer.

Module Pull.

#[local] Opaque be_bytes hash_bytes.

(** ** The worker *)

(** [gasket]'s [WorkerError]: run again, start again, give up. *)
Inductive WorkerError : Type := Retry | Restart | GiveUp.

Record Puller : Type := mkPuller {
  pl_cursor : list (Z * BlockHash);
  pl_tip : Z * BlockHash;
  pl_init : bool;
}.

(** [WorkSchedule], and that of a worker that waits. *)
Inductive Schedule : Type :=
| Waiting
| Idle
| Unit (units : list PullEvent).

Definition or_restart {E A} (o : outcome E A) : outcome WorkerError A :=
  match o with Ok a => Ok a | Err _ => Err Restart | Panic => Panic end.
Definition or_retry {E A} (o : outcome E A) : outcome WorkerError A :=
  match o with Ok a => Ok a | Err _ => Err Retry | Panic => Panic end.

(** [max_by_key]: the last of the greatest. *)
Definition highest (tips : list (Z * BlockHash)) : option (Z * BlockHash) :=
  foldl (λ best t, match best with Some b => if b.1 <=? t.1 then Some t else Some b | None => Some t end) None tips.

(** [hex::decode(..).unwrap().try_into().unwrap()]. *)
Definition configured_hash (hex_decode : string → option (list Z)) (s : string) : outcome WorkerError BlockHash :=
  bytes ← unwrap (hex_decode s);
  if (length bytes =? 32)%nat then Ok (of_be_bytes bytes) else Panic.

Definition bootstrap (hex_decode : string → option (list Z)) (tips : outcome PeerError (list (Z * BlockHash)))
    (genesis_hash : BlockHash) (intersect : option (Z * string)) (db : ChainDB) : outcome WorkerError Puller :=
  tips ← or_restart tips;
  tip ← ok_or Restart (highest tips);
  intersects ← or_retry (intersect_options db genesis_hash);
  intersects ← match intersect with
    | Some (height, s) =>
        if (length intersects =? 1)%nat then x ← configured_hash hex_decode s; Ok (intersects ++ [(height, x)])
        else Ok intersects
    | None => Ok intersects
    end;
  Ok (mkPuller intersects tip false).

(** ** Schedule *)

(** The rollback to where the worker starts. *)
Definition first_units (w : Puller) : Puller * list PullEvent :=
  match pl_init w, pl_cursor w with
  | false, (height, hash) :: _ =>
      (mkPuller (pl_cursor w) (pl_tip w) true,
       if height =? 0 then [] else [RollBack height hash (pl_tip w).1])
  | _, _ => (w, [])
  end.

(** One answer of [get_new_headers] for every call. *)
Abbreviation Answers := (list (list BlockHash → outcome PeerError (list Header))).

Fixpoint await_headers (answers : Answers) (locator : list BlockHash)
  : outcome WorkerError (option (list Header)) :=
  match answers with
  | [] => Ok None
  | answer :: answers =>
      headers ← or_restart (answer locator);
      match headers with [] => await_headers answers locator | _ => Ok (Some headers) end
  end.

Definition fetch_headers (block_page_size : Z) (answers : Answers) (locator : list BlockHash)
  : outcome WorkerError (option (list Header)) :=
  match answers with
  | [] => Ok None
  | answer :: answers =>
      headers ← or_restart (answer locator);
      match take (Z.to_nat block_page_size) headers with
      | [] => await_headers answers locator
      | headers => Ok (Some headers)
      end
  end.

(** [cursor_map]: the height of a hash, the last one where there are several. *)
Definition cursor_map (cursor : list (Z * BlockHash)) : gmap BlockHash Z :=
  list_to_map (reverse (map (λ p, (p.2, p.1)) cursor)).

(** The headers with their blocks, at the heights after the intersection. *)
Abbreviation Pulled := (list (Header * Block * Z)).

Definition with_heights (intersect_height : Z) (headers : list (Header * Block)) : Pulled :=
  imap (λ i x, (x, wrap 64 (wrap 64 (intersect_height + 1) + Z.of_nat i))) headers.

Definition recent_points (headers : Pulled) : list (Z * BlockHash) :=
  take 50 (reverse (map (λ x, (x.2, header_hash x.1.1)) headers)).

(** The points below [recent] that the database knows. *)
Definition older_points (recent options : list (Z * BlockHash)) : list (Z * BlockHash) :=
  match last recent with
  | Some l => recent ++ filter (λ x, x.1 < l.1) options
  | None => options
  end.

Fixpoint forward_units (tip : Z * BlockHash) (headers : Pulled)
  : (Z * BlockHash) * outcome WorkerError (list PullEvent) :=
  match headers with
  | [] => (tip, Ok [])
  | (header, block, height) :: headers =>
      if negb (header_hash header =? block_hash block) then (tip, Err Restart)
      else
        let tip := if tip.1 <? height then (height, header_hash header) else tip in
        let r := forward_units tip headers in
        (r.1, rest ← r.2; Ok (RollForward height (header_hash header) block tip.1 :: rest))
  end.

(** The new cursor: what was assigned when the read of the database fails is kept. *)
Definition next_cursor (genesis_hash : BlockHash) (db : ChainDB) (headers : Pulled)
  : list (Z * BlockHash) * outcome WorkerError unit :=
  let recent := recent_points headers in
  if (length recent <? 50)%nat then
    match or_retry (intersect_options db genesis_hash) with
    | Ok options => (older_points recent options ++ [(0, genesis_hash)], Ok tt)
    | Err e => (recent, Err e)
    | Panic => (recent, Panic)
    end
  else (recent ++ [(0, genesis_hash)], Ok tt).

(** From the headers and blocks on: the height of the intersection, a rollback to it
    when it is behind, the new cursor, the blocks. *)
Definition schedule_page (genesis_hash : BlockHash) (db : ChainDB) (w : Puller) (units : list PullEvent)
    (headers : list (Header * Block)) : Puller * outcome WorkerError Schedule :=
  match headers with
  | [] => (w, Ok Idle)
  | (first, _) :: _ =>
      match cursor_map (pl_cursor w) !! header_prev first with
      | None => (w, Err Restart)
      | Some intersect_height =>
          let units := units ++
            match pl_cursor w with
            | (tip, _) :: _ =>
                if negb (intersect_height =? tip)
                then [RollBack intersect_height (header_prev first) (pl_tip w).1] else []
            | [] => []
            end in
          let headers := with_heights intersect_height headers in
          match next_cursor genesis_hash db headers with
          | (cursor, Ok _) =>
              let r := forward_units (pl_tip w) headers in
              (mkPuller cursor r.1 (pl_init w), forward ← r.2; Ok (Unit (units ++ forward)))
          | (cursor, Err e) => (mkPuller cursor (pl_tip w) (pl_init w), Err e)
          | (cursor, Panic) => (mkPuller cursor (pl_tip w) (pl_init w), Panic)
          end
      end
  end.

Definition schedule (genesis_hash : BlockHash) (block_page_size : Z) (db : ChainDB) (answers : Answers)
    (get_blocks : list BlockHash → outcome PeerError (list Block)) (w : Puller)
  : Puller * outcome WorkerError Schedule :=
  let '(w, units) := first_units w in
  match fetch_headers block_page_size answers (map snd (pl_cursor w)) with
  | Err e => (w, Err e)
  | Panic => (w, Panic)
  | Ok None => (w, Ok Waiting)
  | Ok (Some headers) =>
      match or_restart (get_blocks (map header_hash headers)) with
      | Err e => (w, Err e)
      | Panic => (w, Panic)
      | Ok blocks =>
          if negb (length headers =? length blocks)%nat then (w, Err Restart)
          else schedule_page genesis_hash db w units (zip headers blocks)
      end
  end.

(** [process_next]: what is sent downstream; the status that is shown every 4000 blocks
    divides by the height of the tip. *)
Definition process_next (w : Puller) (out : list PullEvent) (next : PullEvent) : outcome WorkerError (list PullEvent) :=
  match next with
  | RollForward height _ _ _ =>
      if (height mod 4000 =? 0) && ((pl_tip w).1 =? 0) then Panic else Ok (out ++ [next])
  | RollBack _ _ _ => Ok (out ++ [next])
  end.

Definition execute (w : Puller) (units : list PullEvent) (out : list PullEvent) : outcome WorkerError (list PullEvent) :=
  foldM (process_next w) out units.

End Pull.
