(* ===== verification/Pipeline.v ===== *)
(** The pull stage, the queue and the roll stage together ([sync/mod.rs]).

    [step] is what the stages do, in any interleaving: nothing keeps the pull stage from
    reading a database for which rollbacks are still queued.  [orderly] is the condition
    under which its events fit the database when the roll stage takes them; runs that are
    not orderly, and what becomes of their events, are at the end. *)

From S2P Require Import Prelude Dunes Dunestone Types DunesUpdater Inscription Brc20 InscriptionsUpdater ChainDB Crosscut Server Source SourceContext ServerChain Following Peer Pull.
Import Dunestone Types Brc20 InscriptionsUpdater ChainDB Crosscut Server SourceContext ServerChain Following Peer Pull.

Module Pipeline.

#[local] Opaque be_bytes hash_bytes.

Section pipeline.
Context (SUBSIDY_HALVING_INTERVAL : Z).
Context (instructions : list Z → list (outcome script_error Instruction)).
Context (is_op_return : list Z → bool) (to_lowercase : list Z → list Z).
Context (json_message : list Z → option RawProtocolMessage) (script_hash : list Z → Z).
Context (subsidy : Z → Z) (txout_len : TxOut → Z).
Abbreviation roll := (roll_execute SUBSIDY_HALVING_INTERVAL instructions is_op_return to_lowercase
  json_message script_hash subsidy txout_len).

(** The hash of a block commits to the hash of the one before. *)
Context (prev_of : BlockHash → BlockHash).
Definition parent (bytes : list Z) : list Z := hash_bytes (prev_of (of_be_bytes bytes)).

Context (genesis_hash : BlockHash) (block_page_size : Z).

Abbreviation linked := (linked parent 1).
Abbreviation blocks_ok := (blocks_ok parent 1).

(** ** Events *)

Definition event_step (view : list Point) (e : PullEvent) : option (list Point) :=
  match e with
  | ChainDB.RollForward height hash _ _ => Some (view ++ [point_of height hash])
  | ChainDB.RollBack height hash _ => cut_after (point_of height hash) view
  end.

(** An event that fits a chain: the block after its last, or a block of it. *)
Definition fits (view : list Point) (e : PullEvent) : Prop :=
  match e with
  | ChainDB.RollForward height hash block _ =>
      hash = block_hash block ∧ next_block parent 1 view height block ∧ txid_ok (prev_blockhash block)
      ∧ (view = [] ∨ last view = Some (point_of (height - 1) (prev_blockhash block)))
  | ChainDB.RollBack height hash _ => txid_ok hash ∧ point_of height hash ∈ view
  end.

Inductive announces : list Point → list PullEvent → list Point → Prop :=
| announces_nil view : announces view [] view
| announces_cons view e view' es view'' :
    fits view e → event_step view e = Some view' → announces view' es view'' → announces view (e :: es) view''.

Lemma announces_app view es view' es' view'' :
  announces view es view' → announces view' es' view'' → announces view (es ++ es') view''.
Proof. induction 1; [done|]. intros H'. cbn. econstructor; eauto. Qed.

Lemma parent_hash x : txid_ok x → parent (hash_bytes x) = hash_bytes (prev_of x).
Proof. intros Hx. unfold parent. by rewrite of_hash_bytes. Qed.

Lemma point_of_inj h x h' x' : txid_ok x → txid_ok x' → point_of h x = point_of h' x' → h = h' ∧ x = x'.
Proof.
  intros Hx Hx' E. split; [exact (f_equal pt_height E)|].
  apply (f_equal (λ p, of_be_bytes (pt_hash p))) in E. cbn [point_of pt_hash] in E. by rewrite !of_hash_bytes in E.
Qed.

(** *** Positions on a chain that starts at height 1 *)

Lemma linked_position view p : linked view → p ∈ view → 1 ≤ pt_height p ∧ view !! Z.to_nat (pt_height p - 1) = Some p.
Proof.
  intros Hl [i Hi]%list_elem_of_lookup. pose proof (linked_heights _ _ _ _ _ Hl Hi) as Hh.
  split; [lia|]. by replace (Z.to_nat (pt_height p - 1)) with i by lia.
Qed.

Lemma linked_cut view p : linked view → p ∈ view →
  cut_after p view = Some (take (Z.to_nat (pt_height p)) view)
  ∧ last (take (Z.to_nat (pt_height p)) view) = Some p
  ∧ length (take (Z.to_nat (pt_height p)) view) = Z.to_nat (pt_height p)
  ∧ linked (take (Z.to_nat (pt_height p)) view).
Proof.
  intros Hl Hp. destruct (linked_position _ _ Hl Hp) as [Hh Hi].
  pose proof (lookup_lt_Some _ _ _ Hi) as Hlt.
  assert (Et : take (Z.to_nat (pt_height p)) view = take (Z.to_nat (pt_height p - 1)) view ++ [p]).
  { replace (Z.to_nat (pt_height p)) with (S (Z.to_nat (pt_height p - 1))) by lia. by apply take_S_r. }
  pose proof (take_drop_middle _ _ _ Hi) as Em.
  split_and!.
  - rewrite Et, <- Em at 1. apply cut_after_at. pose proof (linked_NoDup _ _ _ Hl) as Hd.
    rewrite <- Em in Hd. apply NoDup_app in Hd as (_ & Hd & _). intros Hin. apply (Hd _ Hin). by left.
  - by rewrite Et, last_snoc.
  - rewrite length_take. lia.
  - rewrite <- (take_drop (Z.to_nat (pt_height p)) view) in Hl. by apply linked_prefix in Hl.
Qed.

Lemma fits_step view e : linked view → fits view e → ∃ view', event_step view e = Some view' ∧ linked view'.
Proof.
  intros Hl. destruct e as [h hash b t|h hash t]; cbn.
  - intros (-> & (Hh & Hr & Hp) & Hpr & Hlast). eexists. split; [done|].
    destruct Hlast as [->|Hlast]; [constructor; cbn in *; lia|].
    apply last_Some in Hlast as [c ->]. constructor; [done|cbn; lia|cbn; by rewrite Hp].
  - intros [_ Hp]. destruct (linked_cut _ _ Hl Hp) as (-> & _ & _ & Hl'). eauto.
Qed.

Lemma announces_linked view es view' : announces view es view' → linked view → linked view'.
Proof.
  induction 1 as [|view e view1 es view2 Hf He _ IH]; [done|]. intros Hl. apply IH.
  destruct (fits_step _ _ Hl Hf) as (v & E & Hv). rewrite He in E. by injection E as <-.
Qed.

Lemma event_length view e view' : event_step view e = Some view' → (length view' ≤ S (length view))%nat.
Proof.
  destruct e; cbn; [intros [= <-]; rewrite length_app; cbn; lia|].
  intros (post & -> & _)%cut_after_Some. rewrite length_app. lia.
Qed.

Lemma announces_length view es view' : announces view es view' → (length view' ≤ length view + length es)%nat.
Proof. induction 1 as [|view e view1 es view2 _ He%event_length _ IH]; cbn; lia. Qed.

(** Without a rollback the chain is extended. *)
Definition is_forward (e : PullEvent) : bool := match e with ChainDB.RollForward _ _ _ _ => true | _ => false end.

Lemma announces_forward view es view' : announces view es view' → forallb is_forward es = true → view `prefix_of` view'.
Proof.
  induction 1 as [|view e view1 es view2 _ He _ IH]; [done|]. cbn. intros [H1 H2]%andb_true_iff.
  destruct e; [|done]. injection He as <-. etrans; [|by apply IH]. by eexists.
Qed.

(** ** Pages *)

(** A page from the node: each header on top of the one before, with a block that has
    its hash; heights count from [n]. *)
Fixpoint pulled_ok (n : Z) (prev : BlockHash) (hs : Pulled) : Prop :=
  match hs with
  | [] => True
  | (header, block, height) :: hs =>
      height = n + 1 ∧ header_prev header = prev ∧ txid_ok (header_hash header)
      ∧ prev_of (header_hash header) = prev ∧ prev_blockhash block = prev_of (block_hash block)
      ∧ pulled_ok (n + 1) (header_hash header) hs
  end.

Definition new_points (hs : Pulled) : list Point := map (λ x, point_of x.2 (header_hash x.1.1)) hs.

Lemma forward_lengths hs tip es :
  (forward_units tip hs).2 = Ok es → length es = length hs ∧ forallb is_forward es = true.
Proof.
  induction hs as [|[[header block] height] hs IH] in tip, es |- *; cbn [forward_units]; [by intros [= <-]|].
  destruct (negb _); [done|]. intros (es' & [H1 H2]%IH & [= <-])%outcome_bind_Ok. cbn. by rewrite H1.
Qed.

(** What is sent is at most at the height of the tip: the status is never a division by
    zero. *)
Lemma forward_below_tip hs tip es :
  (forward_units tip hs).2 = Ok es →
  tip.1 ≤ (forward_units tip hs).1.1
  ∧ Forall (λ e, match e with ChainDB.RollForward h _ _ _ => h ≤ (forward_units tip hs).1.1 | _ => False end) es.
Proof.
  induction hs as [|[[header block] height] hs IH] in tip, es |- *; cbn [forward_units]; [by intros [= <-]|].
  destruct (negb _); [done|]. set (tip' := if tip.1 <? height then _ else _).
  intros (es' & [H1 H2]%IH & [= <-])%outcome_bind_Ok. cbn [fst].
  assert (tip.1 ≤ tip'.1 ∧ height ≤ tip'.1) as [? ?].
  { unfold tip'. destruct (Z.ltb_spec tip.1 height); cbn; lia. }
  split; [lia|]. constructor; [lia|done].
Qed.

Lemma forward_announces hs : ∀ tip n prev view es,
  pulled_ok n prev hs → 0 ≤ n → length view = Z.to_nat n → txid_ok prev →
  (view = [] ∨ last view = Some (point_of n prev)) →
  (forward_units tip hs).2 = Ok es →
  announces view es (view ++ new_points hs).
Proof.
  induction hs as [|[[header block] height] hs IH]; intros tip n prev view es Hok Hn Hlen Hprev Hlast.
  { intros [= <-]. rewrite app_nil_r. constructor. }
  destruct Hok as (-> & Hhp & Hr & Hpo & Hpb & Hrest). cbn [forward_units].
  destruct (negb _) eqn:Eh; [done|]. apply negb_false_iff, Z.eqb_eq in Eh.
  intros (es' & He & [= <-])%outcome_bind_Ok. rewrite <- Eh in Hpb.
  apply (IH _ (n + 1) (header_hash header) (view ++ [point_of (n + 1) (header_hash header)])) in He;
    [|done|lia|rewrite length_app; cbn; lia|done|right; by rewrite last_snoc].
  cbn [new_points map fst snd]. econstructor; [|done|by rewrite <- (assoc_L (++)) in He].
  cbn [fits]. split_and!; [done| |congruence|].
  - unfold next_block. rewrite Hlen, <- Eh, Z2Nat.id by lia. split_and!; [lia|done|].
    rewrite parent_hash by done. by rewrite Hpb.
  - rewrite Hpb, Hpo. by replace (n + 1 - 1) with n by lia.
Qed.

Lemma pulled_linked hs n prev view :
  pulled_ok n prev hs → 0 ≤ n → length view = Z.to_nat n → txid_ok prev →
  (view = [] ∨ last view = Some (point_of n prev)) → linked view → linked (view ++ new_points hs).
Proof.
  induction hs as [|[[header block] height] hs IH] in n, prev, view |- *; intros Hok Hn Hlen Hp Hlast Hl;
    [by rewrite app_nil_r|].
  destruct Hok as (-> & Hhp & Hr & Hpo & _ & Hrest). cbn [new_points map fst snd].
  replace (view ++ point_of (n + 1) (header_hash header) :: map (λ x, point_of x.2 (header_hash x.1.1)) hs)
    with ((view ++ [point_of (n + 1) (header_hash header)]) ++ new_points hs) by by rewrite <- (assoc_L (++)).
  apply (IH (n + 1) (header_hash header)); [done|lia|rewrite length_app; cbn; lia|done|right; by rewrite last_snoc|].
  destruct Hlast as [->|Hlast]; [constructor; cbn in *; lia|]. apply last_Some in Hlast as [c ->].
  constructor; [done|cbn; lia|cbn [point_of pt_hash]]. by rewrite parent_hash, Hpo.
Qed.

(** ** The cursor *)

(** The points of the cursor are on the chain announced, the first is its last; after a
    start the first is the one that will be rolled back to. *)
Definition on_view (view : list Point) (p : Z * BlockHash) : Prop :=
  txid_ok p.2 ∧ (point_of p.1 p.2 ∈ view ∨ p = (0, genesis_hash)).

Definition cursor_ok (view : list Point) (w : Puller) : Prop :=
  Forall (on_view view) (pl_cursor w)
  ∧ match pl_cursor w with
    | [] => False
    | p :: rest =>
        Forall (λ q, q.1 ≤ p.1) rest
        ∧ (p = (0, genesis_hash) ∧ view = []
           ∨ point_of p.1 p.2 ∈ view ∧ (pl_init w = true → last view = Some (point_of p.1 p.2)))
    end.

Lemma on_view_cut view p h :
  linked view → on_view view p → p.1 ≤ h → on_view (take (Z.to_nat h) view) p.
Proof.
  intros Hl [Hr [Hp|Hp]] Hh; (split; [done|]); [left|by right].
  destruct (linked_position _ _ Hl Hp) as [H1 Hi]. cbn in H1, Hi. apply list_elem_of_lookup.
  exists (Z.to_nat (p.1 - 1)). by rewrite lookup_take_lt by lia.
Qed.

Lemma first_units_ok view w w' us :
  linked view → cursor_ok view w → first_units w = (w', us) →
  ∃ view', announces view us view' ∧ view' `prefix_of` view ∧ cursor_ok view' w' ∧ pl_init w' = true.
Proof.
  intros Hl [Hc Hh]. unfold first_units. destruct (pl_cursor w) as [|[h x] rest] eqn:Ec; [done|].
  destruct (pl_init w) eqn:Ei.
  { intros [= <- <-]. exists view. split_and!; [constructor|done| |done].
    split; rewrite Ec; [done|]. by rewrite Ei. }
  intros [= <- <-]. destruct Hh as [Hle Hh]. cbn in Hle, Hh. destruct (Z.eqb_spec h 0) as [->|Hne].
  - destruct Hh as [[Hg ->]|[Hin _]]; [|apply (linked_position _ _ Hl) in Hin as [? _]; cbn in *; lia].
    exists []. split_and!; [constructor|done| |done]. split; [done|]. by split; [|left].
  - destruct Hh as [[[= -> _] _]|[Hin _]]; [done|].
    destruct (linked_cut _ _ Hl Hin) as (Hcut & Hlast & Hlen & Hl'). cbn [pt_height point_of] in *.
    exists (take (Z.to_nat h) view). split_and!; [|by exists (drop (Z.to_nat h) view); rewrite take_drop| |done].
    + econstructor; [|exact Hcut|constructor]. split; [|exact Hin]. by apply Forall_cons in Hc as [[? _] _].
    + split; cbn [pl_cursor pl_init].
      * apply Forall_forall. intros p Hp. apply on_view_cut; [done| |].
        -- by rewrite Forall_forall in Hc; apply Hc.
        -- apply elem_of_cons in Hp as [->|Hp]; [done|]. rewrite Forall_forall in Hle. by apply Hle.
      * split; [done|]. right. cbn. split; [|done]. apply last_Some in Hlast as [c ->]. set_solver.
Qed.

Lemma cursor_map_found cursor x h : cursor_map cursor !! x = Some h → (h, x) ∈ cursor.
Proof.
  intros H%elem_of_list_to_map_2. rewrite elem_of_reverse in H.
  by apply list_elem_of_fmap in H as ([h' x'] & [= -> ->] & H).
Qed.

(** The rollback to the intersection. *)
Definition back_units (w : Puller) (h : Z) (x : BlockHash) : list PullEvent :=
  match pl_cursor w with
  | (tip, _) :: _ => if negb (h =? tip) then [ChainDB.RollBack h x (pl_tip w).1] else []
  | [] => []
  end.

Lemma back_announces view w h x :
  linked view → cursor_ok view w → pl_init w = true → (h, x) ∈ pl_cursor w →
  (∀ y t, ChainDB.RollBack 0 y t ∉ back_units w h x) →
  ∃ view', announces view (back_units w h x) view' ∧ view' `prefix_of` view ∧ linked view'
    ∧ 0 ≤ h ∧ length view' = Z.to_nat h ∧ (view' = [] ∨ last view' = Some (point_of h x)).
Proof.
  intros Hl [Hc Hh] Hi Hin Hz. unfold back_units in *. destruct (pl_cursor w) as [|[t xt] rest] eqn:Ec; [done|].
  destruct Hh as [Hle Hh]. cbn in Hh. rewrite Forall_forall in Hc. destruct (Hc _ Hin) as [Hrx [Hp|[= -> ->]]].
  - destruct (linked_cut _ _ Hl Hp) as (Hcut & Hlast & Hlen & Hl'). cbn [pt_height point_of fst snd] in *.
    destruct (linked_position _ _ Hl Hp) as [H1 Hpos]. cbn [pt_height point_of] in H1, Hpos.
    exists (take (Z.to_nat h) view). split_and!; [|by exists (drop (Z.to_nat h) view); rewrite take_drop|done|lia|done|by right].
    destruct (Z.eqb_spec h t) as [<-|Hne]; cbn [negb]; [|by econstructor; [|exact Hcut|constructor]].
    destruct Hh as [[_ ->]|[Ht Hlt]]; [by apply not_elem_of_nil in Hp|].
    assert (length view = Z.to_nat h) as E.
    { specialize (Hlt Hi). rewrite last_lookup in Hlt. pose proof (linked_heights _ _ _ _ _ Hl Hlt) as Hhh.
      cbn [pt_height point_of] in Hhh. apply lookup_lt_Some in Hpos. lia. }
    rewrite take_ge by lia. constructor.
  - destruct (Z.eqb_spec 0 t) as [<-|Hne]; cbn [negb] in *; [|exfalso; by eapply Hz; left].
    destruct Hh as [[_ ->]|[Ht _]]; [|apply (linked_position _ _ Hl) in Ht as [? _]; cbn in *; lia].
    exists []. split_and!; [constructor|done|done|lia|done|by left].
Qed.

(** ** The points the database proposes *)

Lemma intersect_indexes_head f count step index l :
  intersect_indexes f count step index = Some l → ∃ rest, l = index :: rest.
Proof.
  destruct f as [|f]; [done|]. cbn [intersect_indexes]. destruct (saturating_sub _ _ =? 0).
  - intros [= <-]. by eexists.
  - intros (r & _ & [= <-])%bind_Some. by eexists.
Qed.

Lemma intersect_options_found db points :
  intersect_options db genesis_hash = Ok points →
  Forall (λ p, p = (0, genesis_hash) ∨ fst <$> BlockByHeightKV (tables db) !! p.1 = Some p.2) points
  ∧ head points = Some (default (0, genesis_hash) (ChainDB.cursor db))
  ∧ last points = Some (0, genesis_hash).
Proof.
  unfold intersect_options, ChainDB.cursor. generalize intersect_fuel. intros fuel. set (blocks := BlockByHeightKV (tables db)).
  set (found p := fst <$> blocks !! p.1 = Some (p.2 : BlockHash)).
  assert (Hfold : ∀ l acc out, Forall found acc →
    foldM (λ out x, b ← ok_or (IntersectMissingBlock x) (blocks !! x); Ok (out ++ [(x, b.1)])) acc l = Ok out →
    Forall found out ∧ acc `prefix_of` out).
  { induction l as [|x l IH]; intros acc out Hacc; cbn [foldM]; [by intros [= <-]|].
    intros (acc' & (b & Hb & [= <-])%outcome_bind_Ok & H)%outcome_bind_Ok.
    destruct (blocks !! x) as [b'|] eqn:Ex; [injection Hb as ->|done].
    apply IH in H as [H Hpre].
    - split; [done|]. etrans; [|done]. by eexists.
    - apply Forall_app. split; [done|]. constructor; [|done]. unfold found. cbn. by rewrite Ex. }
  intros (out & H & [= <-])%outcome_bind_Ok.
  destruct (last (sorted_entries blocks)) as [[tip [hash b]]|] eqn:El.
  - apply outcome_bind_Ok in H as (l & Hl & H). unfold unwrap in Hl.
    destruct (intersect_indexes fuel 0 1 tip) as [l'|] eqn:Ei; [injection Hl as ->|done].
    assert (∃ rest, l = tip :: rest) as [rest ->].
    { by eapply intersect_indexes_head. }
    cbn [foldM] in H. apply outcome_bind_Ok in H as (acc & (b' & Hb & [= <-])%outcome_bind_Ok & H).
    assert (Hb' : blocks !! tip = Some (hash, b)).
    { apply sorted_entries_elem. apply last_Some in El as [pre ->]. apply elem_of_app. right. by left. }
    rewrite Hb' in Hb. injection Hb as <-. cbn in H. apply Hfold in H as [H [post ->]].
    + split; [|split; [done|by rewrite last_snoc]]. apply Forall_app. split; [|by repeat constructor].
      eapply Forall_impl; [exact H|]. auto.
    + constructor; [|done]. unfold found. cbn. by rewrite Hb'.
  - injection H as <-. split; [|done]. by repeat constructor.
Qed.

Lemma on_view_below view p q :
  linked view → last view = Some (point_of q.1 q.2) → on_view view p → p.1 ≤ q.1.
Proof.
  intros Hl Hlast [_ Hp]. rewrite last_lookup in Hlast.
  pose proof (linked_heights _ _ _ _ _ Hl Hlast) as Hq. cbn [pt_height point_of] in Hq.
  destruct Hp as [Hp| ->]; [|cbn; lia].
  destruct (linked_position _ _ Hl Hp) as [_ Hi]. apply lookup_lt_Some in Hi. cbn [pt_height point_of] in Hi. lia.
Qed.

Lemma cursor_ok_intro view p rest tip init :
  linked view → Forall (on_view view) (p :: rest) → last view = Some (point_of p.1 p.2) →
  cursor_ok view (mkPuller (p :: rest) tip init).
Proof.
  intros Hl Hf Hlast. split; [done|]. cbn [pl_cursor]. split.
  - apply Forall_cons in Hf as [_ Hf]. eapply Forall_impl; [exact Hf|]. intros q Hq. by eapply on_view_below.
  - right. split; [|done]. apply last_Some in Hlast as [c ->]. apply elem_of_app. right. by left.
Qed.

Lemma pulled_hashes n prev hs : pulled_ok n prev hs → Forall (λ x, txid_ok (header_hash x.1.1)) hs.
Proof.
  induction hs as [|[[header block] height] hs IH] in n, prev |- *; [done|].
  intros (_ & _ & Hr & _ & _ & Hrest). constructor; [done|]. by eapply IH.
Qed.

Definition recent_point (x : Header * Block * Z) : Z * BlockHash := (x.2, header_hash x.1.1).

Lemma recent_on_view view n prev hs :
  pulled_ok n prev hs → Forall (on_view (view ++ new_points hs)) (recent_points hs).
Proof.
  intros Hok%pulled_hashes. rewrite Forall_forall in Hok. apply Forall_forall. intros p Hp%elem_of_take.
  destruct Hp as (i & Hp & _). apply list_elem_of_lookup_2, elem_of_reverse, list_elem_of_fmap in Hp as (x & -> & Hx).
  split; [by apply Hok|]. left. apply elem_of_app. right. apply list_elem_of_fmap. by exists x.
Qed.

Lemma recent_head hs x : recent_points (hs ++ [x]) = recent_point x :: take 49 (reverse (map recent_point hs)).
Proof. unfold recent_points. rewrite map_app, reverse_app. done. Qed.

Lemma recent_last x hs :
  (length (recent_points (x :: hs)) < 50)%nat → last (recent_points (x :: hs)) = Some (recent_point x).
Proof.
  unfold recent_points. rewrite length_take, length_reverse, length_map. cbn [length]. intros H.
  rewrite take_ge by (rewrite length_reverse, length_map; cbn; lia). cbn [map]. by rewrite reverse_cons, last_snoc.
Qed.

(** The points of the database below a page are on the chain that the page extends. *)
Lemma options_on_view (db : ChainDB) lh full view view' n points :
  txid_ok genesis_hash → blocks_ok (tables db) lh → linked full →
  chain_of (BlockByHeightKV (tables db)) `prefix_of` full → view `prefix_of` full → length view = Z.to_nat n →
  intersect_options db genesis_hash = Ok points →
  Forall (on_view (view ++ view')) (filter (λ x, x.1 < n + 1) points).
Proof.
  intros Hg Hb Hfull Hpre Hview Hlen (Hf & _)%intersect_options_found. rewrite Forall_forall in Hf.
  apply Forall_forall. intros p [Hn Hp]%list_elem_of_filter. destruct (Hf p Hp) as [->|H]; [by split; [|right]|].
  destruct (BlockByHeightKV (tables db) !! p.1) as [[x b]|] eqn:Ex; [|done]. injection H as ->.
  split; [exact (bo_range _ _ _ _ Hb _ _ Ex)|]. left. apply elem_of_app. left.
  assert (Hin : point_of p.1 p.2 ∈ full).
  { destruct Hpre as [post ->]. apply elem_of_app. left. unfold chain_of. apply list_elem_of_fmap.
    exists (p.1, (p.2, b)). split; [done|]. by apply sorted_entries_elem. }
  destruct (linked_position _ _ Hfull Hin) as [H1 Hi]. cbn [pt_height point_of] in H1, Hi.
  destruct Hview as [post ->]. apply list_elem_of_lookup. exists (Z.to_nat (p.1 - 1)).
  by rewrite lookup_app_l in Hi by lia.
Qed.

Lemma next_cursor_ok (db : ChainDB) lh full view n prev x hs cursor tip init :
  txid_ok genesis_hash → blocks_ok (tables db) lh → linked full → view `prefix_of` full →
  ((50 ≤ length (x :: hs))%nat ∨ chain_of (BlockByHeightKV (tables db)) `prefix_of` full) →
  length view = Z.to_nat n → pulled_ok n prev (x :: hs) → linked (view ++ new_points (x :: hs)) →
  next_cursor genesis_hash db (x :: hs) = (cursor, Ok tt) →
  cursor_ok (view ++ new_points (x :: hs)) (mkPuller cursor tip init).
Proof.
  intros Hg Hb Hfull Hview Hdb Hlen Hok Hl H.
  pose proof (recent_on_view view n prev (x :: hs) Hok) as Hr.
  assert (Hgen : Forall (on_view (view ++ new_points (x :: hs))) [(0, genesis_hash)]).
  { constructor; [|done]. by split; [|right]. }
  assert (∃ rest, cursor = recent_points (x :: hs) ++ rest ∧ Forall (on_view (view ++ new_points (x :: hs))) rest)
    as (rest & -> & Hrest).
  { unfold next_cursor in H. destruct (length (recent_points (x :: hs)) <? 50)%nat eqn:E50; [|injection H as <-; eauto].
    apply Nat.ltb_lt in E50. destruct (or_retry _) as [points| |] eqn:Ep; [|done..]. injection H as <-.
    destruct Hdb as [Hlong|Hpre].
    { exfalso. unfold recent_points in E50. rewrite length_take, length_reverse, length_map in E50. lia. }
    unfold older_points. rewrite recent_last by done. rewrite <- (assoc_L (++)). eexists. split; [done|].
    apply Forall_app. split; [|done]. destruct x as [[header block] height]. cbn [recent_point fst snd].
    destruct Hok as (-> & _). apply (options_on_view db lh full view _ n points); [done..|].
    unfold or_retry in Ep. destruct (intersect_options db genesis_hash); by simplify_eq. }
  destruct (exists_last (l := x :: hs)) as (hs' & y & E); [done|]. rewrite E in *.
  rewrite recent_head in *. cbn [app]. apply cursor_ok_intro; [done| |].
  - change (recent_point y :: take 49 (reverse (map recent_point hs')) ++ rest)
      with ((recent_point y :: take 49 (reverse (map recent_point hs'))) ++ rest). by apply Forall_app.
  - unfold new_points. rewrite map_app, (assoc_L (++)). cbn [map]. by rewrite last_snoc.
Qed.

(** ** What is asked of the node *)

(** Headers are a chain, and the hash of a block commits to the one before. *)
Fixpoint chained (prev : BlockHash) (hs : list Header) : Prop :=
  match hs with
  | [] => True
  | h :: hs =>
      header_prev h = prev ∧ txid_ok (header_hash h) ∧ prev_of (header_hash h) = prev ∧ chained (header_hash h) hs
  end.

Definition headers_ok (hs : list Header) : Prop :=
  match hs with [] => True | h :: _ => txid_ok (header_prev h) ∧ chained (header_prev h) hs end.

Definition node_ok (answers : Answers) (get_blocks : list BlockHash → outcome PeerError (list Block)) : Prop :=
  Forall (λ answer, ∀ l hs, answer l = Ok hs → headers_ok hs) answers
  ∧ ∀ hashes blocks, get_blocks hashes = Ok blocks →
      Forall (λ b, prev_blockhash b = prev_of (block_hash b)) blocks.

Lemma chained_take prev hs k : chained prev hs → chained prev (take k hs).
Proof. induction hs as [|h hs IH] in prev, k |- *; destruct k; cbn; [done..|]. naive_solver. Qed.

Lemma headers_ok_take hs k : headers_ok hs → headers_ok (take k hs).
Proof.
  destruct hs as [|h hs], k as [|k]; cbn [take headers_ok]; [done..|]. intros [Hp Hc]. split; [done|].
  by apply (chained_take _ (h :: hs) (S k)).
Qed.

Lemma await_headers_ok answers l hs :
  Forall (λ answer, ∀ l hs, answer l = Ok hs → headers_ok hs) answers →
  await_headers answers l = Ok (Some hs) → headers_ok hs ∧ hs ≠ [].
Proof.
  induction 1 as [|a answers Ha _ IH]; cbn; [done|].
  intros (hs' & Hh & H)%outcome_bind_Ok. unfold or_restart in Hh. destruct (a l) eqn:Ea; simplify_eq.
  destruct hs' as [|h hs']; [by apply IH|]. injection H as <-. split; [by eapply Ha|done].
Qed.

Lemma fetch_headers_ok answers l hs :
  Forall (λ answer, ∀ l hs, answer l = Ok hs → headers_ok hs) answers →
  fetch_headers block_page_size answers l = Ok (Some hs) → headers_ok hs ∧ hs ≠ [].
Proof.
  destruct answers as [|a answers]; [done|]. intros [Ha Hrest]%Forall_cons. cbn.
  intros (hs' & Hh & H)%outcome_bind_Ok. unfold or_restart in Hh. destruct (a l) eqn:Ea; simplify_eq.
  destruct (take _ hs') as [|h hs2] eqn:Et; [by eapply await_headers_ok|]. injection H as <-.
  split; [|done]. rewrite <- Et. apply headers_ok_take. by eapply Ha.
Qed.

Lemma with_heights_ok n prev hs blocks :
  chained prev hs → Forall (λ b, prev_blockhash b = prev_of (block_hash b)) blocks →
  0 ≤ n → n + Z.of_nat (length hs) < 2 ^ 64 → length hs = length blocks →
  pulled_ok n prev (with_heights n (zip hs blocks)).
Proof.
  intros Hc Hb Hn Hbound Hlen. unfold with_heights.
  assert (∀ j m, n + Z.of_nat j = m → m + Z.of_nat (length hs) < 2 ^ 64 →
    pulled_ok m prev (imap (λ i x, (x, wrap 64 (wrap 64 (n + 1) + Z.of_nat (j + i)))) (zip hs blocks))) as H.
  2: { apply (H 0%nat); lia. }
  clear Hbound. induction hs as [|h hs IH] in prev, blocks, Hc, Hb, Hlen |- *; intros j m Hm Hbound; [done|].
  destruct blocks as [|b blocks]; [done|]. apply Forall_cons in Hb as [Hb Hbs].
  destruct Hc as (H1 & H2 & H3 & Hc). cbn [length] in *. cbn [zip zip_with imap pulled_ok].
  split_and!; [|done..|].
  - rewrite (wrap_small 64 (n + 1)) by (unfold in_range; lia). rewrite wrap_small by (unfold in_range; lia). lia.
  - specialize (IH _ _ Hc Hbs ltac:(lia) (S j) (m + 1) ltac:(lia) ltac:(lia)).
    erewrite imap_ext; [exact IH|]. intros i x _. cbn. do 3 f_equal. lia.
Qed.

Definition forwards (us : list PullEvent) : nat := length (filter is_forward us).

Lemma schedule_page_ok (db : ChainDB) lh full view w units hs blocks w' us :
  txid_ok genesis_hash → blocks_ok (tables db) lh → linked full → view `prefix_of` full →
  cursor_ok view w → pl_init w = true →
  headers_ok hs → hs ≠ [] → length hs = length blocks →
  Forall (λ b, prev_blockhash b = prev_of (block_hash b)) blocks →
  schedule_page genesis_hash db w units (zip hs blocks) = (w', Ok (Unit us)) →
  Z.of_nat (length full) + Z.of_nat (length us) < 2 ^ 64 → (∀ y t, ChainDB.RollBack 0 y t ∉ us) →
  ((50 ≤ forwards us - forwards units)%nat ∨ chain_of (BlockByHeightKV (tables db)) `prefix_of` full) →
  ∃ us' view', us = units ++ us' ∧ announces view us' view' ∧ cursor_ok view' w' ∧ pl_init w' = true.
Proof.
  intros Hg Hb Hfull Hview Hcur Hinit Hh Hne Hlen Hbs H Hbound Hz Hdb.
  destruct hs as [|h hs]; [done|]. destruct blocks as [|b blocks]; [done|].
  destruct Hh as [Hhp Hch]. cbn [zip zip_with schedule_page] in H.
  destruct (cursor_map (pl_cursor w) !! header_prev h) as [ih|] eqn:Em; [|done]. apply cursor_map_found in Em.
  change ((h, b) :: zip_with pair hs blocks) with (zip (h :: hs) (b :: blocks)) in H.
  remember (with_heights ih (zip (h :: hs) (b :: blocks))) as pulled eqn:Epulled. fold (back_units w ih (header_prev h)) in H.
  destruct (next_cursor genesis_hash db pulled) as [cursor [[]| |]] eqn:En; [|done..].
  injection H as <- H. apply outcome_bind_Ok in H as (es & Hes & [= <-]).
  destruct (forward_lengths _ _ _ Hes) as [Hel Hef].
  assert (Hlp : length pulled = length (h :: hs)).
  { rewrite Epulled. unfold with_heights. rewrite length_imap, length_zip_with_l_eq; done. }
  assert (Hl : linked view).
  { destruct Hview as [post ->]. by apply linked_prefix in Hfull. }
  destruct (back_announces view w ih (header_prev h) Hl Hcur Hinit Em) as (view2 & Ha & Hpre & Hl2 & H0 & Hlen2 & Hlast).
  { intros y t Hin. apply (Hz y t). apply elem_of_app. left. apply elem_of_app. by right. }
  rewrite !length_app in Hbound.
  assert (Hok : pulled_ok ih (header_prev h) pulled).
  { rewrite Epulled. apply with_heights_ok; [done..| |done]. destruct Hview as [p1 ->]. destruct Hpre as [p2 ->].
    rewrite !length_app, Hlen2 in Hbound. lia. }
  pose proof (pulled_linked _ _ _ view2 Hok H0 Hlen2 Hhp Hlast Hl2) as Hl3.
  exists (back_units w ih (header_prev h) ++ es), (view2 ++ new_points pulled).
  split_and!; [by rewrite (assoc_L (++))| | |done].
  - eapply announces_app; [exact Ha|]. by eapply forward_announces.
  - clear Epulled. destruct pulled as [|x pulled]; [done|].
    apply (next_cursor_ok db lh full view2 ih (header_prev h) x pulled); try done; [by etrans|].
    destruct Hdb as [Hdb|Hdb]; [left|by right]. cbn in Hel, Hlp |- *.
    unfold forwards in Hdb. rewrite !filter_app, !length_app in Hdb.
    assert (length (filter is_forward (back_units w ih (header_prev h))) = 0)%nat as E0.
    { unfold back_units. destruct (pl_cursor w) as [|[]]; [done|]. by destruct (negb _). }
    pose proof (length_filter is_forward es). lia.
Qed.

Lemma first_units_backs w w' us : first_units w = (w', us) → forwards us = 0%nat.
Proof.
  unfold first_units. destruct (pl_init w), (pl_cursor w) as [|[h x] rest]; intros [= <- <-]; try done.
  by destruct (h =? 0).
Qed.

(** One page: the events announce a chain, of which the new cursor holds the last point. *)
Lemma schedule_ok (db : ChainDB) lh view w answers get_blocks w' us :
  txid_ok genesis_hash → blocks_ok (tables db) lh → linked view → cursor_ok view w → node_ok answers get_blocks →
  schedule genesis_hash block_page_size db answers get_blocks w = (w', Ok (Unit us)) →
  Z.of_nat (length view) + Z.of_nat (length us) < 2 ^ 64 → (∀ y t, ChainDB.RollBack 0 y t ∉ us) →
  ((50 ≤ forwards us)%nat ∨ chain_of (BlockByHeightKV (tables db)) `prefix_of` view) →
  ∃ view', announces view us view' ∧ cursor_ok view' w' ∧ pl_init w' = true.
Proof.
  intros Hg Hb Hl Hcur [Hans Hbl] H Hbound Hz Hdb. unfold schedule in H.
  destruct (first_units w) as [w1 units] eqn:Ef.
  destruct (first_units_ok _ _ _ _ Hl Hcur Ef) as (view1 & Ha1 & Hpre & Hcur1 & Hi1).
  apply first_units_backs in Ef.
  destruct (fetch_headers _ _ _) as [[hs|]| |] eqn:Eh; [|done..].
  destruct (fetch_headers_ok _ _ _ Hans Eh) as [Hh Hne].
  destruct (get_blocks (map header_hash hs)) as [blocks| |] eqn:Eb; [|done..]. cbn [or_restart] in H.
  destruct (negb _) eqn:El; [done|]. apply negb_false_iff, Nat.eqb_eq in El.
  destruct (schedule_page_ok db lh view view1 w1 units hs blocks w' us) as (us' & view2 & -> & Ha2 & Hcur2 & Hi2); try done.
  - by eapply Hbl.
  - by rewrite Ef, Nat.sub_0_r.
  - exists view2. split_and!; [by eapply announces_app|done..].
Qed.

(** ** The roll stage takes an event *)

Lemma roll_fits s e s' :
  roll s e = Ok s' → blocks_ok (tables (chain_db s)) (last_block_hash (chain_db s)) → fits (chain s) e →
  blocks_ok (tables (chain_db s')) (last_block_hash (chain_db s')) ∧ event_step (chain s) e = Some (chain s').
Proof.
  intros H Hb Hf. destruct e as [h hash b t|h hash t]; cbn [roll_execute] in H; cbv zeta in H.
  - apply outcome_bind_Ok in H as ([db' mem] & H & [= <-]). destruct Hf as (-> & Hn & _).
    destruct (blocks_applied _ _ _ _ _ _ _ _ parent 1 _ _ _ _ _ _ _ H Hb Hn) as [Hb' Ec].
    split; [done|]. unfold chain. cbn [event_step chain_db]. by rewrite Ec.
  - apply outcome_bind_Ok in H as (db' & H & [= <-]).
    destruct (rolled_back _ parent 1 _ _ _ _ _ H Hb) as (found & post & t' & seq & _ & _ & _ & Hb' & Hcut & _).
    split; [exact Hb'|exact Hcut].
Qed.

(** An event the database takes: the block after the last one it has, with the hash it
    checks, or a rollback to a block that it finds. *)
Definition accepted (s : Stage) (e : PullEvent) : Prop :=
  match e with
  | ChainDB.RollForward height hash block _ =>
      hash = block_hash block ∧ next_block parent 1 (chain s) height block
      ∧ ∀ x, last_block_hash (chain_db s) = Some x → prev_blockhash block = x
  | ChainDB.RollBack height hash _ => fst <$> BlockByHeightKV (tables (chain_db s)) !! height = Some hash
  end.

Lemma fits_accepted s e :
  blocks_ok (tables (chain_db s)) (last_block_hash (chain_db s)) → fits (chain s) e → accepted s e.
Proof.
  intros Hb Hf. destruct e as [h hash b t|h hash t]; cbn [fits accepted] in *.
  - destruct Hf as (-> & Hn & Hp & Hlast). split_and!; [done..|]. intros x Hx.
    rewrite (bo_last _ _ _ _ Hb) in Hx. apply fmap_Some in Hx as ([k [x' b']] & Hx & ->). cbn.
    pose proof (last_chain_of (BlockByHeightKV (tables (chain_db s)))) as El. rewrite Hx in El.
    destruct Hlast as [E|E]; unfold chain in E; [by rewrite E in El|]. rewrite E in El. apply (inj Some) in El.
    assert (Hk : BlockByHeightKV (tables (chain_db s)) !! k = Some (x', b')).
    { apply sorted_entries_elem. apply last_Some in Hx as [pre ->]. apply elem_of_app. right. by left. }
    apply point_of_inj in El as [_ ?]; [done..|]. exact (bo_range _ _ _ _ Hb _ _ Hk).
  - destruct Hf as [Hr Hf]. unfold chain, chain_of in Hf. apply list_elem_of_fmap in Hf as ([k [x b]] & E & Hk%sorted_entries_elem).
    apply point_of_inj in E as [-> ->]; [cbn [fst snd]; by rewrite Hk|done|exact (bo_range _ _ _ _ Hb _ _ Hk)].
Qed.

Lemma cursor_of_last (db : ChainDB) lh p :
  blocks_ok (tables db) lh → txid_ok p.2 →
  last (chain_of (BlockByHeightKV (tables db))) = Some (point_of p.1 p.2) → ChainDB.cursor db = Some p.
Proof.
  intros Hb Hr Hlast. rewrite last_chain_of in Hlast. unfold ChainDB.cursor.
  destruct (last (sorted_entries _)) as [[k [x b]]|] eqn:Elast; [|done]. cbn in Hlast |- *.
  assert (Hk : BlockByHeightKV (tables db) !! k = Some (x, b)).
  { apply sorted_entries_elem. apply last_Some in Elast as [pre ->]. apply elem_of_app. right. by left. }
  apply (inj Some), point_of_inj in Hlast as [E1 E2]; [by destruct p; cbn in *; subst| |done].
  exact (bo_range _ _ _ _ Hb _ _ Hk).
Qed.

(** ** The stages together *)

Record Pipeline : Type := mkPipeline { puller : Puller; queue : list PullEvent; stage : Stage }.

Abbreviation db_chain y := (chain (stage y)).

(** What a step does: a page from the node, with what the node answered and the events
    made of it; a start of the pull stage, with the configured intersection; an event taken
    by the roll stage. *)
Inductive action : Type :=
| Page (answers : Answers) (get_blocks : list BlockHash → outcome PeerError (list Block)) (us : list PullEvent)
| Start (hex_decode : string → option (list Z)) (intersect : option (Z * string))
| Roll.

Inductive step : action → Pipeline → Pipeline → Prop :=
| step_pull y answers get_blocks w us q :
    schedule genesis_hash block_page_size (chain_db (stage y)) answers get_blocks (puller y) = (w, Ok (Unit us)) →
    execute w us (queue y) = Ok q →
    step (Page answers get_blocks us) y (mkPipeline w q (stage y))
| step_restart y hex_decode tips intersect w :
    bootstrap hex_decode tips genesis_hash intersect (chain_db (stage y)) = Ok w →
    step (Start hex_decode intersect) y (mkPipeline w (queue y) (stage y))
| step_roll y e q s :
    queue y = e :: q → roll (stage y) e = Ok s → step Roll y (mkPipeline (puller y) q s).

(** No rollback waits for the roll stage. *)
Definition no_rollback_waits (y : Pipeline) : Prop := forallb is_forward (queue y) = true.

(** The node answers with chains of headers and does not go back to before the first
    block; a page of less than 50 blocks, for which the pull stage reads the database, comes
    when no rollback waits; the pull stage starts when none waits, and on an empty
    database with an empty queue and without a configured intersection. *)
Definition orderly (y : Pipeline) (a : action) : Prop :=
  match a with
  | Page answers get_blocks us =>
      node_ok answers get_blocks ∧ (∀ x t, ChainDB.RollBack 0 x t ∉ us)
      ∧ Z.of_nat (length (db_chain y)) + Z.of_nat (length (queue y ++ us)) < 2 ^ 64
      ∧ ((50 ≤ forwards us)%nat ∨ no_rollback_waits y)
  | Start _ intersect => no_rollback_waits y ∧ (db_chain y = [] → queue y = [] ∧ intersect = None)
  | Roll => True
  end.

Definition any_step (y y' : Pipeline) : Prop := ∃ a, step a y y'.
Definition orderly_step (y y' : Pipeline) : Prop := ∃ a, step a y y' ∧ orderly y a.

Definition pipeline_ok (y : Pipeline) : Prop :=
  blocks_ok (tables (chain_db (stage y))) (last_block_hash (chain_db (stage y)))
  ∧ ∃ view, announces (db_chain y) (queue y) view ∧ cursor_ok view (puller y).

Lemma execute_sends w us out q : execute w us out = Ok q → q = out ++ us.
Proof.
  unfold execute. induction us as [|u us IH] in out |- *; cbn [foldM]; [by intros [= <-]; rewrite app_nil_r|].
  intros (out' & Hu & H)%outcome_bind_Ok. assert (out' = out ++ [u]) as ->.
  { destruct u; cbn in Hu; [destruct (_ && _)|]; by simplify_eq. }
  apply IH in H as ->. by rewrite <- (assoc_L (++)).
Qed.

(** A configured intersection is only read on an empty database. *)
Lemma bootstrap_points hex_decode tips intersect (db : ChainDB) w :
  blocks_ok (tables db) (last_block_hash db) →
  bootstrap hex_decode tips genesis_hash intersect db = Ok w →
  (chain_of (BlockByHeightKV (tables db)) = [] → intersect = None) →
  ∃ ps tip, intersect_options db genesis_hash = Ok ps ∧ w = mkPuller ps tip false.
Proof.
  intros Hb H Hemp. unfold bootstrap in H.
  apply outcome_bind_Ok in H as (ts & _ & H). apply outcome_bind_Ok in H as (tip & _ & H).
  apply outcome_bind_Ok in H as (ps & Hps & H).
  assert (Ho : intersect_options db genesis_hash = Ok ps).
  { unfold or_retry in Hps. by destruct (intersect_options db genesis_hash); simplify_eq. }
  exists ps, tip. split; [done|]. destruct intersect as [[h t]|]; [|by injection H as <-].
  destruct ps as [|p [|p' ps]]; cbn [length Nat.eqb] in H; [by injection H as <-| |by injection H as <-].
  exfalso. destruct (intersect_options_found _ _ Ho) as (_ & Hh & Hl). cbn [head last] in Hh, Hl.
  injection Hl as ->. injection Hh as Hh.
  pose proof (last_chain_of (BlockByHeightKV (tables db))) as El. unfold ChainDB.cursor in Hh.
  destruct (last (sorted_entries (BlockByHeightKV (tables db)))) as [[k [x b]]|] eqn:Elast; cbn in Hh.
  - injection Hh as <- <-. assert (Hin : point_of 0 genesis_hash ∈ chain_of (BlockByHeightKV (tables db))).
    { apply last_Some in El as [c ->]. apply elem_of_app. right. by left. }
    apply (linked_position _ _ (bo_linked _ _ _ _ Hb)) in Hin as [Hin _]. cbn in Hin. lia.
  - apply last_None in El. by specialize (Hemp El).
Qed.

Lemma bootstrap_ok hex_decode tips intersect (db : ChainDB) w view :
  txid_ok genesis_hash → blocks_ok (tables db) (last_block_hash db) → linked view →
  bootstrap hex_decode tips genesis_hash intersect db = Ok w →
  chain_of (BlockByHeightKV (tables db)) `prefix_of` view →
  (chain_of (BlockByHeightKV (tables db)) = [] → view = [] ∧ intersect = None) → cursor_ok view w.
Proof.
  intros Hg Hb Hl H Hpre Hemp.
  destruct (bootstrap_points _ _ _ _ _ Hb H) as (ps & tip & Ho & ->); [intros E; by destruct (Hemp E)|].
  assert (Hemp' : chain_of (BlockByHeightKV (tables db)) = [] → view = []) by (intros E; by destruct (Hemp E)).
  clear Hemp H. rename Hemp' into Hemp.
  pose proof (intersect_options_found _ _ Ho) as (Hf & Hh & _). rewrite Forall_forall in Hf.
  assert (Hon : Forall (on_view (chain_of (BlockByHeightKV (tables db)))) ps).
  { apply Forall_forall. intros p Hp. destruct (Hf p Hp) as [->|E]; [by split; [|right]|].
    destruct (BlockByHeightKV (tables db) !! p.1) as [[x b]|] eqn:Ex; [|done]. injection E as ->.
    split; [exact (bo_range _ _ _ _ Hb _ _ Ex)|]. left. unfold chain_of. apply list_elem_of_fmap.
    exists (p.1, (p.2, b)). split; [done|]. by apply sorted_entries_elem. }
  assert (Hon' : Forall (on_view view) ps).
  { eapply Forall_impl; [exact Hon|]. intros p [Hr [Hp|Hp]]; (split; [done|]); [left|by right].
    destruct Hpre as [post ->]. apply elem_of_app. by left. }
  destruct ps as [|p ps]; [done|]. injection Hh as Hh. split; [done|]. cbn [pl_cursor pl_init].
  pose proof (last_chain_of (BlockByHeightKV (tables db))) as El. unfold ChainDB.cursor in Hh.
  pose proof (bo_linked _ _ _ _ Hb) as Hlc.
  destruct (last (sorted_entries (BlockByHeightKV (tables db)))) as [[k [x b]]|] eqn:Elast; cbn in Hh; subst p.
  - split.
    + apply Forall_cons in Hon as [_ Hon]. eapply Forall_impl; [exact Hon|]. intros q Hq.
      by eapply (on_view_below _ _ (k, x)).
    + right. split; [|done]. destruct Hpre as [post ->]. apply elem_of_app. left.
      apply last_Some in El as [c ->]. apply elem_of_app. right. by left.
  - apply last_None in El. rewrite El in Hon. split; [|left; split; [done|by apply Hemp]].
    apply Forall_cons in Hon as [_ Hon]. eapply Forall_impl; [exact Hon|].
    intros q [_ [Hq| ->]]; [by apply not_elem_of_nil in Hq|done].
Qed.

Lemma step_ok y a y' : txid_ok genesis_hash → step a y y' → orderly y a → pipeline_ok y → pipeline_ok y'.
Proof.
  intros Hg Hs Ho [Hb (view & Ha & Hc)]. pose proof (announces_linked _ _ _ Ha (bo_linked _ _ _ _ Hb)) as Hl.
  destruct Hs as [y answers get_blocks w us q Hsch Hex|y hex tips intersect w Hboot|y e q s Hq Hroll].
  - destruct Ho as (Hnode & Hz & Hbound & Hdb). split; [done|]. cbn [queue stage puller]. apply execute_sends in Hex as ->.
    pose proof (announces_length _ _ _ Ha) as Hlen. rewrite length_app in Hbound.
    destruct (schedule_ok (chain_db (stage y)) _ view (puller y) answers get_blocks w us Hg Hb Hl Hc Hnode Hsch)
      as (view' & Ha' & Hc' & _); [lia|done| |].
    + destruct Hdb as [Hdb|Hdb]; [by left|right]. by apply (announces_forward _ _ _ Ha).
    + exists view'. split; [|done]. by eapply announces_app.
  - destruct Ho as [Hq Hemp]. split; [done|]. exists view. split; [done|].
    eapply bootstrap_ok; [done|exact Hb|done|exact Hboot|by apply (announces_forward _ _ _ Ha)|].
    intros E. destruct (Hemp E) as [Hemp' ->]. split; [|done]. rewrite Hemp' in Ha. inversion Ha. unfold chain. by rewrite E.
  - rewrite Hq in Ha. inversion Ha as [|v e' v' es v'' Hfit He Hrest]; subst.
    destruct (roll_fits _ _ _ Hroll Hb Hfit) as [Hb' He']. split; [done|]. exists view. split; [|done].
    rewrite He in He'. by injection He' as ->.
Qed.


(** ** A configured start *)

(** The configured intersection does not move the start.  On an empty database it is
    added to the points after the genesis block, and the first page either starts with
    block 1, when the node continues from the genesis block (which is the first point of
    the locator), or with a rollback to the configured point, which the empty database
    rejects. *)
Theorem configured_intersect_fails hex_decode tips height text x s w answers get_blocks w' us :
  BlockByHeightKV (tables (chain_db s)) = ∅ →
  configured_hash hex_decode text = Ok x → height ≠ 0 →
  bootstrap hex_decode tips genesis_hash (Some (height, text)) (chain_db s) = Ok w →
  schedule genesis_hash block_page_size (chain_db s) answers get_blocks w = (w', Ok (Unit us)) →
  (∃ hash block tip es, us = ChainDB.RollForward 1 hash block tip :: es)
  ∨ ∃ tip es, us = ChainDB.RollBack height x tip :: es
      ∧ ¬ accepted s (ChainDB.RollBack height x tip)
      ∧ roll s (ChainDB.RollBack height x tip) = Err (InvalidRollbackPoint None).
Proof.
  intros Hemp Hx Hh Hboot H. unfold bootstrap in Hboot.
  apply outcome_bind_Ok in Hboot as (ts & _ & Hboot). apply outcome_bind_Ok in Hboot as (tip & _ & Hboot).
  assert (Ei : intersect_options (chain_db s) genesis_hash = Ok [(0, genesis_hash)]).
  { unfold intersect_options. by rewrite Hemp. }
  rewrite Ei in Hboot. cbn in Hboot. rewrite Hx in Hboot. injection Hboot as <-.
  unfold schedule, first_units in H. cbn [pl_init pl_cursor] in H.
  destruct (fetch_headers _ _ _) as [[hs|]| |]; [|done..].
  destruct (or_restart _) as [blocks| |]; [|done..]. destruct (negb _); [done|].
  destruct (zip hs blocks) as [|[h b] rest]; [done|]. cbn [schedule_page pl_cursor] in H.
  destruct (cursor_map _ !! header_prev h) as [ih|] eqn:Em; [|done].
  destruct (next_cursor _ _ _) as [cursor [u| |]]; [|done..]. injection H as _ H.
  apply outcome_bind_Ok in H as (es & Hes & [= <-]).
  apply cursor_map_found in Em. apply elem_of_cons in Em as [[= -> Ep]|[[= -> Ep]|Em]%elem_of_cons];
    [| |by apply not_elem_of_nil in Em].
  - left. cbn [with_heights imap forward_units] in Hes. destruct (negb _); [done|].
    apply outcome_bind_Ok in Hes as (es' & _ & [= <-]). cbn. eauto.
  - right. rewrite Ep. destruct (Z.eqb_spec height 0) as [|_]; [done|]. cbn [negb Z.eqb app].
    eexists _, _. split; [done|]. split; [cbn; by rewrite Hemp|]. cbn [roll_execute]. cbv zeta. unfold rollback. by rewrite Hemp.
Qed.

End pipeline.

(** ** A run *)

(** After the genesis block 100 come 101 and 102, then 112 in the place of 102. *)
Definition line_prev (h : BlockHash) : BlockHash := if h =? 112 then 101 else h - 1.
Definition line_header (h : BlockHash) : Header := mkHeader h (line_prev h).
Definition line_block (h : BlockHash) : Block := run_block h (line_prev h).
Definition line_answers (hs : list BlockHash) : Answers := [λ _, Ok (map line_header hs)].
Definition line_blocks (hs : list BlockHash) : outcome PeerError (list Block) := Ok (map line_block hs).

Definition pull_page (hs : list BlockHash) (y : Pipeline) : Pipeline :=
  match schedule 100 50 (chain_db (stage y)) (line_answers hs) line_blocks (puller y) with
  | (w, Ok (Unit us)) => match execute w us (queue y) with Ok q => mkPipeline w q (stage y) | _ => y end
  | _ => y
  end.

Definition roll_next (y : Pipeline) : Pipeline :=
  match queue y with
  | e :: q => match run_roll (stage y) e with Ok s => mkPipeline (puller y) q s | _ => y end
  | [] => y
  end.

Definition line_bootstrap (y : Stage) : Puller :=
  match bootstrap (λ _, None) (Ok [(0, 100)]) 100 None (chain_db y) with
  | Ok w => w
  | _ => mkPuller [] (0, 100) false
  end.

Definition line0 : Pipeline := mkPipeline (line_bootstrap run_stage) [] run_stage.
Definition line1 : Pipeline := pull_page [101; 102] line0.
Definition line2 : Pipeline := roll_next (roll_next line1).
Definition line3 : Pipeline := pull_page [112] line2.

Example line3_queue :
  map (λ e, match e with ChainDB.RollForward h x _ _ => (true, h, x) | ChainDB.RollBack h x _ => (false, h, x) end)
    (queue line3) = [(false, 1, 101); (true, 2, 112)]
  ∧ pl_cursor (puller line3) = [(2, 112); (1, 101); (0, 100); (0, 100)].
Proof. by vm_compute. Qed.

Abbreviation line_action := (step 210000 (λ _, []) (λ _, false) id (λ _, None) (λ _, 0) (λ _, 100) value 100 50).
Abbreviation line_any := (any_step 210000 (λ _, []) (λ _, false) id (λ _, None) (λ _, 0) (λ _, 100) value 100 50).
Abbreviation line_orderly :=
  (orderly_step 210000 (λ _, []) (λ _, false) id (λ _, None) (λ _, 0) (λ _, 100) value line_prev 100 50).

(** The events of a page, when it is sent. *)
Definition page_events (hs : list BlockHash) (y : Pipeline) : option (list PullEvent) :=
  match schedule 100 50 (chain_db (stage y)) (line_answers hs) line_blocks (puller y) with
  | (w, Ok (Unit us)) => if is_ok (execute w us (queue y)) then Some us else None
  | _ => None
  end.

Lemma line_page hs y us :
  page_events hs y = Some us → line_action (Page (line_answers hs) line_blocks us) y (pull_page hs y).
Proof.
  unfold page_events, pull_page. destruct (schedule _ _ _ _ _ _) as [w [[| |us']| |]] eqn:Es; [done..| |done|done].
  destruct (execute w us' (queue y)) as [q| |] eqn:Ex; [|done..]. intros [= <-]. by eapply step_pull.
Qed.

Lemma line_pull hs y :
  match page_events hs y with
  | Some us =>
      (Z.of_nat (length (chain (stage y))) + Z.of_nat (length (queue y ++ us)) <? 2 ^ 64)
      && forallb is_forward (queue y)
      && forallb (λ e, match e with ChainDB.RollBack h _ _ => negb (h =? 0) | _ => true end) us
  | None => false
  end = true →
  headers_ok line_prev (map line_header hs) → line_orderly y (pull_page hs y).
Proof.
  intros H Hh. destruct (page_events hs y) as [us|] eqn:Es; [|done].
  exists (Page (line_answers hs) line_blocks us). split; [by apply line_page|].
  apply andb_true_iff in H as [[H1 H2]%andb_true_iff H3]. split_and!; [| |by apply Z.ltb_lt|by right].
  - split; [|by intros hashes blocks [= <-]; apply Forall_forall; intros b (h & -> & _)%list_elem_of_fmap].
    constructor; [|done]. by intros l hs' [= <-].
  - intros x t Hin%list_elem_of_In. rewrite forallb_forall in H3. by specialize (H3 _ Hin).
Qed.

Lemma line_roll y e q :
  queue y = e :: q → is_ok (run_roll (stage y) e) = true → line_action Roll y (roll_next y).
Proof.
  intros Hq H. unfold roll_next. rewrite Hq. destruct (run_roll (stage y) e) as [s| |] eqn:E; [|done..].
  by eapply step_roll.
Qed.

Lemma line_roll_orderly y :
  match queue y with e :: _ => is_ok (run_roll (stage y) e) | [] => false end = true → line_orderly y (roll_next y).
Proof. destruct (queue y) as [|e q] eqn:Eq; [done|]. intros H. exists Roll. split; [by eapply line_roll|done]. Qed.

Lemma line_any_orderly y y' : line_orderly y y' → line_any y y'.
Proof. intros (a & H & _). by exists a. Qed.

(** After the two blocks are taken the pull stage starts again, with an intersection
    configured that the database makes it ignore. *)
Definition line_restarted : Pipeline :=
  match bootstrap (λ _, None) (Ok [(2, 102)]) 100 (Some (400, "500")) (chain_db (stage line2)) with
  | Ok w => mkPipeline w (queue line2) (stage line2)
  | _ => line2
  end.
Definition line4 : Pipeline := pull_page [112] line_restarted.

Example line4_queue :
  map (λ e, match e with ChainDB.RollForward h x _ _ => (true, h, x) | ChainDB.RollBack h x _ => (false, h, x) end)
    (queue line4) = [(false, 2, 102); (false, 1, 101); (true, 2, 112)].
Proof. by vm_compute. Qed.

Lemma line_to_two : rtc line_orderly line0 line2.
Proof.
  eapply rtc_l with line1; [apply line_pull; [by vm_compute|by repeat split]|].
  eapply rtc_l with (roll_next line1); [apply line_roll_orderly; by vm_compute|].
  eapply rtc_l with line2; [apply line_roll_orderly; by vm_compute|apply rtc_refl].
Qed.

Lemma line_steps : rtc line_orderly line0 line4.
Proof.
  etrans; [exact line_to_two|].
  eapply rtc_l with line_restarted.
  { exists (Start (λ _, None) (Some (400, "500"))). split.
    - unfold line_restarted. destruct (bootstrap _ _ _ _ _) as [w| |] eqn:Eb; [by eapply step_restart|by vm_compute in Eb..].
    - split; [by vm_compute|]. intros E. by vm_compute in E. }
  eapply rtc_l with line4; [apply line_pull; [by vm_compute|by repeat split]|]. apply rtc_refl.
Qed.

Lemma line_start : blocks_ok (parent line_prev) 1 (tables (chain_db run_stage)) (last_block_hash (chain_db run_stage)).
Proof. split; [constructor|done| |done]. intros h x Hx. cbn in Hx. by rewrite lookup_empty in Hx. Qed.


(** A start at block 500 on an empty database: the node continues from the genesis block. *)
Definition set_hex (_ : string) : option (list Z) := Some (be_bytes 32 500).
Definition set_start : Puller :=
  match bootstrap set_hex (Ok [(600, 600)]) 100 (Some (400, "500")) (chain_db run_stage) with
  | Ok w => w
  | _ => mkPuller [] (0, 0) true
  end.
Definition set_page : Puller * list PullEvent :=
  match schedule 100 50 (chain_db run_stage) (line_answers [101; 102]) line_blocks set_start with
  | (w, Ok (Unit us)) => (w, us)
  | (w, _) => (w, [])
  end.

Lemma configured_intersect_fails_witness :
  pl_cursor set_start = [(0, 100); (400, 500)]
  ∧ ((∃ hash block tip es, set_page.2 = ChainDB.RollForward 1 hash block tip :: es)
     ∨ ∃ tip es, set_page.2 = ChainDB.RollBack 400 500 tip :: es
         ∧ ¬ accepted line_prev run_stage (ChainDB.RollBack 400 500 tip)
         ∧ run_roll run_stage (ChainDB.RollBack 400 500 tip) = Err (InvalidRollbackPoint None)).
Proof.
  split; [by vm_compute|].
  refine (configured_intersect_fails 210000 (λ _, []) (λ _, false) id (λ _, None) (λ _, 0) (λ _, 100) value line_prev 100 50
    set_hex (Ok [(600, 600)]) 400 "500" 500 run_stage set_start (line_answers [101; 102]) line_blocks set_page.1
    set_page.2 _ _ _ _ _).
  - by vm_compute.
  - by vm_compute.
  - lia.
  - by vm_compute.
  - by vm_compute.
Defined.

(** ** A rollback that waits *)

(** While the rollback to 101 and block 112 wait, block 113 is pulled: the cursor gets
    102 from the database, at the height of 112.  The node returns to 102. *)
Definition stale : Pipeline := pull_page [103] (pull_page [113] line3).
Definition stale_rolled : Pipeline := roll_next (roll_next (roll_next stale)).

(** The pull stage reads the database without regard to what waits for the roll stage:
    in a run of the stages (all whose steps but the page that reads the database are
    orderly) the rollback it then announces goes to a block the database has undone. *)
Theorem stale_rollback_rejected :
  rtc line_any line0 stale_rolled
  ∧ pl_cursor (puller (pull_page [113] line3)) = [(3, 113); (2, 102); (1, 101); (0, 100); (0, 100)]
  ∧ chain (stage stale_rolled) = [point_of 1 101; point_of 2 112; point_of 3 113]
  ∧ ∃ tip q, queue stale_rolled = ChainDB.RollBack 2 102 tip :: q
      ∧ run_roll (stage stale_rolled) (ChainDB.RollBack 2 102 tip) = Err (InvalidRollbackPoint (Some (2, 112)))
      ∧ ¬ accepted line_prev (stage stale_rolled) (ChainDB.RollBack 2 102 tip).
Proof.
  split.
  { etrans; [eapply rtc_subrel; [|exact line_to_two]; exact line_any_orderly|].
    assert (Hpage : ∀ hs y, is_Some (page_events hs y) → line_any y (pull_page hs y)).
    { intros hs y [us Hus]. eexists. by apply line_page. }
    eapply rtc_l with line3; [apply Hpage; vm_compute; by eexists|].
    eapply rtc_l with (pull_page [113] line3); [apply Hpage; vm_compute; by eexists|].
    eapply rtc_l with stale; [apply Hpage; vm_compute; by eexists|].
    eapply rtc_l with (roll_next stale); [apply line_any_orderly, line_roll_orderly; by vm_compute|].
    eapply rtc_l with (roll_next (roll_next stale)); [apply line_any_orderly, line_roll_orderly; by vm_compute|].
    eapply rtc_l with stale_rolled; [apply line_any_orderly, line_roll_orderly; by vm_compute|apply rtc_refl]. }
  split; [by vm_compute|]. split; [by vm_compute|]. eexists _, _. split; [by vm_compute|]. split; [by vm_compute|].
  intros H. by vm_compute in H.
Qed.

End Pipeline.
