(* ===== verification/Health.v ===== *)
(** The health stage of the compressor ([sync/health.rs]): the last event it got from the
    roll stage, and the answer of its endpoint. *)

From S2P Require Import Prelude Dunes Dunestone Types DunesUpdater Inscription Brc20 InscriptionsUpdater ChainDB Crosscut Server Source SourceContext ServerChain Following Peer Pull Pipeline.
Import Dunestone Types Brc20 InscriptionsUpdater ChainDB Crosscut Server SourceContext ServerChain Peer Pull Pipeline.

Module Health.

#[local] Opaque be_bytes hash_bytes.

(** [HealthEvent] of [sync/model.rs]. *)
Inductive HealthEvent : Type :=
| HealthForward (height : Z) (hash : BlockHash)
| HealthBack (height : Z) (hash : BlockHash).

Record Tip : Type := mkTip { tip_height : Z; tip_hash : string }.

(** What the roll stage sends after it took an event, and at its start. *)
Definition health_event (e : PullEvent) : HealthEvent :=
  match e with
  | ChainDB.RollForward height hash _ _ => HealthForward height hash
  | ChainDB.RollBack height hash _ => HealthBack height hash
  end.

Definition roll_bootstrap (db : ChainDB) : list HealthEvent :=
  match ChainDB.cursor db with Some (height, hash) => [HealthForward height hash] | None => [] end.

Section health.
Context (hex_encode : list Z → string).

Definition tip_of (height : Z) (hash : BlockHash) : Tip := mkTip height (hex_encode (hash_bytes hash)).

Definition health_execute (roll_stage : option Tip) (e : HealthEvent) : option Tip :=
  match e with HealthForward height hash | HealthBack height hash => Some (tip_of height hash) end.

Record HealthResponse : Type := mkHealthResponse { upstream : option Tip; roll_stage : option Tip }.

(** The endpoint: [None] for a lock that is poisoned, an error for a node that does not
    answer. *)
Definition health (lock : option (option Tip)) (chain_tips : outcome PeerError (list (Z * BlockHash)))
  : HealthResponse :=
  mkHealthResponse
    (match chain_tips with Ok t => (λ x, tip_of x.1 x.2) <$> highest t | _ => None end)
    (mjoin lock).

(** The endpoint shows the block of the cursor of the database. *)
Lemma health_shows_cursor SUBSIDY_HALVING_INTERVAL instructions is_op_return to_lowercase json_message script_hash
    subsidy txout_len prev_of (s s' : Stage) (e : PullEvent) old tips :
  roll_execute SUBSIDY_HALVING_INTERVAL instructions is_op_return to_lowercase json_message script_hash subsidy
    txout_len s e = Ok s' →
  blocks_ok (parent prev_of) 1 (tables (chain_db s)) (last_block_hash (chain_db s)) → fits prev_of (chain s) e →
  roll_stage (health (Some (health_execute old (health_event e))) tips)
    = (λ p, tip_of p.1 p.2) <$> ChainDB.cursor (chain_db s').
Proof.
  intros H Hb Hf. destruct (roll_fits _ _ _ _ _ _ _ _ _ _ _ _ H Hb Hf) as [Hb' He].
  cbn [roll_stage health mjoin option_join]. destruct e as [h hash b t|h hash t]; cbn [event_step fits] in He, Hf.
  - injection He as He. destruct Hf as (-> & (_ & Hr & _) & _).
    rewrite (cursor_of_last prev_of (chain_db s') _ (h, block_hash b) Hb'); [done..|].
    fold (chain s'). by rewrite <- He, last_snoc.
  - apply cut_after_Some in He as (post & _ & He). destruct Hf as [Hr _].
    by rewrite (cursor_of_last prev_of (chain_db s') _ (h, hash) Hb').
Qed.

End health.
End Health.
