(* ===== verification/Daw.v ===== *)
(** The administration tool, [src/services/daw/src/commands.rs]: deletion of the keys of
    a data plane, an instance or a range with the entries of the registry, deletion and
    writing of lists of keys.

    TiKV is the store of the other files; what it replies to each scan, and whether the
    commit that follows fails, is a list.  Lines of a file are given as their bytes;
    what is only shown is left out. *)

From S2P Require Import Prelude Decimal Brc20 Types ChainDB KvTable Timbre Crosscut StorageAction ReducerOutput TikvWorker TikvRefinement Reducers ReducerLaws Mapi MapiApi MapiLaws Registry TikvGc.
Import Decimal Brc20 Timbre StorageAction TikvWorker TikvRefinement MapiLaws Registry TikvGc.

Module Daw.

(** ** args.rs *)

Record RangeOpts : Type := mkRangeOpts { force : bool; scan_size : Z; destroy_mode : bool }.

Inductive DeleteArgs : Type :=
| DeleteDataplane (dataplane : Z) (opts : RangeOpts)
| DeleteInstance (dataplane instance : Z) (ts_redis_only : bool) (opts : RangeOpts)
| DeleteRange (start_key end_key : list Z) (opts : RangeOpts)
| DeleteList (lines : list (list Z)) (list_force : bool).

Inductive DawError : Type := HexError | ScanGaveUp | TikvError.

(** What TiKV does with a scan and the commit after it. *)
Inductive Reply : Type := Served | TooLarge | ScanFailed | CommitFailed.

(** ** The registry *)

(** [del] and [zrem]. *)
Definition del (key : list Z) (r : Redis) : Redis := mkRedis (delete key (zsets r)) (delete key (texts r)).
Definition zrem (key member : list Z) (r : Redis) : Redis := put_zset key (delete member (zset r key)) r.

(** The parts of a key, each read as a [u8]. *)
Definition parse_ids (key : list Z) : outcome DawError (Z * Z) :=
  let parts := split_on 58 key in
  dataplane ← unwrap (parts !! 1%nat ≫= parse_int 8);
  instance ← unwrap (parts !! 2%nat ≫= parse_int 8);
  Ok (dataplane, instance).

Fixpoint delete_registry_keys (force : bool) (selected : Z * Z → bool) (keys : list (list Z)) (r : Redis)
  : Redis * outcome DawError unit :=
  match keys with
  | [] => (r, Ok tt)
  | key :: keys =>
      match parse_ids key with
      | Ok ids =>
          delete_registry_keys force selected keys
            (if selected ids && force then zrem timestamps_index key (del key r) else r)
      | Err e => (r, Err e)
      | Panic => (r, Panic)
      end
  end.

Definition delete_registry (force : bool) (selected : Z * Z → bool) (r : Redis) : Redis * outcome DawError unit :=
  if forallb utf8_valid (zrange r timestamps_index)
  then delete_registry_keys force selected (zrange r timestamps_index) r
  else (r, Panic).

(** ** The keys of a range, page by page *)

Fixpoint delete_pages (fuel : nat) (replies : list Reply) (force : bool) (scan_size attempts : Z)
    (range_remaining : Key * Key) (total_removed : Z) (s : Store) : Store * outcome DawError Z :=
  match fuel with
  | O => (s, Panic)
  | S fuel =>
      let again := delete_pages fuel (tail replies) force in
      match default Served (head replies) with
      | TooLarge => again (scan_size / 2) attempts range_remaining total_removed s
      | ScanFailed =>
          if 5 <? wrap 32 (attempts + 1) then (s, Err ScanGaveUp)
          else again scan_size (wrap 32 (attempts + 1)) range_remaining total_removed s
      | CommitFailed => (s, Err TikvError)
      | Served =>
          let keys := take (Z.to_nat scan_size) (scan_keys s range_remaining) in
          match last keys with
          | None => (s, Ok total_removed)
          | Some last_key =>
              again scan_size attempts (last_key ++ [0], range_remaining.2)
                (total_removed + Z.of_nat (length keys))
                (if force then foldl (λ t k, delete k t) s keys else s)
          end
      end
  end.

(** Every scan that is answered shows a key, until the last one. *)
Definition pages_fuel (replies : list Reply) (range : Key * Key) (s : Store) : nat :=
  length replies + length (scan_keys s range) + 2.

Definition delete_range (replies : list Reply) (opts : RangeOpts) (range : Key * Key) (s : Store)
  : Store * outcome DawError Z :=
  if destroy_mode opts then (drop_range range s, Ok 0)
  else delete_pages (pages_fuel replies range s) replies (force opts) (scan_size opts) 0 range 0 s.

(** ** Lists *)

(** [hex::decode(x).unwrap()] of every line. *)
Definition decode_lines (X : Ext) (lines : list (list Z)) : outcome DawError (list (list Z)) :=
  foldM (λ acc l, b ← unwrap (hex_decode X l); Ok (acc ++ [b])) [] lines.

(** The transaction, the keys found and those that are missing. *)
Definition delete_line (force : bool) (acc : Store * (Z * Z * list Key)) (line : Key)
  : Store * (Z * Z * list Key) :=
  let '(txn, (keys_num, deleted, missing)) := acc in
  match line with
  | [] => acc
  | _ =>
      match txn !! line with
      | Some _ =>
          if force then (delete line txn, (keys_num + 1, deleted + 1, missing))
          else (txn, (keys_num + 1, deleted, missing))
      | None => (txn, (keys_num + 1, deleted, missing ++ [line]))
      end
  end.

Definition handle_delete_list_cmd (X : Ext) (commit_fails : bool) (lines : list (list Z)) (force : bool) (s : Store)
  : Store * outcome DawError (Z * Z * list Key) :=
  match decode_lines X lines with
  | Ok lines =>
      let r := foldl (delete_line force) (s, (0, 0, [])) lines in
      if commit_fails then (s, Err TikvError) else (r.1, Ok r.2)
  | Err e => (s, Err e)
  | Panic => (s, Panic)
  end.

Definition write_line (force : bool) (txn : Store) (line : list (list Z)) : outcome DawError Store :=
  match line with
  | [] => Ok txn
  | key :: rest => value ← unwrap (head rest); Ok (if force then <[key := value]> txn else txn)
  end.

(** A line is split at its colons. *)
Definition handle_write_list_cmd (X : Ext) (commit_fails : bool) (lines : list (list Z)) (force : bool) (s : Store)
  : Store * outcome DawError unit :=
  match foldM (λ acc l, parts ← decode_lines X (split_on 58 l); Ok (acc ++ [parts])) [] lines
        ≫= foldM (write_line force) s with
  | Ok txn => if commit_fails then (s, Err TikvError) else (txn, Ok tt)
  | Err e => (s, Err e)
  | Panic => (s, Panic)
  end.

(** ** The command *)

Record World : Type := mkWorld { redis : Redis; tikv : Store }.

(** The range of a command, its options and the instances it selects. *)
Definition selected_range (X : Ext) (cmd : DeleteArgs) : outcome DawError (Key * Key * RangeOpts) :=
  match cmd with
  | DeleteDataplane d opts => Ok (dataplane_key_range (mkNamespace d 0), opts)
  | DeleteInstance d i _ opts => Ok (instance_key_range (mkNamespace d i), opts)
  | DeleteRange a b opts =>
      a ← ok_or HexError (hex_decode X a);
      b ← ok_or HexError (hex_decode X b);
      Ok ((a, b), opts)
  | DeleteList _ _ => Panic
  end.

Definition selects (cmd : DeleteArgs) (ids : Z * Z) : bool :=
  match cmd with
  | DeleteDataplane d _ => ids.1 =? d
  | DeleteInstance d i _ _ => (ids.1 =? d) && (ids.2 =? i)
  | _ => false
  end.

Definition info_key (d i : Z) : Key := [73; 96; d] ++ be_bytes 1 i.

(** The entry that describes an instance goes last. *)
Definition delete_info (cmd : DeleteArgs) (commit_fails : bool) (s : Store) : Store * outcome DawError unit :=
  match cmd with
  | DeleteInstance d i _ opts =>
      if commit_fails then (s, Err TikvError)
      else (if force opts then delete (info_key d i) s else s, Ok tt)
  | _ => (s, Ok tt)
  end.

Definition ts_only (cmd : DeleteArgs) : bool :=
  match cmd with DeleteInstance _ _ only _ => only | _ => false end.

Definition handle_delete_cmd (X : Ext) (replies : list Reply) (commit_fails : bool) (cmd : DeleteArgs) (w : World)
  : World * outcome DawError unit :=
  match cmd with
  | DeleteList lines list_force =>
      let r := handle_delete_list_cmd X commit_fails lines list_force (tikv w) in
      (mkWorld (redis w) r.1, _ ← r.2; Ok tt)
  | _ =>
      match selected_range X cmd with
      | Err e => (w, Err e)
      | Panic => (w, Panic)
      | Ok (range, opts) =>
          match match cmd with
                | DeleteRange _ _ _ =>
                    (redis w, if forallb utf8_valid (zrange (redis w) timestamps_index) then Ok tt else Panic)
                | _ => delete_registry (force opts) (selects cmd) (redis w)
                end with
          | (r, Err e) => (mkWorld r (tikv w), Err e)
          | (r, Panic) => (mkWorld r (tikv w), Panic)
          | (r, Ok _) =>
              if ts_only cmd then (mkWorld r (tikv w), Ok tt)
              else
                match delete_range replies opts range (tikv w) with
                | (s, Ok _) => let i := delete_info cmd commit_fails s in (mkWorld r i.1, i.2)
                | (s, Err e) => (mkWorld r s, Err e)
                | (s, Panic) => (mkWorld r s, Panic)
                end
          end
      end
  end.

(** ** Pages *)

#[local] Instance bytes_lt_irreflexive : Irreflexive bytes_lt.
Proof. intros a. apply bytes_lt_irrefl. Qed.
#[local] Instance bytes_lt_transitive : Transitive bytes_lt.
Proof. intros a b c. apply bytes_lt_trans. Qed.

(** The replies under which the loop gets to the end: the size stays positive, at most
    five scans fail. *)
Fixpoint tolerated (replies : list Reply) (scan_size attempts : Z) : Prop :=
  match replies with
  | [] => 0 < scan_size
  | Served :: replies => 0 < scan_size ∧ tolerated replies scan_size attempts
  | TooLarge :: replies => tolerated replies (scan_size / 2) attempts
  | ScanFailed :: replies => attempts < 5 ∧ tolerated replies scan_size (attempts + 1)
  | CommitFailed :: _ => False
  end.

Lemma delete_page_split (ks : list Key) (k : nat) (lk : Key) :
  last (take k ks) = Some lk → ∃ pre, take k ks = pre ++ [lk] ∧ ks = pre ++ lk :: drop k ks.
Proof.
  intros [pre E]%last_Some. exists pre. split; [done|].
  rewrite <- (take_drop k ks) at 1. rewrite E, <- (assoc_L (++)). done.
Qed.

Lemma after_page s r pre post lk :
  bytes_keys s → scan_keys s r = pre ++ lk :: post →
  let r' := (lk ++ [0], r.2) in
  scan_keys s r' = post ∧ scan_keys (foldl (λ t k, delete k t) s (pre ++ [lk])) r' = post.
Proof.
  intros Hok E r'. assert (E1 : scan_keys s r' = post) by by apply (scan_keys_after s r pre).
  split; [done|]. rewrite <- E1. apply (KvTable.strictly_sorted_unique bytes_lt); [apply scan_keys_strict..|].
  intros x. rewrite !elem_of_scan_keys, foldl_delete_lookup. destruct (decide (x ∈ pre ++ [lk])) as [Hx|Hx]; [|done].
  split; [by intros [_ [? ?]]|]. intros [Hr Hs]. exfalso.
  assert (x ∈ post) as Hp by (rewrite <- E1; by apply elem_of_scan_keys).
  pose proof (NoDup_scan_keys s r) as Hnd. rewrite E in Hnd.
  replace (pre ++ lk :: post) with ((pre ++ [lk]) ++ post) in Hnd by by rewrite <- (assoc_L (++)).
  apply NoDup_app in Hnd as (_ & Hd & _). by eapply Hd.
Qed.

Lemma drop_range_none s r : scan_keys s r = [] → drop_range r s = s.
Proof.
  intros E. apply map_eq. intros k. rewrite lookup_drop_range. destruct (decide _) as [Hin|]; [|done].
  destruct (s !! k) eqn:Ek; [|done]. exfalso. apply (not_elem_of_nil k). rewrite <- E. apply elem_of_scan_keys. eauto.
Qed.

Lemma drop_range_page s r pre post lk :
  scan_keys s r = pre ++ lk :: post → scan_keys s (lk ++ [0], r.2) = post →
  drop_range (lk ++ [0], r.2) (foldl (λ t k, delete k t) s (pre ++ [lk])) = drop_range r s.
Proof.
  intros E E'. apply map_eq. intros x. rewrite !lookup_drop_range, foldl_delete_lookup.
  assert (Hin : x ∈ pre ++ lk :: post ↔ in_key_range r x ∧ is_Some (s !! x)) by by rewrite <- E, elem_of_scan_keys.
  assert (Hpost : x ∈ post ↔ in_key_range (lk ++ [0], r.2) x ∧ is_Some (s !! x)) by by rewrite <- E', elem_of_scan_keys.
  assert (Hsplit : x ∈ pre ++ lk :: post ↔ x ∈ pre ++ [lk] ∨ x ∈ post).
  { rewrite !elem_of_app, elem_of_cons, list_elem_of_singleton. tauto. }
  destruct (s !! x) as [v|] eqn:Ex; [|by repeat case_decide].
  assert (is_Some (Some v)) as Hs by by eexists.
  destruct (decide (in_key_range r x)), (decide (in_key_range (lk ++ [0], r.2) x)), (decide (x ∈ pre ++ [lk])); tauto.
Qed.

Lemma delete_pages_ok fuel : ∀ replies force size attempts r n s,
  tolerated replies size attempts → 0 ≤ attempts → bytes_keys s →
  (length replies + length (scan_keys s r) < fuel)%nat →
  delete_pages fuel replies force size attempts r n s
  = (if force then drop_range r s else s, Ok (n + Z.of_nat (length (scan_keys s r)))).
Proof.
  induction fuel as [|fuel IH]; intros replies force size attempts r n s Ht Ha Hok Hf; [lia|].
  cbn [delete_pages]. cbv zeta.
  assert (Hserved : 0 < size → tolerated (tail replies) size attempts →
    (length (tail replies) + length (scan_keys s r) ≤ fuel)%nat →
    match last (take (Z.to_nat size) (scan_keys s r)) with
    | Some last_key => delete_pages fuel (tail replies) force size attempts (last_key ++ [0], r.2)
        (n + Z.of_nat (length (take (Z.to_nat size) (scan_keys s r))))
        (if force then foldl (λ t k, delete k t) s (take (Z.to_nat size) (scan_keys s r)) else s)
    | None => (s, Ok n)
    end = (if force then drop_range r s else s, Ok (n + Z.of_nat (length (scan_keys s r))))).
  { intros Hsize Htol Hlen. destruct (last (take _ _)) as [lk|] eqn:El.
    - destruct (delete_page_split _ _ _ El) as (pre & Ep & E). set (post := drop _ _) in E.
      destruct (after_page s r pre post lk Hok E) as [E1 E2]. rewrite Ep.
      assert (Hl : length (scan_keys s r) = (length pre + 1 + length post)%nat) by (rewrite E, length_app; cbn; lia).
      rewrite IH; [|done|done| |destruct force; rewrite ?E1, ?E2; lia].
      + f_equal; [|f_equal; destruct force; rewrite ?E1, ?E2, Hl, length_app; cbn; lia].
        destruct force; [|done]. by apply (drop_range_page s r pre post lk).
      + destruct force; [|done]. intros k. rewrite foldl_delete_lookup. destruct (decide _); [by intros [? ?]|apply Hok].
    - apply last_None in El. assert (scan_keys s r = []) as E.
      { destruct (scan_keys s r); [done|]. destruct (Z.to_nat size) eqn:En; [lia|done]. }
      rewrite E. cbn. rewrite Z.add_0_r. destruct force; [|done]. by rewrite drop_range_none. }
  destruct replies as [|[] replies]; cbn [head default tail tolerated length] in *.
  - apply Hserved; [done|done|lia].
  - apply Hserved; [tauto..|lia].
  - apply IH; [done..|lia].
  - destruct Ht as [H5 Ht]. rewrite wrap_small by (unfold in_range; lia).
    destruct (Z.ltb_spec 5 (attempts + 1)); [lia|]. apply IH; [done|lia|done|lia].
  - done.
Qed.

(** ** The registry *)

(** Every instance of the registry has numbers of eight bits. *)
Definition byte_key (k : RedisKey) : Prop := in_range 8 (dataplane k) ∧ in_range 8 (instance k).

Definition registry_ids (r : Redis) : Prop :=
  ∀ key, is_Some (zset r timestamps_index !! key) → ∃ k, byte_key k ∧ key = key_of k.

Lemma byte_key_ok k : byte_key k → key_ok k.
Proof. intros [Hd [? ?]]. split; [done|]. unfold in_range in *. lia. Qed.

Lemma parse_ids_of k : byte_key k → parse_ids (key_of k) = Ok (dataplane k, instance k).
Proof.
  intros Hk. unfold parse_ids. rewrite key_parts by by apply byte_key_ok. destruct Hk as [Hd Hi].
  cbn [lookup list_lookup mbind option_bind]. by rewrite !parse_int_to_string.
Qed.

Lemma zset_zrem key m r key' :
  zset (zrem key m r) key' = if decide (key = key') then delete m (zset r key) else zset r key'.
Proof. unfold zrem. apply zset_put. Qed.

Lemma zset_del key r key' : zset (del key r) key' = if decide (key = key') then ∅ else zset r key'.
Proof.
  unfold zset, del. cbn [zsets]. case_decide as E; [subst; by rewrite lookup_delete_eq|]. by rewrite lookup_delete_ne.
Qed.

(** The keys that a command names. *)
Definition names (selected : Z * Z → bool) (key : list Z) : bool :=
  match parse_ids key with Ok ids => selected ids | _ => false end.

Lemma delete_registry_keys_ok selected keys : ∀ r,
  (∀ key, key ∈ keys → is_ok (parse_ids key) = true ∧ key ≠ timestamps_index) →
  ∃ r', delete_registry_keys true selected keys r = (r', Ok tt)
    ∧ (∀ key, key ≠ timestamps_index → zset r' key
         = if decide (key ∈ keys ∧ names selected key = true) then ∅ else zset r key)
    ∧ (∀ m, zset r' timestamps_index !! m
         = if decide (m ∈ keys ∧ names selected m = true) then None else zset r timestamps_index !! m)
    ∧ (∀ key, texts r' !! key = if decide (key ∈ keys ∧ names selected key = true) then None else texts r !! key).
Proof.
  induction keys as [|k keys IH]; intros r Hkeys.
  { exists r. split_and!; [done|intros k _|intros k|intros k]; (rewrite decide_False; [done|]); by intros [?%not_elem_of_nil _]. }
  destruct (Hkeys k ltac:(by left)) as [Hk Hne]. cbn [delete_registry_keys].
  destruct (parse_ids k) as [ids| |] eqn:Ek; [|done..]. rewrite andb_true_r. set (r1 := if selected ids then _ else r).
  destruct (IH r1 ltac:(intros; apply Hkeys; by right)) as (r' & E & H1 & H2 & H3). exists r'. rewrite E.
  assert (Hnames : names selected k = selected ids) by (unfold names; by rewrite Ek).
  split_and!; [done|..].
  - intros key Hkey. rewrite H1 by done. unfold r1. destruct (decide (key = k)) as [->|Hkk].
    + rewrite Hnames. destruct (selected ids).
      * assert (zset (zrem timestamps_index k (del k r)) k = ∅) as ->.
        { by rewrite zset_zrem, decide_False, zset_del, decide_True by congruence. }
        repeat case_decide; set_solver.
      * by rewrite !decide_False by (by intros [_ ?]).
    + assert (zset (if selected ids then zrem timestamps_index k (del k r) else r) key = zset r key) as ->.
      { destruct (selected ids); [|done]. by rewrite zset_zrem, decide_False, zset_del, decide_False by congruence. }
      repeat case_decide; set_solver.
  - intros m. rewrite H2. unfold r1. destruct (decide (m = k)) as [->|Hkk].
    + rewrite Hnames. destruct (selected ids).
      * assert (zset (zrem timestamps_index k (del k r)) timestamps_index !! k = None) as ->.
        { by rewrite zset_zrem, decide_True, lookup_delete_eq. }
        repeat case_decide; set_solver.
      * by rewrite !decide_False by (by intros [_ ?]).
    + assert (zset (if selected ids then zrem timestamps_index k (del k r) else r) timestamps_index !! m
        = zset r timestamps_index !! m) as ->.
      { destruct (selected ids); [|done]. rewrite zset_zrem, decide_True, zset_del, decide_False by congruence.
        by rewrite lookup_delete_ne by congruence. }
      repeat case_decide; set_solver.
  - intros key. rewrite H3. unfold r1. destruct (decide (key = k)) as [->|Hkk].
    + rewrite Hnames. destruct (selected ids).
      * cbn [zrem put_zset texts del]. rewrite lookup_delete_eq. repeat case_decide; set_solver.
      * by rewrite !decide_False by (by intros [_ ?]).
    + assert (texts (if selected ids then zrem timestamps_index k (del k r) else r) !! key = texts r !! key) as ->.
      { destruct (selected ids); [|done]. cbn [zrem put_zset texts del]. by rewrite lookup_delete_ne by congruence. }
      repeat case_decide; set_solver.
Qed.

(** ** Commands *)

Lemma delete_registry_ok selected r k :
  registry_ids r → byte_key k →
  (∀ k', byte_key k' → selected (dataplane k', instance k') = true ↔ k' = k) →
  ∃ r', delete_registry true selected r = (r', Ok tt)
    ∧ zset r' timestamps_index = delete (key_of k) (zset r timestamps_index)
    ∧ (indexed r k → zset r' (key_of k) = ∅)
    ∧ (∀ key, key ≠ key_of k → key ≠ timestamps_index → zset r' key = zset r key)
    ∧ (∀ key, key ≠ key_of k → texts r' !! key = texts r !! key).
Proof.
  intros Hids Hk Hsel. unfold delete_registry.
  assert (Hkeys : ∀ key, key ∈ zrange r timestamps_index → ∃ k', byte_key k' ∧ key = key_of k').
  { intros key Hkey%elem_of_zrange. by apply Hids. }
  assert (forallb utf8_valid (zrange r timestamps_index) = true) as ->.
  { apply forallb_forall. intros key Hkey%list_elem_of_In. destruct (Hkeys _ Hkey) as (k' & Hk' & ->).
    by apply key_of_utf8, byte_key_ok. }
  destruct (delete_registry_keys_ok selected (zrange r timestamps_index) r) as (r' & E & H1 & H2 & H3).
  { intros key (k' & Hk' & ->)%Hkeys. rewrite parse_ids_of by done. split; [done|apply key_of_not_index]. }
  assert (Hnamed : ∀ key, key ∈ zrange r timestamps_index → names selected key = true ↔ key = key_of k).
  { intros key (k' & Hk' & ->)%Hkeys. unfold names. rewrite parse_ids_of, Hsel by done.
    split; [by intros ->|]. intros Ek. apply key_of_inj in Ek; [done|by apply byte_key_ok..]. }
  exists r'. rewrite E. split_and!; [done|..].
  - apply map_eq. intros m. rewrite H2. destruct (decide (m = key_of k)) as [->|Hne].
    + rewrite lookup_delete_eq. case_decide as Hd; [done|]. apply eq_None_not_Some. intros Hs%elem_of_zrange.
      by apply Hd; split; [|apply Hnamed].
    + rewrite lookup_delete_ne by done. rewrite decide_False; [done|]. by intros [Hm ?%Hnamed].
  - intros [_ Hi]. rewrite H1 by apply key_of_not_index. apply elem_of_zrange in Hi. rewrite decide_True; [done|].
    by split; [|apply Hnamed].
  - intros key Hne Hidx. rewrite H1 by done. rewrite decide_False; [done|]. by intros [Hm ?%Hnamed].
  - intros key Hne. rewrite H3. rewrite decide_False; [done|]. by intros [Hm ?%Hnamed].
Qed.

Lemma info_key_prefix d i : in_range 8 d → in_range 8 i → info_key d i = Prefix_info (mkNamespace d i).
Proof.
  intros Hd Hi. unfold info_key. cbn. unfold in_range in *. by rewrite !Z.div_1_r, !Z.mod_small by lia.
Qed.

Lemma instance_prefix d i : in_range 8 d → in_range 8 i → encode (mkNamespace d i) = [d; i].
Proof. intros Hd Hi. cbn. unfold in_range in *. by rewrite !Z.div_1_r, !Z.mod_small by lia. Qed.

(** C20: Deleting an instance removes it and nothing else.  The command, forced, ends
    whatever the size of the pages and the scans that TiKV refuses as too large, while the
    size that is halved stays positive, at most five scans fail otherwise and no commit does.
    Of the store it removes exactly the keys of the instance and the entry that describes
    it; of the registry exactly the entry of the instance in the index and, if the index
    has it, its own set of timestamps. *)
Theorem instance_deleted X replies opts d i w :
  in_range 8 d → in_range 8 i → force opts = true →
  registry_ids (redis w) → bytes_keys (tikv w) → tolerated replies (scan_size opts) 0 →
  let timestamps := key_of (mkRedisKey d i) in
  ∃ w', handle_delete_cmd X replies false (DeleteInstance d i false opts) w = (w', Ok tt)
    ∧ (∀ rest, bytes_ok rest → tikv w' !! (d :: i :: rest) = None)
    ∧ tikv w' !! Prefix_info (mkNamespace d i) = None
    ∧ (∀ k, bytes_ok k → (∀ rest, k ≠ d :: i :: rest) → k ≠ Prefix_info (mkNamespace d i) →
         tikv w' !! k = tikv w !! k)
    ∧ zset (redis w') timestamps_index = delete timestamps (zset (redis w) timestamps_index)
    ∧ (indexed (redis w) (mkRedisKey d i) → zset (redis w') timestamps = ∅)
    ∧ (∀ key, key ≠ timestamps → key ≠ timestamps_index → zset (redis w') key = zset (redis w) key)
    ∧ (∀ key, key ≠ timestamps → texts (redis w') !! key = texts (redis w) !! key).
Proof.
  intros Hd Hi Hforce Hids Hok Htol. cbv zeta. unfold handle_delete_cmd. cbn [selected_range ts_only]. rewrite Hforce.
  set (cmd := DeleteInstance d i false opts).
  destruct (delete_registry_ok (selects cmd) (redis w) (mkRedisKey d i) Hids) as (r' & -> & Hr); [done| |].
  { intros [kd ki] _. cbn. rewrite andb_true_iff, !Z.eqb_eq. split; [by intros [-> ->]|by intros [= -> ->]]. }
  assert (∃ n, delete_range replies opts (instance_key_range (mkNamespace d i)) (tikv w)
    = (drop_range (instance_key_range (mkNamespace d i)) (tikv w), Ok n)) as [n ->].
  { unfold delete_range. destruct (destroy_mode opts); [by eexists|]. rewrite Hforce.
    rewrite delete_pages_ok; [by eexists|done|done|done|unfold pages_fuel; lia]. }
  cbn [delete_info cmd]. rewrite Hforce. cbn [fst snd]. rewrite info_key_prefix by done.
  eexists. split; [done|]. cbn [tikv redis].
  assert (Hrange : ∀ k, bytes_ok k → in_key_range (instance_key_range (mkNamespace d i)) k ↔ ∃ rest, k = d :: i :: rest).
  { intros k Hk. unfold instance_key_range. rewrite prefix_key_range_spec, instance_prefix by done. done. }
  split; [|split; [|split; [|exact Hr]]].
  - intros rest Hrest. destruct (decide (d :: i :: rest = Prefix_info (mkNamespace d i))) as [->|Hne];
      [by rewrite lookup_delete_eq|].
    rewrite lookup_delete_ne by done. rewrite lookup_drop_range, decide_True; [done|].
    apply Hrange; [|by eexists]. apply Forall_cons. split; [done|]. apply Forall_cons. by split.
  - by rewrite lookup_delete_eq.
  - intros k Hk Hns Hne. rewrite lookup_delete_ne by done. rewrite lookup_drop_range, decide_False; [done|].
    intros [rest ->]%Hrange; [|done]. by eapply Hns.
Qed.

(** *** Without [--force] *)

Definition opts_of (cmd : DeleteArgs) : option RangeOpts :=
  match cmd with
  | DeleteDataplane _ opts | DeleteInstance _ _ _ opts | DeleteRange _ _ opts => Some opts
  | DeleteList _ _ => None
  end.

Definition forced (cmd : DeleteArgs) : bool :=
  match cmd with DeleteList _ f => f | _ => default false (force <$> opts_of cmd) end.

Lemma delete_pages_dry fuel replies size attempts r n s : (delete_pages fuel replies false size attempts r n s).1 = s.
Proof.
  induction fuel as [|fuel IH] in replies, size, attempts, r, n |- *; [done|]. cbn [delete_pages]. cbv zeta.
  destruct (default Served (head replies)); [destruct (last _); [apply IH|done]|apply IH| |done].
  destruct (5 <? _); [done|apply IH].
Qed.

Lemma delete_registry_dry selected r : (delete_registry false selected r).1 = r.
Proof.
  unfold delete_registry. destruct (forallb _ _); [|done]. induction (zrange r timestamps_index) as [|key keys IH]; [done|].
  cbn [delete_registry_keys]. destruct (parse_ids key); [|done..]. by rewrite andb_false_r.
Qed.

Lemma delete_lines_dry lines acc : (foldl (delete_line false) acc lines).1 = acc.1.
Proof.
  induction lines as [|line lines IH] in acc |- *; [done|]. cbn [foldl]. rewrite IH.
  destruct acc as [txn [[kn dl] ms]]. destruct line as [|b line]; [done|]. cbn [delete_line]. by destruct (txn !! _).
Qed.

Lemma delete_rest_dry replies commit_fails cmd opts range r s :
  opts_of cmd = Some opts → force opts = false → destroy_mode opts = false →
  match delete_range replies opts range s with
  | (s, Ok _) => let i := delete_info cmd commit_fails s in (mkWorld r i.1, i.2)
  | (s, Err e) => (mkWorld r s, Err e)
  | (s, Panic) => (mkWorld r s, Panic)
  end.1 = mkWorld r s.
Proof.
  intros Ho Hf Hd. unfold delete_range. rewrite Hd, Hf.
  pose proof (delete_pages_dry (pages_fuel replies range s) replies (scan_size opts) 0 range 0 s) as Hs.
  destruct (delete_pages _ _ _ _ _ _ _ _) as [s' [n| |]]; cbn [fst] in Hs; subst s'; [|done..].
  destruct cmd; cbn [opts_of delete_info] in *; simplify_eq; try done. destruct commit_fails; [done|]. by rewrite Hf.
Qed.

Lemma delete_registry_kept selected r : registry_ids r → delete_registry false selected r = (r, Ok tt).
Proof.
  intros Hids. unfold delete_registry.
  assert (Hkeys : ∀ key, key ∈ zrange r timestamps_index → ∃ k, byte_key k ∧ key = key_of k).
  { intros key Hkey%elem_of_zrange. by apply Hids. }
  assert (forallb utf8_valid (zrange r timestamps_index) = true) as ->.
  { apply forallb_forall. intros key Hkey%list_elem_of_In. destruct (Hkeys _ Hkey) as (k & Hk & ->).
    by apply key_of_utf8, byte_key_ok. }
  induction (zrange r timestamps_index) as [|key keys IH]; [done|].
  cbn [delete_registry_keys]. destruct (Hkeys key ltac:(by left)) as (k & Hk & ->).
  rewrite parse_ids_of, andb_false_r by done. apply IH. intros; apply Hkeys; by right.
Qed.

(** C32: A command is a dry run unless it is forced, but not with [--destroy-mode].
    Without [--force] and without [--destroy-mode] no command changes the store or the
    registry, however it ends; without [--force] but with [--destroy-mode] the keys of
    the instance are deleted, and the registry keeps the instance. *)
Theorem dry_run_destroys X replies commit_fails w :
  (∀ cmd, forced cmd = false → default false (destroy_mode <$> opts_of cmd) = false →
     (handle_delete_cmd X replies commit_fails cmd w).1 = w)
  ∧ ∀ d i size, in_range 8 d → in_range 8 i → registry_ids (redis w) →
     (handle_delete_cmd X replies commit_fails (DeleteInstance d i false (mkRangeOpts false size true)) w).1
       = mkWorld (redis w) (drop_range (instance_key_range (mkNamespace d i)) (tikv w)).
Proof.
  destruct w as [r s]. split.
  - intros cmd Hf Hd. destruct cmd as [d opts|d i only opts|a b opts|lines f]; cbn in Hf, Hd;
      unfold handle_delete_cmd; cbn [selected_range redis tikv].
    + pose proof (delete_registry_dry (selects (DeleteDataplane d opts)) r) as Hr. rewrite Hf.
      destruct (delete_registry _ _ _) as [r' [u| |]]; cbn [fst] in Hr; subst r'; [|done..]. by apply delete_rest_dry.
    + pose proof (delete_registry_dry (selects (DeleteInstance d i only opts)) r) as Hr. rewrite Hf.
      destruct (delete_registry _ _ _) as [r' [u| |]]; cbn [fst] in Hr; subst r'; [|done..].
      cbn [ts_only]. destruct only; [done|]. by apply delete_rest_dry.
    + destruct (hex_decode X a); [|done]. destruct (hex_decode X b); [|done]. cbn [ok_or mbind outcome_bind].
      destruct (forallb _ _); [by apply delete_rest_dry|done].
    + subst f. unfold handle_delete_list_cmd. destruct (decode_lines X lines) as [ls| |]; [|done..].
      destruct commit_fails; [done|]. cbn. by rewrite delete_lines_dry.
  - intros d i size Hd Hi Hids. unfold handle_delete_cmd. cbn [selected_range redis tikv force].
    rewrite delete_registry_kept by done. cbn [ts_only delete_range destroy_mode delete_info force].
    by destruct commit_fails.
Qed.

(** *** Lists *)

Lemma foldM_collects {A B} (f : A → outcome DawError B) (l : list A) (acc : list B) :
  (∀ a, f a ≠ Panic → ∃ b, f a = Ok b) →
  (∃ out, foldM (λ acc a, b ← f a; Ok (acc ++ [b])) acc l = Ok (acc ++ out))
  ∨ foldM (λ acc a, b ← f a; Ok (acc ++ [b])) acc l = Panic.
Proof.
  intros Hf. induction l as [|a l IH] in acc |- *; cbn [foldM]; [left; exists []; by rewrite app_nil_r|].
  destruct (f a) as [b|e|] eqn:E; cbn [mbind outcome_bind].
  - destruct (IH (acc ++ [b])) as [[out ->]| ->]; [left|by right]. exists (b :: out). by rewrite <- (assoc_L (++)).
  - destruct (Hf a ltac:(by rewrite E)) as [b Hb]. congruence.
  - by right.
Qed.

Lemma decode_lines_total X l : decode_lines X l ≠ Panic → ∃ b, decode_lines X l = Ok b.
Proof.
  intros Hne. destruct (foldM_collects (λ l, unwrap (hex_decode X l)) l []) as [[out E]|E].
  - intros a Ha. destruct (hex_decode X a); [by eexists|done].
  - by exists ([] ++ out).
  - done.
Qed.

(** A blank line of a list to write is a line without a value: it ends the command before
    anything is written. *)
Lemma blank_line_panics X commit_fails lines force s :
  hex_decode X [] = Some [] → handle_write_list_cmd X commit_fails ([] :: lines) force s = (s, Panic).
Proof.
  intros H. unfold handle_write_list_cmd. cbn [foldM].
  assert (decode_lines X (split_on 58 []) = Ok [[]]) as -> by (cbn; by rewrite H). cbn [mbind outcome_bind app].
  destruct (foldM_collects (λ l, decode_lines X (split_on 58 l)) lines [[[]]]) as [[out ->]| ->]; [|done|done].
  intros l. apply decode_lines_total.
Qed.

(** ** A sample *)

(** Two instances of data plane 1, with two keys each. *)
Definition two_instances : World :=
  mkWorld (mkRedis {[ timestamps_index := {[ key_of (mkRedisKey 1 2) := 5; key_of (mkRedisKey 1 3) := 6 ]};
                      key_of (mkRedisKey 1 2) := {[ [7] := 5 ]}; key_of (mkRedisKey 1 3) := {[ [8] := 6 ]} ]} ∅)
    {[ [1; 2; 67] := [0]; [1; 2; 68; 9] := [1]; [1; 3; 67] := [2]; [1; 3; 68; 9] := [3] ]}.

Definition small_pages : RangeOpts := mkRangeOpts true 2 false.

Example two_instances_left :
  (handle_delete_cmd sample_ext [TooLarge; Served; ScanFailed] false (DeleteInstance 1 2 false small_pages) two_instances).1
  = mkWorld (mkRedis {[ timestamps_index := {[ key_of (mkRedisKey 1 3) := 6 ]}; key_of (mkRedisKey 1 3) := {[ [8] := 6 ]} ]} ∅)
      {[ [1; 3; 67] := [2]; [1; 3; 68; 9] := [3] ]}.
Proof. by vm_compute. Qed.

Lemma two_instances_ids : registry_ids (redis two_instances).
Proof.
  intros key Hkey. change (zset (redis two_instances) timestamps_index)
    with ({[ key_of (mkRedisKey 1 2) := 5; key_of (mkRedisKey 1 3) := 6 ]} : ZSet) in Hkey.
  apply lookup_insert_is_Some in Hkey as [<-|[_ [v [<- _]%lookup_singleton_Some]]];
    [exists (mkRedisKey 1 2)|exists (mkRedisKey 1 3)]; by vm_compute.
Qed.

Lemma two_instances_bytes : bytes_keys (tikv two_instances).
Proof.
  assert (H : map_Forall (λ k _, bytes_ok k) (tikv two_instances)) by (apply (bool_decide_unpack _); by vm_compute).
  intros k [v Hv]. exact (H k v Hv).
Qed.

Lemma instance_deleted_witness :
  ∃ w', handle_delete_cmd sample_ext [TooLarge; Served; ScanFailed] false (DeleteInstance 1 2 false small_pages)
          two_instances = (w', Ok tt)
    ∧ (∀ rest, bytes_ok rest → tikv w' !! (1 :: 2 :: rest) = None)
    ∧ tikv w' !! Prefix_info (mkNamespace 1 2) = None
    ∧ (∀ k, bytes_ok k → (∀ rest, k ≠ 1 :: 2 :: rest) → k ≠ Prefix_info (mkNamespace 1 2) →
         tikv w' !! k = tikv two_instances !! k)
    ∧ zset (redis w') timestamps_index = delete (key_of (mkRedisKey 1 2)) (zset (redis two_instances) timestamps_index)
    ∧ (indexed (redis two_instances) (mkRedisKey 1 2) → zset (redis w') (key_of (mkRedisKey 1 2)) = ∅)
    ∧ (∀ key, key ≠ key_of (mkRedisKey 1 2) → key ≠ timestamps_index → zset (redis w') key = zset (redis two_instances) key)
    ∧ (∀ key, key ≠ key_of (mkRedisKey 1 2) → texts (redis w') !! key = texts (redis two_instances) !! key).
Proof.
  apply (instance_deleted sample_ext [TooLarge; Served; ScanFailed] small_pages 1 2 two_instances);
    [by vm_compute|by vm_compute|done|apply two_instances_ids|apply two_instances_bytes|by vm_compute].
Defined.

Lemma dry_run_destroys_witness :
  (handle_delete_cmd sample_ext [] false (DeleteInstance 1 2 false (mkRangeOpts false 2 false)) two_instances).1 = two_instances
  ∧ (handle_delete_cmd sample_ext [] false (DeleteInstance 1 2 false (mkRangeOpts false 2 true)) two_instances).1
    = mkWorld (redis two_instances) (drop_range (instance_key_range (mkNamespace 1 2)) (tikv two_instances))
  ∧ drop_range (instance_key_range (mkNamespace 1 2)) (tikv two_instances) = {[ [1; 3; 67] := [2]; [1; 3; 68; 9] := [3] ]}.
Proof.
  destruct (dry_run_destroys sample_ext [] false two_instances) as [H1 H2]. split_and!.
  - by apply H1.
  - apply H2; [by vm_compute|by vm_compute|apply two_instances_ids].
  - by vm_compute.
Defined.

End Daw.
