(* ===== verification/Ordinals.v ===== *)
(** Ranges of ordinals ([src/services/compressor-xdg/src/ordinals.rs]): the queue from
    which the ordinals of outputs are taken.  The indexer for Dogecoin keeps these queues
    empty; the operations are part of its data model. *)

From S2P Require Import Prelude.

Module Ordinals.

(** An inclusive range. *)
Record OrdinalRange : Type := mkRange { lower : Z; upper : Z }.

Abbreviation OrdinalRanges := (list OrdinalRange).

Inductive Error : Type :=
| InvalidRange (lower upper : Z)
| InvalidSplit (range : OrdinalRange) (size : Z)
| InvalidTake (ranges : OrdinalRanges) (take : Z).

Definition OrdinalRange_new (lower upper : Z) : outcome Error OrdinalRange :=
  if upper <? lower then Err (InvalidRange lower upper) else Ok (mkRange lower upper).

(** The shift count of a release build is taken modulo 64. *)
Definition subsidy (height : Z) : Z := Z.shiftr (50 * 100000000) ((height / 210000) mod 64).

Fixpoint first_ordinal (h : nat) : Z :=
  match h with O => 0 | S h => wrap 64 (first_ordinal h + subsidy (Z.of_nat h)) end.

Definition new_coinbase_ords (height : Z) : outcome Error OrdinalRange :=
  let first := first_ordinal (Z.to_nat height) in
  OrdinalRange_new first (wrap 64 (wrap 64 (first + subsidy height) - 1)).

Definition size (r : OrdinalRange) : Z := wrap 64 (wrap 64 (upper r + 1) - lower r).

Definition split (r : OrdinalRange) (n : Z) : outcome Error (OrdinalRange * OrdinalRange) :=
  if (n =? 0) || (size r <=? n) then Err (InvalidSplit r n)
  else
    lo ← OrdinalRange_new (lower r) (wrap 64 (wrap 64 (lower r + n) - 1));
    hi ← OrdinalRange_new (wrap 64 (lower r + n)) (upper r);
    Ok (lo, hi).

(** [take]: the queue that is left, and the ranges taken; an error leaves the queue as it
    is by then. *)
Fixpoint take_from (total require : Z) (out queue : OrdinalRanges) : OrdinalRanges * outcome Error OrdinalRanges :=
  if 0 <? require then
    match queue with
    | [] => ([], Err (InvalidTake [] total))
    | front :: queue =>
        if require <? size front then
          match split front require with
          | Ok (lo, hi) => (hi :: queue, Ok (out ++ [lo]))
          | Err e => (queue, Err e)
          | Panic => (queue, Panic)
          end
        else take_from total (wrap 64 (require - size front)) (out ++ [front]) queue
    end
  else (queue, Ok out).

Definition take_ordinals (n : Z) (queue : OrdinalRanges) : OrdinalRanges * outcome Error OrdinalRanges :=
  take_from n n [] queue.

(** ** What is taken *)

(** A range within the supply; the last 64-bit number is not one. *)
Definition range_ok (r : OrdinalRange) : Prop := 0 ≤ lower r ≤ upper r ∧ upper r + 1 < 2 ^ 64.

(** The ordinals of a queue, one by one. *)
Definition ordinals (rs : OrdinalRanges) : list Z := rs ≫= λ r, seqZ (lower r) (upper r + 1 - lower r).

Lemma size_ok r : range_ok r → size r = upper r + 1 - lower r ∧ 0 < size r.
Proof. intros [H1 H2]. unfold size. rewrite !wrap_small by (unfold in_range; rewrite ?wrap_small by (unfold in_range; lia); lia). lia. Qed.

Lemma split_ok r n : range_ok r → 0 < n < size r →
  split r n = Ok (mkRange (lower r) (lower r + n - 1), mkRange (lower r + n) (upper r)).
Proof.
  intros Hr Hn. destruct (size_ok r Hr) as [Hs _]. destruct Hr as [H1 H2]. unfold split.
  rewrite (proj2 (Z.eqb_neq n 0)), (proj2 (Z.leb_gt _ _)) by lia. cbn [orb].
  rewrite (wrap_small 64 (lower r + n)) by (unfold in_range; lia).
  rewrite (wrap_small 64 (lower r + n - 1)) by (unfold in_range; lia). unfold OrdinalRange_new.
  rewrite (proj2 (Z.ltb_ge (lower r + n - 1) _)) by lia. cbn [mbind outcome_bind].
  by rewrite (proj2 (Z.ltb_ge (upper r) _)) by lia.
Qed.

Lemma ordinals_cons r rs : ordinals (r :: rs) = seqZ (lower r) (upper r + 1 - lower r) ++ ordinals rs.
Proof. done. Qed.

Lemma ordinals_app a b : ordinals (a ++ b) = ordinals a ++ ordinals b.
Proof. apply bind_app. Qed.

Lemma ordinals_one r : ordinals [r] = seqZ (lower r) (upper r + 1 - lower r).
Proof. apply app_nil_r. Qed.

Lemma length_range r : range_ok r → Z.of_nat (length (seqZ (lower r) (upper r + 1 - lower r))) = size r.
Proof. intros Hr. destruct (size_ok r Hr) as [-> ?]. rewrite length_seqZ. destruct Hr. lia. Qed.

Lemma take_from_ok queue total require out :
  Forall range_ok queue → Forall range_ok out → 0 ≤ require < 2 ^ 64 →
  if Z.of_nat (length (ordinals queue)) <? require then take_from total require out queue = ([], Err (InvalidTake [] total))
  else ∃ taken rest, take_from total require out queue = (rest, Ok (out ++ taken))
    ∧ Z.of_nat (length (ordinals taken)) = require ∧ ordinals queue = ordinals taken ++ ordinals rest
    ∧ Forall range_ok (taken ++ rest).
Proof.
  induction queue as [|front queue IH] in require, out |- *; intros Hq Ho Hr; cbn [take_from].
  - destruct (Z.ltb_spec 0 require) as [Hp|Hp]; cbn [ordinals length mbind list_bind Z.of_nat].
    + by rewrite (proj2 (Z.ltb_lt _ _)) by lia.
    + rewrite (proj2 (Z.ltb_ge _ _)) by lia. exists [], []. rewrite app_nil_r. split_and!; [done|cbn; lia|done..].
  - apply Forall_cons in Hq as [Hf Hq]. destruct (size_ok _ Hf) as [Hs Hsp]. pose proof (length_range _ Hf) as Hl.
    rewrite ordinals_cons, length_app, Nat2Z.inj_add, Hl. destruct (Z.ltb_spec 0 require) as [Hp|Hp].
    + destruct (Z.ltb_spec require (size front)) as [Hlt|Hge].
      * rewrite split_ok by (done || lia). rewrite (proj2 (Z.ltb_ge _ _)) by lia.
        exists [mkRange (lower front) (lower front + require - 1)], (mkRange (lower front + require) (upper front) :: queue).
        split; [done|]. rewrite ordinals_one, ordinals_cons. cbn [lower upper]. rewrite length_seqZ.
        replace (lower front + require - 1 + 1 - lower front) with require by lia.
        split_and!; [lia| |destruct Hf; repeat constructor; cbn; try lia; done].
        rewrite (assoc_L (++)), <- seqZ_app by lia. do 2 f_equal. lia.
      * rewrite wrap_small by (unfold in_range; lia).
        specialize (IH (require - size front) (out ++ [front]) Hq ltac:(by apply Forall_app; rewrite Forall_singleton) ltac:(lia)).
        destruct (Z.ltb_spec (Z.of_nat (length (ordinals queue))) (require - size front)).
        -- by rewrite (proj2 (Z.ltb_lt _ _)) by lia.
        -- rewrite (proj2 (Z.ltb_ge _ _)) by lia. destruct IH as (taken & rest & E & Hn & Ho' & Hok).
           exists (front :: taken), rest. rewrite E, ordinals_cons, length_app, Ho'.
           split_and!; [by rewrite <- (assoc_L (++))|lia|by rewrite (assoc_L (++))|by constructor].
    + rewrite (proj2 (Z.ltb_ge _ _)) by lia. exists [], (front :: queue).
      rewrite app_nil_r. split_and!; [done|cbn; lia|done|by constructor].
Qed.

(** Taking takes from the front exactly as many ordinals as asked for, in their order, and
    leaves the rest in theirs; when there are not enough it fails, and the queue is empty. *)
Theorem take_ordinals_spec n queue :
  0 ≤ n < 2 ^ 64 → Forall range_ok queue →
  if Z.of_nat (length (ordinals queue)) <? n then take_ordinals n queue = ([], Err (InvalidTake [] n))
  else ∃ taken rest, take_ordinals n queue = (rest, Ok taken)
    ∧ ordinals taken = take (Z.to_nat n) (ordinals queue) ∧ ordinals rest = drop (Z.to_nat n) (ordinals queue)
    ∧ Forall range_ok (taken ++ rest).
Proof.
  intros Hn Hq. pose proof (take_from_ok queue n n [] Hq ltac:(constructor) Hn) as H. fold (take_ordinals n queue) in H.
  destruct (_ <? _); [done|]. destruct H as (taken & rest & E & Hl & Ho & Hok). exists taken, rest.
  split_and!; [done| | |done]; rewrite Ho, <- Hl, Nat2Z.id; [by rewrite take_app_length|by rewrite drop_app_length].
Qed.

Example take_six :
  take_ordinals 6 [mkRange 12 15; mkRange 3 7; mkRange 1 1]
  = ([mkRange 5 7; mkRange 1 1], Ok [mkRange 12 15; mkRange 3 4]).
Proof. by vm_compute. Qed.

(** Block 0 creates the first five billion. *)
Example coinbase_zero : new_coinbase_ords 0 = Ok (mkRange 0 4999999999).
Proof. by vm_compute. Qed.

(** ** Coinbase ranges *)

Lemma subsidy_bound h : 0 ≤ h → 0 ≤ subsidy h ≤ 5000000000.
Proof.
  intros Hh. unfold subsidy. rewrite Z.shiftr_div_pow2 by (apply Z.mod_pos_bound; lia).
  pose proof (Z.mod_pos_bound (h / 210000) 64 ltac:(lia)). set (k := (h / 210000) mod 64) in *.
  assert (0 < 2 ^ k) by (apply Z.pow_pos_nonneg; lia). split; [apply Z.div_pos; lia|].
  apply Z.div_le_upper_bound; nia.
Qed.

Lemma subsidy_positive h : 0 ≤ h < 13440000 → (0 < subsidy h ↔ h < 6930000).
Proof.
  intros Hh. unfold subsidy.
  assert (0 ≤ h / 210000 < 64) as Hk by (split; [apply Z.div_pos|apply Z.div_lt_upper_bound]; lia).
  rewrite Z.mod_small, Z.shiftr_div_pow2 by lia. split; intros H.
  - destruct (Z.lt_ge_cases h 6930000) as [|Hge]; [done|]. exfalso.
    assert (33 ≤ h / 210000) by (apply Z.div_le_lower_bound; lia).
    assert (2 ^ 33 ≤ 2 ^ (h / 210000)) by (apply Z.pow_le_mono_r; lia).
    rewrite Z.div_small in H by lia. lia.
  - assert (h / 210000 < 33) by (apply Z.div_lt_upper_bound; lia).
    assert (2 ^ (h / 210000) ≤ 2 ^ 32) by (apply Z.pow_le_mono_r; lia).
    apply Z.div_str_pos. split; [apply Z.pow_pos_nonneg|]; lia.
Qed.

Lemma first_ordinal_bound h : Z.of_nat h ≤ 13440000 → 0 ≤ first_ordinal h ≤ 5000000000 * Z.of_nat h.
Proof.
  induction h as [|h IH]; intros Hh; cbn [first_ordinal]; [lia|]. specialize (IH ltac:(lia)).
  pose proof (subsidy_bound (Z.of_nat h) ltac:(lia)). rewrite wrap_small by (unfold in_range; lia). lia.
Qed.

Lemma first_ordinal_grows h : 0 < Z.of_nat h ≤ 13440000 → 0 < first_ordinal h.
Proof.
  induction h as [|h IH]; intros Hh; [lia|]. cbn [first_ordinal]. pose proof (first_ordinal_bound h ltac:(lia)) as Hf.
  pose proof (subsidy_bound (Z.of_nat h) ltac:(lia)). rewrite wrap_small by (unfold in_range; lia).
  destruct h as [|h]; [by vm_compute|]. specialize (IH ltac:(lia)). lia.
Qed.

(** The coinbase ranges of the blocks follow one another without a gap as long as there is
    a subsidy; the first block without one has an invalid range. *)
Theorem coinbase_ranges_contiguous h :
  0 ≤ h < 13440000 →
  if h <? 6930000 then ∃ r, new_coinbase_ords h = Ok r ∧ range_ok r ∧ size r = subsidy h
    ∧ first_ordinal (Z.to_nat (h + 1)) = upper r + 1
  else ∃ l u, new_coinbase_ords h = Err (InvalidRange l u).
Proof.
  intros Hh. pose proof (first_ordinal_bound (Z.to_nat h) ltac:(lia)) as Hf. rewrite Z2Nat.id in Hf by lia.
  pose proof (subsidy_bound h ltac:(lia)) as Hb. pose proof (subsidy_positive h Hh) as Hp.
  unfold new_coinbase_ords, OrdinalRange_new. set (f := first_ordinal (Z.to_nat h)) in *.
  rewrite (wrap_small 64 (f + subsidy h)) by (unfold in_range; lia). destruct (Z.ltb_spec h 6930000) as [Hlt|Hge].
  - apply Hp in Hlt. rewrite wrap_small by (unfold in_range; lia). rewrite (proj2 (Z.ltb_ge _ _)) by lia.
    eexists. split; [done|]. assert (Hr : range_ok (mkRange f (f + subsidy h - 1))) by (split; cbn; lia).
    split; [done|]. destruct (size_ok _ Hr) as [-> _]. cbn [lower upper]. split; [lia|].
    rewrite Z2Nat.inj_add, Nat.add_1_r by lia. cbn [first_ordinal]. fold f.
    rewrite Z2Nat.id, wrap_small by (unfold in_range; lia). lia.
  - assert (subsidy h = 0) as -> by (destruct (Z.lt_ge_cases 0 (subsidy h)) as [?%Hp|]; lia). rewrite Z.add_0_r.
    destruct (Z.ltb_spec (wrap 64 (f - 1)) f) as [|Hw]; [by eexists _, _|]. exfalso.
    assert (0 < f) by (apply first_ordinal_grows; lia). rewrite wrap_small in Hw by (unfold in_range; lia). lia.
Qed.

End Ordinals.
