(* ===== verification/NodeRpc.v ===== *)
(** The endpoints of the query service that ask the Dogecoin node
    ([src/services/mapi-xdg/src/client/dogecoin.rs], [api/blocks.rs], [api/general.rs],
    [api/transactions.rs], [api/rpc/mempool.rs], [api/rpc/transactions.rs]).

    The node and its transport are a parameter, [post]: a request may change the state of
    the node (time passes) and is answered with a JSON body or fails.  The types that
    serde derives, the text of JSON values and the text of hashes are a record of
    operations. *)

From S2P Require Import Prelude Decimal Timbre Mapi Registry.
Import Decimal Mapi.

Module NodeRpc.

#[local] Abbreviation str := Registry.str.

(** ** serde_json *)

Inductive Number : Type := PosInt (n : Z) | NegInt (n : Z) | Float (bits : Z).

Inductive Value : Type :=
| JNull
| JBool (b : bool)
| JNumber (n : Number)
| JString (s : rust_string)
| JArray (l : list Value)
| JObject (m : list (rust_string * Value)).

(** [Value::get] with a text: the entry of an object. *)
Definition get (key : rust_string) (v : Value) : option Value :=
  match v with
  | JObject m => snd <$> list_find (λ e : rust_string * Value, e.1 = key) m ≫= λ x, Some x.2
  | _ => None
  end.

Definition as_u64 (v : Value) : option Z := match v with JNumber (PosInt n) => Some n | _ => None end.
Definition as_str (v : Value) : option rust_string := match v with JString s => Some s | _ => None end.
Definition is_null (v : Value) : bool := match v with JNull => true | _ => false end.

(** [serde_json::from_value] at [String] and at [MempoolTransactions], a [Vec<String>]. *)
Definition from_value_string (v : Value) : MapiResult rust_string := ok_or Json (as_str v).
Definition MempoolTransactions_from_value (v : Value) : MapiResult (list rust_string) :=
  match v with JArray l => ok_or Json (mapM as_str l) | _ => Err Json end.

(** ** The call *)

Record RpcCall : Type := mkRpcCall { jsonrpc : string; id : string; method : string; params : Value }.

Definition RpcCall_new (method : string) (params : Value) : RpcCall := mkRpcCall "1.0" "mapi-xdg" method params.

(** What other crates provide: hashes and their text (a failure has a message), the text
    of a JSON value, and the answers that are read as a type and written again. *)
Record RpcLib : Type := mkRpcLib {
  Hash : Type;
  hash_from_hex : rust_string → rust_string + Hash;
  hash_to_hex : Hash → rust_string;
  value_to_string : Value → rust_string;
  blockchain_info : Value → option Value;
  mempool_info_entry : Value → option Value;
  mempool_transaction_entry : Value → option Value;
}.

Section client.
Context (L : RpcLib) (Node : Type) (post : Node → RpcCall → Node * option Value).

(** A computation that calls the node. *)
Definition Client (A : Type) : Type := Node → Node * MapiResult A.
#[local] Instance Client_ret : MRet Client := λ A a n, (n, Ok a).
#[local] Instance Client_bind : MBind Client := λ A B f m n,
  let '(n, a) := m n in
  match a with Ok a => f a n | Err e => (n, Err e) | Panic => (n, Panic) end.
Definition lift {A} (r : MapiResult A) : Client A := λ n, (n, r).

Definition raw_rpc_call (method : string) (params : list Value) : Client Value := λ n,
  let '(n, response) := post n (RpcCall_new method (JArray params)) in
  (n, match response with
      | None => Err Http
      | Some response_body =>
          match get (str "error") response_body with
          | Some error =>
              if negb (is_null error) then Err (Rpc (value_to_string L error))
              else ok_or (Internal "No result in response") (get (str "result") response_body)
          | None => ok_or (Internal "No result in response") (get (str "result") response_body)
          end
      end).

Definition get_chain_tip : Client (Z * Hash L) :=
  height ← raw_rpc_call "getblockcount" [];
  block ← raw_rpc_call "getbestblockhash" [];
  height ← lift (ok_or (Internal "Height is not a u64") (as_u64 height));
  text ← lift (ok_or (Internal "Block hash is not a string") (as_str block));
  hash ← lift (match hash_from_hex L text with inl e => Err (InvalidHex e) | inr h => Ok h end);
  mret (height, hash).

Definition get_blockchain_info : Client Value :=
  v ← raw_rpc_call "getblockchaininfo" []; lift (ok_or Json (blockchain_info L v)).

Definition get_latest_block : Client Value :=
  v ← raw_rpc_call "getbestblockhash" [];
  blockhash ← lift (from_value_string v);
  raw_rpc_call "getblock" [JString blockhash].

Definition hash_param (h : Hash L) : Value := JString (hash_to_hex L h).

Definition get_block (block_hash : Hash L) : Client Value :=
  raw_rpc_call "getblock" [hash_param block_hash; JBool true].

Definition get_transaction (tx_hash : Hash L) : Client Value :=
  raw_rpc_call "getrawtransaction" [hash_param tx_hash; JNumber (PosInt 1)].

Definition get_mempool_info : Client Value :=
  v ← raw_rpc_call "getmempoolinfo" []; lift (ok_or Json (mempool_info_entry L v)).

Definition get_mempool_transactions : Client Value :=
  v ← raw_rpc_call "getrawmempool" [JBool false; JBool true];
  txs ← lift (MempoolTransactions_from_value v);
  mret (JArray (map JString txs)).

Definition get_mempool_transaction_details (tx_hash : Hash L) : Client Value :=
  v ← raw_rpc_call "getmempoolentry" [hash_param tx_hash]; lift (ok_or Json (mempool_transaction_entry L v)).

Definition get_mempool_transaction_descendants (tx_hash : Hash L) : Client Value :=
  raw_rpc_call "getmempooldescendants" [hash_param tx_hash; JBool false].

Definition get_mempool_transaction_ancestors (tx_hash : Hash L) : Client Value :=
  raw_rpc_call "getmempoolancestors" [hash_param tx_hash; JBool false].

Definition get_transaction_details (tx_hash : Hash L) : Client Value :=
  raw_rpc_call "getrawtransaction" [hash_param tx_hash; JNumber (PosInt 1)].

Definition decode_psbt (psbt : rust_string) : Client Value := raw_rpc_call "decodepsbt" [JString psbt].

(** ** The handlers *)

Abbreviation Answer := (TimestampedResponse Value).

(** A body with the last update of its data, or the data alone. *)
Inductive Response : Type := Dated (x : Answer) | Undated (data : Value).

(** The tip is read first, then the data. *)
Definition timestamped (data : Client Value) : Client Answer :=
  tip ← get_chain_tip;
  data ← data;
  mret (mkTimestamped data (mkLastUpdated (hash_to_hex L tip.2) tip.1)).

Definition latest_block : Client Answer := timestamped get_latest_block.
Definition chain_info : Client Answer := timestamped get_blockchain_info.
Definition mempool_info : Client Answer := timestamped get_mempool_info.
Definition mempool_transactions : Client Answer := timestamped get_mempool_transactions.

(** An argument that is not a hash is reported as it was given. *)
Definition parsed_hash (text : rust_string) : MapiResult (Hash L) :=
  match hash_from_hex L text with inl _ => Err (InvalidHex text) | inr h => Ok h end.

Definition block_info (block_hash : rust_string) : Client Answer :=
  block ← lift (parsed_hash block_hash); timestamped (get_block block).
Definition transaction_info (tx_hash : rust_string) : Client Answer :=
  tx ← lift (parsed_hash tx_hash); timestamped (get_transaction tx).
Definition mempool_transaction_details (tx_hash : rust_string) : Client Answer :=
  tx ← lift (parsed_hash tx_hash); timestamped (get_mempool_transaction_details tx).
Definition mempool_transaction_ancestors (tx_hash : rust_string) : Client Answer :=
  tx ← lift (parsed_hash tx_hash); timestamped (get_mempool_transaction_ancestors tx).
Definition mempool_transaction_descendants (tx_hash : rust_string) : Client Answer :=
  tx ← lift (parsed_hash tx_hash); timestamped (get_mempool_transaction_descendants tx).
Definition transaction_details (tx_hash : rust_string) : Client Answer :=
  tx ← lift (parsed_hash tx_hash); timestamped (get_transaction_details tx).

(** The one endpoint whose answer has no last update. *)
Definition decode_psbt_endpoint (psbt : rust_string) : Client Value := decode_psbt psbt.

(** ** Every request *)

Inductive Request : Type :=
| LatestBlock
| BlockInfo (block_hash : rust_string)
| ChainInfo
| TransactionInfo (tx_hash : rust_string)
| MempoolInfo
| MempoolTransactions
| MempoolTransactionDetails (tx_hash : rust_string)
| MempoolTransactionAncestors (tx_hash : rust_string)
| MempoolTransactionDescendants (tx_hash : rust_string)
| TransactionDetails (tx_hash : rust_string)
| DecodePsbt (psbt : rust_string).

Definition dated (c : Client Answer) : Client Response := x ← c; mret (Dated x).

Definition handle (r : Request) : Client Response :=
  match r with
  | LatestBlock => dated latest_block
  | BlockInfo h => dated (block_info h)
  | ChainInfo => dated chain_info
  | TransactionInfo h => dated (transaction_info h)
  | MempoolInfo => dated mempool_info
  | MempoolTransactions => dated mempool_transactions
  | MempoolTransactionDetails h => dated (mempool_transaction_details h)
  | MempoolTransactionAncestors h => dated (mempool_transaction_ancestors h)
  | MempoolTransactionDescendants h => dated (mempool_transaction_descendants h)
  | TransactionDetails h => dated (transaction_details h)
  | DecodePsbt psbt => v ← decode_psbt_endpoint psbt; mret (Undated v)
  end.

(** The text that a request gives for a hash. *)
Definition argument (r : Request) : option rust_string :=
  match r with
  | LatestBlock | ChainInfo | MempoolInfo | MempoolTransactions | DecodePsbt _ => None
  | BlockInfo h | TransactionInfo h | MempoolTransactionDetails h | MempoolTransactionAncestors h
  | MempoolTransactionDescendants h | TransactionDetails h => Some h
  end.

(** The data of a request, once its argument is read. *)
Definition data_of (r : Request) : MapiResult (Client Value) :=
  match r with
  | LatestBlock => Ok get_latest_block
  | ChainInfo => Ok get_blockchain_info
  | MempoolInfo => Ok get_mempool_info
  | MempoolTransactions => Ok get_mempool_transactions
  | BlockInfo h => get_block <$> parsed_hash h
  | TransactionInfo h => get_transaction <$> parsed_hash h
  | MempoolTransactionDetails h => get_mempool_transaction_details <$> parsed_hash h
  | MempoolTransactionAncestors h => get_mempool_transaction_ancestors <$> parsed_hash h
  | MempoolTransactionDescendants h => get_mempool_transaction_descendants <$> parsed_hash h
  | TransactionDetails h => get_transaction_details <$> parsed_hash h
  | DecodePsbt psbt => Ok (decode_psbt psbt)
  end.

Definition is_decode_psbt (r : Request) : bool := match r with DecodePsbt _ => true | _ => false end.

Lemma handle_data r n :
  handle r n =
  match data_of r with
  | Ok data => if is_decode_psbt r then (v ← data; mret (Undated v)) n else dated (timestamped data) n
  | Err e => (n, Err e)
  | Panic => (n, Panic)
  end.
Proof.
  destruct r as [|h| |h| | |h|h|h|h|p]; try done; cbn [handle data_of is_decode_psbt];
    unfold dated, block_info, transaction_info, mempool_transaction_details, mempool_transaction_ancestors,
      mempool_transaction_descendants, transaction_details, mbind, Client_bind, lift; by destruct (parsed_hash h).
Qed.

Lemma data_of_argument r :
  match argument r with
  | Some text => match hash_from_hex L text with
                 | inr _ => ∃ data, data_of r = Ok data
                 | inl _ => data_of r = Err (InvalidHex text)
                 end
  | None => ∃ data, data_of r = Ok data
  end.
Proof.
  destruct r as [|h| |h| | |h|h|h|h|p]; cbn [argument data_of]; try by eexists.
  all: unfold parsed_hash; destruct (hash_from_hex L h); [done|by eexists].
Qed.

(** ** No panics *)

Definition total {A} (m : Client A) : Prop := ∀ n, (m n).2 ≠ Panic.

Lemma total_bind {A B} (m : Client A) (f : A → Client B) : total m → (∀ a, total (f a)) → total (m ≫= f).
Proof.
  intros Hm Hf n. specialize (Hm n). unfold mbind, Client_bind. destruct (m n) as [n1 [a|e|]]; cbn in *;
    [apply Hf|done|done].
Qed.

Lemma total_lift {A} (r : MapiResult A) : r ≠ Panic → total (lift r).
Proof. by intros Hr n. Qed.

Lemma total_ret {A} (a : A) : total (mret a).
Proof. by apply (total_lift (Ok a)). Qed.

Lemma ok_or_total {E A} (e : E) (o : option A) : ok_or e o ≠ Panic.
Proof. by destruct o. Qed.

Lemma total_call m ps : total (raw_rpc_call m ps).
Proof.
  intros n. unfold raw_rpc_call. destruct (post n _) as [n1 [b|]]; cbn; [|done].
  destruct (get _ b) as [e|]; [|apply ok_or_total]. destruct (negb _); [done|apply ok_or_total].
Qed.

Create HintDb total.
#[local] Hint Resolve total_call total_ret total_lift ok_or_total : total.

Lemma total_tip : total get_chain_tip.
Proof.
  unfold get_chain_tip. repeat (apply total_bind; [apply total_call|intros ?]).
  repeat (apply total_bind; [apply total_lift; first [apply ok_or_total|by destruct (hash_from_hex _ _)]|intros ?]).
  apply total_ret.
Qed.

Lemma total_data r data : data_of r = Ok data → total data.
Proof.
  assert (Hs : ∀ v, from_value_string v ≠ Panic) by (intros v; apply ok_or_total).
  assert (Ht : ∀ v, MempoolTransactions_from_value v ≠ Panic) by (intros []; try done; apply ok_or_total).
  destruct r as [|h| |h| | |h|h|h|h|p]; cbn [data_of]; unfold parsed_hash; try destruct (hash_from_hex L h); intros E;
    (done || injection E as <-);
    unfold get_latest_block, get_blockchain_info, get_mempool_info, get_mempool_transactions, get_block, get_transaction,
      get_mempool_transaction_details, get_mempool_transaction_ancestors, get_mempool_transaction_descendants,
      get_transaction_details, decode_psbt;
    repeat (apply total_bind; [solve [auto with total]|intros ?]); auto with total.
Qed.

Lemma total_handle r : total (handle r).
Proof.
  intros n. rewrite handle_data. pose proof (data_of_argument r) as Harg.
  destruct (data_of r) as [data|e|] eqn:Ed; [|done|].
  - apply total_data in Ed. destruct (is_decode_psbt r).
    + apply (total_bind data); [done|]. intros; apply total_ret.
    + unfold dated, timestamped. apply total_bind; [|intros; apply total_ret].
      apply total_bind; [apply total_tip|intros tip]. apply total_bind; [done|intros; apply total_ret].
  - destruct (argument r) as [t|]; [destruct (hash_from_hex L t); [done|]|]; by destruct Harg.
Qed.

Lemma raw_rpc_call_ok m ps n n' v :
  raw_rpc_call m ps n = (n', Ok v) →
  ∃ b, post n (RpcCall_new m (JArray ps)) = (n', Some b) ∧ get (str "result") b = Some v.
Proof.
  unfold raw_rpc_call. destruct (post n _) as [n1 [b|]]; [|done]. intros [= -> H]. exists b. split; [done|].
  destruct (get (str "error") b) as [e|]; [destruct (negb _); [done|]|];
    destruct (get (str "result") b); cbn in H; by simplify_eq.
Qed.

Lemma bind_ok {A B} (m : Client A) (f : A → Client B) n n' b :
  (m ≫= f) n = (n', Ok b) → ∃ a n1, m n = (n1, Ok a) ∧ f a n1 = (n', Ok b).
Proof. unfold mbind, Client_bind. destruct (m n) as [n1 [a| |]]; [eauto|done..]. Qed.

(** ** A node *)

(** A node that has a chain of blocks, which may grow or be reorganised at any call, and
    that answers for the chain it has when it answers: what Dogecoin Core documents of
    [getblockcount] and [getbestblockhash].  A result next to an error may be null. *)
Class NodeLaws (chain : Node → list (Hash L)) : Prop := {
  node_count n n' b r :
    post n (RpcCall_new "getblockcount" (JArray [])) = (n', Some b) → get (str "result") b = Some r →
    r = JNumber (PosInt (Z.of_nat (length (chain n')) - 1)) ∨ r = JNull;
  node_best n n' b r :
    post n (RpcCall_new "getbestblockhash" (JArray [])) = (n', Some b) → get (str "result") b = Some r →
    (∃ h, r = JString (hash_to_hex L h) ∧ last (chain n') = Some h) ∨ r = JNull;
  node_hex h : hash_from_hex L (hash_to_hex L h) = inr h;
}.

Section node.
Context (chain : Node → list (Hash L)) `{!NodeLaws chain}.

(** The node after a call, whatever it answers. *)
Definition after (n : Node) (method : string) : Node := (post n (RpcCall_new method (JArray []))).1.

Lemma get_chain_tip_ok n n2 height hash :
  get_chain_tip n = (n2, Ok (height, hash)) →
  let n1 := after n "getblockcount" in
  n2 = after n1 "getbestblockhash"
  ∧ height = Z.of_nat (length (chain n1)) - 1 ∧ last (chain n2) = Some hash.
Proof.
  unfold get_chain_tip. intros (v & n1 & E1 & H)%bind_ok. apply bind_ok in H as (w & n3 & E2 & H).
  apply raw_rpc_call_ok in E1 as (b1 & P1 & R1). apply raw_rpc_call_ok in E2 as (b2 & P2 & R2).
  unfold after. rewrite P1. cbn [fst]. rewrite P2. cbn [fst].
  unfold lift, mbind, Client_bind, mret, Client_ret in H.
  destruct (node_count _ _ _ _ P1 R1) as [-> | ->]; [|done]. cbn in H.
  destruct (node_best _ _ _ _ P2 R2) as [(h & -> & Hl)| ->]; [|done]. cbn in H. rewrite node_hex in H.
  by injection H as <- <- <-.
Qed.

(** The last block of a chain is at the height of the chain. *)
Lemma last_at_height (l : list (Hash L)) h : last l = Some h → l !! Z.to_nat (Z.of_nat (length l) - 1) = Some h.
Proof.
  intros [pre ->]%last_Some. rewrite length_app, lookup_app_r; cbn; [|lia].
  by replace (Z.to_nat _ - length pre)%nat with 0%nat by lia.
Qed.

(** C33: how the answers of the node are dated.  A request to the node never panics, and
    one whose argument is not a hash is refused (status 400) with nothing sent.  Every
    answer but that of /psbt/decode, which has no date, is dated before its data is read:
    the height is that of the chain that the node had when it answered the first call,
    the hash is that of the tip that it had when it answered the second, and the data is
    asked for after both.  They are the height and the hash of one block, the tip, when
    the chain did not change between the two calls; the chain may grow or be
    reorganised at any call. *)
Theorem node_answer_dated r n :
  let '(n', a) := handle r n in
  a ≠ Panic
  ∧ (∀ text e, argument r = Some text → hash_from_hex L text = inl e →
       n' = n ∧ a = Err (InvalidHex text) ∧ into_response (InvalidHex text) = 400)
  ∧ (∀ y, a = Ok y → ∃ data, data_of r = Ok data ∧
       match y with
       | Undated v => is_decode_psbt r = true ∧ data n = (n', Ok v)
       | Dated x =>
           let n1 := after n "getblockcount" in
           let n2 := after n1 "getbestblockhash" in
           is_decode_psbt r = false ∧ data n2 = (n', Ok (tr_data x))
           ∧ ∃ h, lu_block_hash (tr_last_updated x) = hash_to_hex L h
             ∧ last (chain n2) = Some h
             ∧ lu_block_height (tr_last_updated x) = Z.of_nat (length (chain n1)) - 1
             ∧ (chain n1 = chain n2 →
                  chain n2 !! Z.to_nat (lu_block_height (tr_last_updated x)) = Some h)
       end).
Proof.
  pose proof (total_handle r n) as Htot. rewrite handle_data in *. pose proof (data_of_argument r) as Harg.
  destruct (data_of r) as [data|e|] eqn:Ed; [|split_and!; [done| |done]|done].
  2: { intros text e' Ha He. rewrite Ha, He in Harg. by simplify_eq. }
  destruct (is_decode_psbt r) eqn:Er;
    [destruct ((data ≫= _) n) as [n' a] eqn:E|destruct (dated _ n) as [n' a] eqn:E]; (split_and!; [done| |]).
  1, 3: intros text e Ha He; by rewrite Ha, He in Harg.
  - intros y ->. exists data. split; [done|]. by apply bind_ok in E as (v & n1 & Ev & [= <- <-]).
  - intros y ->. exists data. split; [done|]. apply bind_ok in E as (x & n1 & E & [= <- <-]).
    apply bind_ok in E as ([height h] & n2 & (-> & -> & Hl)%get_chain_tip_ok & E).
    apply bind_ok in E as (v & n3 & Edata & [= <- <-]). cbn [tr_data tr_last_updated lu_block_hash lu_block_height fst snd].
    split; [done|]. split; [done|]. exists h. split_and!; [done..|]. intros ->. by apply last_at_height.
Qed.

End node.

(** Bitcoin Core answers this call with an object that holds the list and a sequence
    number, and Dogecoin Core, which has no such parameter, with an error: in neither
    case is the list of the transactions in memory answered. *)
Theorem mempool_never_listed n :
  (∀ n n' b, post n (RpcCall_new "getrawmempool" (JArray [JBool false; JBool true])) = (n', Some b) →
     (∃ e, get (str "error") b = Some e ∧ is_null e = false) ∨ ∃ m, get (str "result") b = Some (JObject m)) →
  ∀ n' x, handle MempoolTransactions n ≠ (n', Ok x).
Proof.
  intros Hnode n' x H. cbn [handle] in H. unfold dated, mempool_transactions, timestamped in H.
  apply bind_ok in H as (y & n0 & H & _).
  apply bind_ok in H as (tip & n1 & _ & H). apply bind_ok in H as (v & n2 & H & _).
  unfold get_mempool_transactions in H. apply bind_ok in H as (w & n3 & E & H).
  unfold raw_rpc_call in E. destruct (post n1 _) as [n4 [b|]] eqn:P; [|done].
  destruct (Hnode _ _ _ P) as [(e & Ee & Hn)|(m & Em)].
  - rewrite Ee, Hn in E. done.
  - destruct (get (str "error") b) as [e|]; [destruct (negb _); [done|]|]; rewrite Em in E; injection E as <- <-;
      by unfold mbind, Client_bind, lift in H.
Qed.
End client.

(** ** util.rs: the soft forks of the chain info *)

Section softforks.
Context {Softfork : Type} (softfork : Value → option Softfork).

(** [visit_map] and [visit_seq]: an object, or an array whose positions become names. *)
Definition softfork_entry (map : gmap rust_string Softfork) (e : rust_string * Value) : option (gmap rust_string Softfork) :=
  f ← softfork e.2; Some (<[e.1 := f]> map).

Fixpoint softfork_entries (map : gmap rust_string Softfork) (es : list (rust_string * Value)) : option (gmap rust_string Softfork) :=
  match es with [] => Some map | e :: es => map ← softfork_entry map e; softfork_entries map es end.

Definition deserialize_softforks (v : Value) : option (gmap rust_string Softfork) :=
  match v with
  | JObject m => softfork_entries ∅ m
  | JArray l => softfork_entries ∅ (imap (λ i x, (to_string (Z.of_nat i), x)) l)
  | _ => None
  end.

Lemma softfork_entries_seq l i map fs :
  mapM softfork l = Some fs → (∀ j, (i ≤ j)%nat → map !! to_string (Z.of_nat j) = None) →
  ∃ map', softfork_entries map (imap (λ k x, (to_string (Z.of_nat (i + k)), x)) l) = Some map'
    ∧ (∀ k, map' !! to_string (Z.of_nat (i + k)) = fs !! k)
    ∧ (∀ key, (∀ k, (i ≤ k)%nat → key ≠ to_string (Z.of_nat k)) → map' !! key = map !! key).
Proof.
  induction l as [|x l IH] in i, map, fs |- *; intros Hl Hfresh.
  - injection Hl as <-. exists map. split_and!; [done| |done]. intros k. apply Hfresh. lia.
  - cbn [mapM] in Hl. destruct (softfork x) as [f|] eqn:Ef; [|done]. cbn in Hl.
    destruct (mapM softfork l) as [fs'|] eqn:El; [|done]. injection Hl as <-.
    destruct (IH (S i) (<[to_string (Z.of_nat (i + 0)) := f]> map) fs' eq_refl) as (map' & E & Hs & Ho).
    { intros j Hj. rewrite lookup_insert_ne; [apply Hfresh; lia|]. intros Et%to_string_inj; lia. }
    exists map'. split_and!.
    + cbn [imap softfork_entries]. unfold softfork_entry. cbn [fst snd]. rewrite Ef. cbn.
      rewrite <- E. f_equal. apply imap_ext. intros k y _. cbn. by replace (i + S k)%nat with (S i + k)%nat by lia.
    + intros [|k]; [|cbn [lookup list_lookup]; rewrite <- Hs; by rewrite Nat.add_succ_r]. rewrite Ho.
      * by rewrite lookup_insert_eq.
      * intros k Hk Et%to_string_inj; lia.
    + intros key Hkey. rewrite Ho by (intros k Hk; apply Hkey; lia). apply lookup_insert_ne. intros E'. symmetry in E'.
      revert E'. apply Hkey. lia.
Qed.

(** An array of soft forks keeps every one of them, under its position. *)
Lemma softforks_array l fs :
  mapM softfork l = Some fs →
  ∃ map, deserialize_softforks (JArray l) = Some map ∧ ∀ k, map !! to_string (Z.of_nat k) = fs !! k.
Proof.
  intros Hl. destruct (softfork_entries_seq l 0 ∅ fs Hl) as (map & E & Hs & _); [intros; apply lookup_empty|].
  by exists map.
Qed.

End softforks.

(** ** A node that is reorganised between two calls *)

Definition busy_lib : RpcLib :=
  mkRpcLib Z (λ s, match s with [z] => inr z | _ => inl (str "bad length") end) (λ z, [z]) (λ _, []) Some Some Some.

(** Two blocks above the first after one call, and another block in their place after the next. *)
Definition busy_chain (t : nat) : list Z :=
  match t with 1%nat => [100; 101; 102] | _ => [100; 200 + Z.of_nat t] end.

Definition busy_post (t : nat) (c : RpcCall) : nat * option Value :=
  (S t, Some (JObject [(str "result",
    if bool_decide (method c = "getblockcount") then JNumber (PosInt (Z.of_nat (length (busy_chain (S t))) - 1))
    else if bool_decide (method c = "getbestblockhash") then JString [default 0 (last (busy_chain (S t)))] else JBool true);
    (str "error", JNull)])).

#[export] Instance busy_laws : NodeLaws busy_lib nat busy_post busy_chain.
Proof.
  split.
  - intros t t' b r [= <- <-] [= <-]. by left.
  - intros t t' b r [= <- <-] [= <-]. left. eexists. split; [done|]. by destruct t as [|[|t]].
  - done.
Qed.

(** The date is height 2 with the hash of a block at height 1: the chain was reorganised in between. *)
Lemma node_answer_dated_witness :
  handle busy_lib nat busy_post (BlockInfo [100]) 0%nat
  = (3%nat, Ok (Dated (mkTimestamped (JBool true) (mkLastUpdated [202] 2))))
  ∧ ∃ data, data_of busy_lib nat busy_post (BlockInfo [100]) = Ok data
    ∧ false = false ∧ data 2%nat = (3%nat, Ok (JBool true))
    ∧ ∃ h, [202] = hash_to_hex busy_lib h ∧ last (busy_chain 2) = Some h
      ∧ 2 = Z.of_nat (length (busy_chain 1)) - 1
      ∧ (busy_chain 1 = busy_chain 2 → busy_chain 2 !! 2%nat = Some h).
Proof.
  split; [done|]. pose proof (node_answer_dated busy_lib nat busy_post busy_chain (BlockInfo [100]) 0%nat) as H.
  cbn [handle] in H. destruct H as (_ & _ & H). exact (H _ eq_refl).
Defined.

End NodeRpc.
