(* ===== verification/TikvLocks.v ===== *)
(** The clean-up of locks by the storage stage of polyphony
    ([src/services/polyphony-xdg/src/storage/tikv.rs]: [cleanup_tikv_locks]): the range of
    keys whose locks are resolved at the start of the worker and after a commit.  The
    locks themselves are those of TiKV, a parameter. *)

From S2P Require Import Prelude Timbre Crosscut StorageAction ReducerOutput.
Import Timbre Crosscut StorageAction ReducerOutput.

Module TikvLocks.

(** An empty end is no bound. *)
Definition cleanup_range (namespace : Namespace) (just_data : bool) : Key * Key :=
  if just_data then
    let start := encode namespace ++ [PREFIX_DATA] in
    let end_ := encode namespace ++ [PREFIX_DATA + 1] in
    (start, end_)
  else
    let dp := dataplane_id namespace in
    let instance := instance_id namespace in
    if negb (instance =? 255) then ([dp; instance], [dp; instance + 1])
    else if negb (dp =? 255) then ([dp; instance], [dp + 1])
    else ([dp; instance], []).

Section locks.
Context (Connection : Type) (legacy_cleanup_locks : Connection → Key * Key → Z → Connection * outcome WorkError Z).

Definition cleanup_tikv_locks (connection : Connection) (namespace : Namespace) (safepoint : Z) (just_data : bool)
  : Connection * outcome WorkError Z :=
  legacy_cleanup_locks connection (cleanup_range namespace just_data) safepoint.

End locks.

(** ** The keys that are covered *)

Definition namespace_ok (n : Namespace) : Prop := in_range 8 (dataplane_id n) ∧ in_range 8 (instance_id n).

Lemma encode_namespace n : namespace_ok n → encode n = [dataplane_id n; instance_id n].
Proof. intros [Hd Hi]. cbn. unfold in_range in *. by rewrite !Z.div_1_r, !Z.mod_small by lia. Qed.

(** The ranges are prefix ranges, also at the ends of the bytes. *)
Lemma cleanup_range_prefix n just_data :
  namespace_ok n →
  cleanup_range n just_data = prefix_key_range (encode n ++ if just_data then [PREFIX_DATA] else []).
Proof.
  intros Hn. unfold cleanup_range. rewrite (encode_namespace n Hn). destruct n as [d i]. cbn [dataplane_id instance_id].
  destruct just_data; [done|]. unfold prefix_key_range. cbn [app rev increment_last].
  destruct (i =? 255); [destruct (d =? 255)|]; done.
Qed.

Lemma info_key_bytes n : namespace_ok n → Prefix_info n = [PREFIX_INFO; BREAK; dataplane_id n; instance_id n].
Proof. intros Hn. unfold Prefix_info, append. by rewrite (encode_namespace n Hn). Qed.

Lemma own_key_covered n k :
  namespace_ok n → own_key n k →
  (∃ r, k = dataplane_id n :: instance_id n :: r) ↔ k ≠ Prefix_info n ∨ n = mkNamespace PREFIX_INFO BREAK.
Proof.
  intros Hn Hown. rewrite info_key_bytes by done. destruct Hown as [T ? r data| |].
  - assert (∃ rest, Prefix_data n r data = dataplane_id n :: instance_id n :: PREFIX_DATA :: rest) as [rest ->].
    { unfold Prefix_data, append_with_break, append, break_, push, enc. rewrite (encode_namespace n Hn). by eexists. }
    split; [|eauto]. intros _. left. intros [= E1 E2 E3 E4]. rewrite E1 in E3. discriminate.
  - unfold Prefix_cursor, append, enc, push. rewrite (encode_namespace n Hn). split; [|eauto]. intros _. by left.
  - rewrite info_key_bytes by done. destruct n as [d i]. cbn [dataplane_id instance_id]. split.
    + intros [r [= -> -> _]]. by right.
    + intros [?|[= -> ->]]; [done|by eexists].
Qed.

(** C21: The range whose locks are resolved when the worker starts is the range of the keys of
    the instance, whatever its identifiers, and the range after a commit that of its data
    keys.  Of the keys that a block writes it misses exactly one, the key of the entry
    that describes the instance, which does not start with the identifiers. *)
Theorem cleanup_covers_instance n outputs ops :
  namespace_ok n → outputs_to_storage_ops n outputs = Ok ops →
  (∀ k, bytes_ok k → in_key_range (cleanup_range n false) k ↔ ∃ r, k = dataplane_id n :: instance_id n :: r)
  ∧ (∀ k, bytes_ok k →
       in_key_range (cleanup_range n true) k ↔ ∃ r, k = dataplane_id n :: instance_id n :: PREFIX_DATA :: r)
  ∧ (∀ a, a ∈ ops → bytes_ok (key a) →
       in_key_range (cleanup_range n false) (key a) ↔ key a ≠ Prefix_info n ∨ n = mkNamespace PREFIX_INFO BREAK).
Proof.
  intros Hn Hops.
  assert (Hall : ∀ k, bytes_ok k → in_key_range (cleanup_range n false) k ↔ ∃ r, k = dataplane_id n :: instance_id n :: r).
  { intros k Hk. rewrite cleanup_range_prefix, app_nil_r, prefix_key_range_spec, encode_namespace by done. done. }
  split_and!; [done| |].
  { intros k Hk. rewrite cleanup_range_prefix, prefix_key_range_spec, encode_namespace by done. done. }
  intros a Ha Hk. rewrite Hall by done.
  assert (Hrep : reported n a) by (eapply Forall_forall; [by eapply outputs_reported|done]). destruct Hrep as [_ Hown].
  by apply own_key_covered.
Qed.

(** The last instance of the last data plane: a range without an end. *)
Lemma cleanup_covers_instance_witness :
  cleanup_range (mkNamespace 255 255) false = ([255; 255], [])
  ∧ ∃ ops, outputs_to_storage_ops (mkNamespace 255 255) [Cursor (mkPoint 5 (replicate 32 7)) false (mkUInt 9)] = Ok ops
    ∧ (∀ a, a ∈ ops → bytes_ok (key a) →
         in_key_range (cleanup_range (mkNamespace 255 255) false) (key a)
         ↔ key a ≠ Prefix_info (mkNamespace 255 255) ∨ mkNamespace 255 255 = mkNamespace PREFIX_INFO BREAK).
Proof.
  split; [done|]. eexists. split; [by vm_compute|].
  refine (proj2 (proj2 (cleanup_covers_instance (mkNamespace 255 255)
    [Cursor (mkPoint 5 (replicate 32 7)) false (mkUInt 9)] _ _ _))).
  - by split.
  - by vm_compute.
Defined.

End TikvLocks.
