(* ===== verification/Texts.v ===== *)
(** Identifiers and points as text: [InscriptionId] with its [Display] and [FromStr]
    ([storage/inscriptions/inscription_id.rs], which polyphony has a copy of), the form in
    which the compressor stores it, and [PointArg] of polyphony's command line
    ([crosscut/args.rs]).  The text of a transaction hash and of a block hash are those of
    the bitcoin crate, parameters. *)

From S2P Require Import Prelude Decimal Types Brc20 Crosscut Registry.
Import Decimal Types Brc20 Crosscut.

Module Texts.

(** ** Inscription identifiers *)

Inductive ParseError : Type :=
| Character (c : Z)
| Length (len : nat)
| Separator (c : Z)
| ErrTxid
| ErrIndex (e : IntErrorKind).

(** The text of a transaction hash: 64 ASCII characters that are read back. *)
Class TxidText (txid_parse : rust_string → option Txid) (txid_to_string : Txid → rust_string) : Prop := {
  txid_text_length t : in_range 256 t → length (txid_to_string t) = 64%nat;
  txid_text_ascii t : in_range 256 t → Forall (λ c, c < 128) (txid_to_string t);
  txid_text_parse t : in_range 256 t → txid_parse (txid_to_string t) = Some t;
}.

Section inscription_id.
Context (txid_parse : rust_string → option Txid) (txid_to_string : Txid → rust_string).

Definition InscriptionId_to_string (i : InscriptionId) : rust_string :=
  txid_to_string (iid_txid i) ++ 105 :: to_string (iid_index i).

(** A text of ASCII characters has as many bytes as characters. *)
Definition InscriptionId_from_str (s : rust_string) : outcome ParseError InscriptionId :=
  match list_find (λ c, 128 ≤ c) s with
  | Some (_, c) => Err (Character c)
  | None =>
      if (length s <? 66)%nat then Err (Length (length s))
      else
        separator ← unwrap (s !! 64%nat);
        if negb (separator =? 105) then Err (Separator separator)
        else
          txid ← ok_or ErrTxid (txid_parse (take 64 s));
          index ← match parse_uint 32 (drop 65 s) with
                  | Ok index => Ok index
                  | Err e => Err (ErrIndex e)
                  | Panic => Panic
                  end;
          Ok (mkInscriptionId txid index)
  end.

Definition InscriptionId_from (txid : Txid) : InscriptionId := mkInscriptionId txid 0.

Lemma ascii_not_found (s : rust_string) : Forall (λ c, c < 128) s → list_find (λ c, 128 ≤ c) s = None.
Proof. intros H. apply list_find_None. eapply Forall_impl; [exact H|]. cbn. lia. Qed.

Definition id_ok (i : InscriptionId) : Prop := in_range 256 (iid_txid i) ∧ in_range 32 (iid_index i).

(** Reading accepts exactly the texts of the form 64 characters that are a hash, [i], and
    a number of 32 bits, and it never panics. *)
Lemma from_str_iff s i :
  InscriptionId_from_str s = Ok i ↔
  ∃ t v, s = t ++ 105 :: v ∧ length t = 64%nat ∧ Forall (λ c, c < 128) s
    ∧ txid_parse t = Some (iid_txid i) ∧ parse_uint 32 v = Ok (iid_index i).
Proof.
  unfold InscriptionId_from_str, rust_string in *. split.
  - destruct (list_find _ s) as [[? ?]|] eqn:Ef; [done|]. apply list_find_None in Ef.
    destruct (Nat.ltb_spec (length s) 66) as [|Hl]; [done|].
    destruct (s !! 64%nat) as [c|] eqn:Ec; [|done]. cbn [unwrap mbind outcome_bind].
    destruct (Z.eqb_spec c 105) as [->|]; [|done]. cbn [negb].
    destruct (txid_parse (take 64 s)) as [t|] eqn:Et; [|done]. cbn.
    destruct (parse_uint 32 (drop 65 s)) as [v| |] eqn:Ev; [|done..]. cbn. intros [= <-].
    exists (take 64 s), (drop 65 s). split_and!; [|rewrite length_take; lia| |done..].
    + by rewrite take_drop_middle.
    + eapply Forall_impl; [exact Ef|]. cbn. lia.
  - intros (t & v & -> & Ht & Ha & Hp & Hv). rewrite ascii_not_found by done.
    assert (v ≠ []) as Hne by (by intros ->). rewrite length_app. cbn [length].
    destruct v as [|c v]; [done|]. cbn [length]. rewrite (proj2 (Nat.ltb_ge _ _)) by lia.
    rewrite lookup_app_r by lia. rewrite Ht. cbn [unwrap lookup list_lookup Nat.sub mbind outcome_bind Z.eqb negb Pos.eqb].
    rewrite <- Ht at 1. rewrite take_app_length, Hp. cbn [ok_or mbind outcome_bind].
    change 65%nat with (64 + 1)%nat. rewrite <- Ht, <- drop_drop, drop_app_length. cbn [drop].
    rewrite Hv. by destruct i.
Qed.

Lemma from_str_no_panic s : InscriptionId_from_str s ≠ Panic.
Proof.
  unfold InscriptionId_from_str, rust_string in *. destruct (list_find _ s) as [[? ?]|]; [done|].
  destruct (Nat.ltb_spec (length s) 66) as [|Hl]; [done|].
  destruct (lookup_lt_is_Some_2 s 64) as [c Hc]; [lia|]. rewrite Hc. cbn [unwrap mbind outcome_bind].
  destruct (negb _); [done|]. destruct (txid_parse _); [|done]. cbn.
  pose proof (parse_uint_no_panic 32 (drop 65 s)). by destruct (parse_uint 32 _).
Qed.

(** The text under which an inscription identifier is stored is read back as that
    identifier, no two identifiers have the same text, and reading never panics. *)
Theorem inscription_id_text `{!TxidText txid_parse txid_to_string} i j :
  id_ok i → id_ok j →
  InscriptionId_from_str (InscriptionId_to_string i) = Ok i
  ∧ (InscriptionId_to_string i = InscriptionId_to_string j → i = j)
  ∧ ∀ s, InscriptionId_from_str s ≠ Panic.
Proof.
  assert (Hrt : ∀ i, id_ok i → InscriptionId_from_str (InscriptionId_to_string i) = Ok i).
  { intros k [Ht Hk]. apply from_str_iff. eexists _, _. split; [done|]. split_and!.
    - by apply txid_text_length.
    - apply Forall_app. split; [by apply txid_text_ascii|]. apply Forall_cons. split; [lia|].
      eapply Forall_impl; [apply to_string_digits; unfold in_range in Hk; lia|]. cbn. unfold is_digit. lia.
    - by apply txid_text_parse.
    - by apply parse_to_string. }
  intros Hi Hj. split_and!; [by apply Hrt| |apply from_str_no_panic].
  intros E. pose proof (Hrt i Hi) as Ei. rewrite E, (Hrt j Hj) in Ei. congruence.
Qed.

End inscription_id.

(** A text of hashes: the hexadecimal digits of their bytes. *)
Definition hex_char (n : Z) : Z := if n <? 10 then 48 + n else 87 + n.
Definition hex_digit (c : Z) : Z := if c <? 58 then c - 48 else c - 87.
Definition hex_text (t : Txid) : rust_string := be_bytes 32 t ≫= λ b, [hex_char (b / 16); hex_char (b mod 16)].

Fixpoint hex_bytes (s : rust_string) : option (list Z) :=
  match s with
  | [] => Some []
  | [_] => None
  | a :: b :: s => l ← hex_bytes s; Some (hex_digit a * 16 + hex_digit b :: l)
  end.
Definition hex_parse (s : rust_string) : option Txid :=
  if bool_decide (length s = 64%nat) then of_be_bytes <$> hex_bytes s else None.

Lemma hex_digit_char n : 0 ≤ n < 16 → hex_digit (hex_char n) = n ∧ hex_char n < 128.
Proof. intros Hn. unfold hex_digit, hex_char. destruct (Z.ltb_spec n 10), (Z.ltb_spec (48 + n) 58), (Z.ltb_spec (87 + n) 58); lia. Qed.

Lemma hex_byte b : in_range 8 b →
  hex_digit (hex_char (b / 16)) * 16 + hex_digit (hex_char (b mod 16)) = b
  ∧ hex_char (b / 16) < 128 ∧ hex_char (b mod 16) < 128.
Proof.
  unfold in_range. change (2 ^ 8) with 256. intros Hb. pose proof (Z.mod_pos_bound b 16 ltac:(lia)).
  assert (0 ≤ b / 16 < 16) by (split; [apply Z.div_pos|apply Z.div_lt_upper_bound]; lia).
  destruct (hex_digit_char (b / 16)) as [-> ?]; [done|]. destruct (hex_digit_char (b mod 16)) as [-> ?]; [done|].
  pose proof (Z.div_mod b 16). lia.
Qed.

Lemma hex_bytes_text l : bytes_ok l →
  hex_bytes (l ≫= λ b, [hex_char (b / 16); hex_char (b mod 16)]) = Some l
  ∧ length (l ≫= λ b, [hex_char (b / 16); hex_char (b mod 16)]) = (2 * length l)%nat
  ∧ Forall (λ c, c < 128) (l ≫= λ b, [hex_char (b / 16); hex_char (b mod 16)]).
Proof.
  induction 1 as [|b l Hb _ (IH1 & IH2 & IH3)]; [by split_and!|]. destruct (hex_byte b Hb) as (Eb & ? & ?).
  cbn [mbind list_bind app hex_bytes length]. split_and!.
  - rewrite IH1. cbn [mbind option_bind]. by rewrite Eb.
  - rewrite IH2. lia.
  - by repeat constructor.
Qed.

#[export] Instance hex_txid_text : TxidText hex_parse hex_text.
Proof.
  split; intros t Ht; destruct (hex_bytes_text (be_bytes 32 t) (be_bytes_ok 32 t)) as (E & El & Ea);
    rewrite length_be_bytes in El; [done..|].
  unfold hex_parse, hex_text. rewrite bool_decide_true, E by done. cbn [fmap option_fmap option_map]. by rewrite of_be_be_bytes_small.
Qed.

Lemma inscription_id_text_witness :
  let i := mkInscriptionId 5 7 in let j := mkInscriptionId 6 7 in
  InscriptionId_from_str hex_parse (InscriptionId_to_string hex_text i) = Ok i
  ∧ (InscriptionId_to_string hex_text i = InscriptionId_to_string hex_text j → i = j)
  ∧ ∀ s, InscriptionId_from_str hex_parse s ≠ Panic.
Proof. apply (inscription_id_text hex_parse hex_text (mkInscriptionId 5 7) (mkInscriptionId 6 7)); done. Defined.

(** ** Points *)

Inductive PointArg : Type := Origin | Specific (height : Z) (hash : rust_string).

(** ["origin"]. *)
Definition origin : rust_string := Registry.str "origin".

Definition PointArg_to_string (p : PointArg) : rust_string :=
  match p with Origin => origin | Specific height hash => to_string height ++ 44 :: hash end.

(** The parts after the second comma are dropped. *)
Definition PointArg_from_str (s : rust_string) : outcome PolyError PointArg :=
  if bool_decide (44 ∈ s) then
    match split_on 44 s with
    | height :: hash :: _ =>
        match parse_uint 64 height with
        | Ok height => Ok (Specific height hash)
        | Err _ => Err Message
        | Panic => Panic
        end
    | [height] => match parse_uint 64 height with Ok _ => Panic | Err _ => Err Message | Panic => Panic end
    | [] => Panic
    end
  else if bool_decide (s = origin) then Ok Origin else Err Message.

Definition PointArg_from (hash_to_string : list Z → rust_string) (p : Point) : PointArg :=
  Specific (pt_height p) (hash_to_string (pt_hash p)).

Lemma split_on_first c s :
  split_on c s = match split_once c s with Some (a, b) => a :: split_on c b | None => [s] end.
Proof.
  induction s as [|x s IH]; cbn [split_on split_once]; [done|].
  destruct (Z.eqb_spec x c) as [->|Hx]; rewrite IH; by destruct (split_once c s) as [[]|].
Qed.

(** A point is read back from its text when the text of its hash has no comma; reading
    never panics. *)
Lemma point_text height hash :
  in_range 64 height → Forall (λ c, c ≠ 44) hash →
  PointArg_from_str (PointArg_to_string (Specific height hash)) = Ok (Specific height hash).
Proof.
  intros Hh Hhash. unfold PointArg_from_str, PointArg_to_string. rewrite bool_decide_true by set_solver.
  rewrite Registry.split_on_app, split_on_none; [by rewrite parse_to_string|done|].
  apply (digits_ne 44); [done|]. apply to_string_digits. unfold in_range in Hh. lia.
Qed.

Lemma point_from_str_no_panic s : PointArg_from_str s ≠ Panic.
Proof.
  unfold PointArg_from_str. destruct (bool_decide_reflect (44 ∈ s)) as [Hin|]; [|by destruct (bool_decide _)].
  rewrite split_on_first.
  assert (∃ a b, split_once 44 s = Some (a, b)) as (a & b & ->).
  { apply list_elem_of_split in Hin as (l & r & ->). induction l as [|x l [a [b IH]]]; cbn; [by eexists _, _|].
    destruct (x =? 44); [by eexists _, _|]. rewrite IH. by eexists _, _. }
  destruct (split_on_parts 44 b) as [_ Hne]. destruct (split_on 44 b); [done|].
  pose proof (parse_uint_no_panic 64 a). by destruct (parse_uint 64 a).
Qed.

Example point_origin : PointArg_from_str (PointArg_to_string Origin) = Ok Origin.
Proof. by vm_compute. Qed.

End Texts.
