(* ===== verification/Genesis.v ===== *)
(** The networks of the compressor ([src/services/compressor-xdg/src/sync/mod.rs]): the
    genesis blocks and their hashes, the magic bytes of the node protocol, the retry
    policy and the sizes the pipeline is made with.

    The hash of a block, the identifier of a transaction and the decoders are those of the
    bitcoin crate, and hexadecimal that of the hex crate: parameters with the documented
    behaviour as laws.  What the laws name is defined here: SHA-256 (FIPS 180-4), the bytes
    of headers, and those of transactions without witnesses (the only ones of Dogecoin). *)

From S2P Require Import Prelude Types DunesUpdater.
Import Types DunesUpdater.

Module Genesis.

(** ** SHA-256 *)

Definition add32 (a b : Z) : Z := wrap 32 (a + b).
Definition rotr (n x : Z) : Z := Z.lor (Z.shiftr x n) (wrap 32 (Z.shiftl x (32 - n))).
Definition not32 (x : Z) : Z := 2 ^ 32 - 1 - x.

(** The constants are, as the standard defines them, the first 32 bits of the fractional
    parts of the cube roots of the first 64 primes and of the square roots of the first 8. *)
Definition primes : list Z :=
  filter (λ p, Forall (λ d, p mod d ≠ 0) (seqZ 2 (Z.min 16 (p - 2)))) (seqZ 2 310).

(** The largest [r] below [2 ^ n] added to [acc] whose cube is at most [x]. *)
Fixpoint cube_root (n : nat) (x acc : Z) : Z :=
  match n with
  | O => acc
  | S n => let r := acc + 2 ^ Z.of_nat n in cube_root n x (if r ^ 3 <=? x then r else acc)
  end.

Definition round_constants : list Z := Eval vm_compute in map (λ p, wrap 32 (cube_root 36 (p * 2 ^ 96) 0)) primes.
Definition initial : list Z := Eval vm_compute in map (λ p, wrap 32 (Z.sqrt (p * 2 ^ 64))) (take 8 primes).

(** The words of the schedule, the last one first. *)
Fixpoint extend_words (n : nat) (ws : list Z) : list Z :=
  match n with
  | O => ws
  | S n =>
      let w i := nth i ws 0 in
      let s0 := Z.lxor (Z.lxor (rotr 7 (w 14%nat)) (rotr 18 (w 14%nat))) (Z.shiftr (w 14%nat) 3) in
      let s1 := Z.lxor (Z.lxor (rotr 17 (w 1%nat)) (rotr 19 (w 1%nat))) (Z.shiftr (w 1%nat) 10) in
      extend_words n (add32 (add32 (w 15%nat) s0) (add32 (w 6%nat) s1) :: ws)
  end.

Definition sha_round (s : list Z) (kw : Z * Z) : list Z :=
  match s with
  | [a; b; c; d; e; f; g; h] =>
      let s1 := Z.lxor (Z.lxor (rotr 6 e) (rotr 11 e)) (rotr 25 e) in
      let ch := Z.lxor (Z.land e f) (Z.land (not32 e) g) in
      let t1 := add32 (add32 (add32 h s1) (add32 ch kw.1)) kw.2 in
      let s0 := Z.lxor (Z.lxor (rotr 2 a) (rotr 13 a)) (rotr 22 a) in
      let maj := Z.lxor (Z.lxor (Z.land a b) (Z.land a c)) (Z.land b c) in
      [add32 t1 (add32 s0 maj); a; b; c; add32 d t1; e; f; g]
  | _ => s
  end.

Fixpoint words (bytes : list Z) : list Z :=
  match bytes with
  | a :: b :: c :: d :: bytes => of_be_bytes [a; b; c; d] :: words bytes
  | _ => []
  end.

Definition compress (state : list Z) (block : list Z) : list Z :=
  zip_with add32 state (foldl sha_round state (zip round_constants (rev (extend_words 48 (rev (words block)))))).

Fixpoint blocks (n : nat) (bytes : list Z) : list (list Z) :=
  match n with O => [] | S n => take 64 bytes :: blocks n (drop 64 bytes) end.

Definition pad (bytes : list Z) : list Z :=
  let len := Z.of_nat (length bytes) in
  bytes ++ 128 :: replicate (Z.to_nat ((55 - len) mod 64)) 0 ++ be_bytes 8 (8 * len).

Definition sha256 (bytes : list Z) : list Z :=
  let padded := pad bytes in
  foldl compress initial (blocks (length padded / 64) padded) ≫= be_bytes 4.

Definition sha256d (bytes : list Z) : list Z := sha256 (sha256 bytes).

Lemma be_bytes_words_shape (ws : list Z) : length (ws ≫= be_bytes 4) = (4 * length ws)%nat ∧ bytes_ok (ws ≫= be_bytes 4).
Proof.
  induction ws as [|w ws [IH1 IH2]]; [by split; constructor|]. rewrite bind_cons, length_app, length_be_bytes.
  split; [rewrite IH1; cbn [length]; lia|]. apply Forall_app. split; [apply be_bytes_ok|done].
Qed.

Lemma sha_round_length s kw : length s = 8%nat → length (sha_round s kw) = 8%nat.
Proof. intros H. do 8 (destruct s as [|? s]; [done|]). by destruct s. Qed.

Lemma compress_length s b : length s = 8%nat → length (compress s b) = 8%nat.
Proof.
  intros H. unfold compress. rewrite length_zip_with. generalize (zip round_constants (rev (extend_words 48 (rev (words b))))).
  intros kws. assert (length (foldl sha_round s kws) = 8%nat) as ->; [|lia].
  revert s H. induction kws as [|kw kws IH]; intros s H; [done|]. cbn [foldl]. by apply IH, sha_round_length.
Qed.

(** A digest has 32 bytes. *)
Lemma sha256_shape bytes : length (sha256 bytes) = 32%nat ∧ bytes_ok (sha256 bytes).
Proof.
  unfold sha256. set (bs := blocks _ _). destruct (be_bytes_words_shape (foldl compress initial bs)) as [-> Hb].
  split; [|done]. clear Hb. assert (length (foldl compress initial bs) = 8%nat) as ->; [|done].
  assert (H : length initial = 8%nat) by done. revert H. generalize initial. clearbody bs.
  induction bs as [|b bs IH]; intros s H; [done|]. cbn [foldl]. by apply IH, compress_length.
Qed.

Lemma sha256d_shape bytes : length (sha256d bytes) = 32%nat ∧ bytes_ok (sha256d bytes).
Proof. apply sha256_shape. Qed.

#[local] Opaque sha256 sha256d.

(** The text of bytes, as the hex crate reads it. *)
Definition hex_value (a : Ascii.ascii) : option Z :=
  let n := Z.of_N (Ascii.N_of_ascii a) in
  if (48 <=? n) && (n <=? 57) then Some (n - 48)
  else if (97 <=? n) && (n <=? 102) then Some (n - 87)
  else if (65 <=? n) && (n <=? 70) then Some (n - 55) else None.

Fixpoint unhex (s : string) : option (list Z) :=
  match s with
  | EmptyString => Some []
  | String a (String b s) =>
      h ← hex_value a; l ← hex_value b; r ← unhex s; Some (16 * h + l :: r)
  | _ => None
  end.

(** The test vector of the standard. *)
Example sha256_abc :
  unhex "ba7816bf8f01cfea414140de5dae2223b00361a396177a9cb410ff61f20015ad" = Some (sha256 [97; 98; 99]).
Proof. by vm_compute. Qed.

(** ** Genesis blocks *)

Record Header : Type := mkHeader {
  version : Z; prev_blockhash : list Z; merkle_root : list Z; time : Z; bits : Z; nonce : Z;
}.

Definition le_bytes (n : nat) (z : Z) : list Z := rev (be_bytes n z).

(** The 80 bytes of a header on the network. *)
Definition header_bytes (h : Header) : list Z :=
  le_bytes 4 (version h) ++ prev_blockhash h ++ merkle_root h ++ le_bytes 4 (time h) ++ le_bytes 4 (bits h)
  ++ le_bytes 4 (nonce h).

(** Headers as the bitcoin crate can hold them. *)
Definition header_ok (h : Header) : Prop :=
  in_range 31 (version h) ∧ length (prev_blockhash h) = 32%nat ∧ bytes_ok (prev_blockhash h)
  ∧ length (merkle_root h) = 32%nat ∧ bytes_ok (merkle_root h)
  ∧ in_range 32 (time h) ∧ in_range 32 (bits h) ∧ in_range 32 (nonce h).

(** *** Transactions on the network *)

Record NetTxIn : Type := mkNetTxIn { nt_txid : list Z; nt_vout : Z; nt_script_sig : list Z; nt_sequence : Z }.
Record NetTxOut : Type := mkNetTxOut { nt_value : Z; nt_script_pubkey : list Z }.
Record NetTx : Type := mkNetTx {
  nt_version : Z; nt_input : list NetTxIn; nt_output : list NetTxOut; nt_lock_time : Z;
}.

(** A length, in one, three, five or nine bytes. *)
Definition compact_size (n : Z) : list Z :=
  if n <? 253 then [n]
  else if n <? 2 ^ 16 then 253 :: le_bytes 2 n
  else if n <? 2 ^ 32 then 254 :: le_bytes 4 n else 255 :: le_bytes 8 n.

Definition var_bytes (l : list Z) : list Z := compact_size (Z.of_nat (length l)) ++ l.

Definition txin_bytes (i : NetTxIn) : list Z :=
  nt_txid i ++ le_bytes 4 (nt_vout i) ++ var_bytes (nt_script_sig i) ++ le_bytes 4 (nt_sequence i).
Definition txout_bytes (o : NetTxOut) : list Z := le_bytes 8 (nt_value o) ++ var_bytes (nt_script_pubkey o).

(** The serialisation without witnesses. *)
Definition tx_bytes (t : NetTx) : list Z :=
  le_bytes 4 (nt_version t)
  ++ compact_size (Z.of_nat (length (nt_input t))) ++ (nt_input t ≫= txin_bytes)
  ++ compact_size (Z.of_nat (length (nt_output t))) ++ (nt_output t ≫= txout_bytes)
  ++ le_bytes 4 (nt_lock_time t).

(** Values of their width, at least one input (none would announce witnesses), and at most
    the size of a block. *)
Definition net_tx_ok (t : NetTx) : Prop :=
  in_range 31 (nt_version t) ∧ in_range 32 (nt_lock_time t) ∧ nt_input t ≠ []
  ∧ Forall (λ i, length (nt_txid i) = 32%nat ∧ bytes_ok (nt_txid i) ∧ in_range 32 (nt_vout i)
                 ∧ bytes_ok (nt_script_sig i) ∧ in_range 32 (nt_sequence i)) (nt_input t)
  ∧ Forall (λ o, in_range 63 (nt_value o) ∧ bytes_ok (nt_script_pubkey o)) (nt_output t)
  ∧ Z.of_nat (length (tx_bytes t)) ≤ 1000000.

Definition genesis_merkle_root : string := "696ad20e2dd4365c7459b4a4a5af743d5e92c6da3229e6532cd605f6533f2a5b".
Definition genesis_coinbase : string := "01000000010000000000000000000000000000000000000000000000000000000000000000ffffffff1004ffff001d0104084e696e746f6e646fffffffff010058850c020000004341040184710fa689ad5023690c80f3a49c8f13f8d45b8c857fbcbc8bc4a8e4d3eb4b10f4d4604fa08dce601aaf0f470216fe1b51850b4acf21b179c45070ac7b03a9ac00000000".

Section genesis.
Context (hex_decode : string → option (list Z)).
Context (Transaction : Type) (consensus_decode : list Z → option Transaction) (compute_txid : Transaction → list Z).
Context (block_hash : Header → list Z).

Record Block : Type := mkBlock { header : Header; txdata : list Transaction }.

(** The genesis blocks of Bitcoin, constants of the bitcoin crate. *)
Context (bitcoin_genesis : bool → Block).

Definition from_slice (l : list Z) : option (list Z) := if bool_decide (length l = 32%nat) then Some l else None.

(** The two networks of Dogecoin differ in time and nonce. *)
Definition dogecoin_genesis (time nonce : Z) : outcome unit Block :=
  root ← unwrap (hex_decode genesis_merkle_root);
  merkle_root ← unwrap (from_slice root);
  raw ← unwrap (hex_decode genesis_coinbase);
  tx ← unwrap (consensus_decode raw);
  Ok (mkBlock (mkHeader 1 (replicate 32 0) merkle_root time 0x1e0ffff0 nonce) [tx]).

Definition genesis_block (n : BitcoinCompatibleNetwork) : outcome unit Block :=
  match n with
  | Bitcoin => Ok (bitcoin_genesis false)
  | BitcoinTestnet => Ok (bitcoin_genesis true)
  | Dogecoin => dogecoin_genesis 1386325540 99943
  | DogecoinTestnet => dogecoin_genesis 1391503289 997879
  end.

Definition genesis_block_hash (n : BitcoinCompatibleNetwork) : outcome unit (list Z) :=
  match n with
  | Bitcoin => Ok (block_hash (header (bitcoin_genesis false)))
  | BitcoinTestnet => Ok (block_hash (header (bitcoin_genesis true)))
  | Dogecoin => b ← dogecoin_genesis 1386325540 99943; Ok (block_hash (header b))
  | DogecoinTestnet =>
      raw ← unwrap (hex_decode "9e555073d0c4f36456db8951f449704d544d2826d9aa60636b40374626780abb");
      unwrap (from_slice raw)
  end.

Inductive Network : Type := NetBitcoin | NetTestnet | NetRegtest.

(** Regtest indexes dunes from block 0. *)
Definition into_network (n : BitcoinCompatibleNetwork) : Network :=
  match n with Bitcoin => NetBitcoin | BitcoinTestnet => NetTestnet | Dogecoin | DogecoinTestnet => NetRegtest end.

Context (network_magic : Network → list Z).

Definition magic (n : BitcoinCompatibleNetwork) : list Z :=
  match n with
  | Bitcoin => network_magic NetBitcoin
  | BitcoinTestnet => network_magic NetTestnet
  | Dogecoin => [0xc0; 0xc0; 0xc0; 0xc0]
  | DogecoinTestnet => [0xfc; 0xc1; 0xb7; 0xdc]
  end.

(** What the crates document: hexadecimal; that a transaction is decoded from its bytes,
    and that, without witnesses, its identifier is their hash; the hash of a header. *)
Class CrateLaws : Prop := {
  hex_decodes s l : unhex s = Some l → hex_decode s = Some l;
  decodes t : net_tx_ok t → ∃ tx, consensus_decode (tx_bytes t) = Some tx ∧ compute_txid tx = sha256d (tx_bytes t);
  block_hash_sha256d h : header_ok h → block_hash h = sha256d (header_bytes h);
}.

(** The merkle root of a block with one transaction is its identifier. *)
Definition merkle_root_ok (b : Block) : Prop := map compute_txid (txdata b) = [merkle_root (header b)].

Context `{!CrateLaws}.

(** The coinbase of the first block, as a transaction: one input, with the text Nintondo,
    and 88 coins. *)
Definition genesis_script_sig : list Z := [0x04; 0xff; 0xff; 0x00; 0x1d; 0x01; 0x04; 0x08; 78; 105; 110; 116; 111; 110; 100; 111].
Definition genesis_script_pubkey : list Z :=
  default [] (unhex "41040184710fa689ad5023690c80f3a49c8f13f8d45b8c857fbcbc8bc4a8e4d3eb4b10f4d4604fa08dce601aaf0f470216fe1b51850b4acf21b179c45070ac7b03a9ac").
Definition genesis_tx : NetTx :=
  mkNetTx 1 [mkNetTxIn (replicate 32 0) (2 ^ 32 - 1) genesis_script_sig (2 ^ 32 - 1)]
    [mkNetTxOut 8800000000 genesis_script_pubkey] 0.

Lemma genesis_tx_ok : net_tx_ok genesis_tx.
Proof.
  assert (Hbytes : ∀ l, forallb (λ b, (0 <=? b) && (b <? 256)) l = true → bytes_ok l).
  { intros l Hl. apply Forall_forall. intros b Hb%list_elem_of_In. rewrite forallb_forall in Hl.
    apply Hl, andb_true_iff in Hb as [?%Z.leb_le ?%Z.ltb_lt]. done. }
  split; [done|]. split; [done|]. split; [done|]. split; [|split].
  - constructor; [|done]. split_and!; [done|by apply Hbytes|done|by apply Hbytes|done].
  - constructor; [|done]. split; [done|]. by apply Hbytes; vm_compute.
  - apply Z.leb_le. by vm_compute.
Qed.

Lemma genesis_coinbase_bytes : unhex genesis_coinbase = Some (tx_bytes genesis_tx).
Proof. by vm_compute. Qed.

Lemma genesis_merkle_root_bytes : unhex genesis_merkle_root = Some (sha256d (tx_bytes genesis_tx)).
Proof. by vm_compute. Qed.

Definition genesis_header (t x : Z) : Header :=
  mkHeader 1 (replicate 32 0) (sha256d (tx_bytes genesis_tx)) t 0x1e0ffff0 x.

Lemma genesis_header_ok t x : in_range 32 t → in_range 32 x → header_ok (genesis_header t x).
Proof.
  intros Ht Hx.
  unfold header_ok. cbn [genesis_header version prev_blockhash merkle_root time bits nonce].
  split; [done|]. split; [done|]. split; [by apply Forall_replicate|].
  split; [apply sha256d_shape|]. split; [apply sha256d_shape|]. done.
Qed.

Lemma dogecoin_genesis_of root raw tx t x :
  unhex genesis_merkle_root = Some root → length root = 32%nat → unhex genesis_coinbase = Some raw →
  consensus_decode raw = Some tx → compute_txid tx = root →
  ∃ b, dogecoin_genesis t x = Ok b ∧ merkle_root_ok b
    ∧ header b = mkHeader 1 (replicate 32 0) root t 0x1e0ffff0 x.
Proof.
  intros Hroot Hl Hraw Htx Hid. unfold dogecoin_genesis. rewrite (hex_decodes _ _ Hroot).
  cbn [unwrap mbind outcome_bind]. unfold from_slice at 1. rewrite bool_decide_true by exact Hl.
  cbn [unwrap mbind outcome_bind]. rewrite (hex_decodes _ _ Hraw). cbn [unwrap mbind outcome_bind]. rewrite Htx.
  cbn [unwrap mbind outcome_bind]. eexists. split; [done|]. split; [|done].
  unfold merkle_root_ok. cbn [map txdata header merkle_root]. by rewrite Hid.
Qed.

Lemma dogecoin_genesis_ok t x :
  ∃ b, dogecoin_genesis t x = Ok b ∧ merkle_root_ok b ∧ header b = genesis_header t x.
Proof.
  destruct (decodes genesis_tx genesis_tx_ok) as (tx & Etx & Eid).
  exact (dogecoin_genesis_of _ _ tx t x genesis_merkle_root_bytes (proj1 (sha256d_shape _)) genesis_coinbase_bytes Etx Eid).
Qed.

(** C22: The genesis blocks of both networks of Dogecoin decode without a panic (their
    coinbase is the serialisation of a transaction), their merkle root is the identifier of
    their one transaction, and the hash from which the synchronisation starts (a constant
    for the test network) is the double SHA-256 of the header of the block. *)
Theorem genesis_hash_correct n :
  n = Dogecoin ∨ n = DogecoinTestnet →
  ∃ b, genesis_block n = Ok b ∧ merkle_root_ok b ∧ genesis_block_hash n = Ok (block_hash (header b))
    ∧ block_hash (header b) = sha256d (header_bytes (header b))
    ∧ length (block_hash (header b)) = 32%nat ∧ bytes_ok (block_hash (header b)).
Proof.
  intros Hn. assert (∃ t x, in_range 32 t ∧ in_range 32 x ∧ genesis_block n = dogecoin_genesis t x
    ∧ (n = DogecoinTestnet → t = 1391503289 ∧ x = 997879) ∧ (n = Dogecoin → t = 1386325540 ∧ x = 99943))
    as (t & x & Ht & Hx & -> & Ht' & Hm').
  { destruct Hn as [-> | ->]; [exists 1386325540, 99943|exists 1391503289, 997879]; by vm_compute. }
  destruct (dogecoin_genesis_ok t x) as (b & Hb & Hm & Hh). exists b.
  pose proof (block_hash_sha256d _ (genesis_header_ok t x Ht Hx)) as Hs. rewrite <- Hh in Hs.
  assert (Hshape : length (block_hash (header b)) = 32%nat ∧ bytes_ok (block_hash (header b)))
    by (rewrite Hs; apply sha256d_shape).
  split; [exact Hb|]. split; [exact Hm|]. split; [|exact (conj Hs Hshape)]. destruct Hn as [-> | ->]; cbn [genesis_block_hash].
  - destruct (Hm' eq_refl) as [-> ->]. by rewrite Hb.
  - destruct (Ht' eq_refl) as [-> ->].
    assert (E : unhex "9e555073d0c4f36456db8951f449704d544d2826d9aa60636b40374626780abb" = Some (block_hash (header b))).
    { rewrite Hs, Hh. by vm_compute. }
    rewrite (hex_decodes _ _ E). cbn. unfold from_slice.
    by rewrite bool_decide_true by apply Hshape.
Qed.

End genesis.

(** Transactions as their bytes. *)
#[export] Instance bytes_laws : CrateLaws unhex (list Z) Some sha256d (λ h, sha256d (header_bytes h)).
Proof. split; [done|by eauto|done]. Qed.

Definition no_block : Block (list Z) := mkBlock (list Z) (mkHeader 0 [] [] 0 0 0) [].

(** The hash of the first block of the main network, as explorers show it. *)
Lemma genesis_hash_correct_witness :
  (∃ l, unhex "1a91e3dace36e2be3bf030a65679fe821aa1d6ef92e7c9902eb318182c355691" = Some l
     ∧ genesis_block_hash unhex (list Z) Some (λ h, sha256d (header_bytes h)) (λ _, no_block) Dogecoin = Ok (rev l))
  ∧ ∃ b, genesis_block unhex (list Z) Some (λ _, no_block) DogecoinTestnet = Ok b
      ∧ genesis_block_hash unhex (list Z) Some (λ h, sha256d (header_bytes h)) (λ _, no_block) DogecoinTestnet
        = Ok (sha256d (header_bytes (header (list Z) b))).
Proof.
  split; [eexists; split; [by vm_compute|by vm_compute]|].
  destruct (genesis_hash_correct unhex (list Z) Some sha256d (λ h, sha256d (header_bytes h)) (λ _, no_block) DogecoinTestnet)
    as (b & Hb & _ & Hh & _); [by right|]. by exists b.
Defined.

End Genesis.
