(* ===== verification/TimbreStructs.v ===== *)
(** The rest of the storage format: signed integers and characters
    ([src/crates/timbre-xbt/src/encdec]), and the keys, values and cursors of the reducers
    that the format has and that polyphony does not run here
    ([src/crates/timbre-xbt/src/reducers]), with the sizes that the comments of the
    structs give. *)

From S2P Require Import Prelude Timbre ReducerOutput.
Import Timbre ReducerOutput.

Module TimbreStructs.

#[local] Open Scope fields_scope.

(** ** Signed integers and characters *)

(** A signed integer of [n] bytes, in two's complement. *)
Record SInt (n : nat) : Type := mkSInt { sint_value : Z }.
Arguments mkSInt {n} _.
Arguments sint_value {n} _.

#[export] Instance SInt_encode n : Encode (SInt n) := λ x, be_bytes n (sint_value x).
#[export] Instance SInt_decode n : Decode (SInt n) := λ bytes,
  match split_at n bytes with
  | Some (b, rest) =>
      let u := of_be_bytes b in
      Ok (mkSInt (if u <? 2 ^ (8 * Z.of_nat n - 1) then u else u - 256 ^ Z.of_nat n), rest)
  | None => Err MalformedInput
  end.

#[export, refine] Instance SInt_lawful n : Lawful (SInt (S n)) :=
  {| valid x := - 2 ^ (8 * Z.of_nat (S n) - 1) ≤ sint_value x < 2 ^ (8 * Z.of_nat (S n) - 1) |}.
Proof.
  intros [x] rest Hx. cbn [sint_value] in Hx. unfold encode, decode, SInt_encode, SInt_decode.
  rewrite split_at_app' by apply length_be_bytes. cbn [sint_value]. rewrite of_be_be_bytes.
  set (p := 2 ^ (8 * Z.of_nat (S n) - 1)) in *.
  assert (Hp : 256 ^ Z.of_nat (S n) = 2 * p).
  { unfold p. change 256 with (2 ^ 8). rewrite <- Z.pow_mul_r by lia. rewrite <- Z.pow_succ_r by lia. f_equal. lia. }
  assert (0 < p) by (apply Z.pow_pos_nonneg; lia). rewrite Hp. do 3 f_equal.
  destruct (Z.lt_ge_cases x 0) as [Hneg|Hpos].
  - replace (x mod (2 * p)) with (x + 2 * p) by (symmetry; rewrite <- (Z.mod_add x 1) by lia; rewrite Z.mul_1_l; apply Z.mod_small; lia).
    rewrite (proj2 (Z.ltb_ge _ _)) by lia. lia.
  - rewrite Z.mod_small by lia. by rewrite (proj2 (Z.ltb_lt _ _)) by lia.
Defined.

(** A character is written as its lowest byte. *)
Record RChar : Type := mkRChar { char_code : Z }.

#[export] Instance RChar_encode : Encode RChar := λ c, [wrap 8 (char_code c)].
#[export] Instance RChar_decode : Decode RChar := λ bytes,
  match bytes with b :: rest => Ok (mkRChar b, rest) | [] => Err MalformedInput end.

#[export, refine] Instance RChar_lawful : Lawful RChar := {| valid c := in_range 8 (char_code c) |}.
Proof. intros [c] rest Hc. unfold encode, decode, RChar_encode, RChar_decode. cbn in *. by rewrite wrap_small. Defined.

(** ** Keys, values and cursors *)

Definition HeightByBlockHash_Key : Type := Hash32.
Definition HeightByBlockHash_Value : Type := VarUInt.
Definition TxFirstSeenTimestamp_Key : Type := Hash32.
Definition TxFirstSeenTimestamp_Value : Type := VarUInt.
Definition BlockByTxHash_Key : Type := Hash32.
Definition BlockByTxHash_Value : Type := VarUInt &: VarUInt.
Definition SatsPerVbByBlock_Key : Type := u64.
Definition SatsPerVbByBlock_Value : Type := u64 &: u64 &: u64.
Definition SpendingTxByTxo_Key : Type := Hash32 &: VarUInt.
Definition SpendingTxByTxo_Value : Type := VarUInt &: VarUInt.
Definition TxsByBlock_Key : Type := VarUInt &: VarUInt.
Definition TxsByBlock_Value : Type := Hash32.
Definition TxsByBlock_Cursor : Type := VarUInt.

Abbreviation Moved := (Hash20 * VarUInt * VarUInt)%type.
Definition InscriptionActivityByBlock_Key : Type := VarUInt.
Definition InscriptionActivityByBlock_Value : Type :=
  list (VarUInt * Hash32 * list (Ord * (option Moved * Moved))).
Definition InscriptionActivityByBlock_Cursor : Type := VarUInt.
Definition InscriptionActivityByTx_Key : Type := VarUInt &: VarUInt.
Definition InscriptionActivityByTx_Value : Type :=
  Hash32 &: TimbreVec ((Hash32 * VarUInt) * (option Moved * Moved)).
Definition InscriptionActivityByTx_Cursor : Type := VarUInt &: VarUInt.

Definition SatTxsByScriptHash_Key : Type := Hash20 &: u64 &: u32 &: Hash32.
Definition SatTxsByScriptHash_Value : Type := bool &: u64.
Definition SatTxsByScriptHash_Cursor : Type := u64 &: u32 &: Hash32.
Definition RuneTxsByScriptHash_Key : Type := Hash20 &: u64 &: u32 &: Hash32.
Definition RuneTxsByScriptHash_Value : Type :=
  option (Rid * option u128) &: option Rid &: list (Rid * u128) &: list (Rid * u128).
Definition RuneTxsByScriptHash_Cursor : Type := u64 &: u32 &: Hash32.
Definition TxsByRuneId_Key : Type := Rid &: u64 &: u32 &: Hash32.
Definition TxsByRuneId_Value : Type :=
  bool &: bool &: list (Hash20 * u128) &: list (Hash20 * u128) &: list (Hash20 * u128).
Definition TxsByRuneId_Cursor : Type := u64 &: u32 &: Hash32.
Definition RuneUtxosByScriptHash_Key : Type := Hash20 &: VarUInt &: Hash32 &: VarUInt.
Definition RuneUtxosByScriptHash_Value : Type := VarUInt &: list (VarUInt * VarUInt * VarUInt).

(** The derived instances of an enum: the index of the variant, then its fields without
    breaks. *)
Inductive RuneUtxosByScriptHash_Cursor : Type :=
| ByHeight (height : VarUInt) (utxo_hash : Hash32) (utxo_index : VarUInt)
| ByAmount (amount : VarUInt) (utxo_hash : Hash32) (utxo_index : VarUInt).

#[export] Instance RuneUtxosCursor_encode : Encode RuneUtxosByScriptHash_Cursor := λ c,
  match c with
  | ByHeight a h i => 0 :: encode a ++ encode h ++ encode i
  | ByAmount a h i => 1 :: encode a ++ encode h ++ encode i
  end.
#[export] Instance RuneUtxosCursor_decode : Decode RuneUtxosByScriptHash_Cursor := λ bytes,
  match bytes with
  | [] => Panic
  | kind :: bytes =>
      if (kind =? 0) || (kind =? 1) then
        '(a, bytes) ← decode bytes;
        '(h, bytes) ← decode bytes;
        '(i, bytes) ← decode bytes;
        Ok (if kind =? 0 then ByHeight a h i else ByAmount a h i, bytes)
      else Err MalformedInput
  end.

#[export, refine] Instance RuneUtxosCursor_lawful : Lawful RuneUtxosByScriptHash_Cursor :=
  {| valid c := match c with ByHeight a h i | ByAmount a h i => valid a ∧ valid h ∧ valid i end |}.
Proof.
  intros [a h i|a h i] rest (Ha & Hh & Hi); unfold encode at 1, decode at 1, RuneUtxosCursor_encode, RuneUtxosCursor_decode;
    cbn [app Z.eqb orb Pos.eqb]; rewrite <- !app_assoc; do 3 (rewrite decode_encode_app by done; cbn [mbind outcome_bind]); done.
Defined.

#[export] Instance Bytes_eq n : EqDecision (Bytes n).
Proof. solve_decision. Defined.
#[export] Instance VarUInt_eq : EqDecision VarUInt.
Proof. solve_decision. Defined.

(** The first two bytes of the hash of the reveal are the bucket. *)
Definition TxsByInscription_Key : Type := Bytes 2 &: VarUInt.
Definition TxsByInscription_Value : Type := IndexMap (Bytes 30 * VarUInt) (TimbreVec (VarUInt * VarUInt)).
Definition TxsByInscription_Cursor : Type := VarUInt &: VarUInt.

Definition SelfTransferredInscription : Type := Ord &: u32 &: u32 &: u32 &: u32.
Definition SentInscription : Type := Ord &: u32 &: u32 &: u32 &: u32 &: Hash20.
Definition ReceivedInscription : Type :=
  Ord &: option u32 &: option u32 &: option Hash20 &: u32 &: u32.
Definition InscriptionActivityByScriptHash_Key : Type := Hash20 &: u64 &: u32 &: Hash32.
Definition InscriptionActivityByScriptHash_Value : Type :=
  list SelfTransferredInscription &: list SentInscription &: list ReceivedInscription.
Definition InscriptionActivityByScriptHash_Cursor : Type := u64 &: u32 &: Hash32.

Abbreviation Inscribed := (TimbreVec (VarUInt * (Hash32 * VarUInt))).
Abbreviation Runes := (TimbreVec (VarUInt * VarUInt * VarUInt)).
Definition TxInfo_TxIn : Type := Hash32 &: VarUInt &: Hash20 &: VarUInt &: Inscribed &: Runes.
Definition TxInfo_TxOut : Type := Hash20 &: VarUInt &: Inscribed &: Runes.
Definition TxInfo_Key : Type := VarUInt &: VarUInt.
Definition TxInfo_Value : Type :=
  option Hash32 &: option VarUInt &: VarUInt &: VarUInt &: VarUInt &: bool &: bool &: bool
  &: TimbreVec TxInfo_TxIn &: TimbreVec TxInfo_TxOut.
Definition BlockInfo_Key : Type := VarUInt.
Definition BlockInfo_Value : Type :=
  option Hash32 &: VarUInt &: VarUInt &: option VarUInt &: VarUInt &: VarUInt &: VarUInt
  &: bool &: bool &: bool &: TimbreVec u8.

(** ** Sizes *)

(** Encodings of one size, and encodings of at most a size that depends on the value. *)
Class Fixed (A : Type) `{Lawful A} (n : nat) : Prop := fixed_spec a : valid a → length (encode a) = n.
Class Sized (A : Type) `{Lawful A} : Type := {
  size_of : A → nat;
  size_spec a : valid a → (length (encode a) ≤ size_of a)%nat;
}.

#[export] Instance UInt_fixed n : Fixed (UInt n) n.
Proof. intros a _. apply length_be_bytes. Qed.
#[export] Instance bool_fixed : Fixed bool 1.
Proof. by intros []. Qed.
#[export] Instance Bytes_fixed n : Fixed (Bytes n) n.
Proof. by intros a Ha. Qed.
#[export] Instance prod_fixed `{Fixed A n, Fixed B m} : Fixed (A * B) (n + m).
Proof. intros [a b] [Ha Hb]. unfold encode, prod_encode. rewrite length_app. f_equal; by apply fixed_spec. Qed.
#[export] Instance Fields_fixed `{Fixed A n, Fixed B m} : Fixed (A &: B) (n + (1 + m)).
Proof.
  intros [a b] [Ha Hb]. cbn [first_fields last_fields] in *.
  unfold encode, Fields_encode, append_with_break, append, break_, push, enc. cbn [first_fields last_fields app].
  rewrite !length_app, (fixed_spec a Ha), (fixed_spec b Hb). cbn. lia.
Qed.

(** Encodings of at most a size. *)
Class Bounded (A : Type) `{Lawful A} (n : nat) : Prop := bounded_spec a : valid a → (length (encode a) ≤ n)%nat.

#[export] Instance UInt_bounded n : Bounded (UInt n) n.
Proof. intros a Ha. by rewrite (fixed_spec a Ha). Qed.
#[export] Instance bool_bounded : Bounded bool 1.
Proof. by intros []. Qed.
#[export] Instance Bytes_bounded n : Bounded (Bytes n) n.
Proof. intros a Ha. by rewrite (fixed_spec a Ha). Qed.
#[export] Instance VarUInt_bounded : Bounded VarUInt 17.
Proof.
  intros a Ha. destruct (VarUInt_encode_spec a Ha) as (n & -> & Hn & _). cbn [length]. rewrite length_be_bytes. lia.
Qed.
#[export] Instance option_bounded `{Bounded A n} : Bounded (option A) (1 + n).
Proof.
  intros [a|] Ha; [|change (1 ≤ 1 + n)%nat; lia]. change (S (length (encode a)) ≤ 1 + n)%nat.
  pose proof (bounded_spec a Ha). lia.
Qed.
#[export] Instance prod_bounded `{Bounded A n, Bounded B m} : Bounded (A * B) (n + m).
Proof.
  intros [a b] [Ha Hb]. unfold encode at 1, prod_encode. rewrite length_app. cbn [fst snd] in *.
  pose proof (bounded_spec a Ha). pose proof (bounded_spec b Hb). lia.
Qed.
#[export] Instance Fields_bounded `{Bounded A n, Bounded B m} : Bounded (A &: B) (n + (1 + m)).
Proof.
  intros [a b] [Ha Hb]. cbn [first_fields last_fields] in *.
  unfold encode at 1, Fields_encode, append_with_break, append, break_, push, enc. cbn [first_fields last_fields app].
  rewrite !length_app. pose proof (bounded_spec a Ha). pose proof (bounded_spec b Hb). cbn [length]. lia.
Qed.

#[export, refine] Instance bounded_sized `{Bounded A n} : Sized A | 0 := {| size_of _ := n |}.
Proof. exact bounded_spec. Defined.
#[export, refine] Instance prod_sized `{Sized A, Sized B} : Sized (A * B) | 10 :=
  {| size_of p := (size_of p.1 + size_of p.2)%nat |}.
Proof.
  intros [a b] [Ha Hb]. unfold encode at 1, prod_encode. rewrite length_app. cbn [fst snd] in *.
  pose proof (size_spec a Ha). pose proof (size_spec b Hb). lia.
Defined.

Definition sum_sizes `{Sized A} (l : list A) : nat := sum_list_with size_of l.

Lemma length_items `{Sized A} (l : list A) : Forall valid l → (length (concat (map encode l)) ≤ sum_sizes l)%nat.
Proof.
  unfold sum_sizes. induction 1 as [|a l Ha _ IH]; [done|]. cbn. rewrite length_app. pose proof (size_spec a Ha). lia.
Qed.

#[export, refine] Instance list_sized `{Sized A} : Sized (list A) := {| size_of l := (4 + sum_sizes l)%nat |}.
Proof.
  intros l [Hl _]. unfold encode at 1, list_encode. rewrite length_app. pose proof (length_items l Hl).
  unfold encode at 1, UInt_encode. rewrite length_be_bytes. lia.
Defined.
(** A length of 64 bits takes nine bytes at most. *)
Lemma length_prefix n : Z.of_nat n < 2 ^ 64 → (length (encode (mkVarUInt (Z.of_nat n))) ≤ 9)%nat.
Proof.
  intros Hn. destruct (VarUInt_encode_spec (mkVarUInt (Z.of_nat n))) as (k & -> & _ & _ & Hk); [cbn [var_value]; lia|].
  cbn [length var_value] in *. rewrite length_be_bytes. destruct (Nat.le_gt_cases k 8) as [|Hgt]; [lia|]. exfalso.
  specialize (Hk ltac:(lia)). assert (256 ^ 8 ≤ 256 ^ (Z.of_nat k - 1)) by (apply Z.pow_le_mono_r; lia). lia.
Qed.

#[export, refine] Instance TimbreVec_sized `{Sized A} : Sized (TimbreVec A) := {| size_of l := (9 + sum_sizes (vec_of l))%nat |}.
Proof.
  intros l [Hl Hn]. unfold encode at 1, TimbreVec_encode. rewrite length_app. pose proof (length_items _ Hl).
  pose proof (length_prefix _ Hn). lia.
Defined.
#[export, refine] Instance IndexMap_sized `{EqDecision K, Sized K, Sized V} : Sized (IndexMap K V) :=
  {| size_of m := (8 + sum_sizes (entries_of m))%nat |}.
Proof.
  intros l (Hl & _ & Hn). unfold encode at 1, IndexMap_encode. rewrite length_app. pose proof (length_items _ Hl).
  change (map (λ e, encode e.1 ++ encode e.2) (entries_of l)) with (map (encode (A := K * V)) (entries_of l)).
  unfold encode at 1, UInt_encode. rewrite length_be_bytes. lia.
Defined.
#[export, refine] Instance Fields_sized `{Sized A, Sized B} : Sized (A &: B) | 10 :=
  {| size_of f := (size_of (first_fields f) + (1 + size_of (last_fields f)))%nat |}.
Proof.
  intros [a b] [Ha Hb]. cbn [first_fields last_fields] in *.
  unfold encode, Fields_encode, append_with_break, append, break_, push, enc. cbn [first_fields last_fields app].
  rewrite !length_app. pose proof (size_spec a Ha). pose proof (size_spec b Hb). cbn. lia.
Defined.

(** Encodings whose size is a function of the value. *)
Class Exact (A : Type) `{Lawful A} : Type := {
  exact_size : A → nat;
  exact_spec a : valid a → length (encode a) = exact_size a;
}.

#[export, refine] Instance fixed_exact `{Fixed A n} : Exact A | 0 := {| exact_size _ := n |}.
Proof. exact fixed_spec. Defined.
#[export, refine] Instance Short_exact : Exact ShortByteString := {| exact_size s := (1 + length (short_of s))%nat |}.
Proof. by intros [s] _. Defined.

Lemma length_fixed_items `{Fixed A n} (l : list A) :
  Forall valid l → length (concat (map encode l)) = (length l * n)%nat.
Proof.
  induction 1 as [|a l Ha _ IH]; [done|]. cbn [map concat length]. by rewrite length_app, (fixed_spec a Ha), IH.
Qed.

#[export, refine] Instance list_exact `{Fixed A n} : Exact (list A) := {| exact_size l := (4 + length l * n)%nat |}.
Proof.
  intros l [Hl _]. unfold encode at 1, list_encode. rewrite length_app, length_fixed_items by done.
  unfold encode at 1, UInt_encode. by rewrite length_be_bytes.
Defined.
#[export, refine] Instance IndexMap_exact `{EqDecision K, Fixed K n, Fixed V m} : Exact (IndexMap K V) :=
  {| exact_size l := (8 + length (entries_of l) * (n + m))%nat |}.
Proof.
  intros l (Hl & _ & _). unfold encode at 1, IndexMap_encode. rewrite length_app.
  change (map (λ e, encode e.1 ++ encode e.2) (entries_of l)) with (map (encode (A := K * V)) (entries_of l)).
  rewrite length_fixed_items by done. unfold encode at 1, UInt_encode. by rewrite length_be_bytes.
Defined.
#[export, refine] Instance Fields_exact `{Exact A, Exact B} : Exact (A &: B) | 10 :=
  {| exact_size f := (exact_size (first_fields f) + (1 + exact_size (last_fields f)))%nat |}.
Proof.
  intros [a b] [Ha Hb]. cbn [first_fields last_fields] in *.
  unfold encode, Fields_encode, append_with_break, append, break_, push, enc. cbn [first_fields last_fields app].
  rewrite !length_app, (exact_spec a Ha), (exact_spec b Hb). cbn. lia.
Defined.

#[export] Instance UtxoKey_fixed : Fixed UtxoKey 67.
Proof.
  intros [a b c d] (Ha & Hb & Hc & Hd). unfold encode at 1, UtxoKey_encode, append_with_break, append, break_, push, enc.
  cbn [uk_script_hash uk_height uk_utxo_hash uk_utxo_index app] in *. rewrite !length_app.
  by rewrite (fixed_spec a Ha), (fixed_spec b Hb), (fixed_spec c Hc), (fixed_spec d Hd).
Qed.

(** ** The documented sizes *)

Definition exactly (A : Type) `{Lawful A} (f : A → nat) : Prop := ∀ a, valid a → length (encode a) = f a.
Definition at_most (A : Type) `{Lawful A} (f : A → nat) : Prop := ∀ a, valid a → (length (encode a) ≤ f a)%nat.

Lemma sum_sizes_bounded `{Bounded A n} (l : list A) : sum_sizes l = (length l * n)%nat.
Proof. unfold sum_sizes. induction l as [|a l IH]; [done|]. cbn [sum_list_with length]. rewrite IH. cbn [size_of bounded_sized]. lia. Qed.

Lemma sum_sizes_of `{Sized A} (f : A → nat) (l : list A) :
  (∀ a, size_of a = f a) → sum_sizes l = sum_list_with f l.
Proof. intros Hf. unfold sum_sizes. induction l as [|a l IH]; [done|]. cbn [sum_list_with]. by rewrite IH, Hf. Qed.

(** Items that are at most [n] bytes each. *)
Lemma sum_sizes_le `{Sized A} (n : nat) (l : list A) :
  (∀ a, a ∈ l → size_of a ≤ n)%nat → (sum_sizes l ≤ length l * n)%nat.
Proof.
  unfold sum_sizes. induction l as [|a l IH]; intros Hl; [done|]. cbn [sum_list_with length].
  pose proof (Hl a ltac:(by left)). specialize (IH ltac:(intros b Hb; apply Hl; by right)). lia.
Qed.

(** What the comments count: the inscriptions and runes of an input and of an output, the
    inputs and outputs of a transaction, and the entries of one inscription in a block. *)
Definition in_inscriptions (v : TxInfo_TxIn) := vec_of (first_fields (last_fields (last_fields (last_fields (last_fields v))))).
Definition in_runes (v : TxInfo_TxIn) := vec_of (last_fields (last_fields (last_fields (last_fields (last_fields v))))).
Definition out_inscriptions (v : TxInfo_TxOut) := vec_of (first_fields (last_fields (last_fields v))).
Definition out_runes (v : TxInfo_TxOut) := vec_of (last_fields (last_fields (last_fields v))).
Definition tx_lists (v : TxInfo_Value) :=
  last_fields (last_fields (last_fields (last_fields (last_fields (last_fields (last_fields (last_fields v))))))).
Definition tx_inputs (v : TxInfo_Value) : list TxInfo_TxIn := vec_of (first_fields (tx_lists v)).
Definition tx_outputs (v : TxInfo_Value) : list TxInfo_TxOut := vec_of (last_fields (tx_lists v)).

Definition few_in (v : TxInfo_TxIn) : Prop := (length (in_inscriptions v) ≤ 1 ∧ length (in_runes v) ≤ 1)%nat.
Definition few_out (v : TxInfo_TxOut) : Prop := (length (out_inscriptions v) ≤ 1 ∧ length (out_runes v) ≤ 1)%nat.

Ltac solve_exact :=
  let a := fresh "a" in let Ha := fresh "Ha" in
  intros a Ha; etrans; [exact (exact_spec a Ha)|];
  cbn [exact_size fixed_exact Short_exact list_exact IndexMap_exact Fields_exact]; lia.
Ltac solve_fixed :=
  let a := fresh in let Ha := fresh in let E := fresh in intros a Ha; pose proof (fixed_spec a Ha) as E; exact E.
Ltac solve_bounded :=
  let a := fresh in let Ha := fresh in let E := fresh in intros a Ha; pose proof (bounded_spec a Ha) as E; exact E.
Ltac solve_size :=
  let a := fresh "a" in let Ha := fresh "Ha" in
  intros a Ha; etrans; [exact (size_spec a Ha)|];
  cbn [size_of bounded_sized list_sized TimbreVec_sized IndexMap_sized Fields_sized]; rewrite ?sum_sizes_bounded; lia.

(** An input and an output, in terms of their inscriptions and runes. *)
Lemma size_in (v : TxInfo_TxIn) :
  size_of v = (109 + length (in_inscriptions v) * 66 + length (in_runes v) * 51)%nat.
Proof.
  destruct v as [a [b [c [d [e f]]]]]. unfold in_inscriptions, in_runes.
  cbn [size_of bounded_sized TimbreVec_sized Fields_sized first_fields last_fields]. rewrite !sum_sizes_bounded. lia.
Qed.

Lemma size_out (v : TxInfo_TxOut) :
  size_of v = (58 + length (out_inscriptions v) * 66 + length (out_runes v) * 51)%nat.
Proof.
  destruct v as [a [b [c d]]]. unfold out_inscriptions, out_runes.
  cbn [size_of bounded_sized TimbreVec_sized Fields_sized first_fields last_fields]. rewrite !sum_sizes_bounded. lia.
Qed.

Lemma tx_info_size (v : TxInfo_Value) :
  Forall few_in (tx_inputs v) → Forall few_out (tx_outputs v) → valid v →
  (length (encode v) ≤ 111 + (17 + length (tx_inputs v) * 242) + 1 + (17 + length (tx_outputs v) * 209))%nat.
Proof.
  rewrite !Forall_forall. intros Hin Hout Hv. etrans; [exact (size_spec v Hv)|]. clear Hv.
  destruct v as [a [b [c [d [e [f [g [h [i o]]]]]]]]]. unfold tx_inputs, tx_outputs, tx_lists in *.
  cbn [size_of bounded_sized TimbreVec_sized Fields_sized first_fields last_fields] in *.
  assert (sum_sizes (vec_of i) ≤ length (vec_of i) * 242)%nat.
  { apply sum_sizes_le. intros x [H1 H2]%Hin. rewrite size_in. lia. }
  assert (sum_sizes (vec_of o) ≤ length (vec_of o) * 209)%nat.
  { apply sum_sizes_le. intros x [H1 H2]%Hout. rewrite size_out. lia. }
  lia.
Qed.

(** The entries of an inscription in a block, when there is one for each inscription. *)
Lemma activity_size (v : TxsByInscription_Value) :
  entries_of v ≠ [] → Forall (λ e, length (vec_of e.2) ≤ 1)%nat (entries_of v) → valid v →
  (length (encode v) ≤ length (entries_of v) * 106)%nat.
Proof.
  rewrite Forall_forall. intros Hne Hone Hv. etrans; [exact (size_spec v Hv)|]. cbn [size_of IndexMap_sized].
  assert (sum_sizes (entries_of v) ≤ length (entries_of v) * 90)%nat.
  { apply sum_sizes_le. intros [k l] Hl%Hone. cbn [snd] in Hl.
    cbn [size_of prod_sized bounded_sized TimbreVec_sized fst snd]. rewrite sum_sizes_bounded. lia. }
  destruct (entries_of v); [done|]. cbn [length] in *. lia.
Qed.

(** C37: the sizes that the comments of the structs of the storage format give.
    - A size given as such is the size: the keys and values of one size have it, and the
      others have it in terms of the lengths that the comment names (a ticker of four or
      five bytes makes a key of 5 or 6, 26 or 27, and 63 or 64 bytes).
    - A size given as a maximum is not exceeded, for every value and in terms of the
      numbers of items that the comment names.
    - Three comments count one inscription and one rune in each input and output (242,
      209, and the size of a whole transaction) and one counts one entry for each
      inscription of a block (106 each, for at least one): those sizes are not exceeded
      under that condition.  Without it they can be, as [crowded_input] shows of 242 and
      [busy_inscription] of 106.
    Sizes that a comment only expects are not considered. *)
Theorem documented_sizes :
  (Fixed HeightByBlockHash_Key 32 ∧ Fixed TxFirstSeenTimestamp_Key 32 ∧ Fixed BlockByTxHash_Key 32
   ∧ Fixed ContentByInscriptionId_Key 36 ∧ Fixed EtchingByRuneId_Key 12 ∧ Fixed MintsByRuneId_Key 12
   ∧ Fixed RuneIdByRuneName_Key 16 ∧ Fixed RuneIdByRuneName_Value 12 ∧ Fixed RuneBalancesByScriptHash_Key 33
   ∧ Fixed SatBalanceByScriptHash_Key 20 ∧ Fixed ScriptByScriptHash_Key 20
   ∧ Fixed ScriptHashByAddressPayloadHash_Key 20 ∧ Fixed ScriptHashByAddressPayloadHash_Value 20
   ∧ Fixed Brc20TermsByTicker_Value 74 ∧ Fixed InscriptionsByScriptHash_Key 57
   ∧ Fixed InscriptionsByScriptHash_Value 51 ∧ Fixed UtxoRef_Key 37 ∧ Fixed TransferInscriptionsByScriptHash_Value 77
   ∧ Fixed TxsByScriptHash_Key 65 ∧ Fixed TxsByScriptHash_Value 3 ∧ Fixed UtxosByRuneId_Key 59
   ∧ Fixed UtxosByRuneId_Value 46 ∧ Fixed UtxoKey 67 ∧ Fixed UtxosByScriptHash_Value 8 ∧ Fixed SatsPerVbByBlock_Key 8
   ∧ Fixed SatsPerVbByBlock_Value 26 ∧ Fixed TxsByBlock_Value 32 ∧ Fixed SatTxsByScriptHash_Key 67
   ∧ Fixed SatTxsByScriptHash_Value 10 ∧ Fixed RuneTxsByScriptHash_Key 67 ∧ Fixed TxsByRuneId_Key 59
   ∧ Fixed InscriptionActivityByScriptHash_Key 67 ∧ Fixed SelfTransferredInscription 56 ∧ Fixed SentInscription 77)
  ∧ (exactly Brc20TermsByTicker_Key (λ k, 1 + length (short_of k))
   ∧ exactly BalancesByBrc20_Key (λ k, 22 + length (short_of (first_fields k)))
   ∧ exactly Brc20BalancesByScriptHash_Key (λ k, 22 + length (short_of (last_fields k)))
   ∧ exactly TransferInscriptionsByScriptHash_Key (λ k, 59 + length (short_of (first_fields (last_fields k))))
   ∧ exactly ScriptByScriptHash_Value (λ v, 4 + length v)
   ∧ exactly ContentByInscriptionId_Value (λ v,
       27 + length (first_fields (last_fields (last_fields v))) + length (last_fields (last_fields (last_fields v))))
   ∧ exactly InscriptionsByUtxo_Value (λ v, 4 + length v * 40)
   ∧ exactly RunesByUtxo_Value (λ v, 8 + length (entries_of v) * 28))%nat
  ∧ (at_most EtchingByRuneId_Value (λ _, 163) ∧ at_most InscriptionUtxosByScriptHash_Key (λ _, 89)
   ∧ at_most BalancesByRuneId_Key (λ _, 55) ∧ at_most HeightByBlockHash_Value (λ _, 17)
   ∧ at_most TxFirstSeenTimestamp_Value (λ _, 17) ∧ at_most InscriptionActivityByBlock_Key (λ _, 17)
   ∧ at_most InscriptionActivityByTx_Key (λ _, 35) ∧ at_most BlockInfo_Key (λ _, 17)
   ∧ at_most BlockByTxHash_Value (λ _, 35) ∧ at_most SpendingTxByTxo_Key (λ _, 50)
   ∧ at_most SpendingTxByTxo_Value (λ _, 35)
   ∧ at_most TxsByBlock_Key (λ _, 35) ∧ at_most RuneUtxosByScriptHash_Key (λ _, 89)
   ∧ at_most TxsByInscription_Key (λ _, 20) ∧ at_most TxInfo_Key (λ _, 35) ∧ at_most ReceivedInscription (λ _, 80))%nat
  ∧ (at_most InscriptionUtxosByScriptHash_Value (λ v, 35 + length (vec_of (last_fields v)) * 66)
   ∧ at_most RuneUtxosByScriptHash_Value (λ v, 22 + length (last_fields v) * 51)
   ∧ at_most InscriptionActivityByBlock_Value (λ v, 4 + sum_list_with (λ tx, 53 + length tx.2 * 145) v)
   ∧ at_most InscriptionActivityByTx_Value (λ v, 50 + length (vec_of (last_fields v)) * 158)
   ∧ at_most RuneTxsByScriptHash_Value (λ v,
       let increased := first_fields (last_fields (last_fields v)) in
       let decreased := last_fields (last_fields (last_fields v)) in
       30 + 1 + 13 + 1 + (4 + length increased * 28) + 1 + (4 + length decreased * 28))
   ∧ at_most TxsByRuneId_Value (λ v,
       let lists := last_fields (last_fields v) in
       4 + (4 + length (first_fields lists) * 36) + 1 + (4 + length (first_fields (last_fields lists)) * 36)
       + 1 + (4 + length (last_fields (last_fields lists)) * 36))
   ∧ at_most InscriptionActivityByScriptHash_Value (λ v,
       (4 + length (first_fields v) * 56) + 1 + (4 + length (first_fields (last_fields v)) * 77) + 1
       + (4 + length (last_fields (last_fields v)) * 80))
   ∧ at_most BlockInfo_Value (λ v,
       164 + length (vec_of (last_fields (last_fields (last_fields (last_fields (last_fields (last_fields
         (last_fields (last_fields (last_fields (last_fields v)))))))))))))%nat
  ∧ ((∀ v : TxInfo_TxIn, valid v → few_in v → length (encode v) ≤ 242)
   ∧ (∀ v : TxInfo_TxOut, valid v → few_out v → length (encode v) ≤ 209)
   ∧ (∀ v : TxInfo_Value, valid v → Forall few_in (tx_inputs v) → Forall few_out (tx_outputs v) →
        length (encode v) ≤ 111 + (17 + length (tx_inputs v) * 242) + 1 + (17 + length (tx_outputs v) * 209))
   ∧ (∀ v : TxsByInscription_Value, valid v → entries_of v ≠ [] →
        Forall (λ e, length (vec_of e.2) ≤ 1) (entries_of v) →
        length (encode v) ≤ length (entries_of v) * 106))%nat.
Proof.
  split; [|split; [|split; [|split]]].
  - repeat match goal with |- _ ∧ _ => split end; solve_fixed.
  - repeat match goal with |- _ ∧ _ => split end; solve_exact.
  - repeat match goal with |- _ ∧ _ => split end; solve_bounded.
  - repeat match goal with |- _ ∧ _ => split end; try solve_size.
    intros a Ha. etrans; [exact (size_spec a Ha)|]. cbn [size_of list_sized].
    rewrite (sum_sizes_of (λ tx, 53 + length tx.2 * 145)%nat); [done|]. intros [[i h] l].
    cbn [size_of prod_sized bounded_sized list_sized fst snd]. rewrite sum_sizes_bounded. lia.
  - split_and!.
    + intros v Hv [H1 H2]. pose proof (size_spec v Hv). rewrite size_in in *. lia.
    + intros v Hv [H1 H2]. pose proof (size_spec v Hv). rewrite size_out in *. lia.
    + intros v Hv Hin Hout. by apply tx_info_size.
    + intros v Hv Hne Hone. by apply activity_size.
Qed.

(** The comment gives 242 bytes for every input; with five inscriptions it is longer. *)
Definition crowded_input : TxInfo_TxIn :=
  let i : VarUInt * (Hash32 * VarUInt) := (mkVarUInt (2 ^ 31), (mkBytes (replicate 32 7), mkVarUInt (2 ^ 31))) in
  mkBytes (replicate 32 1) &: mkVarUInt (2 ^ 31) &: mkBytes (replicate 20 2) &: mkVarUInt (2 ^ 62)
  &: mkTimbreVec [i; i; i; i; i] &: mkTimbreVec [].

Example crowded_input_exceeds : (242 < length (encode crowded_input))%nat.
Proof. apply Nat.ltb_lt. by vm_compute. Qed.

(** The comment gives 106 bytes for each inscription; with twelve entries in the block one takes more. *)
Definition busy_inscription : TxsByInscription_Value :=
  mkIndexMap [((mkBytes (replicate 30 1), mkVarUInt 0), mkTimbreVec (replicate 12 (mkVarUInt 2000, mkVarUInt 2000)))].

Example busy_inscription_exceeds : (106 * length (entries_of busy_inscription) < length (encode busy_inscription))%nat.
Proof. apply Nat.ltb_lt. by vm_compute. Qed.

Lemma documented_sizes_witness :
  let v : EtchingByRuneId_Value :=
    mkBytes (replicate 32 1) &: Some (mkUInt 5) &: None &: None &: None &: None &: None &: None &: None &: None &: None &: None
    &: true &: false in
  valid v ∧ (length (encode v) ≤ 163)%nat.
Proof.
  assert (H : at_most EtchingByRuneId_Value (λ _, 163%nat)) by (apply documented_sizes). split; [|apply H]; cbn; lia.
Defined.

End TimbreStructs.
